(* ===== verification/_CoqProject ===== *)
-Q . S2P
Prelude.v
Bytes.v
Maps.v
Vfs.v
Layout.v
Disk.v
Bitmap.v
Superblock.v
Inode.v
Perm.v
Metrics.v
Alloc.v
Cache.v
Icache.v
Extent.v
Journal.v
Recovery.v
Dir.v
Mkfs.v
Fs.v
Namei.v
Ops.v
Quiet.v
Still.v
Mutation.v
Progress.v
Fsck.v
Walk.v
FileBytes.v
ReadWrite.v
Shutdown.v
Names.v
Links.v
Xattr.v
Text.v
Shell.v
Base64.v
Api.v
Inspect.v
Server.v
Routes.v
