(* ===== verification/Prelude.v ===== *)
(** * The fs-engine file system, verified

    fs-engine is a Unix-like file system in Go: an image of blocks of 4096
    bytes kept in memory and synchronised with a backing file, a journal that
    makes the changes of an operation one transaction, bitmaps, inodes with
    block maps of three levels, directories, path resolution with symbolic
    links and permissions, two write-back caches, a shell and an HTTP API.
    This development is a shallow embedding of it: every operation is a
    function that can be run, with the guards, early returns and order of
    effects of the Go function of the same name.

    ** Effects

    [M S A] is a computation on a state [S] that ends in [Ok a], in [Err e]
    for a Go error, or in [Panic]; the state is kept in every case, because Go
    code that fails keeps what it has changed.  Objects that Go components
    share through pointers (the device, the superblock, the metrics) occur
    once in the state, and a component runs on its part of it ([zoom],
    [onDev], [onFsBuf], ...).  Integers are [Z] with their wrap-around written
    out, buffers and strings are lists of bytes.  The clock, random bytes, the
    order in which Go visits a map ([MapOrder]) and the failures of the device
    are arguments, and the theorems hold for all of them.

    ** The parts, from the device up (paths are below [src/])

    - [Prelude], [Bytes], [Maps]: the monad, its laws and automation ([total],
      [keeps]); [encoding/binary]; maps of Go.  [Layout]: [internal/fs/layout.go].
    - [Disk]: [internal/disk/device.go].  [ReadBlock], [WriteBlock], [Sync],
      [ChangedBlocks], [RestoreBlocks]; [crash] is what is left in the file.
    - [Bitmap], [Superblock], [Inode], [Alloc], [Extent], [Dir], [Mkfs]: the
      files of these names in [internal/fs].
    - [Journal], [Recovery]: [internal/journal].  [Commit] and [Recover] are in
      the first; what they promise together is in the second.
    - [Cache], [Icache]: [internal/cache].  The buffer cache and the inode cache.
    - [Metrics], [Vfs], [Perm]: [internal/metrics], [internal/vfs],
      [internal/ops/perm.go].
    - [Fs]: [internal/fs/fs.go], the object that ties these together: [Mount],
      [Unmount], [RunMutation], the crash simulation.  [Quiet] shows that
      operations do not touch the backing file, [Still] that reading code
      depends on the device alone, [Mutation] what [RunMutation] promises and
      [Progress] that it returns, [Shutdown] what is found after [Unmount];
      [Fsck] is the consistency check [FsckFull].
    - [Namei], [Ops]: the operations of [internal/ops].  [Walk] gives path
      resolution a meaning, [FileBytes] and [ReadWrite] the content of files,
      [Names] and [Links] what [Create] and [Link] do to a file system.
    - [Xattr]: [internal/ops/xattr_ops.go].  [Text], [Shell]: [internal/shell]
      with its 26 commands.  [Base64], [Api], [Inspect], [Server], [Routes]: the
      handlers, the event bus, the routes and the middleware of [api], and the
      life of the process in [cmd/server/main.go].

    ** What the theorems show

    - Durability.  [Sync] makes the file equal to the image or leaves a torn
      mixture ([Disk.Sync_durable]); [Commit] followed by a crash and recovery
      is all or nothing under every failure ([Recovery.Commit_atomic]);
      recovery replays exactly what is in the journal and ends on every
      content ([Recover_replays], [Recover_terminates]); every operation run
      by [RunMutation] is all or nothing ([Mutation.RunMutation_atomic]) and a
      failed one is rolled back ([RunMutation_rollback]); a write that returns
      is found after a crash ([ReadWrite.Write_durable]).  On a device that works
      a mutation returns what its body does ([Progress.RunMutation_returns]);
      [Unmount] saves what the caches hold ([Shutdown.Unmount_saves]).
    - Files, directories and paths.  [Read] and [Write] are those of an array
      of bytes ([ReadWrite.Read_correct], [Write_correct], [Write_then_Read]);
      a directory is a map of names ([Dir]); a block map changes at the block
      asked for only ([Extent]); [resolve] is the relation [Walk.walk].  [Create] and [Link] add a name and
      change nothing else ([Names.Create_correct], [Links.Link_correct]), and
      the name is found afterwards ([Names.Create_then_Resolve]).
    - Resources.  A bitmap is a set ([Bitmap]), the counters of the superblock
      are exact after every outcome, allocation hands out free data blocks only
      and frees exactly those of an inode ([Alloc]); [FsckFull] is clean exactly
      on a consistent image ([Fsck]).
    - Encodings.  Superblock, inode and bitmaps survive the disk; parsing a
      directory stays in bounds on every content.
    - Caches and tables.  Both caches are transparent within stated limits; the
      table of open files is a map with aliasing; the attributes are a map; the
      window of the metrics is a queue; the event bus loses nothing that fits.
    - Where the code does not do what it means to, a theorem shows it: the
      journal is not emptied ([Commit_wraparound_stale]), an update is lost at
      the capacity of the inode cache ([icache_drops_update]), a reader undoes
      a write ([reader_undoes_write]), the next [Mount] replays the journal
      over what [Unmount] has saved ([Unmount_undone]).
    - The server.  A request is answered by the handler of the one route that
      matches it, or with 404, 405 or 500 ([Routes.ServeHTTP_routes]).

    ** Bounds and fuel

    Loops of Go that are bounded by their data recurse on that data.  The
    others have a bound that is proved or counted to be enough: the scan of the
    journal and of its address blocks have one turn per block and per address
    ([recoverLoop], [readAddrs]); [evictLoop] removes an entry or stops in
    every turn; [resolveFrom] recurses [maxSymlinkDepth + 1] times, the bound
    of the code; [readLoop] and [writeLoop] have a turn per byte and need one
    per block; [FsckFull] with 2^32 turns always ends, since an inode number is
    visited once.  [GetCwd] and the shell commands that descend a tree have no
    bound in the code either; they answer [None] when [fuel] is too small.
    Files are proved up to [maxBytes], what a block map holds, and offsets up
    to 2^44, where the code's 32-bit block number wraps.

    ** Not modelled

    Locks and goroutines: operations run one after the other, and the flusher
    and the metrics ticker are operations among them.  What the router matches,
    the handshake of WebSockets and the decoding of JSON are arguments
    of [Routes].  Headers other than those of CORS, compression,
    sockets; flags, signals and the listener of the server process; the
    rendering of values as JSON; the interfaces of [internal/vfs/types.go],
    which nothing implements. *)

From Stdlib Require Export ZArith Lia.
From stdpp Require Export base numbers list strings gmap.
From Stdlib Require Export ssreflect.

#[export] Set Warnings "-rewrite-rw".
#[export] Set Default Proof Using "Type*".
#[export] Set Default Goal Selector "!".

Global Open Scope general_if_scope.
Global Open Scope Z_scope.

(** ** Errors

    [internal/fs/layout.go] declares the sentinel errors as package variables.
    [Errorf fmt args] is the value of a [fmt.Errorf] that wraps nothing: its
    format string and its integer operands; [Wrapf fmt args e] wraps [e] by
    the verb [%w]. *)
Inductive error : Type :=
  | ErrNotFound | ErrNotDir | ErrIsDir | ErrPermission | ErrExists
  | ErrNotEmpty | ErrLoop | ErrNameTooLong | ErrNoSpace | ErrInvalidArg
  | ErrIO | ErrTooBig | ErrReadOnly | ErrBadFS | ErrCrossDevice
  | ErrTooManyOpen | ErrNotSupported
  | Errorf (fmt : string) (args : list Z)
  | Wrapf (fmt : string) (args : list Z) (cause : error).

(** [errors.Is]: the error itself or one it wraps. *)
Fixpoint Is (target e : error) {struct e} : Prop :=
  e = target \/
  match e with
  | Wrapf _ _ c => Is target c
  | _ => False
  end.

(** ** Results and the state monad

    A Go call returns a value or an error, or panics.  The state is kept in
    every case: an error return does not undo the writes made before it. *)
Inductive result (A : Type) : Type :=
  | Ok (a : A)
  | Err (e : error)
  | Panic.
Arguments Ok {A} a.
Arguments Err {A} e.
Arguments Panic {A}.

Definition M (S A : Type) : Type := S -> result A * S.

#[export] Instance M_ret (S : Type) : MRet (M S) := fun A a s => (Ok a, s).
#[export] Instance M_bind (S : Type) : MBind (M S) := fun A B f m s =>
  match m s with
  | (Ok a, s') => f a s'
  | (Err e, s') => (Err e, s')
  | (Panic, s') => (Panic, s')
  end.

Section monad.
Context {S T A B : Type}.

Definition throw (e : error) : M S A := fun s => (Err e, s).
Definition panic : M S A := fun s => (Panic, s).
Definition gets (f : S -> A) : M S A := fun s => (Ok (f s), s).
Definition modify (f : S -> S) : M S unit := fun s => (Ok tt, f s).

(** The result of a pure function, inside the monad. *)
Definition liftResult (r : result A) : M S A := fun s => (r, s).

(** [if b { return e }] *)
Definition failIf (b : bool) (e : error) : M S unit := fun s =>
  if b then (Err e, s) else (Ok tt, s).

(** [if cond { ... }] without an else branch. *)
Definition whenM (b : bool) (m : M S unit) : M S unit :=
  if b then m else mret tt.

(** [if err != nil { return fmt.Errorf("...: %w", err) }] *)
Definition wrapErr (fmt : string) (args : list Z) (m : M S A) : M S A := fun s =>
  match m s with
  | (Err e, s') => (Err (Wrapf fmt args e), s')
  | r => r
  end.

(** The caller looks at the error itself; a panic still unwinds. *)
Definition tryM (m : M S A) : M S (A + error) := fun s =>
  match m s with
  | (Ok a, s') => (Ok (inl a), s')
  | (Err e, s') => (Ok (inr e), s')
  | (Panic, s') => (Panic, s')
  end.

(** An error handler that runs on the error path and may change the state. *)
Definition onErr (m : M S A) (h : error -> M S A) : M S A := fun s =>
  match m s with
  | (Err e, s') => h e s'
  | r => r
  end.

(** Running a computation on a part of the state. *)
Definition zoom (get : S -> T) (set : T -> S -> S) (m : M T A) : M S A := fun s =>
  let '(r, t) := m (get s) in (r, set t s).

End monad.

(** [for _, x := range l { body x }] with early return on error. *)
Fixpoint forEach {S A : Type} (body : A -> M S unit) (l : list A) : M S unit :=
  match l with
  | [] => mret tt
  | x :: l' => body x ;; forEach body l'
  end.

(** ** Machine integers *)

Definition u8 (z : Z) : Z := z mod 2 ^ 8.
Definition u16 (z : Z) : Z := z mod 2 ^ 16.
Definition u32 (z : Z) : Z := z mod 2 ^ 32.
Definition u64 (z : Z) : Z := z mod 2 ^ 64.
Definition i64 (z : Z) : Z := (z + 2 ^ 63) mod 2 ^ 64 - 2 ^ 63.

Definition is_u8 (z : Z) : Prop := 0 <= z < 2 ^ 8.
Definition is_u16 (z : Z) : Prop := 0 <= z < 2 ^ 16.
Definition is_u32 (z : Z) : Prop := 0 <= z < 2 ^ 32.

Lemma u8_small z : 0 <= z < 2 ^ 8 -> u8 z = z.
Proof. intros; by apply Z.mod_small. Qed.
Lemma u16_small z : 0 <= z < 2 ^ 16 -> u16 z = z.
Proof. intros; by apply Z.mod_small. Qed.
Lemma u32_small z : 0 <= z < 2 ^ 32 -> u32 z = z.
Proof. intros; by apply Z.mod_small. Qed.
Lemma u64_small z : 0 <= z < 2 ^ 64 -> u64 z = z.
Proof. intros; by apply Z.mod_small. Qed.
Lemma i64_small z : - 2 ^ 63 <= z < 2 ^ 63 -> i64 z = z.
Proof. intros; rewrite /i64 Z.mod_small; lia. Qed.
Lemma u32_range z : 0 <= u32 z < 2 ^ 32.
Proof. apply Z.mod_pos_bound; lia. Qed.
Lemma u16_range z : 0 <= u16 z < 2 ^ 16.
Proof. apply Z.mod_pos_bound; lia. Qed.

(** ** Tactics *)

(** Splits boolean conditions and pairs in hypotheses. *)
Ltac simpl_bool :=
  repeat match goal with
  | H : _ && _ = true |- _ => apply andb_true_iff in H as [? ?]
  | H : _ || _ = false |- _ => apply orb_false_iff in H as [? ?]
  | H : negb _ = true |- _ => apply negb_true_iff in H
  | H : negb _ = false |- _ => apply negb_false_iff in H
  | H : (_ <? _) = true |- _ => apply Z.ltb_lt in H
  | H : (_ <? _) = false |- _ => apply Z.ltb_ge in H
  | H : (_ <=? _) = true |- _ => apply Z.leb_le in H
  | H : (_ <=? _) = false |- _ => apply Z.leb_gt in H
  | H : (_ >=? _) = _ |- _ => rewrite Z.geb_leb in H
  | H : (_ >? _) = _ |- _ => rewrite Z.gtb_ltb in H
  | H : (_ =? _) = true |- _ => apply Z.eqb_eq in H
  | H : (_ =? _) = false |- _ => apply Z.eqb_neq in H
  end.

(** Case analysis on the condition of an [if] in the goal. *)
Ltac case_if :=
  match goal with
  | |- context [if ?b then _ else _] =>
      let E := fresh "E" in destruct b eqn:E; simpl_bool
  end.

(** ** Running monadic code *)

Section run.
Context {S A B : Type}.
Implicit Types (m : M S A) (s : S).

Lemma bind_ok m (f : A -> M S B) s a s' :
  m s = (Ok a, s') -> (m ≫= f) s = f a s'.
Proof. rewrite /mbind /M_bind. by intros ->. Qed.

Lemma bind_err m (f : A -> M S B) s e s' :
  m s = (Err e, s') -> (m ≫= f) s = (Err e, s').
Proof. rewrite /mbind /M_bind. by intros ->. Qed.

Lemma bind_ok_inv m (f : A -> M S B) s b s' :
  (m ≫= f) s = (Ok b, s') -> exists a s1, m s = (Ok a, s1) /\ f a s1 = (Ok b, s').
Proof.
  rewrite /mbind /M_bind. destruct (m s) as [[a|e|] s1]; naive_solver.
Qed.

Lemma bind_assoc {C} m (f : A -> M S B) (g : B -> M S C) s :
  ((m ≫= f) ≫= g) s = (m ≫= (fun a => f a ≫= g)) s.
Proof. rewrite /mbind /M_bind. by destruct (m s) as [[a|e|] s1]. Qed.

Lemma bind_gets (h : S -> A) (f : A -> M S B) s : (gets h ≫= f) s = f (h s) s.
Proof. done. Qed.

Lemma bind_modify h (f : unit -> M S B) s : (modify h ≫= f) s = f tt (h s).
Proof. done. Qed.

Lemma bind_failIf_false b e (f : unit -> M S B) s :
  b = false -> (failIf b e ≫= f) s = f tt s.
Proof. by intros ->. Qed.

Lemma wrapErr_ok fmt args m s a s' :
  m s = (Ok a, s') -> wrapErr fmt args m s = (Ok a, s').
Proof. rewrite /wrapErr. by intros ->. Qed.

Lemma wrapErr_snd fmt args m s : (wrapErr fmt args m s).2 = (m s).2.
Proof. rewrite /wrapErr. by destruct (m s) as [[]]. Qed.

Lemma forEach_app (body : A -> M S unit) l1 l2 s :
  forEach body (l1 ++ l2) s = (forEach body l1 ;; forEach body l2) s.
Proof.
  revert s. induction l1 as [|x l1 IH]; intros s; [done|].
  rewrite /= /mbind /M_bind.
  destruct (body x s) as [[[]|e|] s1]; [|done|done]. apply IH.
Qed.

End run.

(** ** State relations kept by a computation, on every outcome

    [keeps R m]: from every state, the state [m] ends in (with a value, an
    error or a panic) is related to the first one by [R]. *)
Definition keeps {S A : Type} (R : S -> S -> Prop) (m : M S A) : Prop :=
  forall s, R s (m s).2.

(** Preservation of an invariant is the case [R s s' := I s -> I s']. *)
Definition impl_rel {S : Type} (I : S -> Prop) (s s' : S) : Prop := I s -> I s'.

#[export] Instance impl_rel_preorder {S} (I : S -> Prop) : PreOrder (impl_rel I).
Proof. split; rewrite /impl_rel; [intros ?|intros ???]; naive_solver. Qed.

Abbreviation preserves I := (keeps (impl_rel I)).

Section keeps.
Context {S : Type} (R : S -> S -> Prop) `{!PreOrder R}.

Lemma keeps_ret {A} (a : A) : keeps R (mret a).
Proof. intros s. change (R s s). reflexivity. Qed.

Lemma keeps_throw {A} e : keeps R (throw (A := A) e).
Proof. intros s. change (R s s). reflexivity. Qed.

Lemma keeps_panic {A} : keeps R (panic (A := A)).
Proof. intros s. change (R s s). reflexivity. Qed.

Lemma keeps_gets {A} (f : S -> A) : keeps R (gets f).
Proof. intros s. change (R s s). reflexivity. Qed.

Lemma keeps_liftResult {A} (r : result A) : keeps R (liftResult r).
Proof. intros s. change (R s s). reflexivity. Qed.

Lemma keeps_modify f : (forall s, R s (f s)) -> keeps R (modify f).
Proof. by intros H s. Qed.

Lemma keeps_failIf b e : keeps R (failIf b e).
Proof. intros s. rewrite /failIf. destruct b; change (R s s); reflexivity. Qed.

Lemma keeps_bind {A B} (m : M S A) (f : A -> M S B) :
  keeps R m -> (forall a, keeps R (f a)) -> keeps R (m ≫= f).
Proof.
  intros Hm Hf s. rewrite /mbind /M_bind. specialize (Hm s).
  destruct (m s) as [[a|e|] s1]; simpl in *; [|done|done].
  etrans; [exact Hm|apply Hf].
Qed.

Lemma keeps_whenM b m : (b = true -> keeps R m) -> keeps R (whenM b m).
Proof. rewrite /whenM. destruct b; [by auto|]. intros _. apply keeps_ret. Qed.

Lemma keeps_wrapErr {A} fmt args (m : M S A) : keeps R m -> keeps R (wrapErr fmt args m).
Proof. intros H s. rewrite wrapErr_snd. apply H. Qed.

Lemma keeps_tryM {A} (m : M S A) : keeps R m -> keeps R (tryM m).
Proof. intros H s. specialize (H s). rewrite /tryM. by destruct (m s) as [[]]. Qed.

Lemma keeps_onErr {A} (m : M S A) h :
  keeps R m -> (forall e, keeps R (h e)) -> keeps R (onErr m h).
Proof.
  intros H Hh s. specialize (H s). rewrite /onErr.
  destruct (m s) as [[a|e|] s1]; simpl in *; [done| |done]. etrans; [exact H|apply Hh].
Qed.

Lemma keeps_if {A} (b : bool) (m1 m2 : M S A) :
  keeps R m1 -> keeps R m2 -> keeps R (if b then m1 else m2).
Proof. by destruct b. Qed.

Lemma keeps_forEach {A} (body : A -> M S unit) l :
  (forall x, keeps R (body x)) -> keeps R (forEach body l).
Proof.
  intros H. induction l as [|x l IH]; simpl; [apply keeps_ret|].
  apply keeps_bind; auto.
Qed.

Lemma keeps_zoom {T A} (Q : T -> T -> Prop) get set (m : M T A) :
  keeps Q m -> (forall s t, Q (get s) t -> R s (set t s)) -> keeps R (zoom get set m).
Proof.
  intros Hm H s. rewrite /zoom. specialize (Hm (get s)).
  destruct (m (get s)) as [r t]; simpl in *. auto.
Qed.

End keeps.

Lemma keeps_weaken {S A} (Q R : S -> S -> Prop) (m : M S A) :
  keeps Q m -> (forall s s', Q s s' -> R s s') -> keeps R m.
Proof. intros H HQ s. apply HQ, H. Qed.

(** A computation that never panics. *)
Definition total {S A : Type} (m : M S A) : Prop := forall s, (m s).1 <> Panic.

Lemma total_bind {S A B} (m : M S A) (f : A -> M S B) :
  total m -> (forall a, total (f a)) -> total (m ≫= f).
Proof.
  intros Hm Hf s. rewrite /mbind /M_bind. specialize (Hm s).
  destruct (m s) as [[a|e|] s1]; [apply Hf|done|done].
Qed.

Lemma total_wrapErr {S A} fmt args (m : M S A) : total m -> total (wrapErr fmt args m).
Proof. intros H s. rewrite /wrapErr. specialize (H s). by destruct (m s) as [[]]. Qed.

Lemma total_failIf {S} b e : total (failIf (S := S) b e).
Proof. intros s. rewrite /failIf. by destruct b. Qed.

Lemma total_ret {S A} (a : A) : total (mret (M := M S) a).
Proof. done. Qed.

Lemma total_tryM {S A} (m : M S A) : total m -> total (tryM m).
Proof. intros H s. rewrite /tryM. specialize (H s). by destruct (m s) as [[]]. Qed.

Lemma total_onErr {S A} (m : M S A) h : total m -> (forall e, total (h e)) -> total (onErr m h).
Proof. intros H Hh s. rewrite /onErr. specialize (H s). destruct (m s) as [[]]; [done|apply Hh|done]. Qed.

Lemma total_whenM {S} b (m : M S unit) : total m -> total (whenM b m).
Proof. intros H. by destruct b. Qed.

Lemma total_zoom {S T A} get set (m : M T A) : total m -> total (S := S) (zoom get set m).
Proof. intros H s. rewrite /zoom. specialize (H (get s)). by destruct (m (get s)). Qed.

Lemma total_forEach {S A} (body : A -> M S unit) l : (forall x, total (body x)) -> total (forEach body l).
Proof. intros H. induction l; simpl; [done|]. by apply total_bind. Qed.

(** Walks through the code of a computation that never panics; the calls are
    solved by the lemmas of [total]. *)
Create HintDb total discriminated.
#[export] Hint Constants Opaque : total.
#[export] Hint Variables Opaque : total.
Ltac total_step :=
  match goal with
  | |- forall _, _ => intros
  | |- total (mbind _ _) => apply total_bind
  | |- total (onErr _ _) => apply total_onErr
  | |- total (wrapErr _ _ _) => apply total_wrapErr
  | |- total (tryM _) => apply total_tryM
  | |- total (forEach _ _) => apply total_forEach
  | |- total (whenM _ _) => apply total_whenM
  | |- total (failIf _ _) => apply total_failIf
  | |- total (gets _) => done
  | |- total (modify _) => done
  | |- total (mret _) => done
  | |- total (throw _) => done
  | |- total (match ?x with _ => _ end) => destruct x
  | |- total _ => solve [eauto with total]
  end.
Ltac total_solve := repeat total_step.


(** A run that returns a value, with what it then satisfies. *)
Definition runs {S A : Type} (m : M S A) (s : S) (Q : A -> S -> Prop) : Prop :=
  exists a s', m s = (Ok a, s') /\ Q a s'.

Section runs.
Context {S : Type}.

Lemma runs_ret {A} (a : A) s (Q : A -> S -> Prop) : Q a s -> runs (mret a) s Q.
Proof. intros H. by exists a, s. Qed.

Lemma runs_bind {A B} (m : M S A) (f : A -> M S B) s Q R :
  runs m s Q -> (forall a s1, Q a s1 -> runs (f a) s1 R) -> runs (m ≫= f) s R.
Proof.
  intros (a & s1 & E & HQ) Hf. destruct (Hf a s1 HQ) as (b & s2 & E2 & HR).
  exists b, s2. by rewrite (bind_ok _ _ _ _ _ E).
Qed.

Lemma runs_gets {A} (f : S -> A) s (Q : A -> S -> Prop) : Q (f s) s -> runs (gets f) s Q.
Proof. intros H. by exists (f s), s. Qed.

Lemma runs_modify (f : S -> S) s (Q : unit -> S -> Prop) : Q tt (f s) -> runs (modify f) s Q.
Proof. intros H. by exists tt, (f s). Qed.

Lemma runs_failIf b e s (Q : unit -> S -> Prop) : b = false -> Q tt s -> runs (failIf b e) s Q.
Proof. intros -> H. by exists tt, s. Qed.

Lemma runs_wrapErr {A} fmt args (m : M S A) s Q : runs m s Q -> runs (wrapErr fmt args m) s Q.
Proof. intros (a & s1 & E & H). exists a, s1. split; [by apply wrapErr_ok|done]. Qed.

Lemma runs_weaken {A} (m : M S A) s (Q R : A -> S -> Prop) :
  runs m s Q -> (forall a s', Q a s' -> R a s') -> runs m s R.
Proof. intros (a & s1 & E & H) HQ. exists a, s1. auto. Qed.

Lemma runs_zoom {T A} (get : S -> T) set (m : M T A) s (Q : A -> S -> Prop) :
  runs m (get s) (fun a t => Q a (set t s)) -> runs (zoom get set m) s Q.
Proof. intros (a & t & E & H). exists a, (set t s). by rewrite /zoom E. Qed.

Lemma runs_forEach {A} (I : S -> Prop) (body : A -> M S unit) l s :
  I s -> (forall x s', x ∈ l -> I s' -> runs (body x) s' (fun _ => I)) -> runs (forEach body l) s (fun _ => I).
Proof.
  revert s. induction l as [|x l IH]; intros s Hs Hb; simpl; [by apply runs_ret|].
  eapply runs_bind; [apply Hb; [left|done]|]. intros [] s1 H1. apply IH; [done|]. intros; apply Hb; [by right|done].
Qed.

End runs.

Create HintDb keeps.

(** Proves [keeps R m] by walking through the code of [m]; calls are solved
    by the hypotheses and by the hints of the components. *)
Ltac keeps_step :=
  match goal with
  | |- PreOrder _ => apply _
  | |- forall _, keeps _ _ => intros
  | |- keeps _ _ => solve [eauto 4 with keeps]
  | |- keeps _ (match ?x with _ => _ end) => destruct x eqn:?
  | |- keeps _ _ =>
      first [ apply keeps_ret | apply keeps_liftResult | apply keeps_throw | apply keeps_panic
            | apply keeps_gets | apply keeps_failIf | apply keeps_whenM
            | apply keeps_wrapErr | apply keeps_tryM | apply keeps_onErr
            | apply keeps_forEach | apply keeps_bind ]
  end.
Ltac keeps_solve := repeat keeps_step.

(** ** Lists *)

Section lists.
Context {A : Type}.
Implicit Types (l k : list A) (n m : nat).

(** Go's [l[off:off+n]]. *)
Definition slice (off n : nat) (l : list A) : list A := take n (drop off l).

(** Go's [copy(l[off:], k)] when [k] fits. *)
Definition splice (off : nat) (k l : list A) : list A :=
  take off l ++ k ++ drop (off + length k) l.

Lemma length_slice off n l : (off + n <= length l)%nat -> length (slice off n l) = n.
Proof. intros. rewrite /slice length_take length_drop. lia. Qed.

Lemma length_splice off k l :
  (off + length k <= length l)%nat -> length (splice off k l) = length l.
Proof. intros. rewrite /splice !length_app length_take length_drop. lia. Qed.

Lemma lookup_slice off n l i :
  (i < n)%nat -> slice off n l !! i = l !! (off + i)%nat.
Proof. intros. by rewrite /slice lookup_take_lt // lookup_drop. Qed.

Lemma lookup_splice_in off k l i :
  (off + length k <= length l)%nat -> (off <= i < off + length k)%nat ->
  splice off k l !! i = k !! (i - off)%nat.
Proof.
  intros. rewrite /splice lookup_app_r length_take; [lia|].
  rewrite lookup_app_l; [lia|]. f_equal. lia.
Qed.

Lemma lookup_splice_out off k l i :
  (off + length k <= length l)%nat -> (i < off \/ off + length k <= i)%nat ->
  splice off k l !! i = l !! i.
Proof.
  intros Hl [Hi|Hi]; rewrite /splice.
  - rewrite lookup_app_l ?length_take; [lia|]. apply lookup_take_lt; lia.
  - rewrite lookup_app_r length_take; [lia|]. rewrite lookup_app_r; [lia|].
    rewrite lookup_drop. f_equal. lia.
Qed.

Lemma slice_splice_same off k l :
  (off + length k <= length l)%nat -> slice off (length k) (splice off k l) = k.
Proof.
  intros. rewrite /slice /splice.
  rewrite drop_app_length' ?length_take; [lia|]. by rewrite take_app_length.
Qed.

Lemma slice_splice_disj off n o k l :
  (o + length k <= length l)%nat -> (off + n <= o \/ o + length k <= off)%nat ->
  slice off n (splice o k l) = slice off n l.
Proof.
  intros Hl Hd. apply list_eq. intros i. destruct (decide (i < n)%nat).
  - rewrite !lookup_slice //. apply lookup_splice_out; lia.
  - rewrite !lookup_ge_None_2 // /slice length_take; lia.
Qed.

Lemma splice_slice_id off n l :
  (off + n <= length l)%nat -> splice off (slice off n l) l = l.
Proof.
  intros. rewrite /splice length_slice //. rewrite /slice.
  by rewrite -drop_drop take_drop take_drop.
Qed.

Lemma slice_all l : slice 0 (length l) l = l.
Proof. rewrite /slice drop_0. by rewrite firstn_all. Qed.

Lemma slice_slice o1 n1 o2 n2 l :
  (o1 + n1 <= n2)%nat -> slice o1 n1 (slice o2 n2 l) = slice (o2 + o1) n1 l.
Proof.
  intros. apply list_eq. intros i. destruct (decide (i < n1)%nat).
  - rewrite !lookup_slice //; [lia|]. f_equal. lia.
  - rewrite !lookup_ge_None_2 // /slice length_take; lia.
Qed.

End lists.
