(* ===== verification/Bytes.v ===== *)
(** * Bytes: fixed-width integers in byte buffers

    The part of Go's [encoding/binary] and of byte slices the program uses:
    little-endian integers in the file system's structures, big-endian ones
    in the journal.  A buffer is a [list byte]; a Go [string] is one too. *)

From Stdlib Require Export Init.Byte.
From Stdlib Require Strings.Byte Strings.String.
From S2P Require Export Prelude.

Abbreviation block := (list byte).

(** A string constant of the source, as its bytes. *)
Definition str (s : string) : list byte := String.list_byte_of_string s.

#[export] Instance byte_eq_decision : EqDecision byte := Byte.byte_eq_dec.
#[export] Instance byte_inhabited : Inhabited byte := populate x00.

(** ** Bytes and integers *)

Definition b2z (b : byte) : Z := Z.of_N (Byte.to_N b).

(** The conversion [byte(z)], which keeps the low eight bits. *)
Definition z2b (z : Z) : byte :=
  match Byte.of_N (Z.to_N (z mod 256)) with
  | Some b => b
  | None => x00
  end.

(** [make([]byte, n)] *)
Definition zeros (n : nat) : list byte := replicate n x00.

Fixpoint le_enc (n : nat) (z : Z) : list byte :=
  match n with
  | O => []
  | S n => z2b z :: le_enc n (z / 256)
  end.

Fixpoint le_dec (l : list byte) : Z :=
  match l with
  | [] => 0
  | b :: l => b2z b + 256 * le_dec l
  end.

Definition be_enc (n : nat) (z : Z) : list byte := rev (le_enc n z).
Definition be_dec (l : list byte) : Z := le_dec (rev l).

(** [binary.LittleEndian.Uint16(buf[off:])] and its companions. *)
Definition LEUint16 (buf : list byte) (off : nat) : Z := le_dec (slice off 2 buf).
Definition LEUint32 (buf : list byte) (off : nat) : Z := le_dec (slice off 4 buf).
Definition LEPutUint16 (buf : list byte) (off : nat) (v : Z) : list byte :=
  splice off (le_enc 2 v) buf.
Definition LEPutUint32 (buf : list byte) (off : nat) (v : Z) : list byte :=
  splice off (le_enc 4 v) buf.

(** [binary.BigEndian.Uint32(buf[off:])] and [PutUint32]. *)
Definition BEUint32 (buf : list byte) (off : nat) : Z := be_dec (slice off 4 buf).
Definition BEPutUint32 (buf : list byte) (off : nat) (v : Z) : list byte :=
  splice off (be_enc 4 v) buf.

(** ** A sequence of writes into one buffer *)

(** One write: the offset and the bytes. *)
Definition put : Type := nat * list byte.

Definition put16 (off : nat) (v : Z) : put := (off, le_enc 2 v).
Definition put32 (off : nat) (v : Z) : put := (off, le_enc 4 v).

(** The writes are done in the order of the list. *)
Definition putAll (ps : list put) (buf : list byte) : list byte :=
  foldl (fun b p => splice p.1 p.2 b) buf ps.

(** The extents of the writes: every one lies in a buffer of [n] bytes and
    no two overlap. *)
Definition extent : Type := nat * nat.
Definition extents (ps : list put) : list extent := (fun p => (p.1, length p.2)) <$> ps.
Definition disj1 (a b : extent) : bool :=
  (Nat.leb (a.1 + a.2) b.1 || Nat.leb (b.1 + b.2) a.1)%nat.
Fixpoint layout_ok (n : nat) (es : list extent) : bool :=
  match es with
  | [] => true
  | e :: es => Nat.leb (e.1 + e.2)%nat n && forallb (disj1 e) es && layout_ok n es
  end.

(** ** Lemmas on bytes *)

Lemma b2z_range b : 0 <= b2z b < 256.
Proof. by destruct b. Qed.

Lemma z2b_b2z b : z2b (b2z b) = b.
Proof. by destruct b. Qed.

Lemma b2z_z2b z : b2z (z2b z) = z mod 256.
Proof.
  rewrite /z2b /b2z.
  destruct (Byte.of_N (Z.to_N (z mod 256))) as [b|] eqn:E.
  - apply Byte.to_of_N in E. rewrite E Z2N.id //. apply Z.mod_pos_bound; lia.
  - apply Byte.of_N_None_iff in E. pose proof (Z.mod_pos_bound z 256). lia.
Qed.

#[export] Instance b2z_inj : Inj (=) (=) b2z.
Proof. intros a b H. by rewrite -(z2b_b2z a) -(z2b_b2z b) H. Qed.

Lemma z2b_mod z : z2b (z mod 256) = z2b z.
Proof. apply (inj b2z). rewrite !b2z_z2b. apply Z.mod_mod; lia. Qed.

Lemma length_zeros n : length (zeros n) = n.
Proof. apply length_replicate. Qed.

Lemma length_le_enc n z : length (le_enc n z) = n.
Proof. revert z. induction n; simpl; auto. Qed.

Lemma length_be_enc n z : length (be_enc n z) = n.
Proof. by rewrite /be_enc length_rev length_le_enc. Qed.

Lemma le_dec_enc n z : le_dec (le_enc n z) = z mod 2 ^ (8 * Z.of_nat n).
Proof.
  revert z. induction n as [|n IH]; intros z; simpl.
  - by rewrite Z.mod_1_r.
  - rewrite IH b2z_z2b.
    replace (2 ^ (8 * Z.of_nat (S n))) with (256 * 2 ^ (8 * Z.of_nat n))
      by (rewrite -(Z.pow_add_r 2 8); [lia..|f_equal; lia]).
    rewrite Z.rem_mul_r; [lia|apply Z.pow_pos_nonneg; lia|done].
Qed.

Lemma le_dec_range l : 0 <= le_dec l < 2 ^ (8 * Z.of_nat (length l)).
Proof.
  induction l as [|b l IH]; simpl; [done|].
  replace (2 ^ (8 * Z.of_nat (S (length l)))) with (256 * 2 ^ (8 * Z.of_nat (length l)))
    by (rewrite -(Z.pow_add_r 2 8); [lia..|f_equal; lia]).
  pose proof (b2z_range b). lia.
Qed.

Lemma le_enc_dec l : le_enc (length l) (le_dec l) = l.
Proof.
  induction l as [|b l IH]; simpl; [done|]. pose proof (b2z_range b).
  f_equal.
  - rewrite -z2b_mod Z.mul_comm Z_mod_plus_full z2b_mod. apply z2b_b2z.
  - rewrite Z.mul_comm Z.div_add; [lia|]. by rewrite Z.div_small // Z.add_0_l.
Qed.

Lemma be_dec_enc n z : be_dec (be_enc n z) = z mod 2 ^ (8 * Z.of_nat n).
Proof. by rewrite /be_dec /be_enc rev_involutive le_dec_enc. Qed.

Lemma be_dec_range l : 0 <= be_dec l < 2 ^ (8 * Z.of_nat (length l)).
Proof. rewrite /be_dec -(length_rev l). apply le_dec_range. Qed.

Lemma le_dec_zeros n : le_dec (zeros n) = 0.
Proof. induction n as [|n IH]; [done|]. change (b2z x00 + 256 * le_dec (zeros n) = 0). rewrite IH. done. Qed.

Lemma le_enc_inj n a b :
  0 <= a < 2 ^ (8 * Z.of_nat n) -> 0 <= b < 2 ^ (8 * Z.of_nat n) ->
  le_enc n a = le_enc n b -> a = b.
Proof.
  intros Ha Hb H. apply (f_equal le_dec) in H. rewrite !le_dec_enc in H.
  by rewrite !Z.mod_small in H.
Qed.

(** ** Lemmas on buffers *)

Lemma LEUint32_range buf off : is_u32 (LEUint32 buf off).
Proof.
  rewrite /is_u32 /LEUint32.
  pose proof (le_dec_range (slice off 4 buf)) as [H1 H2]. split; [done|].
  eapply Z.lt_le_trans; [exact H2|]. apply Z.pow_le_mono_r; [done|].
  rewrite /slice length_take. lia.
Qed.

Lemma LEUint16_range buf off : is_u16 (LEUint16 buf off).
Proof.
  rewrite /is_u16 /LEUint16.
  pose proof (le_dec_range (slice off 2 buf)) as [H1 H2]. split; [done|].
  eapply Z.lt_le_trans; [exact H2|]. apply Z.pow_le_mono_r; [done|].
  rewrite /slice length_take. lia.
Qed.

Lemma BEUint32_range buf off : is_u32 (BEUint32 buf off).
Proof.
  rewrite /is_u32 /BEUint32.
  pose proof (be_dec_range (slice off 4 buf)) as [H1 H2]. split; [done|].
  eapply Z.lt_le_trans; [exact H2|]. apply Z.pow_le_mono_r; [done|].
  rewrite /slice length_take. lia.
Qed.

Lemma length_LEPutUint32 buf off v :
  (off + 4 <= length buf)%nat -> length (LEPutUint32 buf off v) = length buf.
Proof. intros. apply length_splice. by rewrite length_le_enc. Qed.

Lemma length_LEPutUint16 buf off v :
  (off + 2 <= length buf)%nat -> length (LEPutUint16 buf off v) = length buf.
Proof. intros. apply length_splice. by rewrite length_le_enc. Qed.

Lemma length_BEPutUint32 buf off v :
  (off + 4 <= length buf)%nat -> length (BEPutUint32 buf off v) = length buf.
Proof. intros. apply length_splice. by rewrite length_be_enc. Qed.

Lemma LEUint32_put_same buf off v :
  (off + 4 <= length buf)%nat -> LEUint32 (LEPutUint32 buf off v) off = u32 v.
Proof.
  intros. rewrite /LEUint32 /LEPutUint32.
  rewrite -{1}(length_le_enc 4 v) slice_splice_same; [by rewrite length_le_enc|].
  by rewrite le_dec_enc.
Qed.

Lemma LEUint32_put_disj buf off o v :
  (o + 4 <= length buf)%nat -> (off + 4 <= o \/ o + 4 <= off)%nat ->
  LEUint32 (LEPutUint32 buf o v) off = LEUint32 buf off.
Proof.
  intros. rewrite /LEUint32 /LEPutUint32 slice_splice_disj //; rewrite length_le_enc //; lia.
Qed.

Lemma BEUint32_put_same buf off v :
  (off + 4 <= length buf)%nat -> BEUint32 (BEPutUint32 buf off v) off = u32 v.
Proof.
  intros. rewrite /BEUint32 /BEPutUint32.
  rewrite -{1}(length_be_enc 4 v) slice_splice_same; [by rewrite length_be_enc|].
  by rewrite be_dec_enc.
Qed.

Lemma BEUint32_put_disj buf off o v :
  (o + 4 <= length buf)%nat -> (off + 4 <= o \/ o + 4 <= off)%nat ->
  BEUint32 (BEPutUint32 buf o v) off = BEUint32 buf off.
Proof.
  intros. rewrite /BEUint32 /BEPutUint32 slice_splice_disj //; rewrite length_be_enc //; lia.
Qed.

(** ** Lemmas on sequences of writes *)

Lemma layout_ok_mono n m es : layout_ok n es = true -> (n <= m)%nat -> layout_ok m es = true.
Proof.
  induction es as [|e es IH]; [done|]. simpl.
  intros [[H1 H2]%andb_true_iff H3]%andb_true_iff Hnm. apply Nat.leb_le in H1.
  rewrite H2 IH // andb_true_r andb_true_r. apply Nat.leb_le. lia.
Qed.

Lemma length_putAll ps buf :
  layout_ok (length buf) (extents ps) = true -> length (putAll ps buf) = length buf.
Proof.
  revert buf. induction ps as [|p ps IH]; intros buf; [done|].
  simpl. intros [[H1 _]%andb_true_iff H2]%andb_true_iff. apply Nat.leb_le in H1.
  simpl in H1.
  assert (length (splice p.1 p.2 buf) = length buf) as E by by apply length_splice.
  rewrite IH E //.
Qed.

Lemma slice_putAll_disj ps buf off n :
  layout_ok (length buf) (extents ps) = true ->
  forallb (disj1 (off, n)) (extents ps) = true ->
  slice off n (putAll ps buf) = slice off n buf.
Proof.
  revert buf. induction ps as [|p ps IH]; intros buf; [done|].
  simpl. intros [[H1 _]%andb_true_iff H2]%andb_true_iff [H3 H4]%andb_true_iff.
  apply Nat.leb_le in H1. simpl in H1.
  assert (length (splice p.1 p.2 buf) = length buf) as E by by apply length_splice.
  rewrite IH ?E //. apply slice_splice_disj; [done|].
  apply orb_true_iff in H3 as [H3|H3]; apply Nat.leb_le in H3; simpl in H3; lia.
Qed.

(** Every write of a well laid out sequence can be read back. *)
Lemma slice_putAll ps buf i p :
  layout_ok (length buf) (extents ps) = true -> ps !! i = Some p ->
  slice p.1 (length p.2) (putAll ps buf) = p.2.
Proof.
  revert buf i. induction ps as [|q ps IH]; intros buf i; [done|].
  simpl. intros [[H1 H3]%andb_true_iff H2]%andb_true_iff Hi.
  apply Nat.leb_le in H1. simpl in H1.
  assert (length (splice q.1 q.2 buf) = length buf) as E by by apply length_splice.
  destruct i as [|i]; simplify_eq/=.
  - rewrite slice_putAll_disj ?E //. by apply slice_splice_same.
  - eapply (IH _ i); [by rewrite E|done].
Qed.

Lemma LEUint32_putAll ps buf i off v :
  layout_ok (length buf) (extents ps) = true -> ps !! i = Some (put32 off v) ->
  LEUint32 (putAll ps buf) off = u32 v.
Proof.
  intros H Hi. pose proof (slice_putAll _ _ _ _ H Hi) as E.
  change (slice off 4 (putAll ps buf) = le_enc 4 v) in E. by rewrite /LEUint32 E le_dec_enc.
Qed.

Lemma LEUint16_putAll ps buf i off v :
  layout_ok (length buf) (extents ps) = true -> ps !! i = Some (put16 off v) ->
  LEUint16 (putAll ps buf) off = u16 v.
Proof.
  intros H Hi. pose proof (slice_putAll _ _ _ _ H Hi) as E.
  change (slice off 2 (putAll ps buf) = le_enc 2 v) in E. by rewrite /LEUint16 E le_dec_enc.
Qed.
