(* ===== verification/Maps.v ===== *)
(** * Maps: Go's maps and channels

    The order in which [for k := range m] visits the keys of a map is left
    open by the language and differs from one loop to the next.  A
    [MapOrder] fixes it for the [n]-th loop of a run; every theorem on code
    that ranges over a map holds for each of them. *)

From S2P Require Export Bytes.

#[export] Instance byte_countable : Countable byte.
Proof. apply (inj_countable' b2z z2b), z2b_b2z. Defined.

Class MapOrder : Type := {
  range : forall {A : Type}, nat -> list A -> list A;
  range_perm : forall (A : Type) (n : nat) (l : list A), range n l ≡ₚ l;
}.

(** Two orders, to evaluate programs with. *)
Definition inOrder : MapOrder.
Proof. refine {| range A n l := l |}. done. Defined.
Definition alternating : MapOrder.
Proof.
  refine {| range A n l := if Nat.even n then l else rev l |}.
  intros A n l. destruct (Nat.even n); [done|]. symmetry. apply Permutation_rev.
Defined.

Section range.
Context {O : MapOrder}.

Lemma elem_of_range {A} n (l : list A) x : x ∈ range n l <-> x ∈ l.
Proof. by rewrite (range_perm A n l). Qed.

Lemma NoDup_range {A} n (l : list A) : NoDup l -> NoDup (range n l).
Proof. by rewrite (range_perm A n l). Qed.

Lemma length_range {A} n (l : list A) : length (range n l) = length l.
Proof. by rewrite (range_perm A n l). Qed.

End range.

(** [len(m)] and the keys of [m], as a Go [int]. *)
Definition mapLen `{Countable K} {V} (m : gmap K V) : Z := Z.of_nat (base.size m).
Definition keys `{Countable K} {V} (m : gmap K V) : list K := (map_to_list m).*1.

Section keys.
Context `{Countable K} {V : Type}.
Implicit Types m : gmap K V.

Lemma elem_of_keys m k : k ∈ keys m <-> is_Some (m !! k).
Proof.
  rewrite /keys list_elem_of_fmap. split.
  - intros ([k' v] & -> & Hin). apply elem_of_map_to_list in Hin. by exists v.
  - intros [v Hv]. exists (k, v). split; [done|]. by apply elem_of_map_to_list.
Qed.

Lemma NoDup_keys m : NoDup (keys m).
Proof. apply NoDup_fst_map_to_list. Qed.

Lemma length_keys m : length (keys m) = base.size m.
Proof. by rewrite /keys length_fmap length_map_to_list. Qed.

End keys.

(** A non-blocking send: [select { case ch <- x: default: }]. *)
Definition trySend {A} (capacity : nat) (x : A) (ch : list A) : list A :=
  if Nat.ltb (length ch) capacity then ch ++ [x] else ch.

Lemma length_trySend {A} capacity (x : A) ch :
  (length ch <= capacity)%nat -> (length (trySend capacity x ch) <= capacity)%nat.
Proof.
  rewrite /trySend. destruct (Nat.ltb_spec (length ch) capacity); [rewrite length_app /=; lia|done].
Qed.
