(* ===== verification/Vfs.v ===== *)
(** * Vfs: open files and mount points, [internal/vfs]

    [Get] hands out a pointer to an open file that the table keeps: the
    objects are in a heap, and the table holds their locations. *)

From S2P Require Export Maps.

(** ** Open files: [file.go] *)

Definition maxOpenFiles : Z := 1024.

Record OpenFile : Type := mkOpenFile { of_Inode : Z; of_Flags : Z; of_Offset : Z }.
Definition with_Offset (x : Z) (f : OpenFile) : OpenFile := mkOpenFile (of_Inode f) (of_Flags f) x.
#[export] Instance OpenFile_inhabited : Inhabited OpenFile := populate (mkOpenFile 0 0 0).

Definition SeekWithSize (offset whence size : Z) : M OpenFile Z :=
  f ← gets id;
  newOff ← (if whence =? 0 then mret offset
            else if whence =? 1 then mret (i64 (of_Offset f + offset))
            else if whence =? 2 then mret (i64 (size + offset))
            else throw (Errorf "vfs: invalid whence %d" [whence]));
  failIf (newOff <? 0) (Errorf "vfs: negative offset" []) ;;
  modify (with_Offset newOff) ;;
  mret newOff.

Record FileDescriptorTable : Type := mkTable {
  heap : list OpenFile;
  files : list (option nat);
}.

Definition NewFileDescriptorTable (h : list OpenFile) : FileDescriptorTable :=
  mkTable h (replicate (Z.to_nat maxOpenFiles) None).

(** The search loop of [Open]: the first free slot from [i]. *)
Fixpoint firstNil (l : list (option nat)) (i : Z) : option Z :=
  match l with
  | [] => None
  | None :: _ => Some i
  | Some _ :: l => firstNil l (i + 1)
  end.

Definition setFile (fd : Z) (p : option nat) : M FileDescriptorTable unit :=
  modify (fun t => mkTable (heap t) (<[Z.to_nat fd := p]> (files t))).

(** [&OpenFile{...}] *)
Definition newFile (f : OpenFile) : M FileDescriptorTable nat :=
  p ← gets (fun t => length (heap t));
  modify (fun t => mkTable (heap t ++ [f]) (files t)) ;;
  mret p.

Definition Open (inum flags : Z) : M FileDescriptorTable Z :=
  slot ← gets (fun t => firstNil (files t) 0);
  match slot with
  | Some i =>
      p ← newFile (mkOpenFile inum flags 0);
      setFile i (Some p) ;;
      mret i
  | None => throw (Errorf "vfs: too many open files" [])
  end.

Definition Get (fd : Z) : M FileDescriptorTable nat :=
  failIf ((fd <? 0) || (maxOpenFiles <=? fd)) (Errorf "vfs: bad file descriptor %d" [fd]) ;;
  f ← gets (fun t => files t !!! Z.to_nat fd);
  match f with
  | None => throw (Errorf "vfs: file descriptor %d not open" [fd])
  | Some p => mret p
  end.

Definition FClose (fd : Z) : M FileDescriptorTable unit :=
  failIf ((fd <? 0) || (maxOpenFiles <=? fd)) (Errorf "vfs: bad file descriptor %d" [fd]) ;;
  f ← gets (fun t => files t !!! Z.to_nat fd);
  failIf (bool_decide (f = None)) (Errorf "vfs: file descriptor %d not open" [fd]) ;;
  setFile fd None.

(** A method call through a pointer. *)
Definition onFile {A} (p : nat) (m : M OpenFile A) : M FileDescriptorTable A :=
  zoom (fun t => heap t !!! p) (fun f t => mkTable (<[p := f]> (heap t)) (files t)) m.

(** ** Mount points: [mount.go] *)

Record MountEntry : Type := mkMountEntry {
  Mountpoint : list byte; FSType : list byte; me_Device : list byte; ReadOnly : bool }.

Definition MountTable : Type := gmap (list byte) MountEntry.
Definition NewMountTable : MountTable := ∅.

Definition MAdd (entry : MountEntry) : M MountTable unit :=
  mounts ← gets id;
  failIf (bool_decide (is_Some (mounts !! Mountpoint entry))) (Errorf "vfs: %s is already mounted" []) ;;
  modify (<[Mountpoint entry := entry]>).

Definition MRemove (mountpoint : list byte) : M MountTable unit :=
  mounts ← gets id;
  failIf (negb (bool_decide (is_Some (mounts !! mountpoint)))) (Errorf "vfs: %s is not mounted" []) ;;
  modify (delete mountpoint).

Definition MGet (mountpoint : list byte) (mounts : MountTable) : option MountEntry := mounts !! mountpoint.

Definition MList {O : MapOrder} (n : nat) (mounts : MountTable) : list MountEntry :=
  (range n (map_to_list mounts)).*2.

(** ** What the table of descriptors stands for *)

(** The open file a descriptor denotes. *)
Definition opened (t : FileDescriptorTable) (fd : Z) : option OpenFile :=
  if fd <? 0 then None
  else p ← files t !! Z.to_nat fd ≫= id; heap t !! (p : nat).

(** Two descriptors never share an open file; offsets are those of a file. *)
Record table_ok (t : FileDescriptorTable) : Prop := {
  tk_length : length (files t) = Z.to_nat maxOpenFiles;
  tk_live : forall i p, files t !! i = Some (Some p) -> (p < length (heap t))%nat;
  tk_inj : forall i j p, files t !! i = Some (Some p) -> files t !! j = Some (Some p) -> i = j;
  tk_offset : Forall (fun f => 0 <= of_Offset f < 2 ^ 63) (heap t);
}.

Lemma table_ok_new h :
  Forall (fun f => 0 <= of_Offset f < 2 ^ 63) h -> table_ok (NewFileDescriptorTable h).
Proof.
  intros Hh. split; cbn [files heap NewFileDescriptorTable]; [by rewrite length_replicate| | |done].
  all: intros *; rewrite lookup_replicate; naive_solver.
Qed.

Lemma firstNil_spec l i :
  match firstNil l i with
  | Some k => exists n, k = i + Z.of_nat n /\ l !! n = Some None /\
                forall m, (m < n)%nat -> exists p, l !! m = Some (Some p)
  | None => forall m, (m < length l)%nat -> exists p, l !! m = Some (Some p)
  end.
Proof.
  revert i. induction l as [|[p|] l IH]; intros i; simpl.
  - intros m Hm. lia.
  - specialize (IH (i + 1)). destruct (firstNil l (i + 1)) as [k|].
    + destruct IH as (n & -> & Hn & Hm). exists (S n). split_and!; [lia|done|].
      intros [|m] Hlt; [by exists p|]. apply Hm. lia.
    + intros [|m] Hlt; [by exists p|]. apply IH. lia.
  - exists 0%nat. split_and!; [lia|done|lia].
Qed.

Lemma opened_Some t fd f :
  opened t fd = Some f <-> 0 <= fd /\ exists p, files t !! Z.to_nat fd = Some (Some p) /\ heap t !! p = Some f.
Proof.
  rewrite /opened. destruct (Z.ltb_spec fd 0); [split; [done|lia]|]. simpl.
  destruct (files t !! Z.to_nat fd) as [[p|]|] eqn:E; simpl; naive_solver.
Qed.

Lemma opened_set t fd p h :
  0 <= fd -> (Z.to_nat fd < length (files t))%nat -> forall x,
  opened (mkTable h (<[Z.to_nat fd := p]> (files t))) x =
    if decide (x = fd) then p ≫= (fun p => h !! p) else opened (mkTable h (files t)) x.
Proof.
  intros H0 Hl x. rewrite /opened /=. destruct (Z.ltb_spec x 0).
  { by rewrite decide_False; [lia|]. }
  destruct (decide (x = fd)) as [->|Hne].
  - rewrite list_lookup_insert_eq //=.
  - rewrite list_lookup_insert_ne //. lia.
Qed.

(** Growing the heap changes no descriptor. *)
Lemma opened_grow t f : table_ok t -> forall x, opened (mkTable (heap t ++ [f]) (files t)) x = opened t x.
Proof.
  intros Ht x. rewrite /opened /=. destruct (x <? 0); [done|].
  destruct (files t !! Z.to_nat x) as [[p|]|] eqn:E; [|done|done]. simpl.
  rewrite lookup_app_l //. eauto using tk_live.
Qed.

Lemma used_open t i p : table_ok t -> files t !! i = Some (Some p) -> is_Some (opened t (Z.of_nat i)).
Proof.
  intros Ht E. pose proof (tk_live _ Ht i p E) as Hp. apply lookup_lt_is_Some_2 in Hp as [f Hf].
  exists f. apply opened_Some. split; [lia|]. exists p. by rewrite Nat2Z.id.
Qed.

Lemma Open_spec t inum flags :
  table_ok t ->
  match Open inum flags t with
  | (Ok fd, t') =>
      table_ok t' /\ 0 <= fd < maxOpenFiles /\ opened t fd = None /\
      (forall x, 0 <= x < fd -> is_Some (opened t x)) /\
      forall x, opened t' x = if decide (x = fd) then Some (mkOpenFile inum flags 0) else opened t x
  | (Err _, t') => t' = t /\ forall x, 0 <= x < maxOpenFiles -> is_Some (opened t x)
  | (Panic, _) => False
  end.
Proof.
  intros Ht. pose proof (firstNil_spec (files t) 0) as H. pose proof (tk_length _ Ht) as HL.
  rewrite /Open bind_gets. destruct (firstNil (files t) 0) as [fd|]; simpl.
  - destruct H as (n & -> & Hn & Hlow). rewrite Z.add_0_l.
    pose proof (lookup_lt_Some _ _ _ Hn) as Hlt. rewrite HL in Hlt.
    cbn. rewrite Nat2Z.id. split_and!.
    + split; simpl.
      * by rewrite length_insert.
      * intros i p. rewrite list_lookup_insert_Some length_app /=. intros [(-> & E & _)|[_ Hp]].
        -- simplify_eq. lia.
        -- apply (tk_live _ Ht) in Hp. lia.
      * intros i j p. rewrite !list_lookup_insert_Some. intros [(<- & E & _)|[Hi Hp]] [(<- & E' & _)|[Hj Hq]].
        -- done.
        -- simplify_eq. apply (tk_live _ Ht) in Hq. lia.
        -- simplify_eq. apply (tk_live _ Ht) in Hp. lia.
        -- eauto using tk_inj.
      * apply Forall_app. split; [apply Ht|]. by repeat constructor.
    + lia.
    + rewrite /maxOpenFiles in Hlt |- *. lia.
    + rewrite /opened Nat2Z.id Hn. by destruct (Z.ltb_spec (Z.of_nat n) 0).
    + intros x Hx. destruct (Hlow (Z.to_nat x)) as [p Hp]; [lia|].
      rewrite -(Z2Nat.id x); [lia|]. eauto using used_open.
    + intros x. pose proof (opened_set t (Z.of_nat n) (Some (length (heap t)))
        (heap t ++ [mkOpenFile inum flags 0]) ltac:(lia) ltac:(rewrite Nat2Z.id HL; lia) x) as E.
      rewrite Nat2Z.id in E. rewrite E. case_decide; [|by apply opened_grow].
      simpl. by rewrite lookup_app_r ?Nat.sub_diag.
  - split; [done|]. intros x Hx. destruct (H (Z.to_nat x)) as [p Hp]; [rewrite HL; lia|].
    rewrite -(Z2Nat.id x); [lia|]. eauto using used_open.
Qed.

Lemma opened_out t fd :
  table_ok t -> (fd <? 0) || (maxOpenFiles <=? fd) = true -> opened t fd = None.
Proof.
  intros Ht E. rewrite /opened. apply orb_true_iff in E as [E|E]; [by rewrite E|].
  apply Z.leb_le in E. destruct (fd <? 0); [done|]. rewrite lookup_ge_None_2; [|done].
  rewrite (tk_length _ Ht) /maxOpenFiles in E |- *. lia.
Qed.

Lemma FClose_spec t fd :
  table_ok t ->
  match FClose fd t with
  | (Ok _, t') =>
      table_ok t' /\ is_Some (opened t fd) /\
      forall x, opened t' x = if decide (x = fd) then None else opened t x
  | (Err _, t') => t' = t /\ opened t fd = None
  | (Panic, _) => False
  end.
Proof.
  intros Ht. pose proof (tk_length _ Ht) as HL.
  destruct ((fd <? 0) || (maxOpenFiles <=? fd)) eqn:E.
  { rewrite /FClose (bind_err _ _ t (Errorf "vfs: bad file descriptor %d" [fd]) t); [by rewrite E|].
    split; [done|]. by apply opened_out. }
  rewrite /FClose bind_failIf_false // bind_gets.
  simpl_bool. assert (Z.to_nat fd < length (files t))%nat as Hlt by (rewrite HL; lia).
  destruct (lookup_lt_is_Some_2 _ _ Hlt) as [o Ho]. rewrite (list_lookup_total_correct _ _ _ Ho).
  destruct o as [p|].
  - split_and!.
    + split; simpl.
      * by rewrite length_insert.
      * intros i q. rewrite list_lookup_insert_Some. intros [(_ & ? & _)|[_ Hq]]; [done|].
        eauto using tk_live.
      * intros i j q. rewrite !list_lookup_insert_Some.
        intros [(_ & ? & _)|[_ Hp]] [(_ & ? & _)|[_ Hq]]; [done..|]. eauto using tk_inj.
      * apply Ht.
    + pose proof (used_open t (Z.to_nat fd) p Ht Ho) as H'. by rewrite Z2Nat.id in H'; [lia|].
    + intros x. rewrite (opened_set t fd None (heap t)); [lia|done|]. by destruct t.
  - split; [done|]. rewrite /opened Ho. by destruct (fd <? 0).
Qed.

(** Where a seek starts from. *)
Definition seekBase (f : OpenFile) (whence size : Z) : option Z :=
  if whence =? 0 then Some 0 else if whence =? 1 then Some (of_Offset f)
  else if whence =? 2 then Some size else None.

(** A 64-bit sum that overflows is negative. *)
Lemma i64_add b offset :
  0 <= b < 2 ^ 63 -> - 2 ^ 63 <= offset < 2 ^ 63 ->
  if i64 (b + offset) <? 0 then ~ 0 <= b + offset < 2 ^ 63
  else i64 (b + offset) = b + offset /\ 0 <= b + offset < 2 ^ 63.
Proof.
  intros Hb Ho. destruct (decide (b + offset < 2 ^ 63)) as [Hd|Hd].
  - rewrite i64_small; [lia|]. destruct (Z.ltb_spec (b + offset) 0); lia.
  - assert (i64 (b + offset) = b + offset - 2 ^ 64) as ->.
    { rewrite /i64. replace (b + offset + 2 ^ 63) with ((b + offset - 2 ^ 63) + 1 * 2 ^ 64) by lia.
      rewrite Z.mod_add // Z.mod_small; lia. }
    destruct (Z.ltb_spec (b + offset - 2 ^ 64) 0); lia.
Qed.

(** The seek goes to the sum when it is the offset of a file, and an overflow
    of the 64-bit sum never passes for one. *)
Lemma SeekWithSize_spec f offset whence size :
  0 <= of_Offset f < 2 ^ 63 -> - 2 ^ 63 <= offset < 2 ^ 63 -> 0 <= size < 2 ^ 63 ->
  match SeekWithSize offset whence size f with
  | (Ok n, f') => exists b, seekBase f whence size = Some b /\ n = b + offset /\
                    0 <= n < 2 ^ 63 /\ f' = with_Offset n f
  | (Err _, f') => f' = f /\ forall b, seekBase f whence size = Some b -> ~ 0 <= b + offset < 2 ^ 63
  | (Panic, _) => False
  end.
Proof.
  intros Hf Ho Hs. rewrite /SeekWithSize /seekBase bind_gets. change (id f) with f.
  destruct (Z.eqb_spec whence 0) as [->|]; [|destruct (Z.eqb_spec whence 1) as [->|];
    [|destruct (Z.eqb_spec whence 2) as [->|]; [|done]]];
    rewrite /mbind /M_bind /mret /M_ret /failIf /modify.
  - destruct (Z.ltb_spec offset 0); [|by exists 0; split_and!; [|lia..|]].
    split; [done|]. intros b [= <-]. lia.
  - pose proof (i64_add (of_Offset f) offset Hf Ho) as H. destruct (i64 _ <? 0).
    + split; [done|]. by intros b [= <-].
    + destruct H as [H ?]. rewrite H. by exists (of_Offset f).
  - pose proof (i64_add size offset Hs Ho) as H. destruct (i64 _ <? 0).
    + split; [done|]. by intros b [= <-].
    + destruct H as [H ?]. rewrite H. by exists size.
Qed.

(** A call through the pointer of a descriptor is seen by that descriptor only. *)
Lemma onFile_Get t fd {A} (m : M OpenFile A) :
  table_ok t -> (forall f, 0 <= of_Offset f < 2 ^ 63 -> 0 <= of_Offset (m f).2 < 2 ^ 63) ->
  match opened t fd with
  | Some f => exists t', (p ← Get fd; onFile p m) t = ((m f).1, t') /\ table_ok t' /\
      forall x, opened t' x = if decide (x = fd) then Some (m f).2 else opened t x
  | None => exists e, (p ← Get fd; onFile p m) t = (Err e, t)
  end.
Proof.
  intros Ht Hm. pose proof (tk_length _ Ht) as HL. rewrite /Get.
  destruct ((fd <? 0) || (maxOpenFiles <=? fd)) eqn:E.
  { rewrite opened_out //. eexists. reflexivity. }
  simpl_bool. assert (Z.to_nat fd < length (files t))%nat as Hlt by (rewrite HL; lia).
  destruct (lookup_lt_is_Some_2 _ _ Hlt) as [o Ho].
  rewrite bind_assoc bind_failIf_false // bind_assoc bind_gets (list_lookup_total_correct _ _ _ Ho).
  destruct o as [p|].
  2:{ assert (opened t fd = None) as ->; [|eexists; reflexivity].
      rewrite /opened Ho. by destruct (fd <? 0). }
  pose proof (tk_live _ Ht _ _ Ho) as Hp. destruct (lookup_lt_is_Some_2 _ _ Hp) as [f Hf].
  assert (opened t fd = Some f) as Ef by (apply opened_Some; split; [lia|by exists p]).
  rewrite Ef. exists (mkTable (<[p := (m f).2]> (heap t)) (files t)).
  assert (0 <= of_Offset f < 2 ^ 63) as Hof by (pose proof (tk_offset _ Ht) as HF; rewrite Forall_lookup in HF; eauto).
  split_and!.
  - change ((mret p ≫= (fun p0 : nat => onFile p0 m)) t) with (onFile p m t).
    rewrite /onFile /zoom (list_lookup_total_correct _ _ _ Hf). by destruct (m f).
  - split; simpl; [done| |by apply Ht|].
    + intros i q. rewrite length_insert. by apply Ht.
    + apply Forall_insert; [apply Ht|by apply Hm].
  - intros x. case_decide as Hx; [subst x|].
    + apply opened_Some. split; [lia|]. exists p. by rewrite /= list_lookup_insert_eq.
    + rewrite /opened /=. destruct (Z.ltb_spec x 0); [done|].
      destruct (files t !! Z.to_nat x) as [[q|]|] eqn:Eq; [|done|done]. simpl.
      rewrite list_lookup_insert_ne //. intros ->.
      pose proof (tk_inj _ Ht _ _ _ Ho Eq). lia.
Qed.

(** C34: A table of file descriptors is a partial map from descriptors to open
    files: [Open] takes the least free descriptor, gives it a new file at
    offset 0 and fails exactly when all 1024 are in use; [Close] frees the
    descriptor, or reports that it is not open; a [SeekWithSize] through the
    pointer of [Get] goes to the requested offset, or fails when the 64-bit
    sum is negative or overflows, and is seen by that descriptor only. *)
Theorem fd_table_correct t :
  table_ok t ->
  (forall inum flags,
    match Open inum flags t with
    | (Ok fd, t') =>
        table_ok t' /\ 0 <= fd < maxOpenFiles /\ opened t fd = None /\
        (forall x, 0 <= x < fd -> is_Some (opened t x)) /\
        forall x, opened t' x = if decide (x = fd) then Some (mkOpenFile inum flags 0) else opened t x
    | (Err _, t') => t' = t /\ forall x, 0 <= x < maxOpenFiles -> is_Some (opened t x)
    | (Panic, _) => False
    end) /\
  (forall fd,
    match FClose fd t with
    | (Ok _, t') =>
        table_ok t' /\ is_Some (opened t fd) /\
        forall x, opened t' x = if decide (x = fd) then None else opened t x
    | (Err _, t') => t' = t /\ opened t fd = None
    | (Panic, _) => False
    end) /\
  (forall fd offset whence size, - 2 ^ 63 <= offset < 2 ^ 63 -> 0 <= size < 2 ^ 63 ->
    match opened t fd with
    | None => exists e, (p ← Get fd; onFile p (SeekWithSize offset whence size)) t = (Err e, t)
    | Some f => exists r t', (p ← Get fd; onFile p (SeekWithSize offset whence size)) t = (r, t') /\ table_ok t' /\
        match r with
        | Ok n => exists b, seekBase f whence size = Some b /\ n = b + offset /\ 0 <= n < 2 ^ 63 /\
            forall x, opened t' x = if decide (x = fd) then Some (with_Offset n f) else opened t x
        | Err _ => (forall b, seekBase f whence size = Some b -> ~ 0 <= b + offset < 2 ^ 63) /\
            forall x, opened t' x = opened t x
        | Panic => False
        end
    end).
Proof.
  intros Ht. split_and!; [by intros; apply Open_spec|by intros; apply FClose_spec|].
  intros fd offset whence size Ho Hs.
  assert (forall f, 0 <= of_Offset f < 2 ^ 63 -> 0 <= of_Offset (SeekWithSize offset whence size f).2 < 2 ^ 63) as Hm.
  { intros f Hf. pose proof (SeekWithSize_spec f offset whence size Hf Ho Hs) as H.
    destruct (SeekWithSize offset whence size f) as [[n|e|] f']; [|by destruct H as [-> _]|done].
    by destruct H as (b & _ & _ & ? & ->). }
  pose proof (onFile_Get t fd (SeekWithSize offset whence size) Ht Hm) as H.
  destruct (opened t fd) as [f|] eqn:Ef; [|done]. destruct H as (t' & E & Ht' & Hv).
  exists (SeekWithSize offset whence size f).1, t'. split_and!; [done|done|].
  assert (0 <= of_Offset f < 2 ^ 63) as Hf.
  { apply opened_Some in Ef as (_ & p & _ & Hp). pose proof (tk_offset _ Ht) as HF.
    rewrite Forall_lookup in HF. eauto. }
  pose proof (SeekWithSize_spec f offset whence size Hf Ho Hs) as H.
  destruct (SeekWithSize offset whence size f) as [[n|e|] f']; simpl in *; [| |done].
  - destruct H as (b & ? & ? & ? & ->). by exists b.
  - destruct H as [-> H]. split; [done|]. intros x. rewrite Hv. by case_decide; subst.
Qed.

Lemma fd_table_correct_witness :
  exists t, table_ok t /\ (Open 7 0 t).1 = Ok 0.
Proof.
  exists (NewFileDescriptorTable []).
  assert (table_ok (NewFileDescriptorTable [])) as Ht by (apply table_ok_new; constructor).
  split; [done|]. destruct (fd_table_correct _ Ht) as (Ho & _).
  specialize (Ho 7 0). destruct (Open 7 0 (NewFileDescriptorTable [])) as [[fd|e|] t'] eqn:E.
  - simpl. destruct Ho as (_ & Hr & _ & Hlow & _). destruct (decide (fd = 0)) as [->|Hne]; [done|].
    destruct (Hlow 0) as [f Hf]; [lia|]. done.
  - destruct Ho as [_ Ho]. destruct (Ho 0) as [f Hf]; [by rewrite /maxOpenFiles|]. done.
  - destruct Ho.
Defined.
