(* ===== verification/Layout.v ===== *)
(** * Layout: the constants of [internal/fs/layout.go]

    The disk geometry, the mode bits and the directory entry types.  The
    sentinel errors of the same file are the type [error] of the prelude. *)

From S2P Require Export Bytes.

Definition BlockSize : Z := 4096.
Definition DiskSize : Z := 64 * 1024 * 1024.
Definition TotalBlocks : Z := 16384.
Definition InodeCount : Z := 4096.
Definition InodeSize : Z := 128.
Definition PointersPerBlock : Z := 1024.

Definition BootBlock : Z := 0.
Definition SuperblockAddr : Z := 1.
Definition InodeBitmapAddr : Z := 2.
Definition BlockBitmapAddr : Z := 3.
Definition InodeTableStart : Z := 4.
Definition InodeTableBlocks : Z := 128.
Definition JournalStart : Z := 132.
Definition JournalBlocks : Z := 2048.
Definition DataStart : Z := 2180.

Definition SuperblockMagic : Z := 0xEF53.
Definition SuperblockMagicV2 : Z := 0x53EF.
Definition StateClean : Z := 1.
Definition StateError : Z := 2.

Definition S_IFMT : Z := 0xF000.
Definition S_IFSOCK : Z := 0xC000.
Definition S_IFLNK : Z := 0xA000.
Definition S_IFREG : Z := 0x8000.
Definition S_IFBLK : Z := 0x6000.
Definition S_IFDIR : Z := 0x4000.
Definition S_IFCHR : Z := 0x2000.
Definition S_IFIFO : Z := 0x1000.

Definition S_ISUID : Z := 0x0800.
Definition S_ISGID : Z := 0x0400.
Definition S_ISVTX : Z := 0x0200.

Definition S_IRUSR : Z := 0x0100.
Definition S_IWUSR : Z := 0x0080.
Definition S_IXUSR : Z := 0x0040.
Definition S_IRGRP : Z := 0x0020.
Definition S_IWGRP : Z := 0x0010.
Definition S_IXGRP : Z := 0x0008.
Definition S_IROTH : Z := 0x0004.
Definition S_IWOTH : Z := 0x0002.
Definition S_IXOTH : Z := 0x0001.

Definition FT_UNKNOWN : Z := 0.
Definition FT_REG_FILE : Z := 1.
Definition FT_DIR : Z := 2.
Definition FT_CHRDEV : Z := 3.
Definition FT_BLKDEV : Z := 4.
Definition FT_FIFO : Z := 5.
Definition FT_SOCK : Z := 6.
Definition FT_SYMLINK : Z := 7.

(** [BlockSize] as a length of lists. *)
Abbreviation BlockLen := 4096%nat.

(** A zeroed block, [make([]byte, BlockSize)]. *)
Definition zeroBlock : block := zeros BlockLen.

Lemma length_zeroBlock : length zeroBlock = BlockLen.
Proof. apply length_zeros. Qed.
