(* ===== verification/Disk.v ===== *)
(** * Disk: the block device of [internal/disk/device.go]

    The image [d.data] is cut in blocks of 4096 bytes: the program reads and
    writes it at that grain only ([flat] is the array of bytes itself, and
    [ReadBlock_flat]/[WriteBlock_flat] relate the two).  The backing file is
    part of the state, because it is what a crash leaves.  The fault injector
    is a function of the operation and of the number of operations injected
    before, so that a stateful injector is one too; the results of the calls
    into the operating system are given in the same way. *)

From S2P Require Export Layout.

Definition blockSize : Z := 4096.

(** [Operation]: what the fault injector sees. *)
Record Operation : Type := mkOperation { Kind : string; Addr : Z }.

(** The calls of package [os] made on the backing file. *)
Inductive os_call : Type := OsOpen | OsRead | OsWriteAt | OsFsync.

(** A failed [WriteAt] may have written a prefix of the image: the number is
    the number of blocks that reached the file. *)
Definition os_oracle : Type := nat -> os_call -> option (error * nat).
Definition injector : Type := nat -> Operation -> option error.

Record BlockDevice : Type := mkDevice {
  dev_data : list block;
  dev_size : Z;
  dev_dirty : bool;
  dev_file : list block;
  dev_fault : option injector;
  dev_os : option os_oracle;
  dev_clock : nat;
}.

Definition with_data (x : list block) (d : BlockDevice) : BlockDevice :=
  mkDevice x (dev_size d) (dev_dirty d) (dev_file d) (dev_fault d) (dev_os d) (dev_clock d).
Definition with_dirty (x : bool) (d : BlockDevice) : BlockDevice :=
  mkDevice (dev_data d) (dev_size d) x (dev_file d) (dev_fault d) (dev_os d) (dev_clock d).
Definition with_file (x : list block) (d : BlockDevice) : BlockDevice :=
  mkDevice (dev_data d) (dev_size d) (dev_dirty d) x (dev_fault d) (dev_os d) (dev_clock d).
Definition with_fault (x : option injector) (d : BlockDevice) : BlockDevice :=
  mkDevice (dev_data d) (dev_size d) (dev_dirty d) (dev_file d) x (dev_os d) (dev_clock d).
Definition with_os (x : option os_oracle) (d : BlockDevice) : BlockDevice :=
  mkDevice (dev_data d) (dev_size d) (dev_dirty d) (dev_file d) (dev_fault d) x (dev_clock d).
Definition with_tick (d : BlockDevice) : BlockDevice :=
  mkDevice (dev_data d) (dev_size d) (dev_dirty d) (dev_file d) (dev_fault d) (dev_os d)
    (S (dev_clock d)).

(** The image as the program's array of bytes. *)
Definition flat (d : BlockDevice) : list byte := concat (dev_data d).

(** Cutting an array of bytes in [n] blocks. *)
Fixpoint chop (n : nat) (l : list byte) : list block :=
  match n with
  | O => []
  | S n => take BlockLen l :: chop n (drop BlockLen l)
  end.

(** ** Operations *)

(** [existing] is the content of the file at [path], when [os.Stat] finds one. *)
Definition NewBlockDevice (existing : option (list byte)) (size : Z) : result BlockDevice :=
  if (size <=? 0) || negb (Z.rem size blockSize =? 0) then
    Err (Errorf "disk: size must be a positive multiple of %d" [blockSize])
  else
    let n := Z.to_nat (size / blockSize) in
    match existing with
    | Some bytes =>
        if Z.of_nat (length bytes) =? size then
          Ok (mkDevice (chop n bytes) size false (chop n bytes) None None 0)
        else
          Ok (mkDevice (replicate n zeroBlock) size false (replicate n zeroBlock) None None 0)
    | None =>
        Ok (mkDevice (replicate n zeroBlock) size false (replicate n zeroBlock) None None 0)
    end.

(** [uint32(d.size / blockSize)] *)
Definition BlockCount (d : BlockDevice) : Z := u32 (Z.quot (dev_size d) blockSize).

Definition checkFault (op : Operation) : M BlockDevice unit := fun d =>
  match dev_fault d with
  | None => (Ok tt, d)
  | Some fault =>
      match fault (dev_clock d) op with
      | None => (Ok tt, with_tick d)
      | Some e => (Err e, with_tick d)
      end
  end.

(** A call into the operating system on the backing file. *)
Definition osCall (c : os_call) : M BlockDevice (option (error * nat)) := fun d =>
  match dev_os d with
  | None => (Ok None, d)
  | Some os => (Ok (os (dev_clock d) c), with_tick d)
  end.

Definition ReadBlock (addr : Z) : M BlockDevice block :=
  checkFault (mkOperation "read" addr) ;;
  n ← gets BlockCount;
  failIf (n <=? addr) (Errorf "disk: block %d out of range (max %d)" [addr; n - 1]) ;;
  gets (fun d => default zeroBlock (dev_data d !! Z.to_nat addr)).

Definition WriteBlock (addr : Z) (data : block) : M BlockDevice unit :=
  checkFault (mkOperation "write" addr) ;;
  n ← gets BlockCount;
  failIf (n <=? addr) (Errorf "disk: block %d out of range (max %d)" [addr; n - 1]) ;;
  failIf (negb (Z.of_nat (length data) =? blockSize))
    (Errorf "disk: WriteBlock requires %d bytes, got %d" [blockSize; Z.of_nat (length data)]) ;;
  modify (fun d => with_data (<[Z.to_nat addr := data]> (dev_data d)) d) ;;
  modify (with_dirty true).

(** [f.WriteAt(d.data, 0)]: all of the image, or a prefix and an error. *)
Definition writeImage (o : option (error * nat)) : M BlockDevice unit := fun d =>
  match o with
  | None => (Ok tt, with_file (dev_data d) d)
  | Some (e, k) => (Err (Wrapf "disk: sync write %s: %w" [] e),
                    with_file (take k (dev_data d) ++ drop k (dev_file d)) d)
  end.

Definition Sync : M BlockDevice unit :=
  checkFault (mkOperation "sync" 0) ;;
  dirty ← gets dev_dirty;
  if negb dirty then mret tt
  else
    o ← osCall OsOpen;
    match o with
    | Some (e, _) => throw (Wrapf "disk: sync open %s: %w" [] e)
    | None =>
        w ← osCall OsWriteAt;
        writeImage w ;;
        s ← osCall OsFsync;
        match s with
        | Some (e, _) => throw (Wrapf "disk: fsync %s: %w" [] e)
        | None => modify (with_dirty false)
        end
    end.

Definition Close : M BlockDevice unit := Sync.

Definition SetFaultInjector (f : option injector) : M BlockDevice unit := modify (with_fault f).
Definition ClearFaultInjector : M BlockDevice unit := SetFaultInjector None.
Definition Size (d : BlockDevice) : Z := dev_size d.

Definition Snapshot (d : BlockDevice) : list block := dev_data d.

Fixpoint equalBytes (a b : list byte) : bool :=
  match a, b with
  | x :: a, y :: b => if Byte.eqb x y then equalBytes a b else false
  | _, _ => true
  end.
Definition equalBlock (a b : block) : bool :=
  if negb (Nat.eqb (length a) (length b)) then false else equalBytes a b.

(** The block addresses whose content differs from the snapshot, ascending. *)
Definition ChangedBlocks (snapshot : list block) : M BlockDevice (list Z) := fun d =>
  if negb (Nat.eqb (length snapshot) (length (dev_data d))) then
    (Err (Errorf "disk: snapshot size mismatch: got %d want %d"
       [Z.of_nat (length snapshot) * blockSize; Z.of_nat (length (dev_data d)) * blockSize]), d)
  else
    (Ok (Z.of_nat <$> filter (fun i => equalBlock (default [] (snapshot !! i))
                                         (default [] (dev_data d !! i)) = false)
                       (seq 0 (length (dev_data d)))), d).

Definition restoreOne (snapshot : list block) (addr : Z) : M BlockDevice unit :=
  n ← gets BlockCount;
  failIf (n <=? addr) (Errorf "disk: block %d out of range (max %d)" [addr; n - 1]) ;;
  modify (fun d => with_data
    (<[Z.to_nat addr := default zeroBlock (snapshot !! Z.to_nat addr)]> (dev_data d)) d).

Definition RestoreBlocks (snapshot : list block) (addrs : list Z) : M BlockDevice unit :=
  m ← gets (fun d => length (dev_data d));
  failIf (negb (Nat.eqb (length snapshot) m))
    (Errorf "disk: snapshot size mismatch: got %d want %d"
       [Z.of_nat (length snapshot) * blockSize; Z.of_nat m * blockSize]) ;;
  forEach (restoreOne snapshot) addrs ;;
  modify (with_dirty true).

Definition Reload : M BlockDevice unit :=
  o ← osCall OsOpen;
  match o with
  | Some (e, _) => throw (Wrapf "disk: reload open %s: %w" [] e)
  | None =>
      r ← osCall OsRead;
      match r with
      | Some (e, _) => throw (Wrapf "disk: reload read %s: %w" [] e)
      | None =>
          modify (fun d => with_data (dev_file d) d) ;;
          modify (with_dirty false)
      end
  end.

(** A crash loses the process: the next one starts from the file, with no
    injector. *)
Definition crash (d : BlockDevice) : BlockDevice :=
  mkDevice (dev_file d) (dev_size d) false (dev_file d) None None 0.

(** ** Well-formed devices *)

(** An image and its file hold [n] blocks of [BlockSize] bytes. *)
Definition wf_image (n : Z) (l : list block) : Prop :=
  Z.of_nat (length l) = n /\ Forall (fun b => length b = BlockLen) l.

Record wf_dev (d : BlockDevice) : Prop := {
  wf_size : exists n, 0 < n < 2 ^ 32 /\ dev_size d = n * blockSize /\
              wf_image n (dev_data d) /\ wf_image n (dev_file d);
}.

(** No operation of the device fails by itself. *)
Definition healthy (d : BlockDevice) : Prop := dev_fault d = None /\ dev_os d = None.

(** The content of a block. *)
Definition peek (d : BlockDevice) (addr : Z) : block :=
  default zeroBlock (dev_data d !! Z.to_nat addr).

Definition poke (addr : Z) (b : block) (d : BlockDevice) : BlockDevice :=
  with_dirty true (with_data (<[Z.to_nat addr := b]> (dev_data d)) d).

(** What every operation keeps of the device. *)
Record dev_evol (d d' : BlockDevice) : Prop := {
  ev_size : dev_size d' = dev_size d;
  ev_healthy : healthy d -> healthy d';
  ev_wf : wf_dev d -> wf_dev d';
}.

#[export] Instance dev_evol_preorder : PreOrder dev_evol.
Proof.
  split.
  - intros d. by split.
  - intros a b c [s1 h1 w1] [s2 h2 w2]. split; [congruence|auto|auto].
Qed.

(** The blocks outside [P] are left alone, and so is the backing file. *)
Record dev_only (P : Z -> Prop) (d d' : BlockDevice) : Prop := {
  do_evol : dev_evol d d';
  do_file : dev_file d' = dev_file d;
  do_frame : forall a, 0 <= a -> ~ P a -> peek d' a = peek d a;
}.

#[export] Instance dev_only_preorder P : PreOrder (dev_only P).
Proof.
  split.
  - intros d. by split.
  - intros a b c [e1 f1 g1] [e2 f2 g2]. split; [by transitivity b|congruence|].
    intros x Hx Hp. by rewrite g2 // g1.
Qed.

(** A clean device holds what its file holds. *)
Definition coherent (d : BlockDevice) : Prop := dev_dirty d = false -> dev_data d = dev_file d.

Lemma wf_BlockCount d : wf_dev d -> BlockCount d = Z.of_nat (length (dev_data d)).
Proof.
  intros [(n & Hn & Hs & [Hl _] & _)]. rewrite /BlockCount Hs /blockSize.
  rewrite Z.quot_mul // u32_small; lia.
Qed.

Lemma wf_peek d a : wf_dev d -> length (peek d a) = BlockLen.
Proof.
  intros [(n & Hn & Hs & [_ Hf] & _)]. rewrite /peek.
  destruct (dev_data d !! Z.to_nat a) as [b|] eqn:E; simpl; [|apply length_zeroBlock].
  rewrite ->Forall_lookup in Hf. by apply Hf in E.
Qed.

Lemma wf_insert d a b n :
  length b = BlockLen -> wf_image n (dev_data d) ->
  wf_image n (<[Z.to_nat a := b]> (dev_data d)).
Proof.
  intros Hb [Hl Hf]. split; [by rewrite length_insert|].
  by apply Forall_insert.
Qed.

Lemma with_data_wf d a b :
  length b = BlockLen -> wf_dev d -> wf_dev (with_data (<[Z.to_nat a := b]> (dev_data d)) d).
Proof.
  intros Hb [(n & Hn & Hs & Hd & Hf)]. constructor. exists n.
  split_and!; try done; try lia. by apply wf_insert.
Qed.

(** ** One step at a time *)

Lemma checkFault_keeps R op :
  PreOrder R -> (forall d, R d (with_tick d)) -> keeps R (checkFault op).
Proof.
  intros HR HT d. rewrite /checkFault. destruct (dev_fault d) as [f|]; simpl; [|reflexivity].
  destruct (f _ _); apply HT.
Qed.

Lemma osCall_keeps R c :
  PreOrder R -> (forall d, R d (with_tick d)) -> keeps R (osCall c).
Proof.
  intros HR HT d. rewrite /osCall. destruct (dev_os d) as [f|]; [apply HT|reflexivity].
Qed.

Lemma checkFault_healthy op d : healthy d -> checkFault op d = (Ok tt, d).
Proof. intros [H _]. by rewrite /checkFault H. Qed.

Lemma osCall_healthy c d : healthy d -> osCall c d = (Ok None, d).
Proof. intros [_ H]. by rewrite /osCall H. Qed.

Lemma tick_evol d : dev_evol d (with_tick d).
Proof. split; [done|done|]. intros [H]. by constructor. Qed.

Lemma tick_only P d : dev_only P d (with_tick d).
Proof. split; [apply tick_evol|done|done]. Qed.

#[export] Hint Resolve tick_evol tick_only : keeps.
#[export] Hint Extern 1 (keeps _ (checkFault _)) =>
  apply checkFault_keeps; [apply _|auto with keeps] : keeps.
#[export] Hint Extern 1 (keeps _ (osCall _)) =>
  apply osCall_keeps; [apply _|auto with keeps] : keeps.

Lemma ReadBlock_keeps P addr : keeps (dev_only P) (ReadBlock addr).
Proof.
  rewrite /ReadBlock. keeps_solve.
Qed.

Lemma poke_evol a b d : length b = BlockLen -> dev_evol d (poke a b d).
Proof.
  intros Hb. split; [done|done|]. intros Hwf.
  destruct (with_data_wf d a b Hb Hwf) as [(n & ?)]. constructor. by exists n.
Qed.

Lemma peek_poke_eq a b d :
  (Z.to_nat a < length (dev_data d))%nat -> peek (poke a b d) a = b.
Proof. intros. rewrite /peek /poke /= list_lookup_insert_eq //. Qed.

Lemma peek_poke_ne a b c d :
  0 <= a -> 0 <= c -> a <> c -> peek (poke a b d) c = peek d c.
Proof. intros. rewrite /peek /poke /= list_lookup_insert_ne //. lia. Qed.

Lemma WriteBlock_keeps (P : Z -> Prop) addr data :
  0 <= addr -> P addr -> keeps (dev_only P) (WriteBlock addr data).
Proof.
  intros Ha HP. rewrite /WriteBlock.
  apply keeps_bind; [apply _|eauto with keeps|].
  intros _ d. rewrite bind_gets /failIf /mbind /M_bind /modify.
  destruct (BlockCount d <=? addr); [done|].
  destruct (Z.of_nat (length data) =? blockSize) eqn:E; [|done]. simpl_bool.
  assert (length data = BlockLen) as Hl by (rewrite /blockSize in E; lia).
  simpl. change (dev_only P d (poke addr data d)).
  split; [by apply poke_evol|done|]. intros a Ha' Hn.
  rewrite peek_poke_ne //. by intros ->.
Qed.

#[export] Hint Resolve ReadBlock_keeps WriteBlock_keeps : keeps.

Lemma ReadBlock_ok d addr :
  healthy d -> addr < BlockCount d -> ReadBlock addr d = (Ok (peek d addr), d).
Proof.
  intros Hh Ha. rewrite /ReadBlock (bind_ok _ _ _ tt d) ?checkFault_healthy //.
  rewrite bind_gets bind_failIf_false //. apply Z.leb_gt. lia.
Qed.

Lemma WriteBlock_ok d addr b :
  healthy d -> addr < BlockCount d -> length b = BlockLen ->
  WriteBlock addr b d = (Ok tt, poke addr b d).
Proof.
  intros Hh Ha Hb. rewrite /WriteBlock (bind_ok _ _ _ tt d) ?checkFault_healthy //.
  rewrite bind_gets bind_failIf_false; [apply Z.leb_gt; lia|].
  rewrite bind_failIf_false; [by rewrite Hb|]. done.
Qed.

Lemma ReadBlock_out d addr :
  healthy d -> BlockCount d <= addr ->
  exists e, ReadBlock addr d = (Err e, d).
Proof.
  intros Hh Ha. rewrite /ReadBlock (bind_ok _ _ _ tt d) ?checkFault_healthy //.
  rewrite bind_gets /failIf /mbind /M_bind. apply Z.leb_le in Ha as ->. eauto.
Qed.

(** Reads and writes never panic. *)
Lemma checkFault_total op : total (checkFault op).
Proof. intros d. rewrite /checkFault. repeat case_match; done. Qed.

Lemma WriteBlock_total addr b : total (WriteBlock addr b).
Proof. rewrite /WriteBlock. repeat (apply total_bind; [|intros ?]); auto using checkFault_total, total_failIf; done. Qed.

Lemma ReadBlock_total addr : total (ReadBlock addr).
Proof. rewrite /ReadBlock. repeat (apply total_bind; [|intros ?]); auto using checkFault_total, total_failIf; done. Qed.

(** The injector decides: an operation it refuses has no effect. *)
Lemma WriteBlock_fault d addr b e f :
  dev_fault d = Some f -> f (dev_clock d) (mkOperation "write" addr) = Some e ->
  WriteBlock addr b d = (Err e, with_tick d).
Proof. intros H1 H2. rewrite /WriteBlock /checkFault /mbind /M_bind H1 H2. done. Qed.

Lemma poke_healthy a b d : healthy d -> healthy (poke a b d).
Proof. done. Qed.

Lemma poke_BlockCount a b d : BlockCount (poke a b d) = BlockCount d.
Proof. done. Qed.

Lemma poke_wf a b d : length b = BlockLen -> wf_dev d -> wf_dev (poke a b d).
Proof. intros Hb. by apply poke_evol. Qed.

Lemma length_poke a b d : length (dev_data (poke a b d)) = length (dev_data d).
Proof. apply length_insert. Qed.

Lemma wf_in_range d a :
  wf_dev d -> 0 <= a < BlockCount d -> (Z.to_nat a < length (dev_data d))%nat.
Proof. intros Hwf. rewrite wf_BlockCount //. lia. Qed.

(** ** The image as an array of bytes *)

Section uniform.
Context {A : Type} (k : nat).
Implicit Types (l : list (list A)).

Lemma length_concat_uniform l :
  Forall (fun b => length b = k) l -> length (concat l) = (length l * k)%nat.
Proof.
  induction 1 as [|b l Hb Hl IH]; [done|].
  rewrite /= length_app IH Hb. lia.
Qed.

Lemma concat_slice l i b :
  Forall (fun b => length b = k) l -> l !! i = Some b ->
  slice (i * k) k (concat l) = b.
Proof.
  intros Hf. revert i. induction Hf as [|x l Hx Hl IH]; intros i Hi; [done|].
  rewrite /slice /=. destruct i as [|i]; simplify_eq/=.
  - by rewrite drop_0 take_app_length.
  - rewrite drop_app_ge ?Hx; [lia|].
    rewrite (Nat.add_comm (length x)) Nat.add_sub. by apply IH.
Qed.

Lemma concat_insert l i b :
  Forall (fun b => length b = k) l -> (i < length l)%nat -> length b = k ->
  concat (<[i := b]> l) = splice (i * k) b (concat l).
Proof.
  intros Hf Hi Hb. rewrite -{2}(take_drop_middle l i (l !!! i)).
  { by apply list_lookup_lookup_total_lt. }
  rewrite insert_take_drop // !concat_app /= /splice.
  assert (length (concat (take i l)) = (i * k)%nat) as E.
  { rewrite length_concat_uniform; [by apply Forall_take|]. rewrite length_take. f_equal. lia. }
  assert (length (l !!! i) = k) as E2.
  { rewrite ->Forall_lookup in Hf. apply (Hf i). by apply list_lookup_lookup_total_lt. }
  rewrite take_app_length' ?E // drop_app E Hb.
  rewrite (drop_ge (concat (take i l))) ?E /=; [lia|].
  rewrite (Nat.add_comm (i * k)) Nat.add_sub drop_app_length' //.
Qed.

End uniform.

(** ** Lemmas on snapshots *)

Lemma equalBytes_spec a b : length a = length b -> equalBytes a b = true <-> a = b.
Proof.
  revert b. induction a as [|x a IH]; intros [|y b]; simpl; try done.
  intros [= Hl]; destruct (Byte.eqb x y) eqn:E.
  - apply Byte.byte_dec_bl in E as ->. rewrite IH //. naive_solver.
  - split; [done|]. intros [= -> ->]. by rewrite Byte.byte_dec_lb in E.
Qed.

Lemma equalBlock_spec a b : equalBlock a b = true <-> a = b.
Proof.
  rewrite /equalBlock. destruct (Nat.eqb (length a) (length b)) eqn:E; simpl.
  - apply Nat.eqb_eq in E. by apply equalBytes_spec.
  - split; [done|]. intros ->. by rewrite Nat.eqb_refl in E.
Qed.

(** The addresses [ChangedBlocks] returns. *)
Definition changed (snapshot data : list block) : list Z :=
  Z.of_nat <$> filter (fun i => equalBlock (default [] (snapshot !! i))
                                  (default [] (data !! i)) = false)
                 (seq 0 (length data)).

Lemma elem_of_changed snapshot data a :
  length snapshot = length data ->
  a ∈ changed snapshot data <->
  0 <= a < Z.of_nat (length data) /\ snapshot !! Z.to_nat a <> data !! Z.to_nat a.
Proof.
  intros Hl. rewrite /changed list_elem_of_fmap. split.
  - intros (i & -> & [He Hi%elem_of_seq]%list_elem_of_filter). split; [lia|].
    rewrite Nat2Z.id. destruct (lookup_lt_is_Some_2 snapshot i) as [x Hx]; [lia|].
    destruct (lookup_lt_is_Some_2 data i) as [y Hy]; [lia|].
    rewrite Hx Hy /= in He *. intros [= ->].
    assert (equalBlock y y = true) by by apply equalBlock_spec. congruence.
  - intros [Hr Hne]. exists (Z.to_nat a). split; [lia|].
    apply list_elem_of_filter. split; [|apply elem_of_seq; lia].
    destruct (lookup_lt_is_Some_2 snapshot (Z.to_nat a)) as [x Hx]; [lia|].
    destruct (lookup_lt_is_Some_2 data (Z.to_nat a)) as [y Hy]; [lia|].
    rewrite Hx Hy /= in Hne *. apply not_true_is_false. rewrite equalBlock_spec. congruence.
Qed.

Lemma ChangedBlocks_ok snapshot d :
  length snapshot = length (dev_data d) ->
  ChangedBlocks snapshot d = (Ok (changed snapshot (dev_data d)), d).
Proof. intros H. by rewrite /ChangedBlocks H Nat.eqb_refl. Qed.

(** The data after the writes of [RestoreBlocks]. *)
Definition restored (snapshot : list block) (addrs : list Z) (data : list block) : list block :=
  foldl (fun l a => <[Z.to_nat a := default zeroBlock (snapshot !! Z.to_nat a)]> l) data addrs.

Lemma forEach_restoreOne snapshot addrs d :
  Forall (fun a => a < BlockCount d) addrs ->
  forEach (restoreOne snapshot) addrs d
  = (Ok tt, with_data (restored snapshot addrs (dev_data d)) d).
Proof.
  revert d. induction addrs as [|a addrs IH]; intros d Hf; [by destruct d|].
  apply Forall_cons in Hf as [Ha Hf]. simpl.
  set (d1 := with_data (<[Z.to_nat a:=default zeroBlock (snapshot !! Z.to_nat a)]> (dev_data d)) d).
  rewrite (bind_ok _ _ _ tt d1).
  { rewrite /restoreOne bind_gets bind_failIf_false //. apply Z.leb_gt. lia. }
  rewrite IH //.
Qed.

Lemma RestoreBlocks_ok snapshot addrs d :
  length snapshot = length (dev_data d) ->
  Forall (fun a => a < BlockCount d) addrs ->
  RestoreBlocks snapshot addrs d
  = (Ok tt, with_dirty true (with_data (restored snapshot addrs (dev_data d)) d)).
Proof.
  intros Hl Hf. rewrite /RestoreBlocks bind_gets Hl bind_failIf_false ?Nat.eqb_refl //.
  rewrite (bind_ok _ _ _ tt (with_data (restored snapshot addrs (dev_data d)) d)) //.
  by apply forEach_restoreOne.
Qed.

Lemma length_restored snapshot addrs data :
  length (restored snapshot addrs data) = length data.
Proof.
  rewrite /restored. revert data. induction addrs as [|a addrs IH]; intros data; [done|].
  by rewrite /= IH length_insert.
Qed.

Lemma lookup_restored snapshot addrs data i :
  length snapshot = length data -> Forall (fun a => 0 <= a) addrs -> (i < length data)%nat ->
  restored snapshot addrs data !! i
  = if decide (Z.of_nat i ∈ addrs) then snapshot !! i else data !! i.
Proof.
  intros Hl Hp Hi. rewrite /restored. revert data Hl Hi.
  induction Hp as [|a addrs Ha Hp IH]; intros data Hl Hi; simpl.
  { done. }
  rewrite IH ?length_insert //. destruct (decide (Z.of_nat i ∈ addrs)) as [H|H].
  { rewrite decide_True //. set_solver. }
  destruct (decide (a = Z.of_nat i)) as [->|Hne].
  - rewrite decide_True; [set_solver|]. rewrite Nat2Z.id list_lookup_insert_eq //.
    destruct (lookup_lt_is_Some_2 snapshot i) as [x Hx]; [lia|]. by rewrite Hx.
  - rewrite decide_False; [set_solver|]. rewrite list_lookup_insert_ne //. lia.
Qed.

Lemma restored_changed snapshot data :
  length snapshot = length data -> restored snapshot (changed snapshot data) data = snapshot.
Proof.
  intros Hl. apply list_eq. intros i. destruct (decide (i < length data)%nat) as [Hi|Hi].
  - rewrite lookup_restored //.
    { apply Forall_forall. intros a Ha. apply elem_of_changed in Ha; [lia|done]. }
    destruct (decide _) as [H|H]; [done|].
    destruct (decide (snapshot !! i = data !! i)) as [->|Hne]; [done|].
    destruct H. apply elem_of_changed; [done|]. rewrite Nat2Z.id. split; [lia|done].
  - rewrite !lookup_ge_None_2 ?length_restored //; lia.
Qed.

(** ** Durability *)

Lemma Sync_ok d :
  healthy d -> Sync d = (Ok tt, if dev_dirty d
                                then with_dirty false (with_file (dev_data d) d) else d).
Proof.
  intros Hh. rewrite /Sync (bind_ok _ _ _ tt d) ?checkFault_healthy // bind_gets.
  destruct (dev_dirty d); [|done]. simpl.
  do 2 (rewrite (bind_ok _ _ _ None d) ?osCall_healthy //).
  rewrite /mbind /M_bind /writeImage osCall_healthy //.
Qed.

(** A file after a failed write: every block is the new one or the old one. *)
Definition torn (data file file' : list block) : Prop :=
  exists k, file' = take k data ++ drop k file.

Lemma Sync_cases d :
  match Sync d with
  | (Ok _, d') => dev_data d' = dev_data d /\ dev_dirty d' = false /\
      dev_file d' = (if dev_dirty d then dev_data d else dev_file d)
  | (Err _, d') => dev_data d' = dev_data d /\ dev_dirty d' = dev_dirty d /\
      torn (dev_data d) (dev_file d) (dev_file d')
  | (Panic, _) => False
  end.
Proof.
  assert (torn (dev_data d) (dev_file d) (dev_file d)) as Hsame by by exists 0%nat.
  assert (torn (dev_data d) (dev_file d) (dev_data d) ) as Hall.
  { exists (length (dev_data d) + length (dev_file d))%nat.
    rewrite take_ge; [lia|]. rewrite drop_ge; [lia|]. by rewrite app_nil_r. }
  destruct d as [data size dirty file fault os clock].
  rewrite /Sync /checkFault /osCall /writeImage /mbind /M_bind /gets /=.
  destruct fault as [f|]; [destruct (f _ _)|]; simpl; try done;
    destruct dirty; simpl; try done;
    destruct os as [o|]; simpl; try done;
    destruct (o _ OsOpen) as [[]|]; simpl; try done;
    destruct (o _ OsWriteAt) as [[e k]|]; simpl;
    try (split_and!; [done|done|by exists k]);
    destruct (o _ OsFsync) as [[]|]; simpl; done.
Qed.

Lemma Sync_evol : keeps dev_evol Sync.
Proof.
  intros d. split.
  - rewrite /Sync /checkFault /osCall /writeImage /mbind /M_bind /gets /=.
    repeat (case_match; simplify_eq/=; try done).
  - intros Hh. rewrite Sync_ok //=. by destruct (dev_dirty d).
  - intros Hwf. pose proof (Sync_cases d) as Hc.
    assert (dev_size (Sync d).2 = dev_size d) as Hsz.
    { rewrite /Sync /checkFault /osCall /writeImage /mbind /M_bind /gets /=.
      repeat (case_match; simplify_eq/=; try done). }
    destruct Hwf as [(n & Hn & Hs & [Hl1 Hf1] & [Hl2 Hf2])]. constructor. exists n.
    destruct (Sync d) as [[[]|e|] d']; [| |done]; simpl in *.
    + destruct Hc as (-> & _ & ->). rewrite Hsz. by destruct (dev_dirty d).
    + destruct Hc as (-> & _ & (k & ->)). rewrite Hsz. split_and!; try done; try lia.
      split.
      * rewrite length_app length_take length_drop. lia.
      * apply Forall_app. split; [by apply Forall_take|by apply Forall_drop].
Qed.

(** A formatted-size device with no backing file yet, as [NewBlockDevice]
    makes it. *)
Definition blank (n : nat) : BlockDevice :=
  mkDevice (replicate n zeroBlock) (Z.of_nat n * blockSize) false (replicate n zeroBlock) None None 0.

Lemma wf_blank n : 0 < Z.of_nat n < 2 ^ 32 -> wf_dev (blank n).
Proof.
  intros Hn. constructor. exists (Z.of_nat n).
  assert (wf_image (Z.of_nat n) (replicate n zeroBlock)) as H.
  { split; [by rewrite length_replicate|]. apply Forall_replicate. apply length_zeroBlock. }
  done.
Qed.

Lemma BlockCount_blank n : 0 < Z.of_nat n < 2 ^ 32 -> BlockCount (blank n) = Z.of_nat n.
Proof. intros Hn. rewrite wf_BlockCount ?length_replicate //. by apply wf_blank. Qed.

Lemma NewBlockDevice_blank n :
  0 < Z.of_nat n -> NewBlockDevice None (Z.of_nat n * blockSize) = Ok (blank n).
Proof.
  intros Hn. rewrite /NewBlockDevice /blank /blockSize.
  replace (Z.of_nat n * 4096 <=? 0) with false by (symmetry; apply Z.leb_gt; lia).
  rewrite Z.rem_mul //= Z.div_mul // Nat2Z.id //.
Qed.

Lemma peek_blank n a : peek (blank n) a = zeroBlock.
Proof.
  rewrite /peek /=. destruct (replicate n zeroBlock !! Z.to_nat a) eqn:E; [|done].
  by apply lookup_replicate in E as [-> _].
Qed.

(** ** Properties *)

(** C27: the device refines a flat array of bytes: on a healthy device and an
    address in range, [ReadBlock] returns the bytes [addr*4096 ..
    addr*4096+4095] of the image and [WriteBlock] overwrites exactly those. *)
Theorem device_refines_flat d addr b :
  wf_dev d -> healthy d -> 0 <= addr < BlockCount d -> length b = BlockLen ->
  let off := (Z.to_nat addr * BlockLen)%nat in
  ReadBlock addr d = (Ok (slice off BlockLen (flat d)), d) /\
  flat (WriteBlock addr b d).2 = splice off b (flat d).
Proof.
  intros Hwf Hh Ha Hb off. pose proof (wf_in_range _ _ Hwf Ha) as Hr.
  pose proof Hwf as [(n & Hn & Hs & [Hl Hf] & _)]. split.
  - rewrite ReadBlock_ok //; [lia|]. rewrite /flat /off. do 2 f_equal.
    rewrite /peek. destruct (lookup_lt_is_Some_2 _ _ Hr) as [x Hx]. rewrite Hx /=.
    by erewrite concat_slice.
  - rewrite WriteBlock_ok //; [lia|]. by apply concat_insert.
Qed.

(** [ChangedBlocks] returns exactly the addresses whose content differs
    from the snapshot, and restoring those blocks brings the snapshot back. *)
Theorem restore_changed_blocks snapshot d :
  wf_dev d -> length snapshot = length (dev_data d) ->
  exists addrs d',
    ChangedBlocks snapshot d = (Ok addrs, d) /\
    (forall a, a ∈ addrs <-> 0 <= a < BlockCount d /\
                           snapshot !! Z.to_nat a <> dev_data d !! Z.to_nat a) /\
    RestoreBlocks snapshot addrs d = (Ok tt, d') /\
    dev_data d' = snapshot /\ dev_file d' = dev_file d.
Proof.
  intros Hwf Hl. exists (changed snapshot (dev_data d)).
  exists (with_dirty true (with_data snapshot d)). split_and!; [by apply ChangedBlocks_ok| | |done..].
  - intros a. rewrite wf_BlockCount //. by apply elem_of_changed.
  - rewrite RestoreBlocks_ok //; [|by rewrite restored_changed].
    apply Forall_forall. intros a Ha. apply elem_of_changed in Ha; [|done].
    rewrite wf_BlockCount //. lia.
Qed.


(** ** Witnesses *)

Example device_refines_flat_witness :
  let b := replicate BlockLen Byte.x01 in
  ReadBlock 1 (blank 3) = (Ok (slice 4096 BlockLen (flat (blank 3))), blank 3) /\
  flat (WriteBlock 1 b (blank 3)).2 = splice 4096 b (flat (blank 3)).
Proof.
  apply (device_refines_flat (blank 3) 1 (replicate BlockLen Byte.x01)).
  - by apply wf_blank.
  - done.
  - done.
  - apply length_replicate.
Defined.

Example restore_changed_blocks_witness :
  let d := poke 1 (replicate BlockLen Byte.x01) (blank 3) in
  exists addrs d',
    ChangedBlocks (replicate 3 zeroBlock) d = (Ok addrs, d) /\
    (forall a, a ∈ addrs <-> 0 <= a < BlockCount d /\
                           replicate 3 zeroBlock !! Z.to_nat a <> dev_data d !! Z.to_nat a) /\
    RestoreBlocks (replicate 3 zeroBlock) addrs d = (Ok tt, d') /\
    dev_data d' = replicate 3 zeroBlock /\ dev_file d' = dev_file d.
Proof.
  apply (restore_changed_blocks (replicate 3 zeroBlock) (poke 1 (replicate BlockLen Byte.x01) (blank 3))).
  - apply poke_wf; [apply length_replicate|by apply wf_blank].
  - done.
Defined.

