(* ===== verification/Bitmap.v ===== *)
(** * Bitmap: the allocation bitmaps of [internal/fs/bitmap.go]

    A bitmap is the byte array of the code with its number of bits.  Words
    are 64-bit integers read little-endian, as the scan of the code does.
    A bit index beyond the byte array panics in Go; [wf_bitmap], which both
    constructors establish for the sizes the program uses, excludes it. *)

From S2P Require Export Disk.

Record Bitmap : Type := mkBitmap { bits : list byte; size : Z }.

(** ** Operations *)

Definition NewBitmap (n : Z) : Bitmap := mkBitmap (zeros (Z.to_nat ((n + 7) / 8))) n.

Definition NewBitmapFromBytes (data : list byte) (n : Z) : Bitmap := mkBitmap data n.

(** [b.bits[i]] as an integer. *)
Definition byteAt (b : Bitmap) (i : Z) : Z := b2z (bits b !!! Z.to_nat i).

Definition IsSet (b : Bitmap) (n : Z) : bool :=
  if size b <=? n then false
  else negb (Z.land (byteAt b (n / 8)) (Z.shiftl 1 (n mod 8)) =? 0).

Definition setByte (b : Bitmap) (i : Z) (v : Z) : Bitmap :=
  mkBitmap (<[Z.to_nat i := z2b v]> (bits b)) (size b).

Definition SetBit (b : Bitmap) (n : Z) : Bitmap :=
  if size b <=? n then b
  else setByte b (n / 8) (Z.lor (byteAt b (n / 8)) (Z.shiftl 1 (n mod 8))).

Definition Clear (b : Bitmap) (n : Z) : Bitmap :=
  if size b <=? n then b
  else setByte b (n / 8) (Z.ldiff (byteAt b (n / 8)) (Z.shiftl 1 (n mod 8))).

(** [for i := 0; i < 8 && byteBase+i < len(b.bits); i++ { word |= ... }] *)
Fixpoint buildWord (fuel : nat) (i byteBase : Z) (b : Bitmap) (word : Z) : Z :=
  match fuel with
  | O => word
  | S fuel =>
      if (i <? 8) && (byteBase + i <? Z.of_nat (length (bits b)))
      then buildWord fuel (i + 1) byteBase b
             (Z.lor word (u64 (Z.shiftl (byteAt b (byteBase + i)) (i * 8))))
      else word
  end.
Definition wordAt (b : Bitmap) (w : Z) : Z := buildWord 8 0 (w * 8) b 0.

(** [^word] on 64 bits. *)
Definition not64 (z : Z) : Z := Z.lxor z (2 ^ 64 - 1).

(** [bits.TrailingZeros64] and [bits.OnesCount64] *)
Fixpoint ctz_pos (p : positive) : Z :=
  match p with
  | xO q => 1 + ctz_pos q
  | _ => 0
  end.
Definition TrailingZeros64 (z : Z) : Z :=
  match z with
  | Zpos p => ctz_pos p
  | _ => 64
  end.
Fixpoint popcount_pos (p : positive) : Z :=
  match p with
  | xH => 1
  | xO q => popcount_pos q
  | xI q => 1 + popcount_pos q
  end.
Definition OnesCount (z : Z) : Z :=
  match z with
  | Zpos p => popcount_pos p
  | _ => 0
  end.

(** The free bits of word [w], those below [start] masked out. *)
Definition freeWord (b : Bitmap) (start w : Z) : Z :=
  let inv := not64 (wordAt b w) in
  if (w =? start / 64) && (0 <? start mod 64)
  then Z.land inv (not64 (Z.shiftl 1 (start mod 64) - 1))
  else inv.

(** The loop over the words [w <= nWords]; the fuel is the number of words
    left, so the loop ends with the test of the code. *)
Fixpoint scanWords (fuel : nat) (b : Bitmap) (start w nWords : Z) : Z * bool :=
  match fuel with
  | O => (0, false)
  | S fuel =>
      if w <=? nWords then
        let inv := freeWord b start w in
        if inv =? 0 then scanWords fuel b start (w + 1) nWords
        else
          let idx := u32 (w * 64 + TrailingZeros64 inv) in
          if idx <? size b then (idx, true)
          else scanWords fuel b start (w + 1) nWords
      else (0, false)
  end.

Definition FindNext (b : Bitmap) (start : Z) : Z * bool :=
  let wordIdx := start / 64 in
  let nWords := u32 (Z.of_nat (length (bits b)) + 7) / 8 in
  scanWords (Z.to_nat (nWords + 1 - wordIdx)) b start wordIdx nWords.

Definition FindFirst (b : Bitmap) : Z * bool := FindNext b 0.

(** The words, then the bytes that are left. *)
Fixpoint countBytes (l : list byte) : Z :=
  match l with
  | b0 :: b1 :: b2 :: b3 :: b4 :: b5 :: b6 :: b7 :: l' =>
      let word := Z.lor (b2z b0) (Z.shiftl (b2z b1) 8) in
      let word := Z.lor word (Z.shiftl (b2z b2) 16) in
      let word := Z.lor word (Z.shiftl (b2z b3) 24) in
      let word := Z.lor word (Z.shiftl (b2z b4) 32) in
      let word := Z.lor word (Z.shiftl (b2z b5) 40) in
      let word := Z.lor word (Z.shiftl (b2z b6) 48) in
      let word := Z.lor word (Z.shiftl (b2z b7) 56) in
      OnesCount word + countBytes l'
  | _ => foldr (fun b n => OnesCount (b2z b) + n) 0 l
  end.
Definition Count (b : Bitmap) : Z := u32 (countBytes (bits b)).

(** [Bytes] is [bits].  The on-disk bitmaps are one block each. *)
Definition bitmapBlock (bm : Bitmap) : block :=
  let l := take BlockLen (bits bm) in l ++ zeros (BlockLen - length l).

Definition ReadBlockBitmap : M BlockDevice Bitmap :=
  blk ← wrapErr "bitmap: read block bitmap: %w" [] (ReadBlock BlockBitmapAddr);
  mret (NewBitmapFromBytes blk TotalBlocks).

Definition WriteBlockBitmap (bm : Bitmap) : M BlockDevice unit :=
  WriteBlock BlockBitmapAddr (bitmapBlock bm).

Definition ReadInodeBitmap : M BlockDevice Bitmap :=
  blk ← wrapErr "bitmap: read inode bitmap: %w" [] (ReadBlock InodeBitmapAddr);
  mret (NewBitmapFromBytes blk InodeCount).

Definition WriteInodeBitmap (bm : Bitmap) : M BlockDevice unit :=
  WriteBlock InodeBitmapAddr (bitmapBlock bm).

(** ** Specification *)

(** Every bit has its byte, and the indices of the scan stay in 32 bits. *)
Definition wf_bitmap (b : Bitmap) : Prop :=
  0 <= size b <= 8 * Z.of_nat (length (bits b)) /\ Z.of_nat (length (bits b)) < 2 ^ 28.

(** Bit [n] of the byte array, with no bound. *)
Definition bit (b : Bitmap) (n : Z) : bool := Z.testbit (byteAt b (n / 8)) (n mod 8).

(** The number of clear bits. *)
Definition freeCount (b : Bitmap) : Z :=
  Z.of_nat (length (filter (fun n => IsSet b n = false) (seqZ 0 (size b)))).

(** ** Bits of machine words *)

Lemma testbit_high z k i : 0 <= z < 2 ^ k -> k <= i -> Z.testbit z i = false.
Proof.
  intros Hz Hi. destruct (decide (0 <= k)).
  - rewrite -(Z.mod_small z (2 ^ k)) //. by apply Z.mod_pow2_bits_high.
  - rewrite Z.pow_neg_r in Hz; lia.
Qed.

Lemma byte_testbit_high b i : 8 <= i -> Z.testbit (b2z b) i = false.
Proof. apply testbit_high. apply b2z_range. Qed.

Lemma land_pow2_zero z k :
  0 <= k -> (Z.land z (Z.shiftl 1 k) =? 0) = negb (Z.testbit z k).
Proof.
  intros Hk. rewrite Z.shiftl_1_l. destruct (Z.testbit z k) eqn:E; simpl.
  - apply Z.eqb_neq. intros H. apply (f_equal (fun x => Z.testbit x k)) in H.
    by rewrite Z.land_spec E Z.pow2_bits_true // Z.bits_0 in H.
  - apply Z.eqb_eq. apply Z.bits_inj'. intros j Hj.
    rewrite Z.land_spec Z.pow2_bits_eqb // Z.bits_0.
    destruct (Z.eqb_spec k j) as [<-|]; [by rewrite E|by rewrite andb_false_r].
Qed.

Lemma ones_bits k i : 0 <= k -> 0 <= i -> Z.testbit (2 ^ k - 1) i = (i <? k).
Proof.
  intros Hk Hi. rewrite Z.sub_1_r -Z.ones_equiv.
  destruct (Z.ltb_spec i k); [by apply Z.ones_spec_low|by apply Z.ones_spec_high].
Qed.

Lemma not64_bits z i : 0 <= i < 64 -> Z.testbit (not64 z) i = negb (Z.testbit z i).
Proof.
  intros Hi. rewrite /not64 Z.lxor_spec ones_bits; [lia..|].
  replace (i <? 64) with true by (symmetry; apply Z.ltb_lt; lia). by destruct (Z.testbit z i).
Qed.

Lemma not64_bits_high z i : 0 <= z < 2 ^ 64 -> 64 <= i -> Z.testbit (not64 z) i = false.
Proof.
  intros Hz Hi. rewrite /not64 Z.lxor_spec ones_bits; [lia..|].
  rewrite (testbit_high z 64) //. by apply Z.ltb_ge.
Qed.

Lemma not64_nonneg z : 0 <= z -> 0 <= not64 z.
Proof. intros. rewrite /not64. apply Z.lxor_nonneg. lia. Qed.

Lemma ctz_pos_spec p :
  0 <= ctz_pos p /\ Z.testbit (Zpos p) (ctz_pos p) = true /\
  forall i, 0 <= i < ctz_pos p -> Z.testbit (Zpos p) i = false.
Proof.
  induction p as [p IH|p IH|].
  - split; [done|]. split; [done|]. simpl. lia.
  - destruct IH as (H0 & H1 & H2). cbn [ctz_pos]. split; [lia|].
    rewrite Pos2Z.inj_xO. split.
    + rewrite Z.add_1_l Z.testbit_even_succ //.
    + intros i Hi. destruct (decide (i = 0)) as [->|]; [by rewrite Z.testbit_even_0|].
      replace i with (Z.succ (i - 1)) by lia. rewrite Z.testbit_even_succ; [lia|].
      apply H2. lia.
  - split; [done|]. split; [done|]. simpl. lia.
Qed.

Lemma TrailingZeros64_spec z :
  0 < z -> Z.testbit z (TrailingZeros64 z) = true /\ 0 <= TrailingZeros64 z /\
  forall i, 0 <= i < TrailingZeros64 z -> Z.testbit z i = false.
Proof. destruct z as [|p|p]; [lia| |lia]. intros _. simpl. by destruct (ctz_pos_spec p) as (?&?&?). Qed.

(** ** Single bits *)

Lemma byteAt_range b i : 0 <= byteAt b i < 2 ^ 8.
Proof. apply b2z_range. Qed.

Lemma IsSet_bit b n : 0 <= n -> IsSet b n = (n <? size b) && bit b n.
Proof.
  intros Hn. rewrite /IsSet /bit Z.ltb_antisym. destruct (size b <=? n); [done|].
  rewrite land_pow2_zero ?negb_involutive //. apply Z.mod_pos_bound. lia.
Qed.

Lemma wf_setByte b i v : wf_bitmap b -> wf_bitmap (setByte b i v).
Proof. rewrite /wf_bitmap /setByte /= length_insert. done. Qed.

Lemma wf_SetBit b n : wf_bitmap b -> wf_bitmap (SetBit b n).
Proof. rewrite /SetBit. case_if; [done|]. apply wf_setByte. Qed.

Lemma wf_Clear b n : wf_bitmap b -> wf_bitmap (Clear b n).
Proof. rewrite /Clear. case_if; [done|]. apply wf_setByte. Qed.

Lemma size_SetBit b n : size (SetBit b n) = size b.
Proof. rewrite /SetBit. by case_if. Qed.

Lemma size_Clear b n : size (Clear b n) = size b.
Proof. rewrite /Clear. by case_if. Qed.

Lemma length_SetBit b n : length (bits (SetBit b n)) = length (bits b).
Proof. rewrite /SetBit. case_if; [done|]. apply length_insert. Qed.

Lemma length_Clear b n : length (bits (Clear b n)) = length (bits b).
Proof. rewrite /Clear. case_if; [done|]. apply length_insert. Qed.

Lemma byteAt_setByte b i j v :
  0 <= i < Z.of_nat (length (bits b)) -> 0 <= j -> 0 <= v < 2 ^ 8 ->
  byteAt (setByte b i v) j = if decide (i = j) then v else byteAt b j.
Proof.
  intros Hi Hj Hv. rewrite /byteAt /setByte /=. case_decide as E.
  - subst j. rewrite list_lookup_total_insert_eq; [lia|]. rewrite b2z_z2b. by apply Z.mod_small.
  - rewrite list_lookup_total_insert_ne //. lia.
Qed.

Lemma byte_lor_range x k : 0 <= x < 2 ^ 8 -> 0 <= k < 8 -> 0 <= Z.lor x (Z.shiftl 1 k) < 2 ^ 8.
Proof.
  intros Hx Hk.
  assert (0 <= Z.lor x (Z.shiftl 1 k)) as H0.
  { apply Z.lor_nonneg. rewrite Z.shiftl_1_l. lia. }
  split; [done|]. destruct (Z.eq_dec (Z.lor x (Z.shiftl 1 k)) 0) as [->|Hne]; [lia|].
  apply Z.log2_lt_pow2; [lia|]. rewrite Z.log2_lor; [lia|rewrite Z.shiftl_1_l; lia|].
  apply Z.max_lub_lt.
  - destruct (decide (x = 0)) as [->|]; [done|]. apply Z.log2_lt_pow2; lia.
  - rewrite Z.shiftl_1_l Z.log2_pow2; lia.
Qed.

Lemma byte_ldiff_range x y : 0 <= x < 2 ^ 8 -> 0 <= y -> 0 <= Z.ldiff x y < 2 ^ 8.
Proof.
  intros Hx Hy.
  assert (0 <= Z.ldiff x y) as H0 by (apply Z.ldiff_nonneg; lia).
  split; [done|].
  assert (Z.ldiff x y <= x) as Hle; [|lia].
  apply Z.ldiff_le; [lia|]. apply Z.bits_inj'. intros i Hi.
  rewrite !Z.ldiff_spec Z.bits_0. by destruct (Z.testbit x i), (Z.testbit y i).
Qed.

Lemma div_mod_ne n m : 0 <= n -> 0 <= m -> n <> m -> n / 8 = m / 8 -> n mod 8 <> m mod 8.
Proof. intros. pose proof (Z.div_mod n 8). pose proof (Z.div_mod m 8). lia. Qed.

Lemma in_bytes b n : wf_bitmap b -> 0 <= n < size b -> 0 <= n / 8 < Z.of_nat (length (bits b)).
Proof.
  intros [H _] Hn. split; [apply Z.div_pos; lia|]. apply Z.div_lt_upper_bound; lia.
Qed.

Lemma bit_SetBit b n m :
  wf_bitmap b -> 0 <= n < size b -> 0 <= m ->
  bit (SetBit b n) m = if decide (m = n) then true else bit b m.
Proof.
  intros Hwf Hn Hm. rewrite /bit /SetBit.
  replace (size b <=? n) with false by (symmetry; apply Z.leb_gt; lia).
  pose proof (Z.mod_pos_bound n 8). pose proof (Z.mod_pos_bound m 8).
  rewrite byteAt_setByte; [by apply in_bytes|apply Z.div_pos; lia
    |apply byte_lor_range; [apply byteAt_range|lia]|].
  destruct (decide (n / 8 = m / 8)) as [E|E].
  - rewrite Z.lor_spec Z.shiftl_1_l Z.pow2_bits_eqb ?E; [lia|].
    destruct (decide (m = n)) as [->|Hne].
    + by rewrite Z.eqb_refl orb_true_r.
    + replace (n mod 8 =? m mod 8) with false; [by rewrite orb_false_r|].
      symmetry. apply Z.eqb_neq. apply div_mod_ne; lia.
  - rewrite decide_False //. congruence.
Qed.

Lemma bit_Clear b n m :
  wf_bitmap b -> 0 <= n < size b -> 0 <= m ->
  bit (Clear b n) m = if decide (m = n) then false else bit b m.
Proof.
  intros Hwf Hn Hm. rewrite /bit /Clear.
  replace (size b <=? n) with false by (symmetry; apply Z.leb_gt; lia).
  pose proof (Z.mod_pos_bound n 8). pose proof (Z.mod_pos_bound m 8).
  rewrite byteAt_setByte; [by apply in_bytes|apply Z.div_pos; lia
    |apply byte_ldiff_range; [apply byteAt_range|rewrite Z.shiftl_1_l; lia]|].
  destruct (decide (n / 8 = m / 8)) as [E|E].
  - rewrite Z.ldiff_spec Z.shiftl_1_l Z.pow2_bits_eqb ?E; [lia|].
    destruct (decide (m = n)) as [->|Hne].
    + by rewrite Z.eqb_refl andb_false_r.
    + replace (n mod 8 =? m mod 8) with false; [by rewrite andb_true_r|].
      symmetry. apply Z.eqb_neq. apply div_mod_ne; lia.
  - rewrite decide_False //. congruence.
Qed.

Lemma IsSet_SetBit b n m :
  wf_bitmap b -> 0 <= n < size b -> 0 <= m ->
  IsSet (SetBit b n) m = if decide (m = n) then true else IsSet b m.
Proof.
  intros Hwf Hn Hm. rewrite !IsSet_bit // size_SetBit bit_SetBit //.
  case_decide; [subst|done]. rewrite andb_true_r. apply Z.ltb_lt. lia.
Qed.

Lemma IsSet_Clear b n m :
  wf_bitmap b -> 0 <= n < size b -> 0 <= m ->
  IsSet (Clear b n) m = if decide (m = n) then false else IsSet b m.
Proof.
  intros Hwf Hn Hm. rewrite !IsSet_bit // size_Clear bit_Clear //.
  case_decide; [subst|done]. by rewrite andb_false_r.
Qed.

Lemma IsSet_in_range b n : IsSet b n = true -> n < size b.
Proof. rewrite /IsSet. case_if; [done|]. lia. Qed.

(** ** Words *)

Lemma lor_range k x y : 0 <= k -> 0 <= x < 2 ^ k -> 0 <= y < 2 ^ k -> 0 <= Z.lor x y < 2 ^ k.
Proof.
  intros Hk Hx Hy. assert (0 <= Z.lor x y) as H0 by (apply Z.lor_nonneg; lia).
  split; [done|]. destruct (Z.eq_dec (Z.lor x y) 0) as [->|Hne]; [lia|].
  apply Z.log2_lt_pow2; [lia|]. rewrite Z.log2_lor; [lia..|].
  assert (0 < k) as Hk'.
  { destruct (decide (k = 0)) as [->|]; [|lia]. destruct Hne.
    assert (x = 0) as -> by lia. assert (y = 0) as -> by lia. done. }
  apply Z.max_lub_lt.
  - destruct (decide (x = 0)) as [->|]; [done|]. apply Z.log2_lt_pow2; lia.
  - destruct (decide (y = 0)) as [->|]; [done|]. apply Z.log2_lt_pow2; lia.
Qed.

Lemma byteAt_out b i : Z.of_nat (length (bits b)) <= i -> byteAt b i = 0.
Proof.
  intros H. rewrite /byteAt list_lookup_total_alt lookup_ge_None_2 //. lia.
Qed.

Lemma shifted_byte_range b i k :
  0 <= k < 8 -> 0 <= Z.shiftl (byteAt b i) (k * 8) < 2 ^ 64.
Proof.
  intros Hk. pose proof (byteAt_range b i). rewrite Z.shiftl_mul_pow2; [lia|].
  assert (0 < 2 ^ (k * 8)) by (apply Z.pow_pos_nonneg; lia).
  split; [nia|]. replace 64 with (k * 8 + (64 - k * 8)) by lia.
  rewrite Z.pow_add_r; [lia..|].
  assert (2 ^ 8 <= 2 ^ (64 - k * 8)) by (apply Z.pow_le_mono_r; lia). nia.
Qed.

Lemma shifted_byte_bits b i k j :
  0 <= k -> 0 <= j -> Z.testbit (Z.shiftl (byteAt b i) (k * 8)) j
                      = (j / 8 =? k) && Z.testbit (byteAt b i) (j mod 8).
Proof.
  intros Hk Hj. rewrite Z.shiftl_spec //. pose proof (Z.div_mod j 8).
  pose proof (Z.mod_pos_bound j 8). destruct (Z.eqb_spec (j / 8) k) as [E|E]; simpl.
  - f_equal. lia.
  - destruct (decide (j < k * 8)).
    + apply Z.testbit_neg_r. lia.
    + apply byte_testbit_high. lia.
Qed.

Lemma buildWord_spec fuel i base b word :
  0 <= i -> 0 <= base -> i + Z.of_nat fuel = 8 -> 0 <= word < 2 ^ 64 ->
  0 <= buildWord fuel i base b word < 2 ^ 64 /\
  forall j, 0 <= j < 64 ->
    Z.testbit (buildWord fuel i base b word) j
    = Z.testbit word j || ((i <=? j / 8) && Z.testbit (byteAt b (base + j / 8)) (j mod 8)).
Proof.
  intros Hi Hb. revert i word Hi. induction fuel as [|fuel IH]; intros i word Hi Hf Hw; simpl.
  - split; [done|]. intros j Hj. assert (j / 8 < 8) by (apply Z.div_lt_upper_bound; lia).
    replace (i <=? j / 8) with false by (symmetry; apply Z.leb_gt; lia). by rewrite orb_false_r.
  - replace (i <? 8) with true by (symmetry; apply Z.ltb_lt; lia). simpl.
    destruct (Z.ltb_spec (base + i) (Z.of_nat (length (bits b)))) as [Hin|Hout].
    + rewrite (u64_small (Z.shiftl _ _)); [apply shifted_byte_range; lia|].
      destruct (IH (i + 1) (Z.lor word (Z.shiftl (byteAt b (base + i)) (i * 8)))) as [H1 H2];
        [lia|lia|apply lor_range; [lia|done|apply shifted_byte_range; lia]|].
      split; [done|]. intros j Hj. rewrite H2 // Z.lor_spec shifted_byte_bits; [lia..|].
      rewrite -orb_assoc. f_equal. destruct (Z.eqb_spec (j / 8) i) as [->|Hne].
      * replace (i + 1 <=? i) with false by (symmetry; apply Z.leb_gt; lia).
        by rewrite Z.leb_refl orb_false_r.
      * simpl. f_equal. destruct (Z.leb_spec (i + 1) (j / 8)), (Z.leb_spec i (j / 8)); lia || done.
    + split; [done|]. intros j Hj. destruct (Z.leb_spec i (j / 8)); simpl; [|by rewrite orb_false_r].
      rewrite byteAt_out; [lia|]. by rewrite Z.bits_0 orb_false_r.
Qed.

Lemma wordAt_spec b w :
  0 <= w -> 0 <= wordAt b w < 2 ^ 64 /\
  forall j, 0 <= j < 64 -> Z.testbit (wordAt b w) j = bit b (w * 64 + j).
Proof.
  intros Hw. destruct (buildWord_spec 8 0 (w * 8) b 0) as [H1 H2]; [lia..|].
  split; [exact H1|]. intros j Hj. rewrite /wordAt H2 // Z.bits_0 orb_false_l.
  replace (0 <=? j / 8) with true by (symmetry; apply Z.leb_le, Z.div_pos; lia).
  rewrite andb_true_l /bit. replace (w * 64 + j) with (j + (w * 8) * 8) by lia.
  rewrite Z.div_add // Z.mod_add //. do 2 f_equal. lia.
Qed.

Lemma freeWord_spec b start w :
  0 <= start -> start / 64 <= w ->
  0 <= freeWord b start w /\
  (forall j, 0 <= j < 64 ->
    Z.testbit (freeWord b start w) j = negb (bit b (w * 64 + j)) && (start <=? w * 64 + j)) /\
  (forall j, 64 <= j -> Z.testbit (freeWord b start w) j = false).
Proof.
  intros Hs Hw. assert (0 <= start / 64) by (apply Z.div_pos; lia).
  destruct (wordAt_spec b w) as [Hr Hb]; [lia|].
  pose proof (Z.div_mod start 64). pose proof (Z.mod_pos_bound start 64).
  rewrite /freeWord. destruct ((w =? start / 64) && (0 <? start mod 64)) eqn:E; simpl_bool.
  - split_and!.
    + apply Z.land_nonneg. left. apply not64_nonneg. lia.
    + intros j Hj. rewrite Z.land_spec !not64_bits // Z.shiftl_1_l ones_bits; [lia..|].
      rewrite Hb //. f_equal.
      destruct (Z.ltb_spec j (start mod 64)), (Z.leb_spec start (w * 64 + j)); lia || done.
    + intros j Hj. rewrite Z.land_spec not64_bits_high //.
  - split_and!.
    + apply not64_nonneg. lia.
    + intros j Hj. rewrite not64_bits // Hb //.
      replace (start <=? w * 64 + j) with true; [by rewrite andb_true_r|].
      symmetry. apply Z.leb_le. apply andb_false_iff in E as [E|E]; simpl_bool; lia.
    + intros j Hj. by apply not64_bits_high.
Qed.

(** What the scan of the code promises of the first clear bit from [start]. *)
Definition first_clear (b : Bitmap) (start : Z) (r : Z * bool) : Prop :=
  match r with
  | (idx, true) => start <= idx < size b /\ IsSet b idx = false /\
                   forall j, start <= j < idx -> IsSet b j = true
  | (idx, false) => idx = 0 /\ forall j, start <= j < size b -> IsSet b j = true
  end.

Lemma IsSet_true_bit b n : 0 <= n < size b -> IsSet b n = bit b n.
Proof. intros Hn. rewrite IsSet_bit; [lia|]. by replace (n <? size b) with true by (symmetry; apply Z.ltb_lt; lia). Qed.

Lemma scanWords_spec fuel b start w nWords :
  wf_bitmap b -> 0 <= start -> start / 64 <= w -> nWords < 2 ^ 25 + 1 ->
  size b <= (nWords + 1) * 64 -> nWords + 1 - w <= Z.of_nat fuel ->
  (forall j, start <= j < w * 64 -> bit b j = true \/ size b <= j) ->
  first_clear b start (scanWords fuel b start w nWords).
Proof.
  intros Hwf Hs Hw Hn Hsz Hf Hinv. revert w Hw Hf Hinv.
  assert (forall w, nWords < w -> (forall j, start <= j < w * 64 -> bit b j = true \/ size b <= j) ->
    first_clear b start (0, false)) as Hend.
  { intros w Hw Hinv. split; [done|]. intros j Hj. rewrite IsSet_true_bit; [lia|].
    destruct (Hinv j); lia || done. }
  assert (0 <= start / 64) by (apply Z.div_pos; lia).
  induction fuel as [|fuel IH]; intros w Hw Hf Hinv; simpl; [apply (Hend w); [lia|done]|].
  destruct (Z.leb_spec w nWords) as [Hle|Hgt]; [|by apply (Hend w)].
  destruct (freeWord_spec b start w) as (H0 & Hbits & Hhigh); [done..|].
  destruct (Z.eqb_spec (freeWord b start w) 0) as [Hz|Hnz].
  { apply IH; [lia|lia|]. intros j Hj. destruct (decide (j < w * 64)); [apply Hinv; lia|].
    left. specialize (Hbits (j - w * 64)). rewrite Hz Z.bits_0 in Hbits.
    replace (w * 64 + (j - w * 64)) with j in Hbits by lia.
    replace (start <=? j) with true in Hbits by (symmetry; apply Z.leb_le; lia).
    rewrite andb_true_r in Hbits. destruct (bit b j); [done|]. exfalso.
    by specialize (Hbits ltac:(lia)). }
  destruct (TrailingZeros64_spec (freeWord b start w)) as (Ht1 & Ht0 & Ht2); [lia|].
  set (t := TrailingZeros64 _) in *.
  assert (t < 64) as Ht64.
  { destruct (decide (t < 64)); [done|]. rewrite Hhigh // in Ht1. lia. }
  rewrite u32_small; [lia|]. rewrite Hbits in Ht1; [lia|].
  apply andb_true_iff in Ht1 as [Hb1%negb_true_iff Hb2%Z.leb_le].
  assert (forall j, start <= j < w * 64 + t -> bit b j = true \/ size b <= j) as Hbefore.
  { intros j Hj. destruct (decide (j < w * 64)); [apply Hinv; lia|]. left.
    assert (Z.testbit (freeWord b start w) (j - w * 64) = false) as Hx by (apply Ht2; lia).
    rewrite Hbits in Hx; [lia|]. replace (w * 64 + (j - w * 64)) with j in Hx by lia.
    replace (start <=? j) with true in Hx by (symmetry; apply Z.leb_le; lia).
    rewrite andb_true_r in Hx. by apply negb_false_iff in Hx. }
  destruct (Z.ltb_spec (w * 64 + t) (size b)) as [Hlt|Hge].
  - split; [lia|]. split; [rewrite IsSet_true_bit //; lia|].
    intros j Hj. rewrite IsSet_true_bit; [lia|]. destruct (Hbefore j); lia || done.
  - apply IH; [lia|lia|]. intros j Hj. destruct (decide (j < w * 64 + t)); [apply Hbefore; lia|].
    right. lia.
Qed.

Lemma FindNext_first_clear b start :
  wf_bitmap b -> 0 <= start -> first_clear b start (FindNext b start).
Proof.
  intros Hwf Hs. pose proof Hwf as [Hsz Hl]. rewrite /FindNext.
  rewrite u32_small; [lia|]. set (n := (Z.of_nat (length (bits b)) + 7) / 8).
  pose proof (Z.div_mod (Z.of_nat (length (bits b)) + 7) 8).
  pose proof (Z.mod_pos_bound (Z.of_nat (length (bits b)) + 7) 8).
  apply scanWords_spec; try done; try lia.
  intros j Hj. pose proof (Z.div_mod start 64). pose proof (Z.mod_pos_bound start 64). lia.
Qed.

(** ** Counting *)

Lemma OnesCount_double z : 0 <= z -> OnesCount (2 * z) = OnesCount z.
Proof. by destruct z as [|p|p]. Qed.

Lemma OnesCount_succ_double z : 0 <= z -> OnesCount (2 * z + 1) = 1 + OnesCount z.
Proof. by destruct z as [|p|p]. Qed.

Lemma OnesCount_add k a c :
  0 <= a < 2 ^ Z.of_nat k -> 0 <= c ->
  OnesCount (a + c * 2 ^ Z.of_nat k) = OnesCount a + OnesCount c.
Proof.
  revert a c. induction k as [|k IH]; intros a c Ha Hc.
  - assert (a = 0) as -> by lia. by rewrite Z.mul_1_r.
  - rewrite Nat2Z.inj_succ Z.pow_succ_r in Ha *; [lia|].
    set (p := 2 ^ Z.of_nat k) in *. pose proof (Z.div_mod a 2). pose proof (Z.mod_pos_bound a 2).
    assert (0 <= a / 2 < p) as Hq by lia.
    assert (0 <= c * p) by nia.
    destruct (decide (a mod 2 = 0)) as [E|E].
    + replace (a + c * (2 * p)) with (2 * (a / 2 + c * p)) by lia.
      rewrite OnesCount_double ?IH //; [lia|].
      by rewrite {2}(_ : a = 2 * (a / 2)) ?OnesCount_double; [lia|lia|].
    + replace (a + c * (2 * p)) with (2 * (a / 2 + c * p) + 1) by lia.
      rewrite OnesCount_succ_double ?IH //; [lia|].
      assert (OnesCount a = 1 + OnesCount (a / 2)) as ->; [|lia].
      rewrite {1}(_ : a = 2 * (a / 2) + 1) ?OnesCount_succ_double; lia.
Qed.

Lemma lor_shift_add a c k :
  0 <= k -> 0 <= a < 2 ^ k -> Z.lor a (Z.shiftl c k) = a + c * 2 ^ k.
Proof.
  intros Hk Ha. rewrite -Z.shiftl_mul_pow2 // Z.add_nocarry_lxor.
  - apply Z.bits_inj'. intros j Hj. rewrite Z.land_spec Z.shiftl_spec // Z.bits_0.
    destruct (decide (j < k)); [rewrite (Z.testbit_neg_r c); [lia|apply andb_false_r]|].
    rewrite (testbit_high a k); [done|lia|done].
  - apply Z.bits_inj'. intros j Hj. rewrite Z.lor_spec Z.lxor_spec !Z.shiftl_spec //.
    destruct (decide (j < k)).
    + rewrite (Z.testbit_neg_r c); [lia|]. by rewrite orb_false_r xorb_false_r.
    + rewrite (testbit_high a k); [done|lia|]. by destruct (Z.testbit c (j - k)).
Qed.

Lemma OnesCount_lor_byte n a b :
  0 <= a < 2 ^ Z.of_nat n ->
  OnesCount (Z.lor a (Z.shiftl (b2z b) (Z.of_nat n))) = OnesCount a + OnesCount (b2z b) /\
  0 <= Z.lor a (Z.shiftl (b2z b) (Z.of_nat n)) < 2 ^ Z.of_nat (n + 8).
Proof.
  intros Ha. pose proof (b2z_range b). rewrite lor_shift_add //; [lia..|].
  split; [apply OnesCount_add; lia|]. rewrite Nat2Z.inj_add Z.pow_add_r; [lia..|].
  assert (0 < 2 ^ Z.of_nat n) by lia. change (2 ^ Z.of_nat 8) with 256. nia.
Qed.

(** The words count what their bytes count. *)
Lemma countBytes_sum l : countBytes l = foldr (fun b n => OnesCount (b2z b) + n) 0 l.
Proof.
  remember (length l) as n eqn:Hn. revert l Hn.
  induction (lt_wf n) as [n _ IH]. intros l Hn.
  destruct l as [|b0 [|b1 [|b2 [|b3 [|b4 [|b5 [|b6 [|b7 l]]]]]]]];
    [clear; done..|]. cbn in Hn.
  cbn -[OnesCount Z.lor Z.shiftl b2z Z.add]. rewrite (IH (length l)) //; [lia|].
  pose proof (b2z_range b0) as H0.
  destruct (OnesCount_lor_byte 8 (b2z b0) b1) as [E1 H1]; [done|].
  destruct (OnesCount_lor_byte 16 _ b2 H1) as [E2 H2].
  destruct (OnesCount_lor_byte 24 _ b3 H2) as [E3 H3].
  destruct (OnesCount_lor_byte 32 _ b4 H3) as [E4 H4].
  destruct (OnesCount_lor_byte 40 _ b5 H4) as [E5 H5].
  destruct (OnesCount_lor_byte 48 _ b6 H5) as [E6 H6].
  destruct (OnesCount_lor_byte 56 _ b7 H6) as [E7 _].
  change (Z.of_nat 8) with 8 in *. change (Z.of_nat 16) with 16 in *.
  change (Z.of_nat 24) with 24 in *. change (Z.of_nat 32) with 32 in *.
  change (Z.of_nat 40) with 40 in *. change (Z.of_nat 48) with 48 in *.
  change (Z.of_nat 56) with 56 in *.
  rewrite E7 E6 E5 E4 E3 E2 E1. lia.
Qed.

Lemma byte_bits_count b :
  OnesCount (b2z b) = Z.of_nat (length (filter (fun i => Z.testbit (b2z b) i = true) (seqZ 0 8))).
Proof. by destruct b. Qed.

Lemma filter_fmap_length {A B} (f : A -> B) (P : B -> Prop) `{!forall x, Decision (P x)} (l : list A) :
  length (filter P (f <$> l)) = length (filter (fun x => P (f x)) l).
Proof.
  induction l as [|x l IH]; [done|]. rewrite fmap_cons !filter_cons.
  destruct (decide (P (f x))); simpl; by rewrite IH.
Qed.

Lemma filter_ext_in {A} (P Q : A -> Prop)
    `{!forall x, Decision (P x), !forall x, Decision (Q x)} (l : list A) :
  (forall x, x ∈ l -> P x <-> Q x) -> filter P l = filter Q l.
Proof.
  induction l as [|x l IH]; intros Hl; [done|]. rewrite !filter_cons.
  rewrite IH; [intros; apply Hl; set_solver|].
  assert (P x <-> Q x) as Hx by (apply Hl; set_solver).
  destruct (decide (P x)), (decide (Q x)); tauto.
Qed.

Lemma bit_cons_high x l s n :
  0 <= n -> bit (mkBitmap (x :: l) s) (8 + n) = bit (mkBitmap l s) n.
Proof.
  intros. rewrite /bit /byteAt. replace (8 + n) with (n + 1 * 8) by lia.
  rewrite Z.div_add // Z.mod_add //= Z2Nat.inj_add //; [by apply Z.div_pos; lia|].
  rewrite Nat.add_comm. done.
Qed.

Lemma count_bits l s :
  foldr (fun b n => OnesCount (b2z b) + n) 0 l
  = Z.of_nat (length (filter (fun n => bit (mkBitmap l s) n = true)
                        (seqZ 0 (8 * Z.of_nat (length l))))).
Proof.
  induction l as [|x l IH]; [done|]. simpl foldr.
  replace (8 * Z.of_nat (length (x :: l))) with (8 + 8 * Z.of_nat (length l)) by (simpl; lia).
  rewrite seqZ_app; [lia..|]. rewrite filter_app length_app Nat2Z.inj_add. f_equal.
  - rewrite byte_bits_count. by do 2 f_equal.
  - rewrite IH -(fmap_add_seqZ 8 0) filter_fmap_length. do 2 f_equal.
    apply filter_ext_in. intros n Hn%elem_of_seqZ. rewrite bit_cons_high //. lia.
Qed.

(** The bytes beyond the last bit hold no set bit. *)
Definition no_padding (b : Bitmap) : Prop := forall n, size b <= n -> bit b n = false.

Lemma filter_split_length {A} (f : A -> bool) l :
  (length (filter (fun x => f x = true) l) + length (filter (fun x => f x = false) l))%nat
  = length l.
Proof.
  induction l as [|x l IH]; [done|]. rewrite !filter_cons.
  destruct (f x); simpl; rewrite -IH; lia.
Qed.

Lemma filter_none {A} (P : A -> Prop) `{!forall x, Decision (P x)} (l : list A) :
  (forall x, x ∈ l -> ~ P x) -> filter P l = [].
Proof.
  induction l as [|x l IH]; intros Hl; [done|]. rewrite filter_cons decide_False; [set_solver|].
  apply IH. set_solver.
Qed.

Lemma Count_spec b :
  wf_bitmap b -> no_padding b -> Count b + freeCount b = size b.
Proof.
  intros [Hsz Hl] Hp. rewrite /Count countBytes_sum (count_bits _ (size b)).
  replace (8 * Z.of_nat (length (bits b)))
    with (size b + (8 * Z.of_nat (length (bits b)) - size b)) by lia.
  rewrite seqZ_app; [lia..|]. rewrite filter_app length_app.
  rewrite (filter_none _ (seqZ _ (8 * _ - _))).
  { intros n Hn%elem_of_seqZ. rewrite (_ : mkBitmap _ _ = b); [by destruct b|].
    rewrite Hp; [lia|done]. }
  simpl. rewrite Nat.add_0_r.
  assert (length (filter (fun n => bit (mkBitmap (bits b) (size b)) n = true) (seqZ 0 (size b)))
    = length (filter (fun n => IsSet b n = true) (seqZ 0 (size b)))) as ->.
  { f_equal. apply filter_ext_in. intros n Hn%elem_of_seqZ.
    rewrite IsSet_true_bit; [lia|]. by destruct b. }
  pose proof (filter_split_length (IsSet b) (seqZ 0 (size b))) as H.
  rewrite length_seqZ in H. rewrite u32_small /freeCount; lia.
Qed.

(** How the allocation and the release of one bit change the number of clear bits. *)
Lemma filter_toggle (f g : Z -> bool) n l :
  NoDup l -> n ∈ l -> f n = true -> g n = false -> (forall m, m ∈ l -> m <> n -> f m = g m) ->
  length (filter (fun m => g m = false) l) = S (length (filter (fun m => f m = false) l)).
Proof.
  intros Hnd. induction Hnd as [|x l Hx Hnd IH]; [set_solver|].
  intros Hin Hf Hg Hfg. rewrite !filter_cons.
  destruct (decide (x = n)) as [->|Hne].
  - rewrite Hf Hg /=. f_equal. f_equal. apply filter_ext_in. intros m Hm. rewrite Hfg //; [set_solver|].
    by intros ->.
  - assert (n ∈ l) by set_solver. rewrite (Hfg x) //; [set_solver|].
    specialize (IH H Hf Hg ltac:(set_solver)). destruct (decide (g x = false)); simpl; by rewrite IH.
Qed.

Lemma freeCount_SetBit b n :
  wf_bitmap b -> 0 <= n < size b -> IsSet b n = false ->
  freeCount (SetBit b n) = freeCount b - 1.
Proof.
  intros Hwf Hn Hc. rewrite /freeCount size_SetBit.
  rewrite (filter_toggle (IsSet (SetBit b n)) (IsSet b) n); [..|lia].
  - apply NoDup_seqZ.
  - apply elem_of_seqZ. lia.
  - rewrite IsSet_SetBit ?decide_True //; lia.
  - done.
  - intros m Hm%elem_of_seqZ Hne. rewrite IsSet_SetBit ?decide_False //; lia.
Qed.

Lemma freeCount_Clear b n :
  wf_bitmap b -> 0 <= n < size b -> IsSet b n = true ->
  freeCount (Clear b n) = freeCount b + 1.
Proof.
  intros Hwf Hn Hc. rewrite /freeCount size_Clear.
  rewrite (filter_toggle (IsSet b) (IsSet (Clear b n)) n); [..|lia].
  - apply NoDup_seqZ.
  - apply elem_of_seqZ. lia.
  - done.
  - rewrite IsSet_Clear ?decide_True //; lia.
  - intros m Hm%elem_of_seqZ Hne. rewrite IsSet_Clear ?decide_False //; lia.
Qed.

(** ** The bitmaps on disk *)

Lemma wf_NewBitmap n : 0 <= n < 2 ^ 30 -> wf_bitmap (NewBitmap n).
Proof.
  intros Hn. rewrite /wf_bitmap /NewBitmap /= length_zeros.
  pose proof (Z.div_mod (n + 7) 8). pose proof (Z.mod_pos_bound (n + 7) 8).
  assert (0 <= (n + 7) / 8) by (apply Z.div_pos; lia). rewrite Z2Nat.id //. lia.
Qed.

Lemma length_bitmapBlock bm : length (bitmapBlock bm) = BlockLen.
Proof. rewrite /bitmapBlock length_app length_zeros length_take. lia. Qed.

Lemma byteAt_bitmapBlock bm n i :
  (length (bits bm) <= BlockLen)%nat -> 0 <= i ->
  byteAt (NewBitmapFromBytes (bitmapBlock bm) n) i = byteAt bm i.
Proof.
  intros Hl Hi. rewrite /byteAt /NewBitmapFromBytes /bitmapBlock /=.
  rewrite take_ge //. rewrite !list_lookup_total_alt.
  destruct (decide (Z.to_nat i < length (bits bm))%nat) as [H|H].
  - rewrite lookup_app_l //.
  - rewrite lookup_app_r; [lia|]. rewrite (lookup_ge_None_2 (bits bm)); [lia|].
    destruct (zeros _ !! _) as [x|] eqn:E; [|done].
    apply lookup_replicate_1 in E as [-> _]. done.
Qed.

Lemma IsSet_bitmapBlock bm n :
  (length (bits bm) <= BlockLen)%nat -> 0 <= n ->
  IsSet (NewBitmapFromBytes (bitmapBlock bm) (size bm)) n = IsSet bm n.
Proof.
  intros Hl Hn. rewrite !IsSet_bit //. f_equal. rewrite /bit byteAt_bitmapBlock //.
  apply Z.div_pos; lia.
Qed.

Lemma WriteBlockBitmap_ok bm d :
  healthy d -> BlockBitmapAddr < BlockCount d ->
  WriteBlockBitmap bm d = (Ok tt, poke BlockBitmapAddr (bitmapBlock bm) d).
Proof. intros Hh Ha. apply WriteBlock_ok; [done|done|apply length_bitmapBlock]. Qed.

Lemma WriteInodeBitmap_ok bm d :
  healthy d -> InodeBitmapAddr < BlockCount d ->
  WriteInodeBitmap bm d = (Ok tt, poke InodeBitmapAddr (bitmapBlock bm) d).
Proof. intros Hh Ha. apply WriteBlock_ok; [done|done|apply length_bitmapBlock]. Qed.

Lemma ReadBlockBitmap_ok d :
  healthy d -> BlockBitmapAddr < BlockCount d ->
  ReadBlockBitmap d = (Ok (NewBitmapFromBytes (peek d BlockBitmapAddr) TotalBlocks), d).
Proof.
  intros Hh Ha. rewrite /ReadBlockBitmap (bind_ok _ _ _ (peek d BlockBitmapAddr) d) //.
  apply wrapErr_ok. by apply ReadBlock_ok.
Qed.

Lemma ReadInodeBitmap_ok d :
  healthy d -> InodeBitmapAddr < BlockCount d ->
  ReadInodeBitmap d = (Ok (NewBitmapFromBytes (peek d InodeBitmapAddr) InodeCount), d).
Proof.
  intros Hh Ha. rewrite /ReadInodeBitmap (bind_ok _ _ _ (peek d InodeBitmapAddr) d) //.
  apply wrapErr_ok. by apply ReadBlock_ok.
Qed.

Lemma WriteBlockBitmap_keeps P bm :
  P BlockBitmapAddr -> keeps (dev_only P) (WriteBlockBitmap bm).
Proof. intros HP. by apply WriteBlock_keeps. Qed.

Lemma WriteInodeBitmap_keeps P bm :
  P InodeBitmapAddr -> keeps (dev_only P) (WriteInodeBitmap bm).
Proof. intros HP. by apply WriteBlock_keeps. Qed.

#[export] Hint Resolve WriteBlockBitmap_keeps WriteInodeBitmap_keeps : keeps.

(** ** Properties *)

(** [FindNext] is correct on every well-formed bitmap and from every start:
    with [true] it returns the least clear bit at or after the start, below
    the size; with [false] there is none and the index is 0. *)
Theorem FindNext_correct b start :
  wf_bitmap b -> 0 <= start -> first_clear b start (FindNext b start).
Proof. apply FindNext_first_clear. Qed.

(** C29: [Count], which adds the set bits of 64-bit words and of the bytes left
    over, is the number of bits [IsSet] reports: with the clear bits it makes
    the size of the bitmap, when no padding bit is set. *)
Theorem Count_correct b :
  wf_bitmap b -> no_padding b -> Count b + freeCount b = size b.
Proof. apply Count_spec. Qed.

(** C30: a bitmap is a set of integers: [Set] adds its argument, [Clear] removes
    it, both leave the other bits, the size and the well-formedness alone,
    and an argument out of range changes nothing; the set survives a write
    to its block of the disk and a read back. *)
Theorem bitmap_is_a_set b n d :
  wf_bitmap b -> 0 <= n -> size b = TotalBlocks -> (length (bits b) <= BlockLen)%nat ->
  healthy d -> wf_dev d -> BlockBitmapAddr < BlockCount d ->
  (forall m, 0 <= m -> IsSet (SetBit b n) m = if decide (m = n /\ n < size b) then true else IsSet b m) /\
  (forall m, 0 <= m -> IsSet (Clear b n) m = if decide (m = n /\ n < size b) then false else IsSet b m) /\
  wf_bitmap (SetBit b n) /\ wf_bitmap (Clear b n) /\
  exists b', (ReadBlockBitmap (WriteBlockBitmap b d).2).1 = Ok b' /\ size b' = size b /\
             forall m, 0 <= m -> IsSet b' m = IsSet b m.
Proof.
  intros Hwf Hn Hs Hl Hh Hd Ha. split_and!.
  - intros m Hm. destruct (decide (n < size b)) as [Hlt|Hge].
    + rewrite IsSet_SetBit //. do 2 case_decide; tauto.
    + rewrite decide_False; [tauto|]. rewrite /SetBit.
      by replace (size b <=? n) with true by (symmetry; apply Z.leb_le; lia).
  - intros m Hm. destruct (decide (n < size b)) as [Hlt|Hge].
    + rewrite IsSet_Clear //. do 2 case_decide; tauto.
    + rewrite decide_False; [tauto|]. rewrite /Clear.
      by replace (size b <=? n) with true by (symmetry; apply Z.leb_le; lia).
  - by apply wf_SetBit.
  - by apply wf_Clear.
  - rewrite WriteBlockBitmap_ok // ReadBlockBitmap_ok //=.
    eexists. split; [done|]. split; [done|]. intros m Hm.
    rewrite peek_poke_eq; [by apply wf_in_range|]. rewrite -Hs. by apply IsSet_bitmapBlock.
Qed.

(** ** Witnesses *)

Example FindNext_correct_witness :
  first_clear (mkBitmap [Byte.xff; Byte.x0f] 14) 3 (12, true).
Proof. apply (FindNext_correct (mkBitmap [Byte.xff; Byte.x0f] 14) 3); done. Defined.

Example Count_correct_witness :
  let b := mkBitmap [Byte.xff; Byte.x0f] 16 in Count b = 12 /\ 12 + freeCount b = 16.
Proof.
  split; [reflexivity|]. apply (Count_correct (mkBitmap [Byte.xff; Byte.x0f] 16)); [done|].
  intros n Hn. rewrite /bit byteAt_out ?Z.bits_0 //.
  apply Z.div_le_lower_bound; [done|exact Hn].
Defined.

Example bitmap_is_a_set_witness :
  IsSet (SetBit (NewBitmap TotalBlocks) 2180) 2180 = true /\
  IsSet (Clear (NewBitmap TotalBlocks) 2180) 2181 = false.
Proof.
  destruct (bitmap_is_a_set (NewBitmap TotalBlocks) 2180 (blank 4)) as (H1 & H2 & _).
  - by apply wf_NewBitmap.
  - done.
  - done.
  - apply Nat.leb_le. reflexivity.
  - done.
  - by apply wf_blank.
  - done.
  - split.
    + rewrite H1; [done|]. case_decide as E; [done|]. by destruct E.
    + rewrite H2; [done|]. by case_decide.
Defined.
