(* ===== verification/Superblock.v ===== *)
(** * Superblock: [internal/fs/superblock.go]

    The superblock record, its little-endian encoding in one block, the
    validation of its magic numbers and its place on the disk. *)

From S2P Require Export Bitmap.

Record DiskSuperblock : Type := mkSuperblock {
  Magic : Z;
  sb_InodeCount : Z;
  sb_BlockCount : Z;
  FreeInodes : Z;
  FreeBlocks : Z;
  FirstDataBlock : Z;
  sb_BlockSize : Z;
  sb_InodeSize : Z;
  BlocksPerGroup : Z;
  MagicV2 : Z;
  State : Z;
  MountCount : Z;
  MaxMountCount : Z;
  LastMount : Z;
  LastWrite : Z;
  LastCheck : Z;
  InodeBitmapBlock : Z;
  BlockBitmapBlock : Z;
  InodeTableBlock : Z;
  sb_JournalStart : Z;
  JournalLength : Z;
  Version : Z;
  UUID : list byte;
  VolumeName : list byte;
}.

(** The writes of [encodeSuperblock], in its order. *)
Definition superblock_puts (sb : DiskSuperblock) : list put :=
  [ put32 0 (Magic sb); put32 4 (sb_InodeCount sb); put32 8 (sb_BlockCount sb);
    put32 12 (FreeInodes sb); put32 16 (FreeBlocks sb); put32 20 (FirstDataBlock sb);
    put32 24 (sb_BlockSize sb); put16 28 (sb_InodeSize sb);
    put32 32 (BlocksPerGroup sb); put32 36 (MagicV2 sb); put16 40 (State sb);
    put16 42 (MountCount sb); put16 44 (MaxMountCount sb);
    put32 48 (LastMount sb); put32 52 (LastWrite sb); put32 56 (LastCheck sb);
    put32 60 (InodeBitmapBlock sb); put32 64 (BlockBitmapBlock sb);
    put32 68 (InodeTableBlock sb); put32 72 (sb_JournalStart sb);
    put32 76 (JournalLength sb); put32 80 (Version sb);
    (84%nat, UUID sb); (100%nat, VolumeName sb) ].

Definition encodeSuperblock (sb : DiskSuperblock) (buf : list byte) : list byte :=
  putAll (superblock_puts sb) buf.

Definition decodeSuperblock (buf : list byte) : result DiskSuperblock :=
  if (length buf <? BlockLen)%nat then
    Err (Errorf "superblock: short buffer %d" [Z.of_nat (length buf)])
  else
    Ok (mkSuperblock (LEUint32 buf 0) (LEUint32 buf 4) (LEUint32 buf 8)
          (LEUint32 buf 12) (LEUint32 buf 16) (LEUint32 buf 20) (LEUint32 buf 24)
          (LEUint16 buf 28) (LEUint32 buf 32) (LEUint32 buf 36) (LEUint16 buf 40)
          (LEUint16 buf 42) (LEUint16 buf 44) (LEUint32 buf 48) (LEUint32 buf 52)
          (LEUint32 buf 56) (LEUint32 buf 60) (LEUint32 buf 64) (LEUint32 buf 68)
          (LEUint32 buf 72) (LEUint32 buf 76) (LEUint32 buf 80)
          (slice 84 16 buf) (slice 100 16 buf)).

Definition ReadSuperblock : M BlockDevice DiskSuperblock :=
  blk ← wrapErr "superblock: read block: %w" [] (ReadBlock SuperblockAddr);
  liftResult (decodeSuperblock blk).

Definition WriteSuperblock (sb : DiskSuperblock) : M BlockDevice unit :=
  WriteBlock SuperblockAddr (encodeSuperblock sb zeroBlock).

Definition Validate (sb : DiskSuperblock) : result unit :=
  if negb (Magic sb =? SuperblockMagic) then
    Err (Wrapf "superblock: bad magic 0x%X (want 0x%X): %w" [Magic sb; SuperblockMagic] ErrBadFS)
  else if negb (MagicV2 sb =? SuperblockMagicV2) then
    Err (Wrapf "superblock: bad magic v2 0x%X (want 0x%X): %w" [MagicV2 sb; SuperblockMagicV2] ErrBadFS)
  else if negb (sb_BlockSize sb =? BlockSize) then
    Err (Wrapf "superblock: unexpected block size %d: %w" [sb_BlockSize sb] ErrBadFS)
  else if negb (sb_InodeSize sb =? InodeSize) then
    Err (Wrapf "superblock: unexpected inode size %d: %w" [sb_InodeSize sb] ErrBadFS)
  else Ok tt.

(** ** Well-formed superblocks: every field fits its Go type *)

Definition u32_fields (sb : DiskSuperblock) : list Z :=
  [ Magic sb; sb_InodeCount sb; sb_BlockCount sb; FreeInodes sb; FreeBlocks sb;
    FirstDataBlock sb; sb_BlockSize sb; BlocksPerGroup sb; MagicV2 sb; LastMount sb;
    LastWrite sb; LastCheck sb; InodeBitmapBlock sb; BlockBitmapBlock sb;
    InodeTableBlock sb; sb_JournalStart sb; JournalLength sb; Version sb ].
Definition u16_fields (sb : DiskSuperblock) : list Z :=
  [ sb_InodeSize sb; State sb; MountCount sb; MaxMountCount sb ].

Definition wf_superblock (sb : DiskSuperblock) : Prop :=
  Forall is_u32 (u32_fields sb) /\ Forall is_u16 (u16_fields sb) /\
  length (UUID sb) = 16%nat /\ length (VolumeName sb) = 16%nat.

(** ** Lemmas *)

(** The two fields that are arrays in the code. *)
Definition wf_names (sb : DiskSuperblock) : Prop := length (UUID sb) = 16%nat /\ length (VolumeName sb) = 16%nat.

Lemma wf_superblock_names sb : wf_superblock sb -> wf_names sb.
Proof. by intros (_ & _ & ?). Qed.

Lemma superblock_layout sb n :
  wf_names sb -> (BlockLen <= n)%nat -> layout_ok n (extents (superblock_puts sb)) = true.
Proof.
  intros (H1 & H2) Hn.
  change (extents (superblock_puts sb)) with
    ([(0, 4); (4, 4); (8, 4); (12, 4); (16, 4); (20, 4); (24, 4); (28, 2); (32, 4); (36, 4);
      (40, 2); (42, 2); (44, 2); (48, 4); (52, 4); (56, 4); (60, 4); (64, 4); (68, 4); (72, 4);
      (76, 4); (80, 4); (84, length (UUID sb)); (100, length (VolumeName sb))]%nat).
  rewrite H1 H2. apply (layout_ok_mono BlockLen); [|done]. done.
Qed.

Lemma length_encodeSuperblock sb buf :
  wf_names sb -> (BlockLen <= length buf)%nat ->
  length (encodeSuperblock sb buf) = length buf.
Proof. intros Hwf Hl. apply length_putAll. by apply superblock_layout. Qed.

(** Reads back the field written by the [i]-th write of a buffer. *)
Ltac put_field H i :=
  first [ rewrite (LEUint32_putAll _ _ i _ _ H eq_refl)
        | rewrite (LEUint16_putAll _ _ i _ _ H eq_refl) ].

Lemma decode_encode_superblock sb buf :
  wf_superblock sb -> (BlockLen <= length buf)%nat ->
  decodeSuperblock (encodeSuperblock sb buf) = Ok sb.
Proof.
  intros Hwf Hl. pose proof (superblock_layout sb (length buf) (wf_superblock_names _ Hwf) Hl) as H.
  rewrite /decodeSuperblock (length_encodeSuperblock _ _ (wf_superblock_names _ Hwf)) // (proj2 (Nat.ltb_ge _ _) Hl).
  rewrite /encodeSuperblock.
  put_field H 0%nat. put_field H 1%nat. put_field H 2%nat. put_field H 3%nat.
  put_field H 4%nat. put_field H 5%nat. put_field H 6%nat. put_field H 7%nat.
  put_field H 8%nat. put_field H 9%nat. put_field H 10%nat. put_field H 11%nat.
  put_field H 12%nat. put_field H 13%nat. put_field H 14%nat. put_field H 15%nat.
  put_field H 16%nat. put_field H 17%nat. put_field H 18%nat. put_field H 19%nat.
  put_field H 20%nat. put_field H 21%nat.
  destruct Hwf as (H4 & H2 & Hu & Hv).
  pose proof (slice_putAll _ _ 22 _ H eq_refl) as Eu.
  pose proof (slice_putAll _ _ 23 _ H eq_refl) as Ev.
  simpl fst in Eu, Ev. simpl snd in Eu, Ev. rewrite Hu in Eu. rewrite Hv in Ev.
  rewrite Eu Ev.
  rewrite /u32_fields !Forall_cons in H4. rewrite /u16_fields !Forall_cons in H2.
  destruct_and!. rewrite !u32_small // !u16_small //. by destruct sb.
Qed.

Lemma WriteSuperblock_ok sb d :
  healthy d -> SuperblockAddr < BlockCount d -> wf_names sb ->
  WriteSuperblock sb d = (Ok tt, poke SuperblockAddr (encodeSuperblock sb zeroBlock) d).
Proof.
  intros Hh Ha Hwf. apply WriteBlock_ok; [done|done|].
  rewrite length_encodeSuperblock // length_zeroBlock //.
Qed.

Lemma WriteSuperblock_keeps (P : Z -> Prop) sb :
  P SuperblockAddr -> keeps (dev_only P) (WriteSuperblock sb).
Proof. intros HP. by apply WriteBlock_keeps. Qed.

Lemma ReadSuperblock_keeps P : keeps (dev_only P) ReadSuperblock.
Proof. rewrite /ReadSuperblock. keeps_solve. Qed.

#[export] Hint Resolve WriteSuperblock_keeps ReadSuperblock_keeps : keeps.

(** ** Properties *)

(** C31: the superblock survives the disk: written and read back it is the same
    record, field by field, whatever the block held before; and a superblock
    that is read back is accepted by [Validate] exactly when its two magic
    numbers, block size and inode size are the expected ones, and is refused
    with an error that [errors.Is] recognises as [ErrBadFS] otherwise. *)
Theorem superblock_roundtrip sb d :
  wf_superblock sb -> healthy d -> wf_dev d -> SuperblockAddr < BlockCount d ->
  (ReadSuperblock (WriteSuperblock sb d).2).1 = Ok sb /\
  match Validate sb with
  | Ok _ => Magic sb = SuperblockMagic /\ MagicV2 sb = SuperblockMagicV2 /\
            sb_BlockSize sb = BlockSize /\ sb_InodeSize sb = InodeSize
  | Err e => Is ErrBadFS e /\
             ~ (Magic sb = SuperblockMagic /\ MagicV2 sb = SuperblockMagicV2 /\
                sb_BlockSize sb = BlockSize /\ sb_InodeSize sb = InodeSize)
  | Panic => False
  end.
Proof.
  intros Hwf Hh Hd Ha. split.
  - rewrite (WriteSuperblock_ok _ _ _ _ (wf_superblock_names _ Hwf)) //= /ReadSuperblock.
    rewrite (bind_ok _ _ _ (encodeSuperblock sb zeroBlock)
      (poke SuperblockAddr (encodeSuperblock sb zeroBlock) d)).
    { apply wrapErr_ok. rewrite ReadBlock_ok //. rewrite peek_poke_eq //. by apply wf_in_range. }
    rewrite /liftResult /=. apply decode_encode_superblock; [done|]. by rewrite length_zeroBlock.
  - rewrite /Validate. repeat (case_if; [split; [simpl; tauto|lia]|]).
    done.
Qed.

(** ** Witnesses *)

Example superblock_roundtrip_witness :
  let sb := mkSuperblock 0xEF53 4096 16384 7 9 2180 4096 128 16384 0 1 0 20 5 6 7 2 3 4 132 2048 1
              (zeros 16) (zeros 16) in
  exists e, (ReadSuperblock (WriteSuperblock sb (blank 3)).2).1 = Ok sb /\
            Validate sb = Err e /\ Is ErrBadFS e.
Proof.
  intros sb. destruct (superblock_roundtrip sb (blank 3)) as [H1 H2].
  - subst sb. rewrite /wf_superblock /is_u16 /is_u32 /=. split_and!; try done; repeat (constructor; [done|]); constructor.
  - done.
  - by apply wf_blank.
  - done.
  - destruct (Validate sb) as [[]|e|] eqn:E; [by vm_compute in E| |done].
    exists e. split_and!; [exact H1|done|exact (proj1 H2)].
Defined.
