(* ===== verification/Inode.v ===== *)
(** * Inode: [internal/fs/inode.go]

    The on-disk inode of 128 bytes: its encoding, its place in the inode
    table, and the reads and writes of single inodes. *)

From Stdlib Require Import Strings.Byte.
From S2P Require Export Superblock.

Record DiskInode : Type := mkInode {
  Mode : Z;
  UID : Z;
  SizeLo : Z;
  ATime : Z;
  CTime : Z;
  MTime : Z;
  DTime : Z;
  GID : Z;
  Links : Z;
  Blocks512 : Z;
  Flags : Z;
  Direct : list Z;
  Indirect1 : Z;
  Indirect2 : Z;
  Indirect3 : Z;
  Generation : Z;
  SizeHi : Z;
}.

(** [&DiskInode{}] *)
Definition emptyInode : DiskInode :=
  mkInode 0 0 0 0 0 0 0 0 0 0 0 (replicate 12 0) 0 0 0 0 0.

(** ** Operations *)

Definition FileType (di : DiskInode) : Z := Z.land (Mode di) S_IFMT.
Definition IsDir (di : DiskInode) : bool := FileType di =? S_IFDIR.
Definition IsRegular (di : DiskInode) : bool := FileType di =? S_IFREG.
Definition IsSymlink (di : DiskInode) : bool := FileType di =? S_IFLNK.

(** [int64(di.SizeHi)<<32 | int64(di.SizeLo)] *)
Definition SizeOf (di : DiskInode) : Z := Z.lor (i64 (Z.shiftl (SizeHi di) 32)) (SizeLo di).

Definition with_size_words (lo hi : Z) (di : DiskInode) : DiskInode :=
  mkInode (Mode di) (UID di) lo (ATime di) (CTime di) (MTime di) (DTime di) (GID di) (Links di)
    (Blocks512 di) (Flags di) (Direct di) (Indirect1 di) (Indirect2 di) (Indirect3 di)
    (Generation di) hi.
Definition SetSize (size : Z) (di : DiskInode) : DiskInode :=
  with_size_words (u32 (Z.land size 0xFFFFFFFF)) (u32 (Z.shiftr size 32)) di.

Definition with_times (at_ ct mt : Z) (di : DiskInode) : DiskInode :=
  mkInode (Mode di) (UID di) (SizeLo di) at_ ct mt (DTime di) (GID di) (Links di)
    (Blocks512 di) (Flags di) (Direct di) (Indirect1 di) (Indirect2 di) (Indirect3 di)
    (Generation di) (SizeHi di).

(** [SetTimes]: [None] is Go's zero time, [Some t] a time of [t] Unix seconds. *)
Definition SetTimes (atime mtime : option Z) (di : DiskInode) : DiskInode :=
  with_times (match atime with Some t => u32 t | None => ATime di end) (CTime di)
    (match mtime with Some t => u32 t | None => MTime di end) di.

(** The permission table of [ModeString]. *)
Definition perm_table : list (Z * byte) :=
  [ (S_IRUSR, "r"%byte); (S_IWUSR, "w"%byte); (S_IXUSR, "x"%byte);
    (S_IRGRP, "r"%byte); (S_IWGRP, "w"%byte); (S_IXGRP, "x"%byte);
    (S_IROTH, "r"%byte); (S_IWOTH, "w"%byte); (S_IXOTH, "x"%byte) ].

Definition has_bit (m b : Z) : bool := negb (Z.land m b =? 0).

Definition type_char (m : Z) : byte :=
  let t := Z.land m S_IFMT in
  if t =? S_IFDIR then "d"%byte
  else if t =? S_IFLNK then "l"%byte
  else if t =? S_IFREG then "-"%byte
  else if t =? S_IFBLK then "b"%byte
  else if t =? S_IFCHR then "c"%byte
  else if t =? S_IFIFO then "p"%byte
  else if t =? S_IFSOCK then "s"%byte
  else "?"%byte.

(** [if m&bit != 0 { if buf[i] == 'x' { buf[i] = lo } else { buf[i] = up } }] *)
Definition special_bit (m bit : Z) (i : nat) (lo up : byte) (buf : list byte) : list byte :=
  if has_bit m bit
  then <[i := if Byte.eqb (buf !!! i) "x"%byte then lo else up]> buf
  else buf.

Definition ModeString (di : DiskInode) : list byte :=
  let m := Mode di in
  let perms := (fun p : Z * byte => if has_bit m p.1 then p.2 else "-"%byte) <$> perm_table in
  special_bit m S_ISVTX 9 "t"%byte "T"%byte
    (special_bit m S_ISGID 6 "s"%byte "S"%byte
      (special_bit m S_ISUID 3 "s"%byte "S"%byte
        (type_char m :: perms))).

(** The block of an inode and its offset in the block, from the number. *)
Definition InodeNumToBlock (num : Z) : Z * nat :=
  let idx := u32 (u32 (num - 1) * InodeSize) in
  (u32 (InodeTableStart + idx / BlockSize), Z.to_nat (idx mod BlockSize)).

(** The writes of [encodeInode], in its order. *)
Definition inode_puts (di : DiskInode) : list put :=
  [ put16 0 (Mode di); put16 2 (UID di); put32 4 (SizeLo di); put32 8 (ATime di);
    put32 12 (CTime di); put32 16 (MTime di); put32 20 (DTime di); put16 24 (GID di);
    put16 26 (Links di); put32 28 (Blocks512 di); put32 32 (Flags di) ]
  ++ imap (fun i ptr => put32 (40 + i * 4) ptr) (Direct di)
  ++ [ put32 88 (Indirect1 di); put32 92 (Indirect2 di); put32 96 (Indirect3 di);
       put32 104 (Generation di); put32 116 (SizeHi di) ].

Definition encodeInode (di : DiskInode) (buf : list byte) : list byte :=
  putAll (inode_puts di) buf.

Definition decodeInode (buf : list byte) : DiskInode :=
  mkInode (LEUint16 buf 0) (LEUint16 buf 2) (LEUint32 buf 4) (LEUint32 buf 8)
    (LEUint32 buf 12) (LEUint32 buf 16) (LEUint32 buf 20) (LEUint16 buf 24)
    (LEUint16 buf 26) (LEUint32 buf 28) (LEUint32 buf 32)
    ((fun i => LEUint32 buf (40 + i * 4)) <$> seq 0 12)
    (LEUint32 buf 88) (LEUint32 buf 92) (LEUint32 buf 96) (LEUint32 buf 104)
    (LEUint32 buf 116).

Definition InodeLen : nat := 128.

Definition ReadInode (num : Z) : M BlockDevice DiskInode :=
  failIf ((num =? 0) || (InodeCount <? num)) (Errorf "inode: invalid inode number %d" [num]) ;;
  let '(blockAddr, offset) := InodeNumToBlock num in
  blk ← wrapErr "inode: read block %d: %w" [blockAddr] (ReadBlock blockAddr);
  mret (decodeInode (slice offset InodeLen blk)).

(** [encodeInode(di, blk[offset:offset+InodeSize])]: the slice shares the
    block's memory. *)
Definition putInode (di : DiskInode) (offset : nat) (blk : block) : block :=
  splice offset (encodeInode di (slice offset InodeLen blk)) blk.

Definition WriteInode (num : Z) (di : DiskInode) : M BlockDevice unit :=
  failIf ((num =? 0) || (InodeCount <? num)) (Errorf "inode: invalid inode number %d" [num]) ;;
  let '(blockAddr, offset) := InodeNumToBlock num in
  blk ← wrapErr "inode: read block %d: %w" [blockAddr] (ReadBlock blockAddr);
  WriteBlock blockAddr (putInode di offset blk).

Definition DecodeInodeBytes (buf : list byte) : result DiskInode :=
  if (length buf <? InodeLen)%nat then Err (Errorf "inode: buffer too short" [])
  else Ok (decodeInode (take InodeLen buf)).

(** ** Well-formed inodes: every field fits its Go type *)

Definition wf_inode (di : DiskInode) : Prop :=
  Forall is_u16 [Mode di; UID di; GID di; Links di] /\
  Forall is_u32 [SizeLo di; ATime di; CTime di; MTime di; DTime di; Blocks512 di; Flags di;
                 Indirect1 di; Indirect2 di; Indirect3 di; Generation di; SizeHi di] /\
  length (Direct di) = 12%nat /\ Forall is_u32 (Direct di).

Lemma wf_emptyInode : wf_inode emptyInode.
Proof. rewrite /wf_inode /=. split_and!; try done; repeat (constructor; [done|]); constructor. Qed.

(** An inode number of the table. *)
Definition valid_inum (num : Z) : Prop := 1 <= num <= InodeCount.

(** ** Lemmas *)

Lemma InodeNumToBlock_valid num :
  valid_inum num ->
  InodeNumToBlock num = (InodeTableStart + (num - 1) / 32, Z.to_nat ((num - 1) mod 32 * 128)).
Proof.
  rewrite /valid_inum /InodeCount /InodeNumToBlock /InodeSize /BlockSize /InodeTableStart.
  intros Hn. assert (u32 (num - 1) = num - 1) as -> by (apply u32_small; lia).
  assert (u32 ((num - 1) * 128) = (num - 1) * 128) as -> by (apply u32_small; lia).
  replace 4096 with (32 * 128) by lia. rewrite Z.div_mul_cancel_r // Zmult_mod_distr_r.
  assert (0 <= (num - 1) / 32) by (apply Z.div_pos; lia).
  assert ((num - 1) / 32 <= num - 1) by (apply Z.div_le_upper_bound; lia).
  by rewrite u32_small; [lia|].
Qed.

Lemma inode_place num a o :
  valid_inum num -> InodeNumToBlock num = (a, o) ->
  InodeTableStart <= a < InodeTableStart + InodeTableBlocks /\ (o + InodeLen <= BlockLen)%nat.
Proof.
  intros Hn. rewrite InodeNumToBlock_valid // => -[= <- <-].
  move: Hn. rewrite /valid_inum /InodeCount /InodeTableStart /InodeTableBlocks /InodeLen.
  pose proof (Z.div_mod (num - 1) 32). pose proof (Z.mod_pos_bound (num - 1) 32). lia.
Qed.

(** Two inodes of one block do not overlap. *)
Lemma inode_place_disjoint n m a o o' :
  valid_inum n -> valid_inum m -> n <> m ->
  InodeNumToBlock n = (a, o) -> InodeNumToBlock m = (a, o') ->
  (o' + InodeLen <= o \/ o + InodeLen <= o')%nat.
Proof.
  intros Hn Hm Hne. rewrite !InodeNumToBlock_valid // => -[= <- <-] [= Ha <-].
  rewrite /InodeLen. pose proof (Z.div_mod (n - 1) 32). pose proof (Z.mod_pos_bound (n - 1) 32).
  pose proof (Z.div_mod (m - 1) 32). pose proof (Z.mod_pos_bound (m - 1) 32).
  rewrite /InodeTableStart in Ha. lia.
Qed.

(** The writes of [encodeInode] as a list of twelve pointers. *)
Lemma inode_layout di n :
  length (Direct di) = 12%nat -> (InodeLen <= n)%nat ->
  layout_ok n (extents (inode_puts di)) = true.
Proof.
  intros Hd Hn. apply (layout_ok_mono InodeLen); [|done].
  rewrite /inode_puts. destruct di as [? ? ? ? ? ? ? ? ? ? ? dir ? ? ? ? ?]. simpl in *.
  by destruct dir as [|? [|? [|? [|? [|? [|? [|? [|? [|? [|? [|? [|? [|? ?]]]]]]]]]]]]].
Qed.

Lemma length_encodeInode di buf :
  length (Direct di) = 12%nat -> (InodeLen <= length buf)%nat ->
  length (encodeInode di buf) = length buf.
Proof. intros Hd Hl. apply length_putAll. by apply inode_layout. Qed.

Lemma direct_put di i ptr :
  length (Direct di) = 12%nat -> Direct di !! i = Some ptr ->
  inode_puts di !! (11 + i)%nat = Some (put32 (40 + i * 4) ptr).
Proof.
  intros Hd Hi. rewrite /inode_puts lookup_app_r; [simpl; lia|].
  rewrite lookup_app_l; [rewrite /= length_imap; apply lookup_lt_Some in Hi; lia|].
  replace (11 + i - length _)%nat with i by (simpl; lia).
  by rewrite list_lookup_imap Hi.
Qed.

Lemma decode_direct di buf :
  layout_ok (length buf) (extents (inode_puts di)) = true ->
  length (Direct di) = 12%nat -> Forall is_u32 (Direct di) ->
  (fun i => LEUint32 (putAll (inode_puts di) buf) (40 + i * 4)) <$> seq 0 12 = Direct di.
Proof.
  intros H Hd Hf. apply list_eq. intros i. rewrite list_lookup_fmap.
  destruct (decide (i < 12)%nat) as [Hi|Hi].
  - rewrite lookup_seq_lt //=. destruct (lookup_lt_is_Some_2 (Direct di) i) as [p Hp]; [lia|].
    rewrite Hp. f_equal. rewrite (LEUint32_putAll _ _ _ _ _ H (direct_put _ _ _ Hd Hp)).
    rewrite ->Forall_lookup in Hf. apply u32_small. exact (Hf _ _ Hp).
  - rewrite lookup_seq_ge; [lia|]. simpl. by rewrite lookup_ge_None_2; [lia|].
Qed.

Lemma decode_encode_inode di buf :
  wf_inode di -> (InodeLen <= length buf)%nat -> decodeInode (encodeInode di buf) = di.
Proof.
  intros (H2 & H4 & Hd & Hf) Hl. pose proof (inode_layout di (length buf) Hd Hl) as H.
  rewrite /decodeInode /encodeInode decode_direct //.
  rewrite !Forall_cons in H2. rewrite !Forall_cons in H4. destruct_and!.
  assert (forall k p, [put32 88 (Indirect1 di); put32 92 (Indirect2 di); put32 96 (Indirect3 di);
       put32 104 (Generation di); put32 116 (SizeHi di)] !! k = Some p ->
       inode_puts di !! (23 + k)%nat = Some p) as Htail.
  { intros k p Hk. rewrite /inode_puts app_assoc lookup_app_r length_app length_imap Hd; [simpl; lia|].
    by replace (23 + k - _)%nat with k by (simpl; lia). }
  put_field H 0%nat. put_field H 1%nat. put_field H 2%nat. put_field H 3%nat.
  put_field H 4%nat. put_field H 5%nat. put_field H 6%nat. put_field H 7%nat.
  put_field H 8%nat. put_field H 9%nat. put_field H 10%nat.
  rewrite (LEUint32_putAll _ _ _ _ _ H (Htail 0%nat _ eq_refl)).
  rewrite (LEUint32_putAll _ _ _ _ _ H (Htail 1%nat _ eq_refl)).
  rewrite (LEUint32_putAll _ _ _ _ _ H (Htail 2%nat _ eq_refl)).
  rewrite (LEUint32_putAll _ _ _ _ _ H (Htail 3%nat _ eq_refl)).
  rewrite (LEUint32_putAll _ _ _ _ _ H (Htail 4%nat _ eq_refl)).
  rewrite !u16_small // !u32_small //. by destruct di.
Qed.

Lemma length_putInode di o blk :
  length (Direct di) = 12%nat -> (o + InodeLen <= length blk)%nat ->
  length (putInode di o blk) = length blk.
Proof.
  intros Hd Ho. apply length_splice. rewrite length_encodeInode ?length_slice //.
Qed.

Lemma slice_putInode di o blk :
  length (Direct di) = 12%nat -> (o + InodeLen <= length blk)%nat ->
  slice o InodeLen (putInode di o blk) = encodeInode di (slice o InodeLen blk).
Proof.
  intros Hd Ho. rewrite /putInode.
  assert (length (encodeInode di (slice o InodeLen blk)) = InodeLen) as E.
  { rewrite length_encodeInode ?length_slice //. }
  rewrite -{1}E. apply slice_splice_same. by rewrite E.
Qed.

Lemma slice_putInode_disj di o o' blk :
  length (Direct di) = 12%nat -> (o + InodeLen <= length blk)%nat ->
  (o' + InodeLen <= o \/ o + InodeLen <= o')%nat ->
  slice o' InodeLen (putInode di o blk) = slice o' InodeLen blk.
Proof.
  intros Hd Ho Hdis. rewrite /putInode.
  assert (length (encodeInode di (slice o InodeLen blk)) = InodeLen) as E.
  { rewrite length_encodeInode ?length_slice //. }
  apply slice_splice_disj; rewrite E //.
Qed.

(** The device holds the whole inode table. *)
Definition has_table (d : BlockDevice) : Prop :=
  InodeTableStart + InodeTableBlocks <= BlockCount d.

(** The inode stored for a number. *)
Definition inode_at (d : BlockDevice) (num : Z) : DiskInode :=
  let '(a, o) := InodeNumToBlock num in decodeInode (slice o InodeLen (peek d a)).

Lemma valid_inum_guard num :
  valid_inum num -> (num =? 0) || (InodeCount <? num) = false.
Proof.
  intros [H1 H2]. apply orb_false_iff. split; [apply Z.eqb_neq; lia|by apply Z.ltb_ge].
Qed.

Lemma ReadInode_ok num d :
  healthy d -> has_table d -> valid_inum num -> ReadInode num d = (Ok (inode_at d num), d).
Proof.
  intros Hh Ht Hn. rewrite /ReadInode bind_failIf_false ?valid_inum_guard // /inode_at.
  destruct (InodeNumToBlock num) as [a o] eqn:E. destruct (inode_place _ _ _ Hn E) as [Ha Ho].
  rewrite (bind_ok _ _ _ (peek d a) d) //. apply wrapErr_ok. apply ReadBlock_ok; [done|].
  rewrite /has_table in Ht. lia.
Qed.

Lemma WriteInode_ok num di d a o :
  healthy d -> has_table d -> wf_dev d -> valid_inum num -> length (Direct di) = 12%nat ->
  InodeNumToBlock num = (a, o) ->
  WriteInode num di d = (Ok tt, poke a (putInode di o (peek d a)) d).
Proof.
  intros Hh Ht Hwf Hn Hd E. destruct (inode_place _ _ _ Hn E) as [Ha Ho].
  rewrite /WriteInode bind_failIf_false ?valid_inum_guard // E. rewrite /has_table in Ht.
  rewrite (bind_ok _ _ _ (peek d a) d); [apply wrapErr_ok, ReadBlock_ok; [done|lia]|].
  apply WriteBlock_ok; [done|lia|]. rewrite length_putInode ?wf_peek //.
Qed.

Lemma inode_at_poke num di d a o m :
  has_table d -> wf_dev d -> valid_inum num -> valid_inum m -> wf_inode di ->
  InodeNumToBlock num = (a, o) ->
  inode_at (poke a (putInode di o (peek d a)) d) m = if decide (m = num) then di else inode_at d m.
Proof.
  intros Ht Hwf Hn Hm Hdi E. destruct (inode_place _ _ _ Hn E) as [Ha Ho].
  rewrite /has_table in Ht. pose proof Hdi as (_ & _ & Hd & _).
  assert (0 <= a < BlockCount d) as Hr by (rewrite /InodeTableStart in Ha, Ht; lia).
  pose proof (wf_in_range _ _ Hwf Hr) as Hr'.
  rewrite /inode_at. case_decide as Hcase.
  - subst m. rewrite E peek_poke_eq // slice_putInode ?wf_peek //.
    apply decode_encode_inode; [done|]. rewrite length_slice ?wf_peek //.
  - destruct (InodeNumToBlock m) as [a' o'] eqn:E'. destruct (inode_place _ _ _ Hm E') as [Ha' Ho'].
    destruct (decide (a' = a)) as [->|Hne].
    + rewrite peek_poke_eq // slice_putInode_disj ?wf_peek //.
      apply (inode_place_disjoint num m a); [done|done|congruence|done|done].
    + rewrite peek_poke_ne //; rewrite /InodeTableStart in Ha, Ha'; lia.
Qed.

Lemma guarded_inum num :
  0 <= num -> (num =? 0) || (InodeCount <? num) = false -> valid_inum num.
Proof. intros H0 [H1%Z.eqb_neq H2%Z.ltb_ge]%orb_false_iff. split; lia. Qed.

Lemma WriteInode_keeps (P : Z -> Prop) num di :
  0 <= num -> (forall a, InodeTableStart <= a < InodeTableStart + InodeTableBlocks -> P a) ->
  keeps (dev_only P) (WriteInode num di).
Proof.
  intros H0 HP d. rewrite /WriteInode. destruct ((num =? 0) || (InodeCount <? num)) eqn:G.
  { change (dev_only P d d). reflexivity. }
  rewrite bind_failIf_false //. apply guarded_inum in G; [|done].
  destruct (InodeNumToBlock num) as [a o] eqn:E. destruct (inode_place _ _ _ G E) as [Ha Ho].
  revert d. apply keeps_bind; [apply _|keeps_solve|]. intros blk.
  apply WriteBlock_keeps; [rewrite /InodeTableStart in Ha; lia|by apply HP].
Qed.

Lemma ReadInode_keeps P num : keeps (dev_only P) (ReadInode num).
Proof. rewrite /ReadInode. destruct (InodeNumToBlock num). keeps_solve. Qed.

#[export] Hint Resolve ReadInode_keeps : keeps.

(** Writing back what a buffer already holds changes nothing. *)
Definition put_same (buf : list byte) (p : put) : Prop :=
  (p.1 + length p.2 <= length buf)%nat /\ slice p.1 (length p.2) buf = p.2.

Lemma putAll_id ps buf : Forall (put_same buf) ps -> putAll ps buf = buf.
Proof.
  induction 1 as [|p ps [Hl Hs] Hf IH]; [done|]. simpl.
  rewrite -{1}Hs splice_slice_id // IH //.
Qed.

Lemma le_enc_slice n off buf :
  (off + n <= length buf)%nat -> le_enc n (le_dec (slice off n buf)) = slice off n buf.
Proof. intros H. rewrite -{1}(length_slice off n buf H). apply le_enc_dec. Qed.

Lemma put32_same buf off v :
  (off + 4 <= length buf)%nat -> v = LEUint32 buf off -> put_same buf (put32 off v).
Proof. intros H ->. split; [done|].
  change (slice off 4 buf = le_enc 4 (LEUint32 buf off)). by rewrite /LEUint32 le_enc_slice. Qed.

Lemma put16_same buf off v :
  (off + 2 <= length buf)%nat -> v = LEUint16 buf off -> put_same buf (put16 off v).
Proof. intros H ->. split; [done|].
  change (slice off 2 buf = le_enc 2 (LEUint16 buf off)). by rewrite /LEUint16 le_enc_slice. Qed.

Lemma encode_decode_inode buf :
  (InodeLen <= length buf)%nat -> encodeInode (decodeInode buf) buf = buf.
Proof.
  rewrite /InodeLen => Hl. apply putAll_id. rewrite /inode_puts !Forall_app. split_and!.
  - repeat (apply Forall_cons; split; [first [apply put32_same|apply put16_same]; [lia|done]|]). done.
  - apply Forall_lookup. intros i p Hi. rewrite list_lookup_imap in Hi.
    apply fmap_Some in Hi as (v & Hv & ->).
    change (Direct (decodeInode buf)) with ((fun i => LEUint32 buf (40 + i * 4)) <$> seq 0 12) in Hv.
    rewrite list_lookup_fmap in Hv. apply fmap_Some in Hv as (k & Hk & ->).
    apply lookup_seq in Hk as [-> Hk]. apply put32_same; [lia|done].
  - repeat (apply Forall_cons; split; [apply put32_same; [lia|done]|]). done.
Qed.

(** ** Sizes *)

Lemma SizeOf_SetSize size di : - 2 ^ 63 <= size < 2 ^ 63 -> SizeOf (SetSize size di) = size.
Proof.
  intros Hs. rewrite /SizeOf /SetSize /with_size_words /=.
  change 0xFFFFFFFF with (Z.ones 32). rewrite Z.land_ones // Z.shiftr_div_pow2 //.
  rewrite (u32_small (size mod 2 ^ 32)); [apply Z.mod_pos_bound; lia|].
  pose proof (Z.div_mod size (2 ^ 32)). pose proof (Z.mod_pos_bound size (2 ^ 32)).
  set (h := size / 2 ^ 32) in *. set (l := size mod 2 ^ 32) in *.
  assert (i64 (Z.shiftl (u32 h) 32) = h * 2 ^ 32) as ->.
  { rewrite Z.shiftl_mul_pow2 // /i64 /u32.
    pose proof (Z.div_mod h (2 ^ 32)). pose proof (Z.mod_pos_bound h (2 ^ 32)).
    destruct (decide (0 <= h)).
    - rewrite (Z.mod_small h); [lia|]. rewrite Z.mod_small; lia.
    - assert (h mod 2 ^ 32 = h + 2 ^ 32) as E by (symmetry; apply Z.mod_unique with (-1); lia).
      rewrite E -(Z.mod_unique _ (2 ^ 64) 1 ((h + 2 ^ 32) * 2 ^ 32 + 2 ^ 63 - 2 ^ 64)); lia. }
  rewrite Z.lor_comm -Z.shiftl_mul_pow2 // lor_shift_add; lia.
Qed.

(** ** Reading a mode string back *)

Definition type_of_char (c : byte) : Z :=
  if Byte.eqb c "d"%byte then S_IFDIR else if Byte.eqb c "l"%byte then S_IFLNK
  else if Byte.eqb c "-"%byte then S_IFREG else if Byte.eqb c "b"%byte then S_IFBLK
  else if Byte.eqb c "c"%byte then S_IFCHR else if Byte.eqb c "p"%byte then S_IFIFO
  else if Byte.eqb c "s"%byte then S_IFSOCK else 0.

(** The bits of one character: the plain permission, the special bit shown on
    an executable, the special bit alone. *)
Definition bits_of_char (plain special : Z) (lo up c : byte) : Z :=
  if Byte.eqb c "-"%byte then 0
  else if Byte.eqb c lo then plain + special
  else if Byte.eqb c up then special
  else plain.

Definition modeOfString (s : list byte) : Z :=
  let at_ i := s !!! i in
  type_of_char (at_ 0%nat)
  + bits_of_char S_IRUSR 0 "-" "-" (at_ 1%nat) + bits_of_char S_IWUSR 0 "-" "-" (at_ 2%nat)
  + bits_of_char S_IXUSR S_ISUID "s" "S" (at_ 3%nat)
  + bits_of_char S_IRGRP 0 "-" "-" (at_ 4%nat) + bits_of_char S_IWGRP 0 "-" "-" (at_ 5%nat)
  + bits_of_char S_IXGRP S_ISGID "s" "S" (at_ 6%nat)
  + bits_of_char S_IROTH 0 "-" "-" (at_ 7%nat) + bits_of_char S_IWOTH 0 "-" "-" (at_ 8%nat)
  + bits_of_char S_IXOTH S_ISVTX "t" "T" (at_ 9%nat).

(** The file types [ModeString] knows. *)
Definition known_types : list Z :=
  [S_IFDIR; S_IFLNK; S_IFREG; S_IFBLK; S_IFCHR; S_IFIFO; S_IFSOCK].

Definition with_mode (m : Z) (di : DiskInode) : DiskInode :=
  mkInode m (UID di) (SizeLo di) (ATime di) (CTime di) (MTime di) (DTime di) (GID di) (Links di)
    (Blocks512 di) (Flags di) (Direct di) (Indirect1 di) (Indirect2 di) (Indirect3 di)
    (Generation di) (SizeHi di).

(** The value of bit [i] of [m], as a summand of [m]. *)
Definition bitval (m i : Z) : Z := if Z.testbit m i then 2 ^ i else 0.

Lemma has_bit_pow2 m i : 0 <= i -> has_bit m (2 ^ i) = Z.testbit m i.
Proof. intros Hi. rewrite /has_bit -Z.shiftl_1_l land_pow2_zero // negb_involutive //. Qed.

Lemma mod_pow2_succ m (i : Z) : 0 <= i -> m mod 2 ^ (i + 1) = m mod 2 ^ i + bitval m i.
Proof.
  intros Hi. rewrite Z.pow_add_r // Z.rem_mul_r; [lia..|]. f_equal.
  rewrite /bitval Z.testbit_odd Z.shiftr_div_pow2 // -Z.bit0_mod Z.bit0_odd.
  destruct (Z.odd _); simpl; lia.
Qed.

Lemma low12_bits m :
  m mod 2 ^ 12 = bitval m 0 + bitval m 1 + bitval m 2 + bitval m 3 + bitval m 4 + bitval m 5
    + bitval m 6 + bitval m 7 + bitval m 8 + bitval m 9 + bitval m 10 + bitval m 11.
Proof.
  rewrite (mod_pow2_succ m 11) // (mod_pow2_succ m 10) // (mod_pow2_succ m 9) //.
  rewrite (mod_pow2_succ m 8) // (mod_pow2_succ m 7) // (mod_pow2_succ m 6) //.
  rewrite (mod_pow2_succ m 5) // (mod_pow2_succ m 4) // (mod_pow2_succ m 3) //.
  rewrite (mod_pow2_succ m 2) // (mod_pow2_succ m 1) // (mod_pow2_succ m 0) //.
  rewrite Z.mod_1_r. lia.
Qed.

Lemma length_special_bit m bit i lo up buf : length (special_bit m bit i lo up buf) = length buf.
Proof. rewrite /special_bit. destruct (has_bit m bit); [|done]. apply length_insert. Qed.

(** The characters of an execute position. *)
Definition exec_char (m plain special : Z) (lo up : byte) : byte :=
  let c := if has_bit m plain then "x"%byte else "-"%byte in
  if has_bit m special then (if Byte.eqb c "x"%byte then lo else up) else c.

Definition plain_char (m plain : Z) (c : byte) : byte := if has_bit m plain then c else "-"%byte.

Lemma ModeString_chars di :
  let m := Mode di in
  ModeString di =
    [ type_char m; plain_char m S_IRUSR "r"; plain_char m S_IWUSR "w";
      exec_char m S_IXUSR S_ISUID "s" "S";
      plain_char m S_IRGRP "r"; plain_char m S_IWGRP "w"; exec_char m S_IXGRP S_ISGID "s" "S";
      plain_char m S_IROTH "r"; plain_char m S_IWOTH "w"; exec_char m S_IXOTH S_ISVTX "t" "T" ].
Proof.
  rewrite /ModeString /special_bit /exec_char.
  destruct (has_bit (Mode di) S_ISUID), (has_bit (Mode di) S_ISGID), (has_bit (Mode di) S_ISVTX);
    reflexivity.
Qed.

Lemma bits_of_plain m i c :
  0 <= i -> Byte.eqb c "-" = false -> bits_of_char (2 ^ i) 0 "-" "-" (plain_char m (2 ^ i) c) = bitval m i.
Proof.
  intros Hi Hc. rewrite /plain_char has_bit_pow2 // /bitval /bits_of_char.
  by destruct (Z.testbit m i); rewrite ?Hc.
Qed.

Lemma bits_of_exec m i j lo up :
  0 <= i -> 0 <= j ->
  [Byte.eqb lo "-"; Byte.eqb up "-"; Byte.eqb up lo; Byte.eqb "x" lo; Byte.eqb "x" up;
   Byte.eqb lo lo; Byte.eqb up up] = [false; false; false; false; false; true; true] ->
  bits_of_char (2 ^ i) (2 ^ j) lo up (exec_char m (2 ^ i) (2 ^ j) lo up) = bitval m i + bitval m j.
Proof.
  intros Hi Hj [= H1 H2 H3 H4 H5 H6 H7].
  rewrite /exec_char !has_bit_pow2 // /bitval /bits_of_char.
  destruct (Z.testbit m i), (Z.testbit m j); rewrite /= ?H1 ?H2 ?H3 ?H4 ?H5 ?H6 ?H7; lia.
Qed.

Lemma modeOfString_ModeString di :
  modeOfString (ModeString di) = type_of_char (type_char (Mode di)) + Mode di mod 2 ^ 12.
Proof.
  rewrite low12_bits ModeString_chars /modeOfString. cbv beta zeta.
  cbn [lookup_total list_lookup_total].
  rewrite (bits_of_plain _ 8) // (bits_of_plain _ 7) // (bits_of_plain _ 5) //
    (bits_of_plain _ 4) // (bits_of_plain _ 2) // (bits_of_plain _ 1) //
    (bits_of_exec _ 6 11) // (bits_of_exec _ 3 10) // (bits_of_exec _ 0 9) //.
  lia.
Qed.

Lemma WriteInode_total num di : total (WriteInode num di).
Proof.
  rewrite /WriteInode. apply total_bind; [apply total_failIf|]. intros _.
  destruct (InodeNumToBlock num) as [a o].
  apply total_bind; [apply total_wrapErr, ReadBlock_total|]. intros b. apply WriteBlock_total.
Qed.

(** ** Properties *)

(** C32: the inode table is an array of inodes: on a healthy device that holds
    the table, writing a well-formed inode under a valid number succeeds,
    reading the number returns that inode, every other number reads as
    before, and no block outside the table changes; numbers 0 and above
    [InodeCount] are refused without touching the device. *)
Theorem inode_table_is_an_array num di d :
  healthy d -> wf_dev d -> has_table d -> valid_inum num -> wf_inode di ->
  exists d', WriteInode num di d = (Ok tt, d') /\
    (ReadInode num d').1 = Ok di /\
    (forall m, valid_inum m -> m <> num -> (ReadInode m d').1 = (ReadInode m d).1) /\
    dev_only (fun a => InodeTableStart <= a < InodeTableStart + InodeTableBlocks) d d' /\
    (forall m, m = 0 \/ InodeCount < m ->
       exists e, WriteInode m di d = (Err e, d) /\ ReadInode m d = (Err e, d)).
Proof.
  intros Hh Hwf Ht Hn Hdi. destruct (InodeNumToBlock num) as [a o] eqn:E.
  pose proof Hdi as (_ & _ & Hd & _).
  exists (poke a (putInode di o (peek d a)) d).
  pose proof (WriteInode_ok num di d a o Hh Ht Hwf Hn Hd E) as HW.
  split; [done|]. split_and!.
  - rewrite (ReadInode_ok num) // (inode_at_poke num) // decide_True //.
  - intros m Hm Hne. rewrite !(ReadInode_ok m) // (inode_at_poke num) // decide_False //.
  - assert (keeps (dev_only (fun a => InodeTableStart <= a < InodeTableStart + InodeTableBlocks))
      (WriteInode num di)) as HK by (apply WriteInode_keeps; [destruct Hn; lia|done]).
    specialize (HK d). by rewrite HW in HK.
  - intros m Hm. exists (Errorf "inode: invalid inode number %d" [m]).
    assert ((m =? 0) || (InodeCount <? m) = true) as G.
    { apply orb_true_iff. rewrite Z.eqb_eq Z.ltb_lt. done. }
    by rewrite /WriteInode /ReadInode /failIf /mbind /M_bind G.
Qed.

(** The inode codec is a bijection on the fields: decoding an encoded inode
    gives it back whatever the buffer held, encoding a decoded buffer into
    itself leaves the buffer as it was (the reserved bytes included), and
    every 64-bit signed size survives [SetSize] and [Size]. *)
Theorem inode_codec di buf size :
  wf_inode di -> (InodeLen <= length buf)%nat -> - 2 ^ 63 <= size < 2 ^ 63 ->
  decodeInode (encodeInode di buf) = di /\
  length (encodeInode di buf) = length buf /\
  encodeInode (decodeInode buf) buf = buf /\
  SizeOf (SetSize size di) = size.
Proof.
  intros Hdi Hl Hs. split_and!.
  - by apply decode_encode_inode.
  - apply length_encodeInode; [by destruct Hdi as (_&_&?&_)|done].
  - by apply encode_decode_inode.
  - by apply SizeOf_SetSize.
Qed.

(** The permission string of an inode whose file type is one of the seven
    known ones loses nothing: it has ten characters and the mode can be read
    back from it, set-id and sticky bits included. *)
Theorem ModeString_lossless di :
  is_u16 (Mode di) -> FileType di ∈ known_types ->
  length (ModeString di) = 10%nat /\ modeOfString (ModeString di) = Mode di.
Proof.
  intros Hm Ht. split.
  - by rewrite /ModeString !length_special_bit.
  - rewrite modeOfString_ModeString.
    assert (type_of_char (type_char (Mode di)) = FileType di) as ->.
    { rewrite /type_char -/(FileType di). rewrite /known_types in Ht.
      repeat (apply elem_of_cons in Ht as [->|Ht]; [done|]). by apply not_elem_of_nil in Ht. }
    rewrite /FileType /S_IFMT. change 0xF000 with (Z.shiftl (Z.ones 4) 12).
    assert (Z.land (Mode di) (Z.shiftl (Z.ones 4) 12) = Mode di / 2 ^ 12 * 2 ^ 12) as ->.
    { rewrite -Z.shiftr_div_pow2 // -Z.shiftl_mul_pow2 //. apply Z.bits_inj'. intros j Hj.
      rewrite Z.land_spec (Z.shiftl_spec (Z.ones 4)) // (Z.shiftl_spec (Z.shiftr _ _)) //.
      destruct (decide (j < 12)).
      { rewrite !(Z.testbit_neg_r _ (j - 12)); [lia..|]. apply andb_false_r. }
      rewrite Z.shiftr_spec; [lia|]. replace (j - 12 + 12) with j by lia.
      destruct (decide (j < 16)).
      - rewrite Z.ones_spec_low; [lia|apply andb_true_r].
      - rewrite (testbit_high (Mode di) 16) //. lia. }
    pose proof (Z.div_mod (Mode di) (2 ^ 12)). lia.
Qed.

(** ** Witnesses *)

Example inode_table_is_an_array_witness :
  exists d', WriteInode 2 emptyInode (blank 132) = (Ok tt, d') /\
    (ReadInode 2 d').1 = Ok emptyInode /\ (ReadInode 3 d').1 = (ReadInode 3 (blank 132)).1.
Proof.
  destruct (inode_table_is_an_array 2 emptyInode (blank 132)) as (d' & H1 & H2 & H3 & _).
  - done.
  - by apply wf_blank.
  - done.
  - done.
  - apply wf_emptyInode.
  - exists d'. split_and!; [exact H1|exact H2|]. by apply H3.
Defined.

Example inode_codec_witness :
  decodeInode (encodeInode emptyInode zeroBlock) = emptyInode /\ SizeOf (SetSize (- 5) emptyInode) = - 5.
Proof.
  destruct (inode_codec emptyInode zeroBlock (- 5)) as (H1 & _ & _ & H4).
  - apply wf_emptyInode.
  - rewrite length_zeroBlock. apply Nat.leb_le. reflexivity.
  - done.
  - split; [exact H1|exact H4].
Defined.

Example ModeString_lossless_witness :
  let di := decodeInode ([Byte.xed; Byte.x49] ++ zeros 126) in
  Mode di = 0x49ed /\ modeOfString (ModeString di) = 0x49ed.
Proof.
  intros di. assert (Mode di = 0x49ed) as E by reflexivity. split; [exact E|].
  rewrite -E. apply (ModeString_lossless di).
  - by rewrite E.
  - rewrite /FileType E. set_solver.
Defined.
