(* ===== verification/Perm.v ===== *)
(** * Perm: credentials and permission checks, [internal/ops/perm.go] *)

From S2P Require Export Inode.

Record Credential : Type := mkCredential { cr_UID : Z; cr_GID : Z; cr_CWD : Z }.

Definition RootCredential : Credential := mkCredential 0 0 1.

(** [(mode >> shift) & 0x7] of the triplet that applies. *)
Definition permShift (di : DiskInode) (cred : Credential) : Z :=
  if cr_UID cred =? UID di then 6 else if cr_GID cred =? GID di then 3 else 0.

Definition CheckPermission (di : DiskInode) (cred : Credential) (read write exec : bool) : result unit :=
  if cr_UID cred =? 0 then Ok tt
  else
    let mode := Mode di in
    let perms := Z.land (Z.shiftr mode (permShift di cred)) 7 in
    if read && (Z.land perms 4 =? 0) then Err ErrPermission
    else if write && (Z.land perms 2 =? 0) then Err ErrPermission
    else if exec && (Z.land perms 1 =? 0) then Err ErrPermission
    else Ok tt.

Definition CheckDirAccess (di : DiskInode) (cred : Credential) : result unit :=
  if negb (IsDir di) then Err ErrNotDir
  else CheckPermission di cred false false true.

Definition CheckStickyDelete (parentDI fileDI : DiskInode) (cred : Credential) : result unit :=
  if cr_UID cred =? 0 then Ok tt
  else if Z.land (Mode parentDI) S_ISVTX =? 0 then Ok tt
  else if cr_UID cred =? UID fileDI then Ok tt
  else if cr_UID cred =? UID parentDI then Ok tt
  else Err ErrPermission.

(** ** What the checks grant

    The class of a user with respect to an inode, and the rights of the class
    as the letters of [ModeString] show them. *)

Inductive class : Type := Owner | Group | Other.

Definition classOf (di : DiskInode) (cred : Credential) : class :=
  if decide (cr_UID cred = UID di) then Owner
  else if decide (cr_GID cred = GID di) then Group else Other.

(** The bit of a class in the mode: [r], [w] and [x] are the bits 2, 1, 0 of
    each triplet. *)
Definition classShift (c : class) : Z := match c with Owner => 6 | Group => 3 | Other => 0 end.
Definition grants (di : DiskInode) (c : class) (bit : Z) : Prop := Z.testbit (Mode di) (classShift c + bit) = true.

Lemma permShift_class di cred : permShift di cred = classShift (classOf di cred).
Proof.
  rewrite /permShift /classOf. repeat case_decide; destruct (Z.eqb_spec (cr_UID cred) (UID di)); try done;
    destruct (Z.eqb_spec (cr_GID cred) (GID di)); done.
Qed.

Lemma bit_clear m s i : 0 <= s -> 0 <= i <= 2 ->
  (Z.land (Z.land (Z.shiftr m s) 7) (2 ^ i) =? 0) = negb (Z.testbit m (s + i)).
Proof.
  intros Hs Hi. pose proof (has_bit_pow2 (Z.land (Z.shiftr m s) 7) i ltac:(lia)) as H.
  rewrite /has_bit in H. rewrite -(negb_involutive (_ =? 0)) H. f_equal.
  rewrite Z.land_spec Z.shiftr_spec; [lia|]. rewrite (Z.add_comm i s).
  assert (i = 0 \/ i = 1 \/ i = 2) as [->|[->| ->]] by lia; by rewrite andb_true_r.
Qed.

(** What a user may do: root everything, the others what their class grants. *)
Definition allowed (di : DiskInode) (cred : Credential) (r w x : bool) : Prop :=
  cr_UID cred = 0 \/
  (r = true -> grants di (classOf di cred) 2) /\ (w = true -> grants di (classOf di cred) 1) /\
  (x = true -> grants di (classOf di cred) 0).

Lemma CheckPermission_spec di cred r w x :
  (CheckPermission di cred r w x = Ok tt /\ allowed di cred r w x) \/
  (CheckPermission di cred r w x = Err ErrPermission /\ ~ allowed di cred r w x).
Proof.
  rewrite /CheckPermission /allowed. destruct (Z.eqb_spec (cr_UID cred) 0) as [H0|H0]; [by left; split; [|left]|].
  rewrite permShift_class /grants. set (s := classShift _).
  assert (0 <= s) as Hs by (rewrite /s; by destruct (classOf di cred)).
  pose proof (bit_clear (Mode di) s 2 Hs ltac:(lia)) as H2. change (2 ^ 2) with 4 in H2.
  pose proof (bit_clear (Mode di) s 1 Hs ltac:(lia)) as H1. change (2 ^ 1) with 2 in H1.
  pose proof (bit_clear (Mode di) s 0 Hs ltac:(lia)) as H3. change (2 ^ 0) with 1 in H3.
  rewrite H1 H2 H3. clear H1 H2 H3.
  destruct r, w, x, (Z.testbit (Mode di) (s + 2)), (Z.testbit (Mode di) (s + 1)), (Z.testbit (Mode di) (s + 0));
    simpl; first
    [ left; split; [done|by right]
    | right; split; [done|intros [?|(H2 & H1 & H3)]; [done|]];
      first [by specialize (H2 eq_refl)|by specialize (H1 eq_refl)|by specialize (H3 eq_refl)] ].
Qed.

(** C37: The permission checks decide exactly the rule of Unix: root may do
    everything; any other user is judged by the one triplet of the mode that
    applies to it (its own as owner, else the group's, else the others', with
    no fall back to a more generous one), and needs every bit it asks for;
    search in a directory needs a directory and its execute bit; in a sticky
    directory only root, the owner of the file and the owner of the directory
    may delete. *)
Theorem permission_checks di file cred r w x :
  ((CheckPermission di cred r w x = Ok tt /\ allowed di cred r w x) \/
   (CheckPermission di cred r w x = Err ErrPermission /\ ~ allowed di cred r w x)) /\
  (CheckDirAccess di cred = Ok tt <-> IsDir di = true /\ allowed di cred false false true) /\
  (CheckStickyDelete di file cred = Ok tt <->
     cr_UID cred = 0 \/ Z.testbit (Mode di) 9 = false \/ cr_UID cred = UID file \/ cr_UID cred = UID di).
Proof.
  split_and!.
  - apply CheckPermission_spec.
  - rewrite /CheckDirAccess. destruct (IsDir di); simpl; [|naive_solver].
    destruct (CheckPermission_spec di cred false false true) as [[-> ?]|[-> ?]]; naive_solver.
  - rewrite /CheckStickyDelete. destruct (Z.eqb_spec (cr_UID cred) 0); [naive_solver|].
    pose proof (has_bit_pow2 (Mode di) 9 ltac:(lia)) as H. rewrite /has_bit in H.
    change (2 ^ 9) with S_ISVTX in H. rewrite -H. destruct (Z.land (Mode di) S_ISVTX =? 0); cbn [negb]; [naive_solver|].
    destruct (Z.eqb_spec (cr_UID cred) (UID file)); [naive_solver|].
    destruct (Z.eqb_spec (cr_UID cred) (UID di)); naive_solver.
Qed.
