(* ===== verification/Metrics.v ===== *)
(** * Metrics: [internal/metrics/counters.go] and [window.go]

    The counters are a total map from their names to 64-bit signed integers;
    the rolling window is a ring of 60 buckets of per-second differences. The
    ticker goroutine only calls [Tick], with the time it reads as argument. *)

From S2P Require Export Inode.

(** The fields of [Metrics]. *)
Inductive counter : Type :=
  | Reads | Writes | Creates | Deletes | Lookups | MkdirOps | RmdirOps | LinkOps
  | UnlinkOps | RenameOps | SymlinkOps | StatOps | ChmodOps | ChownOps | ReadBytes
  | WriteBytes | Errors | CacheHits | CacheMiss | JournalCommits | BlocksAllocated
  | BlocksFreed | InodesAllocated | InodesFreed | PermDenied | FsyncCalls
  | RecoveryRuns | RecoveryErrors | RecoveryBlocks | MutationRollbacks
  | CacheFlushErrors | CacheEvictions | APIErrors.

#[export] Instance counter_eq_dec : EqDecision counter.
Proof. solve_decision. Defined.

Definition Metrics : Type := counter -> Z.

(** [&Metrics{}] *)
Definition zeroMetrics : Metrics := fun _ => 0.

(** [m.c.Add(n)] on an [atomic.Int64]. *)
Definition Add (c : counter) (n : Z) (m : Metrics) : Metrics := fun c' =>
  if decide (c' = c) then i64 (m c + n) else m c'.

(** The string keys of [Snapshot], in its order. *)
Definition snapshot_keys : list (string * counter) :=
  [ ("reads", Reads); ("writes", Writes); ("creates", Creates); ("deletes", Deletes);
    ("lookups", Lookups); ("mkdirs", MkdirOps); ("rmdirs", RmdirOps); ("links", LinkOps);
    ("unlinks", UnlinkOps); ("renames", RenameOps); ("symlinks", SymlinkOps);
    ("stats", StatOps); ("chmods", ChmodOps); ("chowns", ChownOps);
    ("read_bytes", ReadBytes); ("write_bytes", WriteBytes); ("errors", Errors);
    ("cache_hits", CacheHits); ("cache_miss", CacheMiss);
    ("journal_commits", JournalCommits); ("blocks_allocated", BlocksAllocated);
    ("blocks_freed", BlocksFreed); ("inodes_allocated", InodesAllocated);
    ("inodes_freed", InodesFreed); ("perm_denied", PermDenied);
    ("fsync_calls", FsyncCalls); ("recovery_runs", RecoveryRuns);
    ("recovery_errors", RecoveryErrors); ("recovery_blocks", RecoveryBlocks);
    ("mutation_rollbacks", MutationRollbacks); ("cache_flush_errors", CacheFlushErrors);
    ("cache_evictions", CacheEvictions); ("api_errors", APIErrors) ]%string.

(** [Snapshot]: a map from strings to integers. *)
Definition MSnapshot (m : Metrics) : gmap string Z :=
  list_to_map ((fun kc : string * counter => (kc.1, m kc.2)) <$> snapshot_keys).

(** [map[k]] of a Go map: 0 when the key is absent. *)
Definition mapGet (k : string) (m : gmap string Z) : Z := default 0 (m !! k).

(** ** The rolling window *)

Record BucketSnapshot : Type := mkBucket {
  bk_TS : Z;
  bk_Reads : Z;
  bk_Writes : Z;
  bk_CacheHits : Z;
  bk_CacheMiss : Z;
  bk_JournalCommits : Z;
  bk_BlocksAllocated : Z;
  bk_BlocksFreed : Z;
  bk_InodesAllocated : Z;
  bk_InodesFreed : Z;
}.

Definition zeroBucket : BucketSnapshot := mkBucket 0 0 0 0 0 0 0 0 0 0.

#[export] Instance BucketSnapshot_inhabited : Inhabited BucketSnapshot := populate zeroBucket.

Record WindowedStats : Type := mkWindowed {
  ring : list BucketSnapshot;
  head : Z;
  filled : Z;
  prev : gmap string Z;
}.

Definition NewWindowedStats (m : Metrics) : WindowedStats :=
  mkWindowed (replicate 60 zeroBucket) 0 0 (MSnapshot m).

(** The bucket [Tick] makes of the two snapshots at Unix time [now]. *)
Definition makeBucket (now : Z) (curr prev : gmap string Z) : BucketSnapshot :=
  let delta k := i64 (mapGet k curr - mapGet k prev) in
  mkBucket now (delta "reads") (delta "writes") (delta "cache_hits") (delta "cache_miss")
    (delta "journal_commits") (delta "blocks_allocated") (delta "blocks_freed")
    (delta "inodes_allocated") (delta "inodes_freed")%string.

Definition Tick (now : Z) (m : Metrics) (w : WindowedStats) : WindowedStats :=
  let curr := MSnapshot m in
  let bucket := makeBucket now curr (prev w) in
  mkWindowed (<[Z.to_nat (Z.rem (head w) 60) := bucket]> (ring w)) (head w + 1)
    (if filled w <? 60 then filled w + 1 else filled w) curr.

Definition Window (w : WindowedStats) : list BucketSnapshot :=
  let start := head w - filled w in
  (fun i => ring w !!! Z.to_nat (Z.rem (start + i + 60) 60)) <$> seqZ 0 (filled w).

(** ** Specification: the whole history of the ticks *)

(** The buckets of a run of ticks, oldest first: what the window would hold if
    it forgot nothing. *)
Fixpoint history (prev : gmap string Z) (ticks : list (Z * Metrics)) : list BucketSnapshot :=
  match ticks with
  | [] => []
  | (now, m) :: ticks =>
      makeBucket now (MSnapshot m) prev :: history (MSnapshot m) ticks
  end.

Definition runTicks (ticks : list (Z * Metrics)) (w : WindowedStats) : WindowedStats :=
  foldl (fun w t => Tick t.1 t.2 w) w ticks.

(** The last [n] elements. *)
Definition lastn {A} (n : nat) (l : list A) : list A := drop (length l - n) l.

(** The ring holds the end of the history [h]. *)
Record window_inv (h : list BucketSnapshot) (w : WindowedStats) : Prop := {
  wi_len : length (ring w) = 60%nat;
  wi_head : head w = Z.of_nat (length h);
  wi_filled : filled w = Z.of_nat (length h `min` 60);
  wi_ring : forall i, (i < length h)%nat -> (length h <= i + 60)%nat ->
              ring w !! (i mod 60)%nat = h !! i;
}.

Lemma window_inv_new m : window_inv [] (NewWindowedStats m).
Proof. split; simpl; [done|done|done|lia]. Qed.

Lemma Tick_slot (h : list BucketSnapshot) :
  Z.to_nat (Z.rem (Z.of_nat (length h)) 60) = (length h mod 60)%nat.
Proof. rewrite Z.rem_mod_nonneg; [lia..|]. rewrite -(Nat2Z.inj_mod _ 60). lia. Qed.

Lemma mod60_inj i j : (i < j)%nat -> (j < i + 60)%nat -> (i mod 60 <> j mod 60)%nat.
Proof.
  intros Hi Hj H. pose proof (Nat.div_mod_eq i 60). pose proof (Nat.div_mod_eq j 60). lia.
Qed.

Lemma window_inv_tick h w now m :
  window_inv h w -> window_inv (h ++ [makeBucket now (MSnapshot m) (prev w)]) (Tick now m w).
Proof.
  intros [Hl Hh Hf Hr]. split; rewrite /Tick; cbn [ring head filled].
  - by rewrite length_insert.
  - rewrite Hh length_app /=. lia.
  - rewrite length_app /= Hf. case_if; lia.
  - intros i Hi Hi2. rewrite length_app /= in Hi Hi2. rewrite Hh Tick_slot.
    destruct (decide (i = length h)) as [->|Hne].
    + rewrite list_lookup_insert_eq ?Hl; [apply Nat.mod_upper_bound; lia|].
      by rewrite lookup_app_r // Nat.sub_diag.
    + rewrite list_lookup_insert_ne; [apply not_eq_sym, mod60_inj; lia|].
      rewrite Hr; [lia|lia|]. by rewrite lookup_app_l; [lia|].
Qed.

Lemma runTicks_inv ticks h w :
  window_inv h w -> window_inv (h ++ history (prev w) ticks) (runTicks ticks w).
Proof.
  revert h w. induction ticks as [|[now m] ticks IH]; intros h w Hw; simpl.
  - by rewrite app_nil_r.
  - pose proof (window_inv_tick _ _ now m Hw) as Hw'.
    specialize (IH _ _ Hw'). by rewrite -app_assoc in IH.
Qed.

Lemma Window_lastn h w : window_inv h w -> Window w = lastn 60 h.
Proof.
  intros [Hl Hh Hf Hr]. rewrite /Window /lastn Hh Hf. apply list_eq. intros i.
  rewrite list_lookup_fmap lookup_drop.
  destruct (decide (i < length h `min` 60)%nat) as [Hi|Hi].
  - rewrite lookup_seqZ_lt; [lia|]. simpl.
    rewrite Z.rem_mod_nonneg; [lia..|].
    replace (Z.to_nat _) with ((length h - 60 + i) mod 60)%nat.
    + rewrite list_lookup_total_alt Hr; [lia..|].
      destruct (lookup_lt_is_Some_2 h (length h - 60 + i)) as [x Hx]; [lia|]. by rewrite Hx.
    + apply Nat2Z.inj. rewrite Nat2Z.inj_mod Z2Nat.id; [apply Z.mod_pos_bound; lia|].
      replace (Z.of_nat (length h) - Z.of_nat (length h `min` 60) + (0 + Z.of_nat i) + 60)
        with (Z.of_nat (length h - 60 + i) + 1 * 60) by lia.
      by rewrite Z.mod_add.
  - rewrite lookup_seqZ_ge; [lia|]. simpl. rewrite lookup_ge_None_2 //. lia.
Qed.

Lemma MSnapshot_get m kc : kc ∈ snapshot_keys -> mapGet kc.1 (MSnapshot m) = m kc.2.
Proof.
  intros H. rewrite /mapGet /MSnapshot.
  erewrite elem_of_list_to_map_1; [done| |].
  - rewrite -list_fmap_compose. apply (bool_decide_unpack _). vm_compute. done.
  - apply list_elem_of_fmap. by exists kc.
Qed.

(** ** Properties *)

(** The rolling window is a bounded queue: after any sequence of ticks,
    [Window] returns the last 60 per-second differences of the whole history
    (all of them when there are fewer), in chronological order; and a
    snapshot maps each of the 33 keys to its own counter. *)
Theorem Window_is_last_60 m0 ticks :
  Window (runTicks ticks (NewWindowedStats m0)) = lastn 60 (history (MSnapshot m0) ticks) /\
  Forall (fun kc : string * counter => mapGet kc.1 (MSnapshot m0) = m0 kc.2) snapshot_keys.
Proof.
  split.
  - apply Window_lastn. apply (runTicks_inv ticks [] (NewWindowedStats m0)), window_inv_new.
  - apply Forall_forall. intros kc Hkc. by apply MSnapshot_get.
Qed.
