(* ===== verification/Alloc.v ===== *)
(** * Alloc: [internal/fs/alloc.go]

    The block and inode allocator.  The [Allocator] of the code holds pointers
    to the device and the superblock, which the file system shares: here its
    state holds the values, and the components that share them run their own
    operations on this state ([onDev]). *)

From S2P Require Export Metrics.

(** An event: its type and its integer fields, in the order of their
    construction.  [a_emit] is the hook's log, newest event first. *)
Definition event : Type := string * list (string * Z).

Record Allocator : Type := mkAllocator {
  a_dev : BlockDevice;
  a_blockBM : Bitmap;
  a_inodeBM : Bitmap;
  a_sb : DiskSuperblock;
  a_metrics : option Metrics;
  a_emit : option (list event);
}.

Definition with_dev (x : BlockDevice) (a : Allocator) : Allocator :=
  mkAllocator x (a_blockBM a) (a_inodeBM a) (a_sb a) (a_metrics a) (a_emit a).
Definition with_blockBM (f : Bitmap -> Bitmap) (a : Allocator) : Allocator :=
  mkAllocator (a_dev a) (f (a_blockBM a)) (a_inodeBM a) (a_sb a) (a_metrics a) (a_emit a).
Definition with_inodeBM (f : Bitmap -> Bitmap) (a : Allocator) : Allocator :=
  mkAllocator (a_dev a) (a_blockBM a) (f (a_inodeBM a)) (a_sb a) (a_metrics a) (a_emit a).
Definition with_sb (f : DiskSuperblock -> DiskSuperblock) (a : Allocator) : Allocator :=
  mkAllocator (a_dev a) (a_blockBM a) (a_inodeBM a) (f (a_sb a)) (a_metrics a) (a_emit a).
Definition with_metrics (x : option Metrics) (a : Allocator) : Allocator :=
  mkAllocator (a_dev a) (a_blockBM a) (a_inodeBM a) (a_sb a) x (a_emit a).
Definition with_emit (x : option (list event)) (a : Allocator) : Allocator :=
  mkAllocator (a_dev a) (a_blockBM a) (a_inodeBM a) (a_sb a) (a_metrics a) x.

(** The counters of the superblock, [uint32]s. *)
Definition set_free (blocks inodes : Z) (sb : DiskSuperblock) : DiskSuperblock :=
  mkSuperblock (Magic sb) (sb_InodeCount sb) (sb_BlockCount sb) (u32 inodes) (u32 blocks)
    (FirstDataBlock sb) (sb_BlockSize sb) (sb_InodeSize sb) (BlocksPerGroup sb) (MagicV2 sb)
    (State sb) (MountCount sb) (MaxMountCount sb) (LastMount sb) (LastWrite sb) (LastCheck sb)
    (InodeBitmapBlock sb) (BlockBitmapBlock sb) (InodeTableBlock sb) (sb_JournalStart sb)
    (JournalLength sb) (Version sb) (UUID sb) (VolumeName sb).
(** [sb.FreeBlocks++], [sb.FreeBlocks--] and their inode companions. *)
Definition addFreeBlocks (n : Z) (sb : DiskSuperblock) : DiskSuperblock :=
  set_free (FreeBlocks sb + n) (FreeInodes sb) sb.
Definition addFreeInodes (n : Z) (sb : DiskSuperblock) : DiskSuperblock :=
  set_free (FreeBlocks sb) (FreeInodes sb + n) sb.

(** ** Operations *)

Definition NewAllocator (dev : BlockDevice) (sb : DiskSuperblock) (blockBM inodeBM : Bitmap)
    (m : option Metrics) : Allocator :=
  mkAllocator dev blockBM inodeBM sb m None.

(** [SetEventHook] with a hook that logs. *)
Definition SetEventHook (on : bool) : M Allocator unit :=
  modify (with_emit (if on then Some [] else None)).

(** A call to the shared device. *)
Definition onDev {A} (m : M BlockDevice A) : M Allocator A := zoom a_dev with_dev m.

(** [if a.metrics != nil { a.metrics.c.Add(n) }] *)
Definition count (c : counter) (n : Z) : M Allocator unit :=
  modify (fun a => with_metrics (Add c n <$> a_metrics a) a).

(** [if a.emit != nil { a.emit(ty, fields) }] *)
Definition emitEvent (ty : string) (fields : list (string * Z)) : M Allocator unit :=
  modify (fun a => with_emit (cons (ty, fields) <$> a_emit a) a).

Definition AllocBlock : M Allocator Z :=
  '(idx, ok) ← gets (fun a => FindNext (a_blockBM a) DataStart);
  failIf (negb ok) ErrNoSpace ;;
  modify (with_blockBM (fun bm => SetBit bm idx)) ;;
  modify (with_sb (fun sb => if 0 <? FreeBlocks sb then addFreeBlocks (- 1) sb else sb)) ;;
  bm ← gets a_blockBM;
  onErr (onDev (WriteBlockBitmap bm)) (fun err =>
    modify (with_blockBM (fun bm => Clear bm idx)) ;;
    modify (with_sb (addFreeBlocks 1)) ;;
    throw (Wrapf "alloc: write block bitmap: %w" [] err)) ;;
  wrapErr "alloc: zero block %d: %w" [idx] (onDev (WriteBlock idx zeroBlock)) ;;
  count BlocksAllocated 1 ;;
  emitEvent "block_alloc" [("blockAddr"%string, idx)] ;;
  mret idx.

Definition FreeBlock (addr : Z) : M Allocator unit :=
  failIf ((addr <? DataStart) || (TotalBlocks <=? addr))
    (Errorf "alloc: free invalid block %d" [addr]) ;;
  set ← gets (fun a => IsSet (a_blockBM a) addr);
  if negb set then mret tt
  else
    modify (with_blockBM (fun bm => Clear bm addr)) ;;
    modify (with_sb (addFreeBlocks 1)) ;;
    bm ← gets a_blockBM;
    onDev (WriteBlockBitmap bm) ;;
    count BlocksFreed 1 ;;
    emitEvent "block_free" [("blockAddr"%string, addr)].

Definition AllocInode : M Allocator Z :=
  '(idx, ok) ← gets (fun a => FindNext (a_inodeBM a) 0);
  failIf (negb ok) ErrNoSpace ;;
  modify (with_inodeBM (fun bm => SetBit bm idx)) ;;
  modify (with_sb (fun sb => if 0 <? FreeInodes sb then addFreeInodes (- 1) sb else sb)) ;;
  bm ← gets a_inodeBM;
  onErr (onDev (WriteInodeBitmap bm)) (fun err =>
    modify (with_inodeBM (fun bm => Clear bm idx)) ;;
    modify (with_sb (addFreeInodes 1)) ;;
    throw (Wrapf "alloc: write inode bitmap: %w" [] err)) ;;
  count InodesAllocated 1 ;;
  emitEvent "inode_alloc" [("inodeNum"%string, idx + 1)] ;;
  mret (u32 (idx + 1)).

Definition FreeInode (inum : Z) : M Allocator unit :=
  failIf ((inum =? 0) || (InodeCount <? inum)) (Errorf "alloc: free invalid inode %d" [inum]) ;;
  let idx := inum - 1 in
  set ← gets (fun a => IsSet (a_inodeBM a) idx);
  if negb set then mret tt
  else
    modify (with_inodeBM (fun bm => Clear bm idx)) ;;
    modify (with_sb (addFreeInodes 1)) ;;
    bm ← gets a_inodeBM;
    wrapErr "alloc: write inode bitmap: %w" [] (onDev (WriteInodeBitmap bm)) ;;
    count InodesFreed 1 ;;
    emitEvent "inode_free" [("inodeNum"%string, inum)] ;;
    onDev (WriteInode inum emptyInode).

(** [decodePointers]: four bytes put together by shifts, 1024 times. *)
Definition decodePointer (blk : block) (i : nat) : Z :=
  let at_ k := b2z (blk !!! (i * 4 + k)%nat) in
  Z.lor (Z.lor (Z.lor (at_ 0%nat) (Z.shiftl (at_ 1%nat) 8)) (Z.shiftl (at_ 2%nat) 16))
    (Z.shiftl (at_ 3%nat) 24).
Definition decodePointers (blk : block) : list Z :=
  decodePointer blk <$> seq 0 (Z.to_nat PointersPerBlock).

Definition encodePointer (buf : list byte) (offset : nat) (val : Z) : list byte :=
  <[(offset + 3)%nat := z2b (Z.shiftr val 24)]>
    (<[(offset + 2)%nat := z2b (Z.shiftr val 16)]>
      (<[(offset + 1)%nat := z2b (Z.shiftr val 8)]> (<[offset := z2b val]> buf))).

(** The shape of [freeIndirect1], [2] and [3]: read the pointers, free what
    each points to, free the block itself. *)
Definition freePointers (free : Z -> M Allocator unit) (blockAddr : Z) : M Allocator unit :=
  blk ← onDev (ReadBlock blockAddr);
  let ptrs := decodePointers blk in
  forEach (fun ptr => whenM (negb (ptr =? 0)) (free ptr)) ptrs ;;
  FreeBlock blockAddr.

Definition freeIndirect1 : Z -> M Allocator unit := freePointers FreeBlock.
Definition freeIndirect2 : Z -> M Allocator unit := freePointers freeIndirect1.
Definition freeIndirect3 : Z -> M Allocator unit := freePointers freeIndirect2.

Definition FreeInodeBlocks (di : DiskInode) : M Allocator unit :=
  forEach (fun addr => whenM (negb (addr =? 0)) (FreeBlock addr)) (Direct di) ;;
  whenM (negb (Indirect1 di =? 0)) (freeIndirect1 (Indirect1 di)) ;;
  whenM (negb (Indirect2 di =? 0)) (freeIndirect2 (Indirect2 di)) ;;
  whenM (negb (Indirect3 di =? 0)) (freeIndirect3 (Indirect3 di)).

(** ** The allocator's invariant: the counters of the superblock are the
    numbers of clear bits, and the bitmaps fit their blocks. *)

Definition bm_ok (n : Z) (bm : Bitmap) : Prop :=
  wf_bitmap bm /\ size bm = n /\ (length (bits bm) <= BlockLen)%nat.

Record alloc_inv (a : Allocator) : Prop := {
  ai_block : bm_ok TotalBlocks (a_blockBM a);
  ai_inode : bm_ok InodeCount (a_inodeBM a);
  ai_freeBlocks : FreeBlocks (a_sb a) = freeCount (a_blockBM a);
  ai_freeInodes : FreeInodes (a_sb a) = freeCount (a_inodeBM a);
}.

(** The bitmaps on disk are those in memory. *)
Record alloc_synced (a : Allocator) : Prop := {
  as_block : peek (a_dev a) BlockBitmapAddr = bitmapBlock (a_blockBM a);
  as_inode : peek (a_dev a) InodeBitmapAddr = bitmapBlock (a_inodeBM a);
}.

(** A block nobody may write to when it allocates: metadata other than the
    bitmaps, and blocks in use. *)
Definition in_use (a : Allocator) (addr : Z) : Prop :=
  addr <> BlockBitmapAddr /\ addr <> InodeBitmapAddr /\
  (addr < DataStart \/ IsSet (a_blockBM a) addr = true).

(** What an allocation may do, whether it succeeds or not: keep the blocks in
    use, keep the file of the device, and only add blocks in use. *)
Record alloc_grows (a a' : Allocator) : Prop := {
  ag_evol : dev_evol (a_dev a) (a_dev a');
  ag_file : dev_file (a_dev a') = dev_file (a_dev a);
  ag_frame : forall x, 0 <= x -> in_use a x -> peek (a_dev a') x = peek (a_dev a) x;
  ag_mono : forall x, 0 <= x -> IsSet (a_blockBM a) x = true -> IsSet (a_blockBM a') x = true;
}.

(** ** Lemmas on bitmaps with a count *)

Lemma bm_ok_SetBit n bm i : bm_ok n bm -> bm_ok n (SetBit bm i).
Proof.
  intros (H1 & H2 & H3). split_and!; [by apply wf_SetBit|by rewrite size_SetBit|].
  by rewrite length_SetBit.
Qed.

Lemma bm_ok_Clear n bm i : bm_ok n bm -> bm_ok n (Clear bm i).
Proof.
  intros (H1 & H2 & H3). split_and!; [by apply wf_Clear|by rewrite size_Clear|].
  by rewrite length_Clear.
Qed.

Lemma freeCount_range bm : 0 <= size bm -> 0 <= freeCount bm <= size bm.
Proof.
  intros Hs. rewrite /freeCount.
  pose proof (length_filter (fun n => IsSet bm n = false) (seqZ 0 (size bm))) as H.
  rewrite length_seqZ in H. lia.
Qed.

Lemma freeCount_pos bm n : 0 <= n < size bm -> IsSet bm n = false -> 0 < freeCount bm.
Proof.
  intros Hn Hc. rewrite /freeCount.
  assert (n ∈ filter (fun n => IsSet bm n = false) (seqZ 0 (size bm))) as H.
  { apply list_elem_of_filter. split; [done|]. apply elem_of_seqZ. lia. }
  destruct (filter _ _); [by apply not_elem_of_nil in H|]. simpl. lia.
Qed.

Lemma FindNext_true bm start i :
  wf_bitmap bm -> 0 <= start -> FindNext bm start = (i, true) ->
  start <= i < size bm /\ IsSet bm i = false.
Proof.
  intros Hwf Hs E. pose proof (FindNext_first_clear bm start Hwf Hs) as H.
  rewrite E in H. by destruct H as (? & ? & _).
Qed.

Lemma FindNext_false bm start i :
  wf_bitmap bm -> 0 <= start -> FindNext bm start = (i, false) ->
  forall j, start <= j < size bm -> IsSet bm j = true.
Proof.
  intros Hwf Hs E. pose proof (FindNext_first_clear bm start Hwf Hs) as H.
  rewrite E in H. by destruct H as (_ & H).
Qed.

(** ** The steps of the operations *)

(** The bit and the counter of a block that is taken, or given back. *)
Definition took (idx : Z) (a : Allocator) : Allocator :=
  with_sb (fun sb => if 0 <? FreeBlocks sb then addFreeBlocks (- 1) sb else sb)
    (with_blockBM (fun bm => SetBit bm idx) a).
Definition gave (idx : Z) (a : Allocator) : Allocator :=
  with_sb (addFreeBlocks 1) (with_blockBM (fun bm => Clear bm idx) a).
Definition tookI (idx : Z) (a : Allocator) : Allocator :=
  with_sb (fun sb => if 0 <? FreeInodes sb then addFreeInodes (- 1) sb else sb)
    (with_inodeBM (fun bm => SetBit bm idx) a).
Definition gaveI (idx : Z) (a : Allocator) : Allocator :=
  with_sb (addFreeInodes 1) (with_inodeBM (fun bm => Clear bm idx) a).

(** The counter and the event at the end of an operation. *)
Definition noted (c : counter) (ty f : string) (x : Z) (a : Allocator) : Allocator :=
  with_emit (cons (ty, [(f, x)]) <$> a_emit a) (with_metrics (Add c 1 <$> a_metrics a) a).

Lemma run_noted {A} c ty f x (k : M Allocator A) a :
  (count c 1 ;; emitEvent ty [(f, x)] ;; k) a = k (noted c ty f x a).
Proof. done. Qed.

Lemma took_inv idx a :
  alloc_inv a -> 0 <= idx < TotalBlocks -> IsSet (a_blockBM a) idx = false ->
  alloc_inv (took idx a).
Proof.
  intros [Hb Hi Hf Hg] Hr Hc. pose proof Hb as (Hwf & Hs & _).
  pose proof (freeCount_pos (a_blockBM a) idx ltac:(lia) Hc) as Hp.
  pose proof (freeCount_range (a_blockBM a)) as Hq.
  pose proof (freeCount_range (a_inodeBM a)) as Hq2. destruct Hi as (?&?&?).
  assert ((0 <? FreeBlocks (a_sb a)) = true) as Hpos by (apply Z.ltb_lt; lia).
  split; [by apply bm_ok_SetBit|done| |]; rewrite /took /= Hpos /=.
  - rewrite freeCount_SetBit //; [lia|]. rewrite u32_small; unfold TotalBlocks, InodeCount in *; lia.
  - rewrite u32_small; unfold TotalBlocks, InodeCount in *; lia.
Qed.

Lemma gave_inv idx a :
  alloc_inv a -> 0 <= idx < TotalBlocks -> IsSet (a_blockBM a) idx = true ->
  alloc_inv (gave idx a).
Proof.
  intros [Hb Hi Hf Hg] Hr Hc. pose proof Hb as (Hwf & Hs & _).
  pose proof (freeCount_range (a_blockBM a)) as Hq.
  pose proof (freeCount_range (a_inodeBM a)) as Hq2. destruct Hi as (?&?&?).
  pose proof (freeCount_Clear (a_blockBM a) idx Hwf ltac:(lia) Hc) as Hcl.
  pose proof (freeCount_range (Clear (a_blockBM a) idx)) as Hq3. rewrite size_Clear in Hq3.
  unfold TotalBlocks, InodeCount in *.
  split; [by apply bm_ok_Clear|done| |]; simpl.
  - rewrite Hcl u32_small; lia.
  - rewrite u32_small; lia.
Qed.

Lemma tookI_inv idx a :
  alloc_inv a -> 0 <= idx < InodeCount -> IsSet (a_inodeBM a) idx = false ->
  alloc_inv (tookI idx a).
Proof.
  intros [Hb Hi Hf Hg] Hr Hc. pose proof Hi as (Hwf & Hs & _).
  pose proof (freeCount_pos (a_inodeBM a) idx ltac:(lia) Hc) as Hp.
  pose proof (freeCount_range (a_inodeBM a)) as Hq.
  pose proof (freeCount_range (a_blockBM a)) as Hq2. destruct Hb as (?&?&?).
  assert ((0 <? FreeInodes (a_sb a)) = true) as Hpos by (apply Z.ltb_lt; lia).
  split; [done|by apply bm_ok_SetBit| |]; rewrite /tookI /= Hpos /=.
  - rewrite u32_small; unfold TotalBlocks, InodeCount in *; lia.
  - rewrite freeCount_SetBit //; [lia|]. rewrite u32_small; unfold TotalBlocks, InodeCount in *; lia.
Qed.

Lemma gaveI_inv idx a :
  alloc_inv a -> 0 <= idx < InodeCount -> IsSet (a_inodeBM a) idx = true ->
  alloc_inv (gaveI idx a).
Proof.
  intros [Hb Hi Hf Hg] Hr Hc. pose proof Hi as (Hwf & Hs & _).
  pose proof (freeCount_range (a_inodeBM a)) as Hq.
  pose proof (freeCount_range (a_blockBM a)) as Hq2. destruct Hb as (?&?&?).
  pose proof (freeCount_Clear (a_inodeBM a) idx Hwf ltac:(lia) Hc) as Hcl.
  pose proof (freeCount_range (Clear (a_inodeBM a) idx)) as Hq3. rewrite size_Clear in Hq3.
  unfold TotalBlocks, InodeCount in *.
  split; [done|by apply bm_ok_Clear| |]; simpl.
  - rewrite u32_small; lia.
  - rewrite Hcl u32_small; lia.
Qed.

(** The invariant speaks of the bitmaps and of the superblock only. *)
Lemma inv_with_dev d a : alloc_inv a -> alloc_inv (with_dev d a).
Proof. intros [? ? ? ?]. by split. Qed.

Lemma inv_noted c ty f x a : alloc_inv a -> alloc_inv (noted c ty f x a).
Proof. intros [? ? ? ?]. by split. Qed.

Lemma onDev_inv {A} (m : M BlockDevice A) : preserves alloc_inv (onDev m).
Proof. intros a H. rewrite /onDev /zoom. destruct (m _). by apply inv_with_dev. Qed.

#[export] Hint Resolve inv_with_dev inv_noted : core.
#[export] Hint Resolve onDev_inv : keeps.

Lemma onDev_only {A} (m : M BlockDevice A) P a :
  keeps (dev_only P) m ->
  exists r d, onDev m a = (r, with_dev d a) /\ m (a_dev a) = (r, d) /\ dev_only P (a_dev a) d.
Proof.
  intros H. specialize (H (a_dev a)). rewrite /onDev /zoom.
  destruct (m (a_dev a)) as [r d]. eauto.
Qed.

(** ** The outcomes of each operation, under any failure of the device *)

Lemma onErr_bind_run {S A B} (m : M S A) h (k : A -> M S B) s :
  (onErr m h ≫= k) s =
    match m s with
    | (Ok x, s') => k x s'
    | (Err e, s') => (h e ≫= k) s'
    | (Panic, s') => (Panic, s')
    end.
Proof. rewrite /onErr /mbind /M_bind. by destruct (m s) as [[]]. Qed.

Lemma wrapErr_bind_run {S A B} fmt args (m : M S A) (k : A -> M S B) s :
  (wrapErr fmt args m ≫= k) s =
    match m s with
    | (Ok x, s') => k x s'
    | (Err e, s') => (Err (Wrapf fmt args e), s')
    | (Panic, s') => (Panic, s')
    end.
Proof. rewrite /wrapErr /mbind /M_bind. by destruct (m s) as [[]]. Qed.

Lemma bind_run {S A B} (m : M S A) (k : A -> M S B) s :
  (m ≫= k) s =
    match m s with
    | (Ok x, s') => k x s'
    | (Err e, s') => (Err e, s')
    | (Panic, s') => (Panic, s')
    end.
Proof. rewrite /mbind /M_bind. by destruct (m s) as [[]]. Qed.

(** The device after writes to a bitmap and to one more block. *)
Definition dev_writes (blocks : list Z) : BlockDevice -> BlockDevice -> Prop :=
  dev_only (fun x => x ∈ blocks).

#[export] Instance dev_writes_preorder l : PreOrder (dev_writes l).
Proof. apply dev_only_preorder. Qed.

Lemma dev_only_mono (P Q : Z -> Prop) d d' :
  (forall x, P x -> Q x) -> dev_only P d d' -> dev_only Q d d'.
Proof. intros H [h1 h2 h3]. split; [done|done|]. intros a Ha Hq. apply h3; [done|naive_solver]. Qed.

(** The outcomes of an allocation: no space, a failed bitmap write that is
    undone, a failed write of zeros, or a block. *)
Definition AllocBlock_outcome (idx : Z) (a : Allocator) (r : result Z * Allocator) : Prop :=
  exists d, dev_writes [BlockBitmapAddr; idx] (a_dev a) d /\
    match r with
    | (Ok i, a') => i = idx /\ a' = noted BlocksAllocated "block_alloc" "blockAddr" idx (with_dev d (took idx a))
    | (Err e, a') => a' = with_dev d (gave idx (took idx a)) \/ a' = with_dev d (took idx a)
    | (Panic, _) => False
    end.

Lemma AllocBlock_cases a :
  alloc_inv a ->
  match FindNext (a_blockBM a) DataStart with
  | (_, false) => AllocBlock a = (Err ErrNoSpace, a)
  | (idx, true) => DataStart <= idx < TotalBlocks /\ IsSet (a_blockBM a) idx = false /\
                   AllocBlock_outcome idx a (AllocBlock a)
  end.
Proof.
  intros Hinv. destruct (ai_block _ Hinv) as (Hwf & Hs & _).
  destruct (FindNext (a_blockBM a) DataStart) as [idx ok] eqn:E.
  rewrite /AllocBlock bind_gets E. destruct ok; [|done].
  apply FindNext_true in E as [Hr Hc]; [|done..]. rewrite Hs in Hr.
  split; [done|]. split; [done|].
  rewrite bind_failIf_false // bind_modify bind_modify bind_gets -/(took idx a).
  rewrite onErr_bind_run.
  destruct (onDev_only (WriteBlockBitmap (a_blockBM (took idx a)))
    (fun x => x ∈ [BlockBitmapAddr; idx]) (took idx a)) as (r1 & d1 & -> & Hr1 & H1).
  { apply WriteBlockBitmap_keeps. set_solver. }
  pose proof (WriteBlock_total BlockBitmapAddr (bitmapBlock (a_blockBM (took idx a)))
    (a_dev (took idx a))) as Ht1.
  rewrite /WriteBlockBitmap in Hr1. rewrite Hr1 in Ht1.
  destruct r1 as [[]|e|]; [| |done].
  - rewrite wrapErr_bind_run.
    destruct (onDev_only (WriteBlock idx zeroBlock) (fun x => x ∈ [BlockBitmapAddr; idx])
      (with_dev d1 (took idx a))) as (r2 & d2 & -> & Hr2 & H2).
    { apply WriteBlock_keeps; [unfold DataStart in *; lia|set_solver]. }
    pose proof (WriteBlock_total idx zeroBlock d1) as Ht2. rewrite Hr2 /= in Ht2.
    exists d2. split; [by trans d1|]. destruct r2 as [[]|e|]; [done|by right|done].
  - exists d1. split; [done|]. by left.
Qed.

Lemma FreeBlock_cases addr a :
  alloc_inv a -> 0 <= addr ->
  exists d, dev_writes [BlockBitmapAddr] (a_dev a) d /\
    match FreeBlock addr a with
    | (Ok _, a') => DataStart <= addr < TotalBlocks /\
        (if IsSet (a_blockBM a) addr
         then a' = noted BlocksFreed "block_free" "blockAddr" addr (with_dev d (gave addr a)) else a' = a)
    | (Err _, a') => if decide (DataStart <= addr < TotalBlocks)
                     then IsSet (a_blockBM a) addr = true /\ a' = with_dev d (gave addr a) else a' = a
    | (Panic, _) => False
    end.
Proof.
  intros Hinv Ha. rewrite /FreeBlock.
  destruct ((addr <? DataStart) || (TotalBlocks <=? addr)) eqn:E.
  { exists (a_dev a). split; [done|]. rewrite /failIf bind_run /=.
    case_decide; [|done]. apply orb_true_iff in E as [E|E]; simpl_bool; lia. }
  simpl_bool. rewrite bind_failIf_false // bind_gets.
  destruct (IsSet (a_blockBM a) addr) eqn:Hset; simpl; [|exists (a_dev a); by split].
  rewrite bind_modify bind_modify bind_gets -/(gave addr a) bind_run.
  destruct (onDev_only (WriteBlockBitmap (a_blockBM (gave addr a)))
    (fun x => x ∈ [BlockBitmapAddr]) (gave addr a)) as (r1 & d1 & -> & Hr1 & H1).
  { apply WriteBlockBitmap_keeps. set_solver. }
  pose proof (WriteBlock_total BlockBitmapAddr (bitmapBlock (a_blockBM (gave addr a)))
    (a_dev (gave addr a))) as Ht1.
  rewrite /WriteBlockBitmap in Hr1. rewrite Hr1 in Ht1.
  exists d1. split; [done|]. destruct r1 as [[]|e|]; [done|by case_decide; [|lia]|done].
Qed.

Lemma AllocInode_cases a :
  alloc_inv a ->
  match FindNext (a_inodeBM a) 0 with
  | (_, false) => AllocInode a = (Err ErrNoSpace, a)
  | (idx, true) => 0 <= idx < InodeCount /\ IsSet (a_inodeBM a) idx = false /\
      exists d, dev_writes [InodeBitmapAddr] (a_dev a) d /\
        match AllocInode a with
        | (Ok i, a') => i = idx + 1 /\
            a' = noted InodesAllocated "inode_alloc" "inodeNum" (idx + 1) (with_dev d (tookI idx a))
        | (Err e, a') => a' = with_dev d (gaveI idx (tookI idx a))
        | (Panic, _) => False
        end
  end.
Proof.
  intros Hinv. destruct (ai_inode _ Hinv) as (Hwf & Hs & _).
  destruct (FindNext (a_inodeBM a) 0) as [idx ok] eqn:E.
  rewrite /AllocInode bind_gets E. destruct ok; [|done].
  apply FindNext_true in E as [Hr Hc]; [|done..]. rewrite Hs in Hr.
  split; [done|]. split; [done|].
  rewrite bind_failIf_false // bind_modify bind_modify bind_gets -/(tookI idx a).
  rewrite onErr_bind_run.
  destruct (onDev_only (WriteInodeBitmap (a_inodeBM (tookI idx a)))
    (fun x => x ∈ [InodeBitmapAddr]) (tookI idx a)) as (r1 & d1 & -> & Hr1 & H1).
  { apply WriteInodeBitmap_keeps. set_solver. }
  pose proof (WriteBlock_total InodeBitmapAddr (bitmapBlock (a_inodeBM (tookI idx a)))
    (a_dev (tookI idx a))) as Ht1.
  rewrite /WriteInodeBitmap in Hr1. rewrite Hr1 in Ht1.
  exists d1. split; [done|]. destruct r1 as [[]|e|]; [|done|done].
  rewrite run_noted /=. split; [|done]. unfold InodeCount in *. rewrite u32_small; lia.
Qed.

Lemma FreeInode_cases inum a :
  alloc_inv a -> 0 <= inum ->
  exists d, dev_only (fun x => InodeBitmapAddr = x \/ InodeTableStart <= x < InodeTableStart + InodeTableBlocks) (a_dev a) d /\
    let a' := (FreeInode inum a).2 in
    (FreeInode inum a).1 <> Panic /\
    (a' = a \/ valid_inum inum /\ IsSet (a_inodeBM a) (inum - 1) = true /\
       (a' = with_dev d (gaveI (inum - 1) a) \/
        a' = with_dev d (noted InodesFreed "inode_free" "inodeNum" inum (gaveI (inum - 1) a)))).
Proof.
  intros Hinv Ha. rewrite /FreeInode.
  destruct ((inum =? 0) || (InodeCount <? inum)) eqn:E.
  { exists (a_dev a). split; [done|]. rewrite /failIf bind_run /=. by split; [|left]. }
  simpl_bool. rewrite bind_failIf_false // bind_gets.
  destruct (IsSet (a_inodeBM a) (inum - 1)) eqn:Hset; simpl.
  2:{ exists (a_dev a). split; [done|]. by split; [|left]. }
  rewrite bind_modify bind_modify bind_gets -/(gaveI (inum - 1) a) wrapErr_bind_run.
  set (P := fun x => InodeBitmapAddr = x \/ InodeTableStart <= x < InodeTableStart + InodeTableBlocks).
  destruct (onDev_only (WriteInodeBitmap (a_inodeBM (gaveI (inum - 1) a))) P (gaveI (inum - 1) a))
    as (r1 & d1 & -> & Hr1 & H1).
  { apply WriteInodeBitmap_keeps. by left. }
  pose proof (WriteBlock_total InodeBitmapAddr (bitmapBlock (a_inodeBM (gaveI (inum - 1) a)))
    (a_dev (gaveI (inum - 1) a))) as Ht1.
  rewrite /WriteInodeBitmap in Hr1. rewrite Hr1 in Ht1.
  assert (valid_inum inum) as Hv by (rewrite /valid_inum; lia).
  destruct r1 as [[]|e|]; [| |done].
  2:{ exists d1. split; [done|]. split; [done|]. right. split_and!; [done..|by left]. }
  rewrite run_noted.
  destruct (onDev_only (WriteInode inum emptyInode) P
    (noted InodesFreed "inode_free" "inodeNum" inum (with_dev d1 (gaveI (inum - 1) a))))
    as (r2 & d2 & -> & Hr2 & H2).
  { apply WriteInode_keeps; [lia|]. intros x Hx. by right. }
  exists d2. split; [by trans d1|]. split.
  - pose proof (WriteInode_total inum emptyInode d1) as Ht2. by rewrite Hr2 in Ht2.
  - right. split_and!; [done..|by right].
Qed.

(** ** Under any failure: the invariant, and what allocation leaves alone *)

Lemma IsSet_took idx x a :
  alloc_inv a -> 0 <= idx < TotalBlocks -> 0 <= x ->
  IsSet (a_blockBM (took idx a)) x = if decide (x = idx) then true else IsSet (a_blockBM a) x.
Proof.
  intros [(Hwf & Hs & _) _ _ _] Hi Hx. change (a_blockBM (took idx a)) with (SetBit (a_blockBM a) idx).
  apply IsSet_SetBit; [done|lia|done].
Qed.

Lemma IsSet_gave idx x a :
  alloc_inv a -> 0 <= idx < TotalBlocks -> 0 <= x ->
  IsSet (a_blockBM (gave idx a)) x = if decide (x = idx) then false else IsSet (a_blockBM a) x.
Proof.
  intros [(Hwf & Hs & _) _ _ _] Hi Hx. change (a_blockBM (gave idx a)) with (Clear (a_blockBM a) idx).
  apply IsSet_Clear; [done|lia|done].
Qed.

Lemma IsSet_tookI idx x a :
  alloc_inv a -> 0 <= idx < InodeCount -> 0 <= x ->
  IsSet (a_inodeBM (tookI idx a)) x = if decide (x = idx) then true else IsSet (a_inodeBM a) x.
Proof.
  intros [_ (Hwf & Hs & _) _ _] Hi Hx. change (a_inodeBM (tookI idx a)) with (SetBit (a_inodeBM a) idx).
  apply IsSet_SetBit; [done|lia|done].
Qed.

Lemma data_range idx : DataStart <= idx < TotalBlocks -> 0 <= idx < TotalBlocks.
Proof. unfold DataStart. lia. Qed.

Lemma AllocBlock_inv : preserves alloc_inv AllocBlock.
Proof.
  intros a Hinv. pose proof (AllocBlock_cases a Hinv) as H.
  destruct (FindNext (a_blockBM a) DataStart) as [idx []]; [|by rewrite H].
  destruct H as (Hr & Hc & d & _ & H). apply data_range in Hr.
  pose proof (took_inv idx a Hinv Hr Hc) as Ht.
  destruct (AllocBlock a) as [[i|e|] a']; simpl; [| |done].
  - destruct H as [_ ->]. auto.
  - destruct H as [-> | ->]; [|auto]. apply inv_with_dev, gave_inv; [done..|].
    rewrite IsSet_took //; [lia|]. by rewrite decide_True.
Qed.

Lemma FreeBlock_inv addr : 0 <= addr -> preserves alloc_inv (FreeBlock addr).
Proof.
  intros Ha a Hinv. destruct (FreeBlock_cases addr a Hinv Ha) as (d & _ & H).
  destruct (FreeBlock addr a) as [[[]|e|] a']; simpl; [| |done].
  - destruct H as [Hr H]. apply data_range in Hr.
    destruct (IsSet (a_blockBM a) addr) eqn:E; subst; [|done].
    apply inv_noted, inv_with_dev. by apply gave_inv.
  - case_decide as Hr; [|by subst]. destruct H as [Hset ->]. apply data_range in Hr.
    apply inv_with_dev. by apply gave_inv.
Qed.

Lemma AllocInode_inv : preserves alloc_inv AllocInode.
Proof.
  intros a Hinv. pose proof (AllocInode_cases a Hinv) as H.
  destruct (FindNext (a_inodeBM a) 0) as [idx []]; [|by rewrite H].
  destruct H as (Hr & Hc & d & _ & H). pose proof (tookI_inv idx a Hinv Hr Hc) as Ht.
  destruct (AllocInode a) as [[i|e|] a']; simpl; [| |done].
  - destruct H as [_ ->]. auto.
  - subst. apply inv_with_dev, gaveI_inv; [done..|].
    rewrite IsSet_tookI //; [lia|]. by rewrite decide_True.
Qed.

Lemma FreeInode_inv inum : 0 <= inum -> preserves alloc_inv (FreeInode inum).
Proof.
  intros Ha a Hinv. destruct (FreeInode_cases inum a Hinv Ha) as (d & _ & _ & H).
  destruct H as [->|(Hv & Hset & H)]; [done|].
  assert (alloc_inv (gaveI (inum - 1) a)) as Hg.
  { apply gaveI_inv; [done| |done]. rewrite /valid_inum in Hv. lia. }
  destruct H as [-> | ->]; auto.
Qed.

Lemma decodePointers_nonneg blk : Forall (fun p => 0 <= p) (decodePointers blk).
Proof.
  apply Forall_forall. intros p Hp. apply list_elem_of_fmap in Hp as (i & -> & _).
  rewrite /decodePointer. pose proof (fun k => b2z_range (blk !!! (i * 4 + k)%nat)) as Hb.
  rewrite !Z.lor_nonneg. rewrite !Z.shiftl_nonneg. repeat split; apply Hb.
Qed.

Lemma forEach_nonneg_inv (free : Z -> M Allocator unit) l :
  (forall p, 0 <= p -> preserves alloc_inv (free p)) -> Forall (fun p => 0 <= p) l ->
  preserves alloc_inv (forEach (fun p => whenM (negb (p =? 0)) (free p)) l).
Proof.
  intros Hf. induction 1 as [|p l Hp _ IH]; simpl; [apply keeps_ret, _|].
  apply keeps_bind; [apply _| |done]. apply keeps_whenM; [apply _|]. auto.
Qed.

Lemma freePointers_inv (free : Z -> M Allocator unit) p :
  (forall p, 0 <= p -> preserves alloc_inv (free p)) -> 0 <= p ->
  preserves alloc_inv (freePointers free p).
Proof.
  intros Hf Hp. rewrite /freePointers. apply keeps_bind; [apply _|apply onDev_inv|].
  intros blk. apply keeps_bind; [apply _| |intros _; by apply FreeBlock_inv].
  apply forEach_nonneg_inv; [done|apply decodePointers_nonneg].
Qed.

Lemma freeIndirect1_inv p : 0 <= p -> preserves alloc_inv (freeIndirect1 p).
Proof. apply freePointers_inv, FreeBlock_inv. Qed.

Lemma freeIndirect2_inv p : 0 <= p -> preserves alloc_inv (freeIndirect2 p).
Proof. apply freePointers_inv, freeIndirect1_inv. Qed.

Lemma freeIndirect3_inv p : 0 <= p -> preserves alloc_inv (freeIndirect3 p).
Proof. apply freePointers_inv, freeIndirect2_inv. Qed.

Lemma FreeInodeBlocks_inv di : wf_inode di -> preserves alloc_inv (FreeInodeBlocks di).
Proof.
  intros (_ & H4 & _ & Hd). rewrite !Forall_cons /is_u32 in H4. destruct_and!.
  rewrite /FreeInodeBlocks. apply keeps_bind; [apply _| |intros _].
  { apply forEach_nonneg_inv; [apply FreeBlock_inv|].
    eapply Forall_impl; [exact Hd|]. intros p Hp. rewrite /is_u32 in Hp. lia. }
  assert (forall (b : bool) m, preserves alloc_inv m -> preserves alloc_inv (whenM b m)) as HW.
  { intros b m Hm. by apply keeps_whenM; [apply _|]. }
  apply keeps_bind; [apply _|by apply HW, freeIndirect1_inv|]. intros _.
  apply keeps_bind; [apply _|by apply HW, freeIndirect2_inv|]. intros _.
  by apply HW, freeIndirect3_inv.
Qed.

Lemma AllocBlock_grows a : alloc_inv a -> alloc_grows a (AllocBlock a).2.
Proof.
  intros Hinv. pose proof (AllocBlock_cases a Hinv) as H.
  destruct (FindNext (a_blockBM a) DataStart) as [idx []]; [|rewrite H; by split].
  destruct H as (Hr & Hc & d & Hd & H). pose proof (data_range _ Hr) as Hr0.
  pose proof (took_inv idx a Hinv Hr0 Hc) as Ht.
  assert (a_dev (AllocBlock a).2 = d /\
          forall x, 0 <= x -> IsSet (a_blockBM a) x = true ->
                    IsSet (a_blockBM (AllocBlock a).2) x = true) as [Hdev Hmono].
  { destruct (AllocBlock a) as [[i|e|] a']; simpl; [|destruct H as [-> | ->]|done]; [destruct H as [_ ->]| |];
      (split; [done|]); intros x Hx Hs; simpl.
    - change (IsSet (a_blockBM (took idx a)) x = true). rewrite IsSet_took //. by case_decide.
    - change (IsSet (a_blockBM (gave idx (took idx a))) x = true).
      rewrite IsSet_gave // IsSet_took //. case_decide; congruence.
    - change (IsSet (a_blockBM (took idx a)) x = true). rewrite IsSet_took //. by case_decide. }
  destruct Hd as [h1 h2 h3]. rewrite /dev_writes in h3. split; rewrite ?Hdev //.
  intros x Hx (H1 & _ & H2). apply h3; [done|]. rewrite !elem_of_cons elem_of_nil.
  intros [-> |[-> |[]]]; [done|]. destruct H2; [lia|congruence].
Qed.

(** ** On a device that does not fail *)

Record alloc_ok (a : Allocator) : Prop := {
  ok_inv : alloc_inv a;
  ok_healthy : healthy (a_dev a);
  ok_wf : wf_dev (a_dev a);
  ok_size : BlockCount (a_dev a) = TotalBlocks;
}.

Definition data_addr (x : Z) : Prop := DataStart <= x < TotalBlocks.

Definition did_alloc (idx : Z) (a : Allocator) : Allocator :=
  noted BlocksAllocated "block_alloc" "blockAddr" idx
    (with_dev (poke idx zeroBlock
                (poke BlockBitmapAddr (bitmapBlock (SetBit (a_blockBM a) idx)) (a_dev a)))
      (took idx a)).

Definition did_free (addr : Z) (a : Allocator) : Allocator :=
  if IsSet (a_blockBM a) addr
  then noted BlocksFreed "block_free" "blockAddr" addr
         (with_dev (poke BlockBitmapAddr (bitmapBlock (Clear (a_blockBM a) addr)) (a_dev a))
           (gave addr a))
  else a.

Lemma onDev_ok {A} (m : M BlockDevice A) a x d :
  m (a_dev a) = (Ok x, d) -> onDev m a = (Ok x, with_dev d a).
Proof. rewrite /onDev /zoom. by intros ->. Qed.

Lemma with_dev_same a : with_dev (a_dev a) a = a.
Proof. by destruct a. Qed.

Lemma onDev_ReadBlock a p :
  alloc_ok a -> p < TotalBlocks -> onDev (ReadBlock p) a = (Ok (peek (a_dev a) p), a).
Proof.
  intros Ha Hp. rewrite (onDev_ok _ a (peek (a_dev a) p) (a_dev a)) ?with_dev_same //.
  apply ReadBlock_ok; [apply Ha|]. by rewrite (ok_size _ Ha).
Qed.

Lemma AllocBlock_ok a idx :
  alloc_ok a -> FindNext (a_blockBM a) DataStart = (idx, true) ->
  AllocBlock a = (Ok idx, did_alloc idx a).
Proof.
  intros [Hinv Hh Hwf Hsz] E. destruct (ai_block _ Hinv) as (Hb & Hs & _).
  pose proof E as E'. apply FindNext_true in E' as [Hr _]; [|done..]. rewrite Hs in Hr.
  rewrite /AllocBlock bind_gets E bind_failIf_false // bind_modify bind_modify bind_gets.
  rewrite -/(took idx a) onErr_bind_run.
  rewrite (onDev_ok _ (took idx a) tt
    (poke BlockBitmapAddr (bitmapBlock (SetBit (a_blockBM a) idx)) (a_dev a))).
  { apply WriteBlockBitmap_ok; [done|]. rewrite [BlockCount _]Hsz. done. }
  rewrite wrapErr_bind_run. erewrite onDev_ok; [by rewrite run_noted|].
  apply WriteBlock_ok; [done| |apply length_zeroBlock].
  change (idx < BlockCount (a_dev a)). lia.
Qed.

Lemma FreeBlock_ok a addr :
  alloc_ok a -> data_addr addr -> FreeBlock addr a = (Ok tt, did_free addr a).
Proof.
  intros [Hinv Hh Hwf Hsz] [H1 H2]. rewrite /FreeBlock /did_free.
  rewrite bind_failIf_false; [apply orb_false_iff; split; [by apply Z.ltb_ge|by apply Z.leb_gt]|].
  rewrite bind_gets. destruct (IsSet (a_blockBM a) addr); simpl; [|done].
  rewrite bind_modify bind_modify bind_gets -/(gave addr a) bind_run.
  rewrite (onDev_ok _ (gave addr a) tt
    (poke BlockBitmapAddr (bitmapBlock (Clear (a_blockBM a) addr)) (a_dev a))) //.
  apply WriteBlockBitmap_ok; [done|]. rewrite [BlockCount _]Hsz. done.
Qed.

Lemma did_alloc_ok idx a :
  alloc_ok a -> data_addr idx -> IsSet (a_blockBM a) idx = false -> alloc_ok (did_alloc idx a).
Proof.
  intros [Hinv Hh Hwf Hsz] Hr Hc. apply data_range in Hr. split.
  - apply inv_noted, inv_with_dev. by apply took_inv.
  - done.
  - apply poke_wf; [apply length_zeroBlock|]. apply poke_wf; [apply length_bitmapBlock|done].
  - done.
Qed.

Lemma did_free_ok addr a : alloc_ok a -> data_addr addr -> alloc_ok (did_free addr a).
Proof.
  intros [Hinv Hh Hwf Hsz] Hr. apply data_range in Hr. rewrite /did_free.
  destruct (IsSet (a_blockBM a) addr) eqn:E; [|done]. split.
  - apply inv_noted, inv_with_dev. by apply gave_inv.
  - done.
  - apply poke_wf; [apply length_bitmapBlock|done].
  - done.
Qed.

(** Allocation either takes a free data block or finds none. *)
Lemma AllocBlock_run a :
  alloc_ok a ->
  (exists new, AllocBlock a = (Ok new, did_alloc new a) /\ data_addr new /\
               IsSet (a_blockBM a) new = false) \/
  (AllocBlock a = (Err ErrNoSpace, a) /\ forall x, data_addr x -> IsSet (a_blockBM a) x = true).
Proof.
  intros Ha. pose proof (ai_block _ (ok_inv _ Ha)) as (Hwf & Hs & _).
  destruct (FindNext (a_blockBM a) DataStart) as [idx []] eqn:E.
  - left. exists idx. pose proof E as E'. apply FindNext_true in E' as [Hr Hc]; [|done..].
    rewrite Hs in Hr. split; [by apply AllocBlock_ok|done].
  - right. split; [by rewrite /AllocBlock bind_gets E|]. rewrite /data_addr -Hs.
    by apply (FindNext_false _ DataStart idx Hwf).
Qed.

Lemma IsSet_did_alloc new a x :
  alloc_ok a -> data_addr new -> 0 <= x ->
  IsSet (a_blockBM (did_alloc new a)) x = if decide (x = new) then true else IsSet (a_blockBM a) x.
Proof.
  intros Ha Hn Hx. change (a_blockBM (did_alloc new a)) with (a_blockBM (took new a)).
  apply IsSet_took; [apply Ha|by apply data_range|done].
Qed.

Lemma peek_did_alloc_new new a :
  alloc_ok a -> data_addr new -> peek (a_dev (did_alloc new a)) new = zeroBlock.
Proof.
  intros Ha Hn. apply peek_poke_eq. rewrite length_poke. apply wf_in_range; [apply Ha|].
  rewrite (ok_size _ Ha). by apply data_range.
Qed.

Lemma peek_did_alloc_bitmap new a :
  alloc_ok a -> data_addr new ->
  peek (a_dev (did_alloc new a)) BlockBitmapAddr = bitmapBlock (a_blockBM (did_alloc new a)).
Proof.
  intros Ha Hn. unfold data_addr, DataStart in Hn. simpl.
  rewrite peek_poke_ne; [lia|done|unfold BlockBitmapAddr; lia|].
  rewrite peek_poke_eq //. apply wf_in_range; [apply Ha|]. by rewrite (ok_size _ Ha).
Qed.

Lemma peek_did_alloc_ne new a x :
  data_addr new -> 0 <= x -> x <> new -> x <> BlockBitmapAddr ->
  peek (a_dev (did_alloc new a)) x = peek (a_dev a) x.
Proof.
  intros Hn Hx H1 H2. unfold data_addr, DataStart in Hn. simpl.
  rewrite peek_poke_ne; [lia|done|congruence|]. rewrite peek_poke_ne //. congruence.
Qed.

(** The two images agree but for the block bitmap. *)
Definition data_same (d d' : BlockDevice) : Prop :=
  forall x, 0 <= x -> x <> BlockBitmapAddr -> peek d' x = peek d x.

#[export] Instance data_same_preorder : PreOrder data_same.
Proof.
  split; [done|]. intros d1 d2 d3 H1 H2 x Hx Hne. by rewrite H2 // H1.
Qed.

Lemma data_same_poke d b : data_same d (poke BlockBitmapAddr b d).
Proof. intros x Hx Hne. apply peek_poke_ne; [done|done|congruence]. Qed.

Lemma did_free_same addr a : data_same (a_dev a) (a_dev (did_free addr a)).
Proof.
  rewrite /did_free. destruct (IsSet _ _); [|reflexivity]. apply data_same_poke.
Qed.

Lemma IsSet_did_free p a x :
  alloc_ok a -> data_addr p -> 0 <= x ->
  IsSet (a_blockBM (did_free p a)) x = IsSet (a_blockBM a) x && bool_decide (x <> p).
Proof.
  intros [Hinv _ _ _] Hp Hx. apply data_range in Hp. rewrite /did_free.
  destruct (IsSet (a_blockBM a) p) eqn:E.
  - change (IsSet (a_blockBM (gave p a)) x = IsSet (a_blockBM a) x && bool_decide (x <> p)).
    rewrite IsSet_gave //. case_decide; [rewrite bool_decide_false; [tauto|by rewrite andb_false_r]|].
    by rewrite bool_decide_true // andb_true_r.
  - destruct (decide (x = p)) as [->|Hne]; [by rewrite E|].
    by rewrite bool_decide_true // andb_true_r.
Qed.

Definition free_all (l : list Z) (a : Allocator) : Allocator := foldl (fun a x => did_free x a) a l.

Lemma free_all_app l k a : free_all (l ++ k) a = free_all k (free_all l a).
Proof. apply foldl_app. Qed.

Lemma free_all_ok l a :
  alloc_ok a -> Forall data_addr l ->
  alloc_ok (free_all l a) /\ data_same (a_dev a) (a_dev (free_all l a)) /\
  forall x, 0 <= x -> IsSet (a_blockBM (free_all l a)) x
                      = IsSet (a_blockBM a) x && bool_decide (x ∉ l).
Proof.
  intros Ha Hl. revert a Ha. induction Hl as [|p l Hp Hl IH]; intros a Ha; simpl.
  { split_and!; [done|reflexivity|]. intros x _. by rewrite andb_true_r. }
  destruct (IH _ (did_free_ok p a Ha Hp)) as (H1 & H2 & H3). split_and!; [done| |].
  { etrans; [apply (did_free_same p)|done]. }
  intros x Hx. rewrite H3 //.
  rewrite IsSet_did_free //.
  rewrite -andb_assoc. f_equal. repeat case_bool_decide; set_solver.
Qed.

Lemma forEach_FreeBlock l a :
  alloc_ok a -> Forall data_addr l -> forEach FreeBlock l a = (Ok tt, free_all l a).
Proof.
  intros Ha Hl. revert a Ha. induction Hl as [|p l Hp Hl IH]; intros a Ha; [done|]. simpl.
  rewrite (bind_ok _ _ _ tt (did_free p a)); [by apply FreeBlock_ok|].
  apply IH. by apply did_free_ok.
Qed.

(** The pointers that are not holes. *)
Definition nonzero (l : list Z) : list Z := filter (fun p => p <> 0) l.

(** The blocks freed through one pointer, in the order they are freed. *)
Definition reachP (sub : BlockDevice -> Z -> list Z) (d : BlockDevice) (p : Z) : list Z :=
  (nonzero (decodePointers (peek d p)) ≫= sub d) ++ [p].
Definition reach0 (d : BlockDevice) (p : Z) : list Z := [p].
Definition reach1 : BlockDevice -> Z -> list Z := reachP reach0.
Definition reach2 : BlockDevice -> Z -> list Z := reachP reach1.
Definition reach3 : BlockDevice -> Z -> list Z := reachP reach2.

Definition reachRoot (sub : BlockDevice -> Z -> list Z) (d : BlockDevice) (p : Z) : list Z :=
  if p =? 0 then [] else sub d p.

(** All the blocks of an inode: data blocks and pointer blocks. *)
Definition reachInode (d : BlockDevice) (di : DiskInode) : list Z :=
  nonzero (Direct di) ++ reachRoot reach1 d (Indirect1 di) ++
  reachRoot reach2 d (Indirect2 di) ++ reachRoot reach3 d (Indirect3 di).

(** [free] frees the blocks [sub] lists. *)
Definition frees (free : Z -> M Allocator unit) (sub : BlockDevice -> Z -> list Z) : Prop :=
  (forall p a, alloc_ok a -> Forall data_addr (sub (a_dev a) p) ->
     free p a = (Ok tt, free_all (sub (a_dev a) p) a)) /\
  (forall p d d', data_same d d' -> Forall data_addr (sub d p) -> sub d' p = sub d p).

Lemma frees0 : frees FreeBlock reach0.
Proof.
  split; [|done]. intros p a Ha Hp. apply Forall_cons in Hp as [Hp _].
  by rewrite FreeBlock_ok.
Qed.

Lemma forEach_frees free sub l a :
  frees free sub -> alloc_ok a -> Forall data_addr (nonzero l ≫= sub (a_dev a)) ->
  forEach (fun p => whenM (negb (p =? 0)) (free p)) l a
  = (Ok tt, free_all (nonzero l ≫= sub (a_dev a)) a).
Proof.
  intros [Hf Hsame] Ha. set (d := a_dev a). assert (data_same d (a_dev a)) as Hd by reflexivity.
  clearbody d. revert a Ha Hd. induction l as [|p l IH]; intros a Ha Hd Hl; [done|].
  rewrite /= /nonzero filter_cons /whenM in Hl *. destruct (decide (p <> 0)) as [Hp|Hp].
  - apply Z.eqb_neq in Hp as ->. simpl in *. apply Forall_app in Hl as [Hl1 Hl2].
    pose proof (Hsame p d (a_dev a) Hd Hl1) as E. rewrite free_all_app -E. rewrite -E in Hl1.
    destruct (free_all_ok _ _ Ha Hl1) as (Hok & Hs & _).
    rewrite (bind_ok _ _ _ tt (free_all (sub (a_dev a) p) a)); [by apply Hf|].
    apply IH; [done| |done]. by etrans; [exact Hd|].
  - assert (p = 0) as -> by lia. simpl. by apply IH.
Qed.

Lemma frees_level free sub : frees free sub -> frees (freePointers free) (reachP sub).
Proof.
  intros Hfs. pose proof Hfs as [Hf Hsame]. split.
  - intros p a Ha Hl. rewrite /reachP in Hl *. apply Forall_app in Hl as [Hl Hp].
    apply Forall_cons in Hp as [Hp _]. rewrite /freePointers.
    rewrite (bind_ok _ _ _ (peek (a_dev a) p) a).
    { apply onDev_ReadBlock; [done|]. apply Hp. }
    rewrite (bind_ok _ _ _ _ _ (forEach_frees free sub _ a Hfs Ha Hl)).
    destruct (free_all_ok _ _ Ha Hl) as (Hok & _). by rewrite FreeBlock_ok // free_all_app.
  - intros p d d' Hd Hl. rewrite /reachP in Hl *. apply Forall_app in Hl as [Hl Hp].
    apply Forall_cons in Hp as [Hp _]. rewrite (Hd p);
      [unfold data_addr, DataStart in Hp; lia|unfold data_addr, DataStart, BlockBitmapAddr in *; lia|].
    f_equal. revert Hl. induction (nonzero (decodePointers (peek d p))) as [|q l IH]; [done|].
    simpl. intros [Hl1 Hl2]%Forall_app. rewrite (Hsame q d d') //. f_equal. by apply IH.
Qed.

Lemma whenM_frees free sub p a :
  frees free sub -> alloc_ok a -> Forall data_addr (reachRoot sub (a_dev a) p) ->
  whenM (negb (p =? 0)) (free p) a = (Ok tt, free_all (reachRoot sub (a_dev a) p) a).
Proof. intros [Hf _] Ha. rewrite /reachRoot. destruct (p =? 0); [done|]. by apply Hf. Qed.

Lemma reachRoot_same free sub p d d' :
  frees free sub -> data_same d d' -> Forall data_addr (reachRoot sub d p) ->
  reachRoot sub d' p = reachRoot sub d p.
Proof. intros [_ Hs] Hd. rewrite /reachRoot. destruct (p =? 0); [done|]. by apply Hs. Qed.

Lemma FreeInodeBlocks_ok di a :
  alloc_ok a -> Forall data_addr (reachInode (a_dev a) di) ->
  FreeInodeBlocks di a = (Ok tt, free_all (reachInode (a_dev a) di) a).
Proof.
  intros Ha. rewrite /reachInode !Forall_app !free_all_app. intros (H0 & H1 & H2 & H3).
  pose proof (frees_level _ _ frees0) as F1. pose proof (frees_level _ _ F1) as F2.
  pose proof (frees_level _ _ F2) as F3.
  assert (nonzero (Direct di) ≫= reach0 (a_dev a) = nonzero (Direct di)) as E0.
  { clear. induction (nonzero (Direct di)) as [|p l IH]; [done|]. simpl. by f_equal. }
  rewrite /FreeInodeBlocks.
  rewrite (bind_ok _ _ _ tt (free_all (nonzero (Direct di)) a)).
  { rewrite (forEach_frees _ _ _ _ frees0) // E0 //. }
  destruct (free_all_ok _ _ Ha H0) as (Ha0 & S0 & _).
  pose proof (reachRoot_same _ _ _ _ _ F1 S0 H1) as E1. rewrite -E1. rewrite -E1 in H1.
  rewrite (bind_ok _ _ _ _ _ (whenM_frees _ _ _ _ F1 Ha0 H1)).
  destruct (free_all_ok _ _ Ha0 H1) as (Ha1 & S1 & _).
  pose proof (transitivity S0 S1) as S01.
  pose proof (reachRoot_same _ _ _ _ _ F2 S01 H2) as E2. rewrite -E2. rewrite -E2 in H2.
  rewrite (bind_ok _ _ _ _ _ (whenM_frees _ _ _ _ F2 Ha1 H2)).
  destruct (free_all_ok _ _ Ha1 H2) as (Ha2 & S2 & _).
  pose proof (transitivity S01 S2) as S012.
  pose proof (reachRoot_same _ _ _ _ _ F3 S012 H3) as E3. rewrite -E3. rewrite -E3 in H3.
  apply (whenM_frees _ _ _ _ F3 Ha2 H3).
Qed.

Definition did_allocInode (idx : Z) (a : Allocator) : Allocator :=
  noted InodesAllocated "inode_alloc" "inodeNum" (idx + 1)
    (with_dev (poke InodeBitmapAddr (bitmapBlock (SetBit (a_inodeBM a) idx)) (a_dev a))
      (tookI idx a)).

Lemma AllocInode_ok a idx :
  alloc_ok a -> FindNext (a_inodeBM a) 0 = (idx, true) ->
  AllocInode a = (Ok (idx + 1), did_allocInode idx a).
Proof.
  intros [Hinv Hh Hwf Hsz] E. destruct (ai_inode _ Hinv) as (Hb & Hs & _).
  pose proof E as E'. apply FindNext_true in E' as [Hr _]; [|done..]. rewrite Hs in Hr.
  rewrite /AllocInode bind_gets E bind_failIf_false // bind_modify bind_modify bind_gets.
  rewrite -/(tookI idx a) onErr_bind_run.
  rewrite (onDev_ok _ (tookI idx a) tt
    (poke InodeBitmapAddr (bitmapBlock (SetBit (a_inodeBM a) idx)) (a_dev a))).
  { apply WriteInodeBitmap_ok; [done|]. rewrite [BlockCount _]Hsz. done. }
  rewrite run_noted /did_allocInode u32_small //. unfold InodeCount in *. lia.
Qed.

Lemma alloc_ok_has_table a : alloc_ok a -> has_table (a_dev a).
Proof. intros Ha. rewrite /has_table (ok_size _ Ha). done. Qed.

(** The state after a successful [FreeInode] of a number in use. *)
Definition did_freeInode (inum : Z) (a : Allocator) : Allocator :=
  let d := poke InodeBitmapAddr (bitmapBlock (Clear (a_inodeBM a) (inum - 1))) (a_dev a) in
  let '(blk, o) := InodeNumToBlock inum in
  with_dev (poke blk (putInode emptyInode o (peek d blk)) d)
    (noted InodesFreed "inode_free" "inodeNum" inum (gaveI (inum - 1) a)).

Lemma FreeInode_ok a inum :
  alloc_ok a -> valid_inum inum ->
  FreeInode inum a = (Ok tt, if IsSet (a_inodeBM a) (inum - 1) then did_freeInode inum a else a).
Proof.
  intros Ha Hv. pose proof Ha as [Hinv Hh Hwf Hsz].
  rewrite /FreeInode bind_failIf_false ?valid_inum_guard // bind_gets.
  destruct (IsSet (a_inodeBM a) (inum - 1)); simpl; [|done].
  rewrite bind_modify bind_modify bind_gets -/(gaveI (inum - 1) a) wrapErr_bind_run.
  set (d := poke InodeBitmapAddr (bitmapBlock (Clear (a_inodeBM a) (inum - 1))) (a_dev a)).
  rewrite (onDev_ok _ (gaveI (inum - 1) a) tt d).
  { apply WriteInodeBitmap_ok; [done|]. rewrite [BlockCount _]Hsz. done. }
  rewrite run_noted /did_freeInode -/d. destruct (InodeNumToBlock inum) as [blk o] eqn:E.
  erewrite onDev_ok; [done|].
  apply (WriteInode_ok inum emptyInode d); [done| | |done|done|done].
  - rewrite /has_table [BlockCount _]Hsz. done.
  - apply poke_wf; [apply length_bitmapBlock|done].
Qed.

Lemma freeCount_new n : 0 <= n -> freeCount (NewBitmap n) = n.
Proof.
  intros Hn. rewrite /freeCount /= (_ : filter _ _ = seqZ 0 n); [|rewrite length_seqZ; lia].
  assert (forall l, Forall (fun x => 0 <= x) l ->
            filter (fun x => IsSet (NewBitmap n) x = false) l = l) as H.
  { induction 1 as [|x l Hx Hl IH]; [done|]. rewrite filter_cons decide_True; [|by f_equal].
    rewrite IsSet_bit // /bit /byteAt /NewBitmap /zeros /=. rewrite list_lookup_total_alt.
    destruct (_ !! _) as [b|] eqn:E; [apply lookup_replicate in E as [-> _]|];
      simpl; by rewrite Z.bits_0 andb_false_r. }
  apply H. apply Forall_forall. intros x Hx%elem_of_seqZ. lia.
Qed.

Lemma zero_lookup i : zeroBlock !!! i = x00.
Proof.
  rewrite /zeroBlock /zeros list_lookup_total_alt.
  destruct (_ !! i) eqn:E; [|done]. by apply lookup_replicate in E as [-> _].
Qed.

Lemma nonzero_zeroBlock : nonzero (decodePointers zeroBlock) = [].
Proof.
  rewrite /decodePointers. induction (seq 0 (Z.to_nat PointersPerBlock)) as [|i l IH]; [done|].
  rewrite fmap_cons /nonzero filter_cons decide_False //.
  rewrite /decodePointer !zero_lookup. intros H. by apply H.
Qed.

(** The allocator of an empty disk, all free. *)
Definition blankAllocator : Allocator :=
  NewAllocator (blank (Z.to_nat TotalBlocks))
    (mkSuperblock SuperblockMagic InodeCount TotalBlocks InodeCount TotalBlocks DataStart BlockSize
       InodeSize TotalBlocks SuperblockMagicV2 StateClean 0 20 0 0 0 InodeBitmapAddr BlockBitmapAddr
       InodeTableStart JournalStart JournalBlocks 1 (zeros 16) (zeros 16))
    (NewBitmap TotalBlocks) (NewBitmap InodeCount) None.

Lemma blankAllocator_ok : alloc_ok blankAllocator.
Proof.
  split; [|done|by apply wf_blank|by rewrite BlockCount_blank].
  split; simpl; [..|by rewrite freeCount_new|by rewrite freeCount_new].
  - split_and!; [by apply wf_NewBitmap|done|apply Nat.leb_le; reflexivity].
  - split_and!; [by apply wf_NewBitmap|done|apply Nat.leb_le; reflexivity].
Qed.

(** ** Properties *)

(** C18: the counters of the superblock are exact: every operation of the
    allocator, on every outcome (out of space, an invalid argument, any
    failure of the device at any point), keeps the free counts equal to the
    numbers of clear bits of the two bitmaps. *)
Theorem alloc_accounting inum addr di :
  0 <= addr -> 0 <= inum -> wf_inode di ->
  preserves alloc_inv AllocBlock /\ preserves alloc_inv (FreeBlock addr) /\
  preserves alloc_inv AllocInode /\ preserves alloc_inv (FreeInode inum) /\
  preserves alloc_inv (FreeInodeBlocks di).
Proof.
  intros Ha Hi Hd. split_and!; [apply AllocBlock_inv|by apply FreeBlock_inv|apply AllocInode_inv|
    by apply FreeInode_inv|by apply FreeInodeBlocks_inv].
Qed.

(** Allocation is safe under every failure of the device: no block in use
    and no metadata block but the bitmap is written, no block in use becomes
    free, a returned address is a data block that was free and is in use now,
    [ErrNoSpace] is returned only when every data block is in use and then
    nothing changes, and there is no panic. *)
Theorem AllocBlock_safe a :
  alloc_inv a ->
  alloc_grows a (AllocBlock a).2 /\
  match (AllocBlock a).1 with
  | Ok idx => data_addr idx /\ IsSet (a_blockBM a) idx = false /\
              IsSet (a_blockBM (AllocBlock a).2) idx = true
  | Err ErrNoSpace => (AllocBlock a).2 = a /\ forall x, data_addr x -> IsSet (a_blockBM a) x = true
  | Err _ => True
  | Panic => False
  end.
Proof.
  intros Hinv. split; [by apply AllocBlock_grows|].
  pose proof (AllocBlock_cases a Hinv) as H. pose proof (ai_block _ Hinv) as (Hwf & Hs & _).
  destruct (FindNext (a_blockBM a) DataStart) as [idx []] eqn:E.
  2:{ rewrite H. split; [done|]. rewrite /data_addr -Hs.
      intros x Hx. by apply (FindNext_false _ DataStart idx Hwf). }
  destruct H as (Hr & Hc & d & Hd & H).
  destruct (AllocBlock a) as [[i|e|] a'] eqn:E2; simpl in *; [| |done].
  - destruct H as [-> ->]. split; [done|]. split; [done|].
    change (IsSet (a_blockBM (took idx a)) idx = true).
    apply data_range in Hr. rewrite IsSet_took //; [lia|]. by rewrite decide_True.
  - destruct e; try done. exfalso. revert E2. clear -E.
    rewrite /AllocBlock bind_gets E bind_failIf_false // bind_modify bind_modify bind_gets.
    rewrite onErr_bind_run. destruct (onDev _ _) as [[[]|e|] s]; [|done|done].
    rewrite wrapErr_bind_run. by destruct (onDev _ _) as [[[]|e|] s'].
Qed.

(** Allocation does what it means to on a device that works: with a free
    data block it returns the lowest one, whose content is now zero and whose
    bit is set in memory and on disk, and changes no other block or bit;
    without one it returns [ErrNoSpace] and changes nothing. *)
Theorem AllocBlock_correct a :
  alloc_ok a ->
  (exists idx a', AllocBlock a = (Ok idx, a') /\ alloc_ok a' /\ data_addr idx /\
     IsSet (a_blockBM a) idx = false /\
     (forall x, DataStart <= x < idx -> IsSet (a_blockBM a) x = true) /\
     (forall x, 0 <= x -> IsSet (a_blockBM a') x = if decide (x = idx) then true else IsSet (a_blockBM a) x) /\
     peek (a_dev a') idx = zeroBlock /\
     peek (a_dev a') BlockBitmapAddr = bitmapBlock (a_blockBM a') /\
     (forall x, 0 <= x -> x <> idx -> x <> BlockBitmapAddr -> peek (a_dev a') x = peek (a_dev a) x))
  \/ (AllocBlock a = (Err ErrNoSpace, a) /\ forall x, data_addr x -> IsSet (a_blockBM a) x = true).
Proof.
  intros Ha. pose proof (ai_block _ (ok_inv _ Ha)) as (Hwf & Hs & _).
  pose proof (FindNext_first_clear _ DataStart Hwf ltac:(done)) as Hfc.
  destruct (FindNext (a_blockBM a) DataStart) as [idx []] eqn:E; simpl in Hfc.
  2:{ right. split; [|rewrite /data_addr -Hs; apply Hfc].
      by rewrite /AllocBlock bind_gets E. }
  destruct Hfc as (Hr & Hc & Hlow). rewrite Hs in Hr. left. exists idx, (did_alloc idx a).
  split_and!; [by apply AllocBlock_ok|by apply did_alloc_ok|apply Hr|done|done| | | |].
  - intros x Hx. by apply IsSet_did_alloc.
  - by apply peek_did_alloc_new.
  - by apply peek_did_alloc_bitmap.
  - intros x Hx H1 H2. by apply peek_did_alloc_ne.
Qed.

(** Freeing an inode frees exactly its blocks: when every pointer of the
    inode and of its indirect blocks (up to three levels) is a data address,
    [FreeInodeBlocks] succeeds, clears the bits of all the blocks reachable
    from the inode and of no other, and writes nothing but the bitmap. *)
Theorem FreeInodeBlocks_correct a di :
  alloc_ok a -> Forall data_addr (reachInode (a_dev a) di) ->
  exists a', FreeInodeBlocks di a = (Ok tt, a') /\ alloc_ok a' /\
    (forall x, 0 <= x -> IsSet (a_blockBM a') x
                       = IsSet (a_blockBM a) x && bool_decide (x ∉ reachInode (a_dev a) di)) /\
    (forall x, 0 <= x -> x <> BlockBitmapAddr -> peek (a_dev a') x = peek (a_dev a) x).
Proof.
  intros Ha Hl. exists (free_all (reachInode (a_dev a) di) a).
  destruct (free_all_ok _ _ Ha Hl) as (H1 & H2 & H3).
  split_and!; [by apply FreeInodeBlocks_ok|done|done|done].
Qed.

(** Inode numbers are allocated and freed in the bitmap and in the table:
    with a free number [AllocInode] returns the lowest one, in [1..4096], and
    marks it; [FreeInode] of it makes the number free again, so that the
    bitmap holds what it held, and leaves an empty inode in the table and the
    other inodes as they were. *)
Theorem AllocInode_FreeInode a :
  alloc_ok a -> (exists x, 0 <= x < InodeCount /\ IsSet (a_inodeBM a) x = false) ->
  exists inum a1 a2, AllocInode a = (Ok inum, a1) /\ FreeInode inum a1 = (Ok tt, a2) /\
    valid_inum inum /\ IsSet (a_inodeBM a) (inum - 1) = false /\
    IsSet (a_inodeBM a1) (inum - 1) = true /\
    (forall x, 0 <= x -> IsSet (a_inodeBM a2) x = IsSet (a_inodeBM a) x) /\
    FreeInodes (a_sb a2) = FreeInodes (a_sb a) /\
    (ReadInode inum (a_dev a2)).1 = Ok emptyInode /\
    (forall m, valid_inum m -> m <> inum -> (ReadInode m (a_dev a2)).1 = (ReadInode m (a_dev a)).1).
Proof.
  intros Ha (y & Hy & Hyc). pose proof (ai_inode _ (ok_inv _ Ha)) as (Hwf & Hs & _).
  pose proof (FindNext_first_clear _ 0 Hwf ltac:(done)) as Hfc.
  destruct (FindNext (a_inodeBM a) 0) as [idx []] eqn:E; simpl in Hfc.
  2:{ destruct Hfc as [_ Hfc]. rewrite Hfc // in Hyc. lia. }
  destruct Hfc as (Hr & Hc & _). rewrite Hs in Hr.
  set (a1 := did_allocInode idx a). set (inum := idx + 1).
  assert (alloc_ok a1) as Ha1.
  { split; [by apply inv_noted, inv_with_dev, tookI_inv; [apply Ha|..]|apply Ha| |apply Ha].
    apply poke_wf; [apply length_bitmapBlock|apply Ha]. }
  assert (valid_inum inum) as Hv by (rewrite /valid_inum /inum; lia).
  assert (inum - 1 = idx) as Ei by (rewrite /inum; lia).
  assert (forall x, 0 <= x -> IsSet (a_inodeBM a1) x = if decide (x = idx) then true else IsSet (a_inodeBM a) x) as H1.
  { intros x Hx. change (a_inodeBM a1) with (a_inodeBM (tookI idx a)).
    by apply IsSet_tookI; [apply Ha| |]. }
  assert (IsSet (a_inodeBM a1) (inum - 1) = true) as Hset by (rewrite Ei H1 ?decide_True //; lia).
  exists inum, a1, (did_freeInode inum a1). pose proof (FreeInode_ok a1 inum Ha1 Hv) as HF.
  rewrite Hset in HF. rewrite /did_freeInode in HF *.
  destruct (InodeNumToBlock inum) as [blk o] eqn:Eb.
  set (d1 := poke InodeBitmapAddr (bitmapBlock (Clear (a_inodeBM a1) (inum - 1))) (a_dev a1)).
  rewrite -/d1 in HF.
  assert (wf_dev d1) as Hd1 by (apply poke_wf; [apply length_bitmapBlock|apply Ha1]).
  pose proof (alloc_ok_has_table _ Ha1) as Ht1. change (has_table d1) in Ht1.
  assert (forall m, valid_inum m -> inode_at d1 m = inode_at (a_dev a) m) as Hsame.
  { intros m Hm. rewrite /inode_at. destruct (InodeNumToBlock m) as [b' o'] eqn:Em.
    destruct (inode_place _ _ _ Hm Em) as [Hb' _]. unfold InodeTableStart in Hb'.
    rewrite /d1 /a1 /=. rewrite !peek_poke_ne //; unfold InodeBitmapAddr; lia. }
  split_and!; [by apply AllocInode_ok|done|done|by rewrite Ei|done| | | |].
  - intros x Hx. change (IsSet (a_inodeBM (gaveI (inum - 1) a1)) x = IsSet (a_inodeBM a) x).
    change (a_inodeBM (gaveI (inum - 1) a1)) with (Clear (a_inodeBM a1) (inum - 1)).
    destruct (ai_inode _ (ok_inv _ Ha1)) as (Hwf1 & Hs1 & _).
    rewrite IsSet_Clear //; [lia|]. rewrite Ei H1 //. case_decide; congruence.
  - pose proof (ok_inv _ Ha1) as Hi1. pose proof (gaveI_inv (inum - 1) a1 Hi1 ltac:(lia) Hset) as Hi2.
    rewrite (ai_freeInodes _ (ok_inv _ Ha)).
    change (FreeInodes (a_sb (gaveI (inum - 1) a1)) = freeCount (a_inodeBM a)).
    rewrite (ai_freeInodes _ Hi2).
    change (a_inodeBM (gaveI (inum - 1) a1)) with (Clear (a_inodeBM a1) (inum - 1)).
    destruct (ai_inode _ Hi1) as (Hwf1 & Hs1 & _).
    rewrite freeCount_Clear //; [lia|]. change (a_inodeBM a1) with (SetBit (a_inodeBM a) idx).
    rewrite freeCount_SetBit //; lia.
  - cbn [a_dev with_dev]. rewrite ReadInode_ok //; [apply Ha1|]. simpl.
    rewrite (inode_at_poke inum) // ?decide_True //. apply wf_emptyInode.
  - intros m Hm Hne. cbn [a_dev with_dev].
    rewrite (ReadInode_ok m (a_dev a) (ok_healthy _ Ha) (alloc_ok_has_table _ Ha) Hm).
    rewrite ReadInode_ok //; [apply (ok_healthy _ Ha1)|]. simpl.
    rewrite (inode_at_poke inum) // ?decide_False // ?Hsame //. apply wf_emptyInode.
Qed.

(** ** Witnesses *)

Example alloc_accounting_witness :
  preserves alloc_inv AllocBlock /\ preserves alloc_inv (FreeBlock 2180) /\
  preserves alloc_inv AllocInode /\ preserves alloc_inv (FreeInode 7) /\
  preserves alloc_inv (FreeInodeBlocks emptyInode).
Proof. apply (alloc_accounting 7 2180 emptyInode); [done|done|apply wf_emptyInode]. Defined.

Example AllocBlock_safe_witness :
  let a := with_dev (with_fault (Some (fun n _ => if decide (n = 1)%nat then Some ErrIO else None))
                      (a_dev blankAllocator)) blankAllocator in
  alloc_grows a (AllocBlock a).2.
Proof.
  intros a. assert (alloc_inv a) as H.
  { apply inv_with_dev, (ok_inv _ blankAllocator_ok). }
  exact (proj1 (AllocBlock_safe a H)).
Defined.

Example AllocBlock_correct_witness :
  exists a', AllocBlock blankAllocator = (Ok 2180, a') /\ alloc_ok a' /\ peek (a_dev a') 2180 = zeroBlock.
Proof.
  assert (IsSet (a_blockBM blankAllocator) 2180 = false) as Hc by reflexivity.
  destruct (AllocBlock_correct blankAllocator blankAllocator_ok)
    as [(idx & a' & H1 & H2 & [H3 _] & _ & H4 & _ & H5 & _)|[_ H]].
  - destruct (decide (idx = 2180)) as [->|Hne]; [exists a'; exact (conj H1 (conj H2 H5))|].
    exfalso. rewrite H4 in Hc; [unfold DataStart in *; lia|discriminate].
  - exfalso. rewrite H in Hc; [split; done|discriminate].
Defined.

Example FreeInodeBlocks_correct_witness :
  let di := mkInode S_IFREG 0 4096 0 0 0 0 0 1 16 0 (2180 :: replicate 11 0) 2181 0 0 0 0 in
  exists a', FreeInodeBlocks di blankAllocator = (Ok tt, a') /\ alloc_ok a'.
Proof.
  intros di.
  destruct (FreeInodeBlocks_correct blankAllocator di blankAllocator_ok) as (a' & H1 & H2 & _).
  - rewrite /reachInode /reachRoot /reach1 /reachP [peek _ _]peek_blank nonzero_zeroBlock.
    repeat (constructor; [done|]). constructor.
  - exists a'. exact (conj H1 H2).
Defined.

Example AllocInode_FreeInode_witness :
  exists inum a1 a2, AllocInode blankAllocator = (Ok inum, a1) /\ FreeInode inum a1 = (Ok tt, a2) /\
    (ReadInode inum (a_dev a2)).1 = Ok emptyInode.
Proof.
  destruct (AllocInode_FreeInode blankAllocator blankAllocator_ok)
    as (inum & a1 & a2 & H1 & H2 & _ & _ & _ & _ & _ & H3 & _).
  - exists 5. split; [done|reflexivity].
  - exists inum, a1, a2. exact (conj H1 (conj H2 H3)).
Defined.
