(* ===== verification/Cache.v ===== *)
(** * Cache: the buffer cache, [internal/cache/buffer.go] and [writeback.go]

    The state is the shared device and the [BufferCache] without its pointer
    to the device.  The LRU list holds block addresses, the most recently used
    one first; an entry's list element is the address itself.  The mutex is
    held by every operation except around the calls to the device, where
    [GetBlock] and [evictIfNeeded] look the entry up again, as the code does;
    the operations are atomic here. *)

From S2P Require Export Alloc Maps.

Definition defaultCacheSize : Z := 256.

Record bufEntry : Type := mkBufEntry { be_data : block; be_dirty : bool; be_pinCount : Z }.

Record CacheStats : Type := mkCacheStats {
  Hits : Z; Misses : Z; Evictions : Z; st_Size : Z; Capacity : Z; DirtyAddrs : list Z }.

Record BufferCache : Type := mkBufferCache {
  c_cache : gmap Z bufEntry;
  c_lru : list Z;
  c_capacity : Z;
  c_stats : CacheStats;
  c_emit : option (list event);
  (** the number of loops over the map so far *)
  c_ranges : nat;
}.

Definition with_cache (f : gmap Z bufEntry -> gmap Z bufEntry) (c : BufferCache) : BufferCache :=
  mkBufferCache (f (c_cache c)) (c_lru c) (c_capacity c) (c_stats c) (c_emit c) (c_ranges c).
Definition with_lru (f : list Z -> list Z) (c : BufferCache) : BufferCache :=
  mkBufferCache (c_cache c) (f (c_lru c)) (c_capacity c) (c_stats c) (c_emit c) (c_ranges c).
Definition with_stats (f : CacheStats -> CacheStats) (c : BufferCache) : BufferCache :=
  mkBufferCache (c_cache c) (c_lru c) (c_capacity c) (f (c_stats c)) (c_emit c) (c_ranges c).
Definition with_cemit (x : option (list event)) (c : BufferCache) : BufferCache :=
  mkBufferCache (c_cache c) (c_lru c) (c_capacity c) (c_stats c) x (c_ranges c).
Definition nextRange (c : BufferCache) : BufferCache :=
  mkBufferCache (c_cache c) (c_lru c) (c_capacity c) (c_stats c) (c_emit c) (S (c_ranges c)).

(** [stats.Hits++] and its companions, [uint64]s; [stats.Size = len(cache)]. *)
Definition countStats (hits misses evictions : Z) (s : CacheStats) : CacheStats :=
  mkCacheStats (u64 (Hits s + hits)) (u64 (Misses s + misses)) (u64 (Evictions s + evictions))
    (st_Size s) (Capacity s) (DirtyAddrs s).
Definition sizeStats (n : Z) (s : CacheStats) : CacheStats :=
  mkCacheStats (Hits s) (Misses s) (Evictions s) n (Capacity s) (DirtyAddrs s).

Definition NewBufferCache (capacity : Z) : BufferCache :=
  let capacity := if capacity <=? 0 then defaultCacheSize else capacity in
  mkBufferCache ∅ [] capacity (mkCacheStats 0 0 0 0 0 []) None 0.

Definition cstate : Type := BlockDevice * BufferCache.
Definition onCDev {A} (m : M BlockDevice A) : M cstate A := zoom fst (fun d s => (d, s.2)) m.
Definition modCache (f : BufferCache -> BufferCache) : M cstate unit := modify (fun s => (s.1, f s.2)).

Definition CSetEventHook (on : bool) : M cstate unit := modCache (with_cemit (if on then Some [] else None)).
Definition emitCache (ty : string) (addr : Z) (dirty : bool) : M cstate unit :=
  modCache (fun c => with_cemit
    (cons (ty, [("blockAddr"%string, addr); ("dirty"%string, Z.b2z dirty)]) <$> c_emit c) c).

(** An assignment through the pointer [c.cache[addr]]. *)
Definition setEntry (addr : Z) (f : bufEntry -> bufEntry) : M cstate unit :=
  modCache (with_cache (alter f addr)).
Definition with_pin (n : Z) (e : bufEntry) : bufEntry := mkBufEntry (be_data e) (be_dirty e) n.
Definition with_bdirty (b : bool) (e : bufEntry) : bufEntry := mkBufEntry (be_data e) b (be_pinCount e).
Definition with_bdata (x : block) (e : bufEntry) : bufEntry := mkBufEntry x (be_dirty e) (be_pinCount e).

(** [lru.MoveToFront], [lru.PushFront] and [lru.Remove]. *)
Definition removeElem (addr : Z) (l : list Z) : list Z := filter (fun a => a <> addr) l.
Definition moveToFront (addr : Z) (l : list Z) : list Z :=
  if decide (addr ∈ l) then addr :: removeElem addr l else l.

(** The end of an eviction: the entry leaves the list and the map. *)
Definition dropEntry (addr : Z) (dirty : bool) : M cstate unit :=
  modCache (with_lru (removeElem addr)) ;;
  modCache (with_cache (delete addr)) ;;
  modCache (with_stats (countStats 0 0 1)) ;;
  modCache (fun c => with_stats (sizeStats (mapLen (c_cache c))) c) ;;
  emitCache "cache_evict" addr dirty.

Definition allPinned : error := Errorf "cache: all blocks pinned, cannot evict" [].

(** The walk from the back of the list towards its front: [rest] are the
    addresses still to visit.  An address without an entry is a nil pointer. *)
Fixpoint evictWalk (rest : list Z) : M cstate unit :=
  match rest with
  | [] => throw allPinned
  | paddr :: rest =>
      e ← gets (fun s => c_cache s.2 !! paddr);
      match e with
      | None => panic
      | Some pe =>
          if be_pinCount pe =? 0 then
            whenM (be_dirty pe) (onCDev (WriteBlock paddr (be_data pe))) ;;
            dropEntry paddr (be_dirty pe)
          else evictWalk rest
      end
  end.

(** [for len(c.cache) >= c.capacity]; every turn removes an entry, returns or
    fails, so that the size of the map bounds the turns. *)
Fixpoint evictLoop (fuel : nat) : M cstate unit :=
  full ← gets (fun s => c_capacity s.2 <=? mapLen (c_cache s.2));
  if negb full then mret tt
  else
    match fuel with
    | O => panic
    | S fuel =>
        l ← gets (fun s => rev (c_lru s.2));
        match l with
        | [] => throw allPinned
        | addr :: prevs =>
            e ← gets (fun s => c_cache s.2 !! addr);
            match e with
            | None => panic
            | Some e =>
                if 0 <? be_pinCount e then evictWalk prevs
                else
                  whenM (be_dirty e)
                    (onCDev (WriteBlock addr (be_data e)) ;; setEntry addr (with_bdirty false)) ;;
                  dropEntry addr false ;;
                  evictLoop fuel
            end
        end
    end.
Definition evictIfNeeded : M cstate unit :=
  n ← gets (fun s => base.size (c_cache s.2));
  evictLoop (S n).

(** The new entry of [GetBlock], [PutBlock] and [WriteBlock]. *)
Definition insertEntry (addr : Z) (e : bufEntry) : M cstate unit :=
  modCache (with_lru (cons addr)) ;;
  modCache (with_cache (<[addr := e]>)) ;;
  modCache (fun c => with_stats (sizeStats (mapLen (c_cache c))) c).

(** [e.pinCount++; lru.MoveToFront(e.lruElem)] *)
Definition pinEntry (addr : Z) : M cstate unit :=
  setEntry addr (fun e => with_pin (be_pinCount e + 1) e) ;;
  modCache (with_lru (moveToFront addr)).

Definition GetBlock (addr : Z) : M cstate block :=
  e ← gets (fun s => c_cache s.2 !! addr);
  match e with
  | Some e =>
      modCache (with_stats (countStats 1 0 0)) ;;
      pinEntry addr ;;
      mret (be_data e)
  | None =>
      modCache (with_stats (countStats 0 1 0)) ;;
      blk ← wrapErr "cache: read block %d: %w" [addr] (onCDev (ReadBlock addr));
      e ← gets (fun s => c_cache s.2 !! addr);
      match e with
      | Some e => pinEntry addr ;; mret (be_data e)
      | None =>
          evictIfNeeded ;;
          insertEntry addr (mkBufEntry blk false 1) ;;
          mret blk
      end
  end.

Definition PutBlock (addr : Z) (data : block) : M cstate unit :=
  failIf (negb (Z.of_nat (length data) =? 4096)) (Errorf "cache: PutBlock data must be 4096 bytes" []) ;;
  e ← gets (fun s => c_cache s.2 !! addr);
  match e with
  | Some _ =>
      setEntry addr (with_bdata data) ;;
      setEntry addr (fun e => if 0 <? be_pinCount e then with_pin (be_pinCount e - 1) e else e) ;;
      modCache (with_lru (moveToFront addr))
  | None =>
      evictIfNeeded ;;
      insertEntry addr (mkBufEntry data false 0)
  end.

Definition MarkDirty (addr : Z) : M cstate unit := setEntry addr (with_bdirty true).

Definition CWriteBlock (addr : Z) (data : block) : M cstate unit :=
  failIf (negb (Z.of_nat (length data) =? 4096)) (Errorf "cache: WriteBlock data must be 4096 bytes" []) ;;
  e ← gets (fun s => c_cache s.2 !! addr);
  match e with
  | Some _ =>
      setEntry addr (with_bdata data) ;;
      setEntry addr (with_bdirty true) ;;
      modCache (with_lru (moveToFront addr))
  | None =>
      evictIfNeeded ;;
      insertEntry addr (mkBufEntry data true 0)
  end.

Definition FlushBlock (addr : Z) : M cstate unit :=
  e ← gets (fun s => c_cache s.2 !! addr);
  match e with
  | Some e =>
      if negb (be_dirty e) then mret tt
      else
        onCDev (WriteBlock addr (be_data e)) ;;
        setEntry addr (with_bdirty false) ;;
        emitCache "cache_flush" addr false
  | None => mret tt
  end.

Section ranges.
Context {O : MapOrder}.

(** The addresses of the dirty entries, in the order of a loop over the map. *)
Definition isDirty (c : BufferCache) (addr : Z) : bool :=
  match c_cache c !! addr with Some e => be_dirty e | None => false end.
Definition dirtyAddrs (c : BufferCache) : list Z :=
  filter (fun a => isDirty c a = true) (range (c_ranges c) (keys (c_cache c))).

Definition FlushAll : M cstate unit :=
  dirty ← gets (fun s => dirtyAddrs s.2);
  modCache nextRange ;;
  forEach FlushBlock dirty.

Definition Stats : M cstate CacheStats :=
  c ← gets snd;
  modCache nextRange ;;
  mret (mkCacheStats (Hits (c_stats c)) (Misses (c_stats c)) (Evictions (c_stats c))
          (mapLen (c_cache c)) (c_capacity c) (dirtyAddrs c)).

(** What the flusher's goroutine does at every tick and when it is stopped:
    [_ = f.cache.FlushAll()]. *)
Definition flusherTick : M cstate unit :=
  _ ← tryM FlushAll;
  mret tt.

End ranges.

Definition Invalidate (addr : Z) : M cstate unit :=
  e ← gets (fun s => c_cache s.2 !! addr);
  match e with
  | Some _ =>
      modCache (with_lru (removeElem addr)) ;;
      modCache (with_cache (delete addr)) ;;
      modCache (fun c => with_stats (sizeStats (mapLen (c_cache c))) c)
  | None => mret tt
  end.

Definition InvalidateAll : M cstate unit :=
  modCache (with_cache (fun _ => ∅)) ;;
  modCache (with_lru (fun _ => [])) ;;
  modCache (with_stats (sizeStats 0)).

(** ** What a cache stands for

    A block is its cached copy, or else the block on the device. *)

Definition view (s : cstate) (addr : Z) : block :=
  match c_cache s.2 !! addr with Some e => be_data e | None => peek s.1 addr end.

(** The device, the map, the list and the capacity fit together: the list
    holds the keys, clean copies are those of the device, and the map does not
    outgrow its capacity. *)
Record parts_ok (d : BlockDevice) (m : gmap Z bufEntry) (l : list Z) (capacity : Z) : Prop := {
  po_dev : wf_dev d;
  po_lru : l ≡ₚ keys m;
  po_entry : forall a e, m !! a = Some e ->
    0 <= a < BlockCount d /\ length (be_data e) = BlockLen /\ 0 <= be_pinCount e /\
    (be_dirty e = false -> be_data e = peek d a);
  po_size : mapLen m <= capacity;
  po_capacity : 0 < capacity;
}.

Definition cache_ok (s : cstate) : Prop :=
  parts_ok s.1 (c_cache s.2) (c_lru s.2) (c_capacity s.2).

(** What an operation that only moves blocks between the cache and the device
    keeps. *)
Record kept (s s' : cstate) : Prop := {
  kp_ok : cache_ok s';
  kp_view : forall a, 0 <= a -> view s' a = view s a;
  kp_evol : dev_evol s.1 s'.1;
  kp_file : dev_file s'.1 = dev_file s.1;
}.

(** The cache is full and every block of it is in use by a reader or a writer. *)
Definition all_pinned (s : cstate) : Prop :=
  c_capacity s.2 <= mapLen (c_cache s.2) /\ forall a e, c_cache s.2 !! a = Some e -> 0 < be_pinCount e.

Lemma kept_refl s : cache_ok s -> kept s s.
Proof. by split. Qed.

Lemma kept_trans s1 s2 s3 : kept s1 s2 -> kept s2 s3 -> kept s1 s3.
Proof.
  intros [H1 V1 E1 F1] [H2 V2 E2 F2]. split; [done| |by transitivity s2.1|congruence].
  intros a Ha. by rewrite V2 // V1.
Qed.

Lemma evol_BlockCount d d' : dev_evol d d' -> BlockCount d' = BlockCount d.
Proof. intros [E _ _]. by rewrite /BlockCount E. Qed.

Lemma checkFault_cases op d :
  (exists d1, checkFault op d = (Ok tt, d1) /\ dev_only (fun _ => False) d d1 /\
     BlockCount d1 = BlockCount d /\ (wf_dev d -> wf_dev d1) /\ (healthy d -> d1 = d)) \/
  (exists e d1, checkFault op d = (Err e, d1) /\ dev_only (fun _ => False) d d1 /\ ~ healthy d).
Proof.
  rewrite /checkFault /healthy. destruct (dev_fault d) as [f|] eqn:Ef.
  - destruct (f (dev_clock d) op) as [e|].
    + right. do 2 eexists. split_and!; [done|apply tick_only|by intros []].
    + left. eexists. split_and!; [done|apply tick_only|done|by apply tick_evol|by intros []].
  - left. exists d. by split_and!.
Qed.

Lemma ReadBlock_cases a d :
  match ReadBlock a d with
  | (Ok b, d') => dev_only (fun _ => False) d d' /\ a < BlockCount d /\ b = peek d a
  | (Err _, d') => dev_only (fun _ => False) d d' /\ (healthy d -> BlockCount d <= a)
  | (Panic, _) => False
  end.
Proof.
  destruct (checkFault_cases (mkOperation "read" a) d) as [(d1 & E & Ho & HB & Hw & Hf)|(e & d1 & E & Ho & Hh)].
  - assert (ReadBlock a d = if BlockCount d <=? a
        then (Err (Errorf "disk: block %d out of range (max %d)" [a; BlockCount d - 1]), d1)
        else (Ok (peek d1 a), d1)) as ->.
    { rewrite /ReadBlock (bind_ok _ _ _ _ _ E) bind_gets HB.
      destruct (BlockCount d <=? a) eqn:EB; [done|]. by rewrite bind_failIf_false. }
    destruct (Z.leb_spec (BlockCount d) a); [done|]. split_and!; [done|done|].
    rewrite /peek. revert E. rewrite /checkFault. repeat case_match; naive_solver.
  - rewrite /ReadBlock (bind_err _ _ _ _ _ E). split; [done|]. intros H. by destruct Hh.
Qed.

Lemma WriteBlock_cases a b d :
  wf_dev d -> 0 <= a -> length b = BlockLen ->
  match WriteBlock a b d with
  | (Ok _, d') => dev_only (eq a) d d' /\ a < BlockCount d /\ peek d' a = b
  | (Err _, d') => dev_only (fun _ => False) d d' /\ (healthy d -> BlockCount d <= a)
  | (Panic, _) => False
  end.
Proof.
  intros Hwf Ha Hb. pose proof (WriteBlock_keeps (eq a) a b Ha eq_refl d) as Hk.
  destruct (checkFault_cases (mkOperation "write" a) d) as [(d1 & E & Ho & HB & Hw & Hf)|(e & d1 & E & Ho & Hh)].
  - assert (WriteBlock a b d = if BlockCount d <=? a
        then (Err (Errorf "disk: block %d out of range (max %d)" [a; BlockCount d - 1]), d1)
        else (Ok tt, poke a b d1)) as EW.
    { rewrite /WriteBlock (bind_ok _ _ _ _ _ E) bind_gets HB.
      destruct (BlockCount d <=? a) eqn:EB; [done|]. rewrite bind_failIf_false //.
      rewrite bind_failIf_false; [by rewrite Hb|]. done. }
    rewrite EW. rewrite EW in Hk. destruct (Z.leb_spec (BlockCount d) a); [done|].
    split_and!; [exact Hk|done|]. apply peek_poke_eq. apply wf_in_range; [by apply Hw|lia].
  - rewrite /WriteBlock (bind_err _ _ _ _ _ E). split; [done|]. intros H. by destruct Hh.
Qed.

Section parts.
Implicit Types (d : BlockDevice) (m : gmap Z bufEntry) (l : list Z).

Lemma mapLen_insert m a e : m !! a = None -> mapLen (<[a := e]> m) = mapLen m + 1.
Proof. intros H. rewrite /mapLen map_size_insert_None //. lia. Qed.

Lemma mapLen_delete m a e : m !! a = Some e -> mapLen (delete a m) = mapLen m - 1.
Proof.
  intros H. rewrite /mapLen map_size_delete_Some //.
  assert (base.size m <> 0%nat); [|lia]. intros H0%map_size_empty_inv. by subst m.
Qed.

Lemma mapLen_alter m a f : mapLen (alter f a m) = mapLen m.
Proof.
  rewrite /mapLen -!length_keys. f_equal. apply Permutation_length, NoDup_Permutation; [apply NoDup_keys..|]. intros x.
  rewrite !elem_of_keys lookup_alter_is_Some //.
Qed.

Lemma po_nodup d m l cap : parts_ok d m l cap -> NoDup l.
Proof. intros H. rewrite (po_lru _ _ _ _ H). apply NoDup_keys. Qed.

Lemma po_elem d m l cap a : parts_ok d m l cap -> a ∈ l <-> is_Some (m !! a).
Proof. intros H. by rewrite (po_lru _ _ _ _ H) elem_of_keys. Qed.

Lemma keys_delete_perm m a l : l ≡ₚ keys m -> removeElem a l ≡ₚ keys (delete a m).
Proof.
  intros Hl. apply NoDup_Permutation.
  - apply NoDup_filter. rewrite Hl. apply NoDup_keys.
  - apply NoDup_keys.
  - intros x. rewrite /removeElem list_elem_of_filter elem_of_keys lookup_delete_is_Some Hl elem_of_keys. naive_solver.
Qed.

Lemma po_drop d m l cap a e :
  parts_ok d m l cap -> m !! a = Some e -> parts_ok d (delete a m) (removeElem a l) cap.
Proof.
  intros [Hd Hl He Hs Hc] Ha. split; [done|by apply keys_delete_perm| | |done].
  - intros x ex. rewrite lookup_delete_Some. intros [_ Hx]. by apply He.
  - rewrite (mapLen_delete _ _ _ Ha). lia.
Qed.

Lemma po_perm d m l l' cap : parts_ok d m l cap -> l' ≡ₚ l -> parts_ok d m l' cap.
Proof. intros [Hd Hl He Hs Hc] Hp. split; try done. by rewrite Hp. Qed.

Lemma po_moveToFront d m l cap a :
  parts_ok d m l cap -> parts_ok d m (moveToFront a l) cap.
Proof.
  intros H. apply (po_perm _ _ l); [done|]. rewrite /moveToFront. case_decide as Ha; [|done].
  pose proof (po_nodup _ _ _ _ H) as Hn. apply NoDup_Permutation; [|done|].
  - apply NoDup_cons. split; [|by apply NoDup_filter]. rewrite /removeElem list_elem_of_filter. naive_solver.
  - intros x. rewrite elem_of_cons /removeElem list_elem_of_filter. destruct (decide (x = a)); naive_solver.
Qed.

(** The entry at [a] is changed to another one that fits. *)
Lemma po_alter d m l cap a e f :
  parts_ok d m l cap -> m !! a = Some e ->
  length (be_data (f e)) = BlockLen -> 0 <= be_pinCount (f e) ->
  (be_dirty (f e) = false -> be_data (f e) = peek d a) ->
  parts_ok d (alter f a m) l cap.
Proof.
  intros [Hd Hl He Hs Hc] Ha H1 H2 H3. split; [done| | |by rewrite mapLen_alter|done].
  - rewrite Hl. apply NoDup_Permutation; [apply NoDup_keys..|].
    intros x. rewrite !elem_of_keys lookup_alter_is_Some //.
  - intros x ex. rewrite lookup_alter_Some. intros [(-> & e' & He' & ->)|[_ Hx]]; [|by apply He].
    simplify_eq. by destruct (He _ _ Ha).
Qed.

Lemma po_insert d m l cap a e :
  parts_ok d m l cap -> m !! a = None -> mapLen m < cap -> 0 <= a < BlockCount d ->
  length (be_data e) = BlockLen -> 0 <= be_pinCount e ->
  (be_dirty e = false -> be_data e = peek d a) ->
  parts_ok d (<[a := e]> m) (a :: l) cap.
Proof.
  intros [Hd Hl He Hs Hc] Ha Hlt Hr H1 H2 H3. split; [done| | | |done].
  - rewrite /keys map_to_list_insert //=. by rewrite Hl.
  - intros x ex. rewrite lookup_insert_Some. intros [[<- <-]|[_ Hx]]; [exact (conj Hr (conj H1 (conj H2 H3)))|by apply He].
  - rewrite mapLen_insert //. lia.
Qed.

(** The block [a] is written to the device from its copy. *)
Lemma po_written d d' m l cap a e :
  parts_ok d m l cap -> m !! a = Some e -> dev_only (eq a) d d' -> peek d' a = be_data e ->
  parts_ok d' m l cap.
Proof.
  intros [Hd Hl He Hs Hc] Ha [Hev Hf Hp] Hpk. split; [by apply Hev|done| |done|done].
  intros x ex Hx. destruct (He _ _ Hx) as (Hr & H1 & H2 & H3).
  rewrite (evol_BlockCount _ _ Hev). split_and!; [lia|lia|done|done|].
  intros Hd'. destruct (decide (x = a)) as [->|Hne]; [by simplify_eq|]. rewrite Hp; [lia|by apply not_eq_sym|auto].
Qed.

(** A device call without effect on the blocks. *)
Lemma po_untouched d d' m l cap :
  parts_ok d m l cap -> dev_only (fun _ => False) d d' -> parts_ok d' m l cap.
Proof.
  intros [Hd Hl He Hs Hc] [Hev Hf Hp]. split; [by apply Hev|done| |done|done].
  intros x ex Hx. destruct (He _ _ Hx) as (Hr & H1 & H2 & H3).
  rewrite (evol_BlockCount _ _ Hev). split_and!; [lia|lia|done|done|].
  intros Hd'. rewrite Hp; [lia|tauto|auto].
Qed.

End parts.

(** ** Steps of an eviction and of a flush *)

Lemma dropEntry_run a b s :
  exists c, dropEntry a b s = (Ok tt, (s.1, c)) /\ c_cache c = delete a (c_cache s.2) /\
    c_lru c = removeElem a (c_lru s.2) /\ c_capacity c = c_capacity s.2.
Proof. eexists. split_and!; reflexivity. Qed.

Lemma insertEntry_run a e s :
  exists c, insertEntry a e s = (Ok tt, (s.1, c)) /\ c_cache c = <[a := e]> (c_cache s.2) /\
    c_lru c = a :: c_lru s.2 /\ c_capacity c = c_capacity s.2.
Proof. eexists. split_and!; reflexivity. Qed.

(** An entry whose copy is on the device is dropped. *)
Lemma kept_drop s c a e :
  cache_ok s -> c_cache s.2 !! a = Some e -> be_data e = peek s.1 a ->
  c_cache c = delete a (c_cache s.2) -> c_lru c = removeElem a (c_lru s.2) -> c_capacity c = c_capacity s.2 ->
  kept s (s.1, c).
Proof.
  intros Hs Ha Hp Hm Hl Hc. split; [|intros x Hx|reflexivity|done].
  - rewrite /cache_ok /= Hm Hl Hc. exact (po_drop _ _ _ _ _ _ Hs Ha).
  - rewrite /view /= Hm. destruct (decide (x = a)) as [->|Hne].
    + by rewrite lookup_delete_eq Ha.
    + by rewrite lookup_delete_ne; [apply not_eq_sym|].
Qed.

Lemma kept_write s a e d' :
  cache_ok s -> c_cache s.2 !! a = Some e -> dev_only (eq a) s.1 d' -> peek d' a = be_data e ->
  kept s (d', s.2).
Proof.
  intros Hs Ha Ho Hp. split; [exact (po_written _ _ _ _ _ _ _ Hs Ha Ho Hp)|intros x Hx|apply Ho|apply Ho].
  rewrite /view /=. destruct (c_cache s.2 !! x) eqn:E; [done|]. apply Ho; [done|]. intros <-. by rewrite Ha in E.
Qed.

Lemma kept_untouched s d' : cache_ok s -> dev_only (fun _ => False) s.1 d' -> kept s (d', s.2).
Proof.
  intros Hs Ho. split; [exact (po_untouched _ _ _ _ _ Hs Ho)|intros x Hx|apply Ho|apply Ho].
  rewrite /view /=. destruct (c_cache s.2 !! x) eqn:E; [done|]. apply Ho; [done|tauto].
Qed.

(** Writing a cached block to the device. *)
Lemma flush_entry s a e :
  cache_ok s -> c_cache s.2 !! a = Some e ->
  match onCDev (WriteBlock a (be_data e)) s with
  | (Ok _, s') => kept s s' /\ s'.2 = s.2 /\ peek s'.1 a = be_data e
  | (Err _, s') => kept s s' /\ s'.2 = s.2 /\ ~ healthy s.1
  | (Panic, _) => False
  end.
Proof.
  intros Hs Ha. destruct (po_entry _ _ _ _ Hs _ _ Ha) as (Hr & Hl & _).
  pose proof (WriteBlock_cases a (be_data e) s.1 (po_dev _ _ _ _ Hs) (proj1 Hr) Hl) as H.
  rewrite /onCDev /zoom. destruct (WriteBlock a (be_data e) s.1) as [[[]|er|] d'].
  - destruct H as (Ho & _ & Hp). split_and!; [exact (kept_write _ _ _ _ Hs Ha Ho Hp)|done|done].
  - destruct H as (Ho & Hh). split_and!; [by apply kept_untouched|done|]. intros H. apply Hh in H. lia.
  - done.
Qed.

Lemma kept_clean s a :
  cache_ok s -> (forall e, c_cache s.2 !! a = Some e -> peek s.1 a = be_data e) ->
  kept s (s.1, with_cache (alter (with_bdirty false) a) s.2).
Proof.
  intros Hs Hp. destruct (c_cache s.2 !! a) as [e|] eqn:Ha.
  - split; [|intros x Hx|reflexivity|done].
    + destruct (po_entry _ _ _ _ Hs _ _ Ha) as (Hr & Hl & Hpin & _).
      eapply po_alter; [exact Hs|exact Ha|done|done|]. intros _. symmetry. exact (Hp e eq_refl).
    + rewrite /view /=. destruct (decide (x = a)) as [->|Hne].
      * by rewrite lookup_alter_eq Ha.
      * by rewrite lookup_alter_ne; [apply not_eq_sym|].
  - replace (with_cache (alter (with_bdirty false) a) s.2) with s.2; [by destruct s; apply kept_refl|].
    rewrite /with_cache alter_id; [intros x; by rewrite Ha|]. by destruct s.2.
Qed.

(** ** Evictions *)

(** What an eviction does, with or without an error: it moves nothing out of
    sight, adds no entry, leaves room when it succeeds, and fails on a healthy
    device only when every entry is pinned. *)
Record evicted (s s' : cstate) : Prop := {
  ec_kept : kept s s';
  ec_absent : forall a, c_cache s.2 !! a = None -> c_cache s'.2 !! a = None;
  ec_capacity : c_capacity s'.2 = c_capacity s.2;
}.

Definition evict_post (P : Prop) (s : cstate) (o : result unit * cstate) : Prop :=
  match o with
  | (Ok _, s') => evicted s s' /\ mapLen (c_cache s'.2) < c_capacity s'.2
  | (Err _, s') => evicted s s' /\ (healthy s.1 -> P)
  | (Panic, _) => False
  end.

Lemma evicted_same s s' : kept s s' -> s'.2 = s.2 -> evicted s s'.
Proof. intros Hk E. split; [done| |]; rewrite E //. Qed.

(** One entry is written if it is dirty and then dropped. *)
Lemma evict_entry s a e b (w : M cstate unit) (k : cstate -> cstate) :
  cache_ok s -> c_cache s.2 !! a = Some e ->
  w s = (onCDev (WriteBlock a (be_data e)) ;; modify k) s ->
  (forall s', k s' = s' \/ k s' = (s'.1, with_cache (alter (with_bdirty false) a) s'.2)) ->
  evict_post False s ((whenM (be_dirty e) w ;; dropEntry a b) s).
Proof.
  intros Hs Ha Hw Hk.
  assert (forall s1, kept s s1 -> s1.2 = s.2 -> peek s1.1 a = be_data e ->
    evict_post False s (dropEntry a b (if be_dirty e then k s1 else s1))) as Hdrop.
  { intros s1 Hk1 E1 Hp. set (s2 := if be_dirty e then k s1 else s1).
    assert (kept s s2 /\ s2.1 = s1.1 /\ c_lru s2.2 = c_lru s.2 /\ c_capacity s2.2 = c_capacity s.2 /\
      delete a (c_cache s2.2) = delete a (c_cache s.2) /\
      exists e', c_cache s2.2 !! a = Some e' /\ be_data e' = peek s2.1 a) as (Hk2 & Ed & El & Ec & Em & e' & He' & Hp').
    { rewrite /s2. destruct (be_dirty e); [destruct (Hk s1) as [->| ->]|];
        [split_and!; rewrite ?E1 //; exists e; by rewrite Ha Hp| |split_and!; rewrite ?E1 //; exists e; by rewrite Ha Hp].
      split_and!; rewrite /= ?E1 //.
      - eapply kept_trans; [exact Hk1|]. rewrite -E1. apply kept_clean; [apply Hk1|]. rewrite E1 Ha. by intros ? [= <-].
      - by rewrite delete_alter_eq.
      - exists (with_bdirty false e). rewrite lookup_alter_eq Ha. by rewrite /= Hp. }
    destruct (dropEntry_run a b s2) as (c & E & Hm & Hl & Hc). rewrite E. simpl.
    pose proof (kept_drop s2 c a e' (kp_ok _ _ Hk2) He' Hp' Hm Hl Hc) as Hk3. split; [split|].
    - exact (kept_trans _ _ _ Hk2 Hk3).
    - intros x Hx. rewrite /= Hm Em. rewrite lookup_delete_None. by right.
    - by rewrite /= Hc.
    - simpl. rewrite Hm Hc Em (mapLen_delete _ _ _ Ha) Ec. pose proof (po_size _ _ _ _ Hs). lia. }
  rewrite /whenM. destruct (be_dirty e) eqn:Hd.
  - pose proof (flush_entry s a e Hs Ha) as Hf. rewrite /mbind /M_bind Hw /mbind /M_bind. destruct (onCDev (WriteBlock a (be_data e)) s) as [[[]|er|] s1].
    + destruct Hf as (Hk1 & E1 & Hp). by apply Hdrop.
    + destruct Hf as (Hk1 & E1 & Hh). split; [by apply evicted_same|]. intros H. by destruct Hh.
    + destruct Hf.
  - change ((mret tt ≫= (fun _ : unit => dropEntry a b)) s) with (dropEntry a b s).
    destruct (po_entry _ _ _ _ Hs _ _ Ha) as (_ & _ & _ & Hcl).
    apply Hdrop; [by apply kept_refl|done|]. symmetry. by apply Hcl.
Qed.

Lemma evict_post_mono (P Q : Prop) s o : (P -> Q) -> evict_post P s o -> evict_post Q s o.
Proof. intros HPQ. destruct o as [[[]|e|] s']; simpl; naive_solver. Qed.

Lemma evictWalk_post s rest :
  cache_ok s -> (forall a, a ∈ rest -> is_Some (c_cache s.2 !! a)) ->
  evict_post (forall a e, a ∈ rest -> c_cache s.2 !! a = Some e -> 0 < be_pinCount e) s (evictWalk rest s).
Proof.
  intros Hs. induction rest as [|a rest IH]; intros Hin.
  - split; [apply evicted_same; [by apply kept_refl|done]|]. intros _ x e Hx. by apply elem_of_nil in Hx.
  - simpl. rewrite bind_gets. destruct (Hin a) as [e Ha]; [left|]. rewrite Ha.
    destruct (Z.eqb_spec (be_pinCount e) 0) as [E|E].
    + eapply evict_post_mono; [|apply (evict_entry s a e (be_dirty e) _ id Hs Ha); [|by left]]; [done|].
      rewrite /mbind /M_bind. by destruct (onCDev _ s) as [[[]| |] ?].
    + eapply evict_post_mono; [|apply IH; intros; apply Hin; by right].
      intros H x ex [->|Hx]%elem_of_cons Hex; [|exact (H _ _ Hx Hex)].
      rewrite Ha in Hex. simplify_eq. destruct (po_entry _ _ _ _ Hs _ _ Ha) as (_ & _ & ? & _). lia.
Qed.

Lemma evictLoop_room fuel s :
  mapLen (c_cache s.2) < c_capacity s.2 -> evictLoop fuel s = (Ok tt, s).
Proof.
  intros H. destruct fuel; simpl; rewrite bind_gets;
    (replace (c_capacity s.2 <=? mapLen (c_cache s.2)) with false by (symmetry; apply Z.leb_gt; lia)); done.
Qed.

Lemma evictIfNeeded_post s : cache_ok s -> evict_post (all_pinned s) s (evictIfNeeded s).
Proof.
  intros Hs. rewrite /evictIfNeeded bind_gets.
  destruct (decide (mapLen (c_cache s.2) < c_capacity s.2)) as [Hr|Hr].
  { by rewrite evictLoop_room. }
  simpl evictLoop. rewrite bind_gets.
  replace (c_capacity s.2 <=? mapLen (c_cache s.2)) with true by (symmetry; apply Z.leb_le; lia).
  cbn [negb]. rewrite bind_gets.
  assert (forall a, a ∈ rev (c_lru s.2) <-> is_Some (c_cache s.2 !! a)) as Hin.
  { intros a. by rewrite -(po_elem _ _ _ _ a Hs) !list_elem_of_In -in_rev. }
  destruct (rev (c_lru s.2)) as [|a prevs].
  { split; [apply evicted_same; [by apply kept_refl|done]|]. intros _. split; [lia|]. intros x ex Hx.
    assert (x ∈ @nil Z) as H0 by (apply Hin; eauto). by apply elem_of_nil in H0. }
  rewrite bind_gets. destruct (proj1 (Hin a)) as [e Ha]; [left|]. rewrite Ha.
  destruct (Z.ltb_spec 0 (be_pinCount e)) as [E|E].
  - eapply evict_post_mono; [|apply evictWalk_post; [done|]; intros; apply Hin; by right].
    intros H. split; [lia|]. intros x ex Hx. assert (x ∈ a :: prevs) as [->|Hp]%elem_of_cons by (apply Hin; eauto); [by simplify_eq|eauto].
  - rewrite -(bind_assoc _ (fun _ => dropEntry a false) (fun _ => evictLoop _) s).
    pose proof (evict_entry s a e false _ (fun s' => (s'.1, with_cache (alter (with_bdirty false) a) s'.2)) Hs Ha
      eq_refl ltac:(by right)) as H.
    change (modify (fun s' : cstate => (s'.1, with_cache (alter (with_bdirty false) a) s'.2)))
      with (setEntry a (with_bdirty false)) in H.
    revert H. destruct ((whenM _ _ ≫= _) s) as [[[]|er|] s'] eqn:Er; intros H.
    + rewrite (bind_ok _ _ _ _ _ Er). rewrite evictLoop_room; [by apply H|done].
    + rewrite (bind_err _ _ _ _ _ Er). by eapply evict_post_mono; [|exact H].
    + destruct H.
Qed.

(** ** Operations *)

(** The block [addr] now reads [data], every other one as before. *)
Record updated (addr : Z) (data : block) (s s' : cstate) : Prop := {
  up_ok : cache_ok s';
  up_view : forall a, 0 <= a -> view s' a = if decide (a = addr) then data else view s a;
  up_evol : dev_evol s.1 s'.1;
  up_file : dev_file s'.1 = dev_file s.1;
}.

Lemma kept_stats f s : cache_ok s -> kept s (s.1, with_stats f s.2).
Proof. by split. Qed.

Lemma kept_moveToFront a s : cache_ok s -> kept s (s.1, with_lru (moveToFront a) s.2).
Proof. intros Hs. split; [by apply po_moveToFront|done|reflexivity|done]. Qed.

(** A change of a cached entry. *)
Lemma updated_entry s a e f data :
  cache_ok s -> c_cache s.2 !! a = Some e -> be_data (f e) = data ->
  length data = BlockLen -> 0 <= be_pinCount (f e) ->
  (be_dirty (f e) = false -> data = peek s.1 a) ->
  updated a data s (s.1, with_cache (alter f a) s.2).
Proof.
  intros Hs Ha <- H1 H2 H3. split; [exact (po_alter _ _ _ _ _ _ _ Hs Ha H1 H2 H3)|intros x Hx|reflexivity|done].
  rewrite /view /=. case_decide as E.
  - subst x. by rewrite lookup_alter_eq Ha.
  - by rewrite lookup_alter_ne; [apply not_eq_sym|].
Qed.

Lemma updated_kept a s s' : 0 <= a -> updated a (view s a) s s' -> kept s s'.
Proof. intros Ha [H1 H2 H3 H4]. split; [done| |done|done]. intros x Hx. rewrite H2 //. by case_decide; subst. Qed.

Lemma updated_trans a x s1 s2 s3 : kept s1 s2 -> updated a x s2 s3 -> updated a x s1 s3.
Proof.
  intros [H1 V1 E1 F1] [H2 V2 E2 F2]. split; [done| |by transitivity s2.1|congruence].
  intros y Hy. rewrite V2 //. case_decide; [done|by apply V1].
Qed.

Lemma updated_trans' a x s1 s2 s3 : updated a x s1 s2 -> kept s2 s3 -> updated a x s1 s3.
Proof.
  intros [H1 V1 E1 F1] [H2 V2 E2 F2]. split; [done| |by transitivity s2.1|congruence].
  intros y Hy. by rewrite V2 // V1.
Qed.

(** The tail of the operations that miss: an eviction, then the new entry. *)
Lemma miss_insert s a e :
  cache_ok s -> 0 <= a < BlockCount s.1 -> c_cache s.2 !! a = None ->
  length (be_data e) = BlockLen -> 0 <= be_pinCount e -> (be_dirty e = false -> be_data e = peek s.1 a) ->
  match (evictIfNeeded ;; insertEntry a e) s with
  | (Ok _, s') => updated a (be_data e) s s'
  | (Err _, s') => kept s s' /\ (healthy s.1 -> all_pinned s)
  | (Panic, _) => False
  end.
Proof.
  intros Hs Hr Ha H1 H2 H3. pose proof (evictIfNeeded_post s Hs) as H.
  rewrite /mbind /M_bind. destruct (evictIfNeeded s) as [[[]|er|] s1]; simpl in H.
  - destruct H as ([Hk Hab Hcap] & Hroom). pose proof (Hab _ Ha) as Ha1.
    destruct (insertEntry_run a e s1) as (c & -> & Hm & Hl & Hc).
    assert (peek s1.1 a = peek s.1 a) as Hp.
    { pose proof (kp_view _ _ Hk a (proj1 Hr)) as Hv. by rewrite /view Ha1 Ha in Hv. }
    assert (updated a (be_data e) s1 (s1.1, c)) as Hu.
    { split; [|intros x Hx|reflexivity|done].
      - rewrite /cache_ok /= Hm Hl Hc. apply po_insert; [apply Hk|done|done| |done|done|by rewrite Hp].
        by rewrite (evol_BlockCount _ _ (kp_evol _ _ Hk)).
      - rewrite /view /= Hm. case_decide as E; [subst x; by rewrite lookup_insert_eq|].
        by rewrite lookup_insert_ne; [apply not_eq_sym|]. }
    exact (updated_trans _ _ _ _ _ Hk Hu).
  - destruct H as ([Hk _ _] & Hh). done.
  - destruct H.
Qed.

(** [GetBlock] on a hit. *)
Lemma pinEntry_kept s a e :
  cache_ok s -> 0 <= a -> c_cache s.2 !! a = Some e ->
  exists s', pinEntry a s = (Ok tt, s') /\ kept s s' /\ view s a = be_data e.
Proof.
  intros Hs H0 Ha. destruct (po_entry _ _ _ _ Hs _ _ Ha) as (_ & H1 & H2 & H3).
  eexists. split; [reflexivity|]. assert (view s a = be_data e) as Hv by by rewrite /view Ha. split; [|done].
  set (s1 := (s.1, with_cache (alter (fun e => with_pin (be_pinCount e + 1) e) a) s.2)).
  assert (kept s s1) as Hk1.
  { apply (updated_kept a); [done|]. rewrite Hv.
    apply (updated_entry s a e); [done|done|done|done| |done]. simpl. lia. }
  exact (kept_trans _ _ _ Hk1 (kept_moveToFront a s1 (kp_ok _ _ Hk1))).
Qed.

Lemma GetBlock_spec s a :
  cache_ok s -> 0 <= a ->
  match GetBlock a s with
  | (Ok b, s') => b = view s a /\ kept s s'
  | (Err _, s') => kept s s' /\ (healthy s.1 -> a < BlockCount s.1 -> all_pinned s)
  | (Panic, _) => False
  end.
Proof.
  intros Hs Ha. rewrite /GetBlock bind_gets. destruct (c_cache s.2 !! a) as [e|] eqn:E.
  - rewrite bind_modify. set (s1 := (s.1, with_stats (countStats 1 0 0) s.2)).
    destruct (pinEntry_kept s1 a e (kp_ok _ _ (kept_stats _ s Hs)) Ha E) as (s' & Ep & Hk & Hv).
    rewrite (bind_ok _ _ _ _ _ Ep). split; [done|]. exact (kept_trans _ _ _ (kept_stats _ s Hs) Hk).
  - rewrite bind_modify. set (s1 := (s.1, with_stats (countStats 0 1 0) s.2)).
    pose proof (kept_stats (countStats 0 1 0) s Hs : kept s s1) as Hk1.
    pose proof (ReadBlock_cases a s.1) as Hrd. rewrite /onCDev.
    rewrite /mbind /M_bind /wrapErr /zoom. change s1.1 with s.1.
    destruct (ReadBlock a s.1) as [[b|er|] d'] eqn:Er; [| |done].
    + destruct Hrd as (Ho & Hlt & ->). set (s2 := (d', s1.2)).
      pose proof (kept_untouched s1 d' (kp_ok _ _ Hk1) Ho : kept s1 s2) as Hk2.
      pose proof (kept_trans _ _ _ Hk1 Hk2) as Hk.
      rewrite /gets. change (c_cache s2.2) with (c_cache s.2). rewrite E.
      assert (peek s2.1 a = peek s.1 a) as Hp by (apply Ho; [done|tauto]).
      pose proof (miss_insert s2 a (mkBufEntry (peek s.1 a) false 1) (kp_ok _ _ Hk)) as Hm.
      assert (0 <= a < BlockCount s2.1) as Hr by by rewrite (evol_BlockCount _ _ (kp_evol _ _ Hk)).
      specialize (Hm Hr E (wf_peek _ _ (po_dev _ _ _ _ Hs)) ltac:(done) ltac:(by rewrite Hp)).
      revert Hm. rewrite /mbind /M_bind. destruct (evictIfNeeded s2) as [[[]|er|] s3]; [| |done].
      * destruct (insertEntry_run a (mkBufEntry (peek s.1 a) false 1) s3) as (c & -> & _).
        intros Hu. split; [by rewrite /view E|].
        apply (updated_kept a); [done|]. rewrite /view E. exact (updated_trans _ _ _ _ _ Hk Hu).
      * intros [Hk3 Hp3]. split; [exact (kept_trans _ _ _ Hk Hk3)|]. intros Hh _. apply Hp3.
        by apply (ev_healthy _ _ (kp_evol _ _ Hk)).
    + destruct Hrd as (Ho & Hh). pose proof (kept_untouched s1 d' (kp_ok _ _ Hk1) Ho) as Hk2.
      split; [exact (kept_trans _ _ _ Hk1 Hk2)|]. intros H Hlt. apply Hh in H. lia.
Qed.

(** What a write through the cache leaves: the new block, or what was there. *)
Definition wrote (a : Z) (data : block) (s : cstate) (o : result unit * cstate) : Prop :=
  match o with
  | (Ok _, s') => updated a data s s'
  | (Err _, s') => kept s s' /\ (healthy s.1 -> all_pinned s)
  | (Panic, _) => False
  end.

Lemma CWriteBlock_spec s a data :
  cache_ok s -> 0 <= a < BlockCount s.1 -> length data = BlockLen -> wrote a data s (CWriteBlock a data s).
Proof.
  intros Hs Hr Hl. rewrite /CWriteBlock bind_failIf_false; [by rewrite Hl|]. rewrite bind_gets.
  destruct (c_cache s.2 !! a) as [e|] eqn:E.
  - destruct (po_entry _ _ _ _ Hs _ _ E) as (_ & _ & Hpin & _).
    set (s1 := (s.1, with_cache (alter (with_bdirty true ∘ with_bdata data) a) s.2)).
    assert (updated a data s s1) as Hu by (by apply (updated_entry s a e)).
    pose proof (updated_trans' _ _ _ _ _ Hu (kept_moveToFront a s1 (up_ok _ _ _ _ Hu))) as H.
    revert H. by rewrite /s1 /with_cache /= -alter_alter_eq.
  - by apply miss_insert.
Qed.

(** [PutBlock] followed by [MarkDirty], as the write path has it. *)
Lemma PutDirty_spec s a data :
  cache_ok s -> 0 <= a < BlockCount s.1 -> length data = BlockLen ->
  wrote a data s ((PutBlock a data ;; MarkDirty a) s).
Proof.
  intros Hs Hr Hl. rewrite bind_assoc /PutBlock bind_failIf_false; [by rewrite Hl|]. rewrite bind_assoc bind_gets.
  destruct (c_cache s.2 !! a) as [e|] eqn:E.
  - destruct (po_entry _ _ _ _ Hs _ _ E) as (_ & _ & Hpin & _).
    set (unpin := fun e => if 0 <? be_pinCount e then with_pin (be_pinCount e - 1) e else e).
    set (s1 := (s.1, with_cache (alter (with_bdirty true ∘ (unpin ∘ with_bdata data)) a) s.2)).
    assert (updated a data s s1) as Hu.
    { assert (be_data (with_bdirty true (unpin (with_bdata data e))) = data) as Hd.
      { rewrite /unpin. by destruct (0 <? _). }
      apply (updated_entry s a e); [done|done|done|done| |done].
      rewrite /unpin. simpl. destruct (Z.ltb_spec 0 (be_pinCount e)); simpl; lia. }
    pose proof (updated_trans' _ _ _ _ _ Hu (kept_moveToFront a s1 (up_ok _ _ _ _ Hu))) as H.
    revert H. by rewrite /s1 /with_cache /= -!alter_alter_eq.
  - rewrite bind_assoc. pose proof (miss_insert s a (mkBufEntry data true 0) Hs Hr E Hl ltac:(done) ltac:(done)) as H.
    revert H. rewrite /mbind /M_bind. destruct (evictIfNeeded s) as [[[]|er|] s1]; [|done|done].
    rewrite /insertEntry /MarkDirty /setEntry /modCache /mbind /M_bind /modify /=.
    rewrite /with_cache /with_lru /with_stats /= alter_insert_eq.
    by rewrite -(mapLen_alter (<[a := mkBufEntry data false 0]> _) a (with_bdirty true)) alter_insert_eq.
Qed.

(** Flushing a block cleans it and dirties none. *)
Lemma FlushBlock_spec s a :
  cache_ok s ->
  match FlushBlock a s with
  | (Ok _, s') => kept s s' /\ isDirty s'.2 a = false /\
                  forall x, isDirty s.2 x = false -> isDirty s'.2 x = false
  | (Err _, s') => kept s s' /\ ~ healthy s.1
  | (Panic, _) => False
  end.
Proof.
  intros Hs. rewrite /FlushBlock bind_gets. destruct (c_cache s.2 !! a) as [e|] eqn:E.
  2:{ split_and!; [by apply kept_refl|by rewrite /isDirty E|done]. }
  destruct (be_dirty e) eqn:Hd; cbn [negb].
  2:{ split_and!; [by apply kept_refl|by rewrite /isDirty E|done]. }
  pose proof (flush_entry s a e Hs E) as H. rewrite /mbind /M_bind.
  destruct (onCDev (WriteBlock a (be_data e)) s) as [[[]|er|] s1]; [| |done].
  - destruct H as (Hk & E1 & Hp). rewrite /emitCache /setEntry /modCache /modify /=.
    assert (kept s1 (s1.1, with_cache (alter (with_bdirty false) a) s1.2)) as Hk2.
    { apply kept_clean; [apply Hk|]. rewrite E1 E. by intros ? [= <-]. }
    destruct (kept_trans _ _ _ Hk Hk2) as [H1 H2 H3 H4].
    split_and!; [by split| |].
    + rewrite /isDirty /= lookup_alter_eq E1 E. done.
    + intros x. rewrite /isDirty /= E1. destruct (decide (a = x)) as [<-|Hne]; [by rewrite lookup_alter_eq E|].
      by rewrite lookup_alter_ne.
  - by destruct H as (Hk & _ & Hh).
Qed.

Lemma flush_list s l :
  cache_ok s ->
  match forEach FlushBlock l s with
  | (Ok _, s') => kept s s' /\ (forall x, isDirty s.2 x = false \/ x ∈ l -> isDirty s'.2 x = false)
  | (Err _, s') => kept s s' /\ ~ healthy s.1
  | (Panic, _) => False
  end.
Proof.
  revert s. induction l as [|a l IH]; intros s Hs; simpl.
  - split; [by apply kept_refl|]. intros x [?|Hx]; [done|by apply elem_of_nil in Hx].
  - pose proof (FlushBlock_spec s a Hs) as H. rewrite /mbind /M_bind.
    destruct (FlushBlock a s) as [[[]|er|] s1]; [|done|done]. destruct H as (Hk & Ha & Hmono).
    specialize (IH s1 (kp_ok _ _ Hk)). destruct (forEach FlushBlock l s1) as [[[]|er|] s2]; [| |done].
    + destruct IH as (Hk2 & Hcl). split; [exact (kept_trans _ _ _ Hk Hk2)|].
      intros x [Hx|[->|Hx]%elem_of_cons]; apply Hcl; [left; by apply Hmono|by left|by right].
    + destruct IH as (Hk2 & Hh). split; [exact (kept_trans _ _ _ Hk Hk2)|].
      intros H. by apply Hh, (ev_healthy _ _ (kp_evol _ _ Hk)).
Qed.

Lemma clean_view s :
  cache_ok s -> (forall a, isDirty s.2 a = false) -> forall a, 0 <= a -> peek s.1 a = view s a.
Proof.
  intros Hs Hc a Ha. specialize (Hc a). revert Hc. rewrite /isDirty /view.
  destruct (c_cache s.2 !! a) as [e|] eqn:E; [|done]. intros Hd.
  destruct (po_entry _ _ _ _ Hs _ _ E) as (_ & _ & _ & H). by rewrite H.
Qed.

Section with_order.
Context {O : MapOrder}.

Lemma dirtyAddrs_spec c a : a ∈ dirtyAddrs c <-> isDirty c a = true.
Proof.
  rewrite /dirtyAddrs list_elem_of_filter elem_of_range elem_of_keys /isDirty.
  destruct (c_cache c !! a) as [e|]; split; naive_solver.
Qed.

Lemma FlushAll_spec s :
  cache_ok s ->
  match FlushAll s with
  | (Ok _, s') => kept s s' /\ forall a, 0 <= a -> peek s'.1 a = view s a
  | (Err _, s') => kept s s' /\ ~ healthy s.1
  | (Panic, _) => False
  end.
Proof.
  intros Hs. rewrite /FlushAll bind_gets bind_modify. set (s1 := (s.1, nextRange s.2)).
  assert (kept s s1) as Hk by (by split).
  pose proof (flush_list s1 (dirtyAddrs s.2) (kp_ok _ _ Hk)) as H.
  destruct (forEach FlushBlock (dirtyAddrs s.2) s1) as [[[]|er|] s2]; [| |done].
  - destruct H as (Hk2 & Hc). pose proof (kept_trans _ _ _ Hk Hk2) as Hk'. split; [done|].
    intros a Ha. rewrite (clean_view s2); [apply Hk'| |done|by apply Hk'].
    intros x. apply Hc. rewrite dirtyAddrs_spec. change (isDirty s1.2 x) with (isDirty s.2 x).
    destruct (isDirty s.2 x); auto.
  - destruct H as (Hk2 & Hh). split; [exact (kept_trans _ _ _ Hk Hk2)|]. done.
Qed.

(** C19: The buffer cache is transparent, on every outcome of every device
    operation: [GetBlock] returns the block last written through the cache;
    [WriteBlock], and [PutBlock] followed by [MarkDirty], change what that
    block reads and nothing else, whatever is evicted on the way; a failed
    operation changes nothing; [FlushAll] brings the device to what the cache
    stands for; the cache stays within its capacity.  On a healthy device the
    operations fail only when every cached block is pinned. *)
Theorem buffer_cache_transparent s :
  cache_ok s ->
  mapLen (c_cache s.2) <= c_capacity s.2 /\
  (forall a, 0 <= a ->
    match GetBlock a s with
    | (Ok b, s') => b = view s a /\ kept s s'
    | (Err _, s') => kept s s' /\ (healthy s.1 -> a < BlockCount s.1 -> all_pinned s)
    | (Panic, _) => False
    end) /\
  (forall a data, 0 <= a < BlockCount s.1 -> length data = BlockLen ->
    wrote a data s (CWriteBlock a data s) /\ wrote a data s ((PutBlock a data ;; MarkDirty a) s)) /\
  match FlushAll s with
  | (Ok _, s') => kept s s' /\ forall a, 0 <= a -> peek s'.1 a = view s a
  | (Err _, s') => kept s s' /\ ~ healthy s.1
  | (Panic, _) => False
  end /\
  (exists s', InvalidateAll s = (Ok tt, s') /\ cache_ok s' /\ forall a, 0 <= a -> view s' a = peek s.1 a).
Proof.
  intros Hs. split_and!.
  - apply Hs.
  - intros a Ha. by apply GetBlock_spec.
  - intros a data Hr Hl. split; [by apply CWriteBlock_spec|by apply PutDirty_spec].
  - by apply FlushAll_spec.
  - eexists. split; [reflexivity|]. split; [|done]. destruct Hs as [Hd _ _ _ Hc].
    split; [done|done|done| |done]. change (0 <= c_capacity s.2). lia.
Qed.

End with_order.

(** A device of four blocks with a cache of two. *)
Definition demoCache : cstate := (blank 4, NewBufferCache 2).

Lemma demoCache_ok : cache_ok demoCache.
Proof. split; [by apply wf_blank|done|done|done|done]. Qed.

Lemma buffer_cache_transparent_witness :
  exists s', CWriteBlock 3 (replicate BlockLen x2a) demoCache = (Ok tt, s') /\
    view s' 3 = replicate BlockLen x2a /\ view s' 1 = zeroBlock.
Proof.
  destruct (@buffer_cache_transparent inOrder demoCache demoCache_ok) as (_ & _ & Hw & _ & _).
  destruct (Hw 3 (replicate BlockLen x2a)) as [H _]; [split; [done|reflexivity]|apply length_replicate|].
  destruct (CWriteBlock 3 (replicate BlockLen x2a) demoCache) as [[[]|e|] s'].
  - exists s'. destruct H as [_ Hv _ _]. by rewrite !Hv.
  - destruct H as [_ Hp]. destruct (Hp ltac:(by split)) as [Hfull _]. exfalso. by apply Hfull.
  - destruct H.
Defined.

(** [ops.Read] returns the block it got to the cache to unpin it, and takes no
    lock that [ops.Write] takes.  The calls of one reader and one writer of
    the block [a] on the cache, in an order that is possible: *)
Definition readerAndWriter (a : Z) (data : block) : M cstate block :=
  seen ← GetBlock a;                                (* reader *)
  _ ← GetBlock a ; PutBlock a data ;; MarkDirty a ;; (* writer *)
  PutBlock a seen ;;                                (* reader *)
  GetBlock a.

(** C35: A write is lost when a reader of the same block unpins it later: after
    the reader's [PutBlock] the block reads as before the write, although
    every call succeeded. *)
Theorem reader_undoes_write s a e data :
  cache_ok s -> c_cache s.2 !! a = Some e -> length data = BlockLen ->
  exists s', readerAndWriter a data s = (Ok (view s a), s').
Proof.
  intros Hs Ha Hd. destruct (po_entry _ _ _ _ Hs _ _ Ha) as (_ & Hl & _).
  assert (forall s e, c_cache s.2 !! a = Some e ->
    exists s' e', GetBlock a s = (Ok (be_data e), s') /\ c_cache s'.2 !! a = Some e' /\ be_data e' = be_data e) as HG.
  { intros s0 e0 H0. rewrite /GetBlock bind_gets H0. do 2 eexists. split; [reflexivity|]. cbn. by rewrite lookup_alter_eq H0. }
  assert (forall s e x, c_cache s.2 !! a = Some e -> length x = BlockLen ->
    exists s' e', PutBlock a x s = (Ok tt, s') /\ c_cache s'.2 !! a = Some e' /\ be_data e' = x) as HP.
  { intros s0 e0 x H0 Hx. rewrite /PutBlock bind_failIf_false; [by rewrite Hx|]. rewrite bind_gets H0.
    do 2 eexists. split; [reflexivity|]. cbn. rewrite !lookup_alter_eq H0 /=. split; [reflexivity|].
    by destruct (0 <? _). }
  destruct (HG s e Ha) as (s1 & e1 & E1 & H1 & D1). destruct (HG s1 e1 H1) as (s2 & e2 & E2 & H2 & D2).
  destruct (HP s2 e2 data H2 Hd) as (s3 & e3 & E3 & H3 & D3).
  set (s4 := (s3.1, with_cache (alter (with_bdirty true) a) s3.2)).
  assert (c_cache s4.2 !! a = Some (with_bdirty true e3)) as H4 by (by rewrite /= lookup_alter_eq H3).
  destruct (HP s4 _ (be_data e) H4 Hl) as (s5 & e5 & E5 & H5 & D5).
  destruct (HG s5 e5 H5) as (s6 & e6 & E6 & _).
  exists s6. rewrite /readerAndWriter (bind_ok _ _ _ _ _ E1) (bind_ok _ _ _ _ _ E2) (bind_ok _ _ _ _ _ E3).
  rewrite (bind_ok _ _ _ tt s4); [done|]. rewrite (bind_ok _ _ _ _ _ E5) E6 D5. by rewrite /view Ha.
Qed.

Lemma reader_undoes_write_witness :
  exists s e, c_cache s.2 !! 0 = Some e /\ view s 0 = zeroBlock /\
    (readerAndWriter 0 (replicate BlockLen x01) s).1 = Ok zeroBlock.
Proof.
  set (e := mkBufEntry zeroBlock false 0).
  set (s := (blank 4, mkBufferCache {[0 := e]} [0] 2 (mkCacheStats 0 0 0 1 2 []) None 0)).
  assert (cache_ok s) as Hs.
  { split; [by apply wf_blank|done| |done|done].
    intros a x Hx. change (c_cache s.2) with ({[0 := e]} : gmap Z bufEntry) in Hx.
    apply lookup_singleton_Some in Hx as [<- <-]. split_and!; [done|reflexivity|apply length_zeroBlock|done|].
    intros _. symmetry. apply peek_blank. }
  exists s, e. split_and!; [done|done|].
  destruct (reader_undoes_write s 0 e (replicate BlockLen x01) Hs eq_refl (length_replicate _ _)) as [s' E].
  by rewrite E.
Defined.
