(* ===== verification/Icache.v ===== *)
(** * Icache: the inode cache, [internal/cache/icache.go]

    The cache maps inode numbers to encoded inodes.  It writes an inode back
    by the function it was made with, a computation on the device here
    ([flushFn]). *)

From S2P Require Export Alloc Maps.

Definition defaultInodeCacheSize : Z := 512.

(** [InodeData], an array of 128 bytes. *)
Abbreviation InodeData := (list byte).
Definition zeroInodeData : InodeData := zeros InodeLen.

Record inodeEntry : Type := mkInodeEntry { ie_data : InodeData; ie_dirty : bool; ie_refs : Z }.

Record InodeCache : Type := mkInodeCache {
  ic_cache : gmap Z inodeEntry;
  ic_capacity : Z;
  ic_ranges : nat;
}.

Definition with_icache (f : gmap Z inodeEntry -> gmap Z inodeEntry) (ic : InodeCache) : InodeCache :=
  mkInodeCache (f (ic_cache ic)) (ic_capacity ic) (ic_ranges ic).
Definition iNextRange (ic : InodeCache) : InodeCache :=
  mkInodeCache (ic_cache ic) (ic_capacity ic) (S (ic_ranges ic)).

Definition NewInodeCache (capacity : Z) : InodeCache :=
  mkInodeCache ∅ (if capacity <=? 0 then defaultInodeCacheSize else capacity) 0.

Definition ie_ref (e : inodeEntry) : inodeEntry := mkInodeEntry (ie_data e) (ie_dirty e) (ie_refs e + 1).
Definition ie_set (data : InodeData) (e : inodeEntry) : inodeEntry := mkInodeEntry data (ie_dirty e) (ie_refs e).
Definition ie_mark (dirty : bool) (e : inodeEntry) : inodeEntry := mkInodeEntry (ie_data e) dirty (ie_refs e).

Definition modIcache (f : gmap Z inodeEntry -> gmap Z inodeEntry) : M InodeCache unit := modify (with_icache f).

(** [None] for [(InodeData{}, false)]. *)
Definition IGet (inum : Z) : M InodeCache (option InodeData) :=
  e ← gets (fun ic => ic_cache ic !! inum);
  match e with
  | None => mret None
  | Some e => modIcache (alter ie_ref inum) ;; mret (Some (ie_data e))
  end.

Section ranges.
Context {O : MapOrder}.

(** The first key of a loop over the map whose entry satisfies [p]. *)
Definition firstKey (p : inodeEntry -> bool) (ic : InodeCache) : option Z :=
  head (filter (fun k => match ic_cache ic !! k with Some e => p e | None => false end = true)
          (range (ic_ranges ic) (keys (ic_cache ic)))).

Definition evictOne : M InodeCache unit :=
  k ← gets (firstKey (fun e => (ie_refs e =? 0) && negb (ie_dirty e)));
  modify iNextRange ;;
  match k with
  | Some inum => modIcache (delete inum)
  | None =>
      k ← gets (firstKey (fun e => ie_refs e =? 0));
      modify iNextRange ;;
      match k with
      | Some inum => modIcache (delete inum)
      | None => mret tt
      end
  end.

(** [if len(ic.cache) >= ic.capacity { ic.evictOne() }] *)
Definition makeRoom : M InodeCache unit :=
  full ← gets (fun ic => ic_capacity ic <=? mapLen (ic_cache ic));
  whenM full evictOne.

Definition IPut (inum : Z) (data : InodeData) : M InodeCache unit :=
  e ← gets (fun ic => ic_cache ic !! inum);
  match e with
  | Some _ => modIcache (alter (ie_set data) inum)
  | None => makeRoom ;; modIcache (<[inum := mkInodeEntry data false 0]>)
  end.

Definition IUpdate (inum : Z) (data : InodeData) : M InodeCache unit :=
  e ← gets (fun ic => ic_cache ic !! inum);
  match e with
  | Some _ => modIcache (alter (fun e => ie_mark true (ie_set data e)) inum)
  | None => makeRoom ;; modIcache (<[inum := mkInodeEntry data true 0]>)
  end.

Definition IMarkDirty (inum : Z) : M InodeCache unit := modIcache (alter (ie_mark true) inum).

Definition istate : Type := BlockDevice * InodeCache.
Definition onIcache {A} (m : M InodeCache A) : M istate A := zoom snd (fun ic s => (s.1, ic)) m.
Definition onIDev {A} (m : M BlockDevice A) : M istate A := zoom fst (fun d s => (d, s.2)) m.

Variable flushFn : option (Z -> InodeData -> M BlockDevice unit).

Definition FlushInode (inum : Z) : M istate unit :=
  e ← gets (fun s => ic_cache s.2 !! inum);
  match e with
  | None => mret tt
  | Some e =>
      if negb (ie_dirty e) then mret tt
      else
        match flushFn with
        | Some flush => wrapErr "icache: flush inode %d: %w" [inum] (onIDev (flush inum (ie_data e)))
        | None => mret tt
        end ;;
        onIcache (modIcache (alter (ie_mark false) inum))
  end.

Definition dirtyInums (ic : InodeCache) : list Z :=
  filter (fun k => match ic_cache ic !! k with Some e => ie_dirty e | None => false end = true)
    (range (ic_ranges ic) (keys (ic_cache ic))).

Definition IFlushAll : M istate unit :=
  inums ← gets (fun s => dirtyInums s.2);
  onIcache (modify iNextRange) ;;
  forEach FlushInode inums.

End ranges.

Definition IInvalidate (inum : Z) : M InodeCache unit := modIcache (delete inum).
Definition IInvalidateAll : M InodeCache unit := modIcache (fun _ => ∅).

(** ** What a cache holds back *)

Definition cached (ic : InodeCache) (inum : Z) : option InodeData := ie_data <$> ic_cache ic !! inum.
Definition pending (ic : InodeCache) (inum : Z) : option InodeData :=
  e ← ic_cache ic !! inum; if ie_dirty e then Some (ie_data e) else None.

(** ** The flush function of the file system: [internal/fs/fs.go], [Mount] *)

Definition flushFn (inum : Z) (data : InodeData) : M BlockDevice unit :=
  let '(blockAddr, offset) := InodeNumToBlock inum in
  blk ← ReadBlock blockAddr;
  WriteBlock blockAddr (splice offset data blk).

(** The 128 bytes of an inode on the disk. *)
Definition raw_at (d : BlockDevice) (num : Z) : InodeData :=
  let '(a, o) := InodeNumToBlock num in slice o InodeLen (peek d a).

Definition table_block (a : Z) : Prop := InodeTableStart <= a < InodeTableStart + InodeTableBlocks.

(** A device one can keep inodes on. *)
Record table_dev (d : BlockDevice) : Prop := {
  td_healthy : healthy d;
  td_wf : wf_dev d;
  td_table : has_table d;
}.

Lemma table_dev_evol d d' : dev_evol d d' -> table_dev d -> table_dev d'.
Proof. intros [Es Eh Ew] [H1 H2 H3]. split; auto. revert H3. by rewrite /has_table /BlockCount Es. Qed.

Lemma flushFn_ok num data d :
  table_dev d -> valid_inum num -> length data = InodeLen ->
  exists d', flushFn num data d = (Ok tt, d') /\ dev_only table_block d d' /\
    forall m, valid_inum m -> raw_at d' m = if decide (m = num) then data else raw_at d m.
Proof.
  intros [Hh Hwf Ht] Hn Hl. destruct (InodeNumToBlock num) as [a o] eqn:E.
  destruct (inode_place _ _ _ Hn E) as [Ha Ho]. pose proof Ht as Ht'. rewrite /has_table in Ht.
  assert (0 <= a < BlockCount d) as Hr by (rewrite /InodeTableStart in Ha, Ht; lia).
  pose proof (wf_in_range _ _ Hwf Hr) as Hr'. pose proof (wf_peek d a Hwf) as Hp.
  set (b := splice o data (peek d a)). assert (length b = BlockLen) as Hb by (rewrite length_splice ?Hl ?Hp //; lia).
  assert (WriteBlock a b d = (Ok tt, poke a b d)) as EW by (apply WriteBlock_ok; [done|lia|done]).
  exists (poke a b d). split_and!.
  - rewrite /flushFn E (bind_ok _ _ _ (peek d a) d) //. apply ReadBlock_ok; [done|lia].
  - pose proof (WriteBlock_keeps table_block a b ltac:(lia) Ha d) as HK. by rewrite EW in HK.
  - intros m Hm. rewrite /raw_at. case_decide as Hc.
    + subst m. rewrite E peek_poke_eq //. rewrite -Hl. apply slice_splice_same. rewrite Hl Hp. lia.
    + destruct (InodeNumToBlock m) as [a' o'] eqn:E'. destruct (inode_place _ _ _ Hm E') as [Ha' Ho'].
      destruct (decide (a' = a)) as [->|Hne].
      * rewrite peek_poke_eq // /b slice_splice_disj; [rewrite Hl Hp; lia| |done].
        rewrite Hl. apply (inode_place_disjoint num m a); [done|done|congruence|done|done].
      * rewrite peek_poke_ne //; rewrite /InodeTableStart in Ha, Ha'; lia.
Qed.

(** ** The cache of the file system *)

(** Every entry is an inode of the table. *)
Definition entries_ok (ic : InodeCache) : Prop :=
  forall k e, ic_cache ic !! k = Some e -> valid_inum k /\ length (ie_data e) = InodeLen /\ 0 <= ie_refs e.

Lemma lookup_pending ic k d : pending ic k = Some d <->
  exists e, ic_cache ic !! k = Some e /\ ie_dirty e = true /\ ie_data e = d.
Proof.
  rewrite /pending. destruct (ic_cache ic !! k) as [e|]; simpl; [|naive_solver].
  destruct (ie_dirty e) eqn:E; split; [intros [= <-]; eauto|intros (e0 & [= <-] & _ & ->); done|done|].
  intros (e0 & [= <-] & H & _). congruence.
Qed.

Section with_order.
Context {O : MapOrder}.

Lemma elem_of_dirtyInums ic k : k ∈ dirtyInums ic <-> is_Some (pending ic k).
Proof.
  rewrite /dirtyInums list_elem_of_filter elem_of_range elem_of_keys /pending.
  destruct (ic_cache ic !! k) as [e|]; simpl; [|naive_solver].
  destruct (ie_dirty e); naive_solver.
Qed.

Lemma firstKey_spec p ic :
  match firstKey p ic with
  | Some k => exists e, ic_cache ic !! k = Some e /\ p e = true
  | None => forall k e, ic_cache ic !! k = Some e -> p e = false
  end.
Proof.
  rewrite /firstKey. set (l := filter _ _).
  assert (forall k, k ∈ l <-> exists e, ic_cache ic !! k = Some e /\ p e = true) as Hin.
  { intros k. rewrite /l list_elem_of_filter elem_of_range elem_of_keys.
    destruct (ic_cache ic !! k) as [e|]; naive_solver. }
  destruct l as [|k l']; simpl.
  - intros k e He. destruct (p e) eqn:E; [|done].
    assert (k ∈ @nil Z) as Hk by (apply Hin; eauto). by apply elem_of_nil in Hk.
  - apply Hin. left.
Qed.

(** An eviction removes an entry without references, a clean one if there is
    one, or nothing when all have references. *)
Lemma evictOne_spec ic :
  exists ic', evictOne ic = (Ok tt, ic') /\ ic_capacity ic' = ic_capacity ic /\
    ((exists k e, ic_cache ic !! k = Some e /\ ie_refs e = 0 /\ ic_cache ic' = delete k (ic_cache ic) /\
        (ie_dirty e = true -> forall k' e', ic_cache ic !! k' = Some e' -> ie_refs e' = 0 -> ie_dirty e' = true)) \/
     (ic_cache ic' = ic_cache ic /\ forall k e, ic_cache ic !! k = Some e -> ie_refs e <> 0)).
Proof.
  rewrite /evictOne bind_gets bind_modify.
  pose proof (firstKey_spec (fun e => (ie_refs e =? 0) && negb (ie_dirty e)) ic) as H.
  destruct (firstKey _ ic) as [k|].
  - destruct H as (e & He & Hp). simpl_bool. eexists. split; [reflexivity|]. split; [done|].
    left. exists k, e. split_and!; [done|done|done|]. intros Hd. congruence.
  - rewrite bind_gets bind_modify. set (ic1 := iNextRange ic).
    pose proof (firstKey_spec (fun e => ie_refs e =? 0) ic1) as H1.
    destruct (firstKey (fun e => ie_refs e =? 0) ic1) as [k|].
    + destruct H1 as (e & He & Hp). simpl_bool. eexists. split; [reflexivity|]. split; [done|].
      left. exists k, e. split_and!; [done|done|done|]. intros _ k' e' He' Hr'.
      specialize (H k' e' He'). rewrite Hr' /= in H. by apply negb_false_iff in H.
    + eexists. split; [reflexivity|]. split; [done|]. right. split; [done|].
      intros k e He. specialize (H1 k e He). by apply Z.eqb_neq in H1.
Qed.

Lemma evicted_ok ic ic' k : entries_ok ic -> ic_cache ic' = delete k (ic_cache ic) -> entries_ok ic'.
Proof. intros H E x e. rewrite E lookup_delete_Some. intros [_ Hx]. by apply H. Qed.

(** Updating an entry that is not there, when there is no room. *)
Lemma IUpdate_full ic inum data :
  ic_cache ic !! inum = None -> ic_capacity ic <= mapLen (ic_cache ic) ->
  exists ic1, evictOne ic = (Ok tt, ic1) /\
    IUpdate inum data ic = (Ok tt, with_icache (<[inum := mkInodeEntry data true 0]>) ic1).
Proof.
  intros Hn Hf. destruct (evictOne_spec ic) as (ic1 & E & _). exists ic1. split; [done|].
  rewrite /IUpdate bind_gets Hn /makeRoom bind_assoc bind_gets.
  replace (ic_capacity ic <=? mapLen (ic_cache ic)) with true by (symmetry; by apply Z.leb_le).
  by rewrite /whenM (bind_ok _ _ _ _ _ E).
Qed.

Lemma FlushInode_ok d ic k :
  table_dev d -> entries_ok ic ->
  exists d' ic', FlushInode (Some flushFn) k (d, ic) = (Ok tt, (d', ic')) /\
    dev_only table_block d d' /\ entries_ok ic' /\
    (forall m, cached ic' m = cached ic m) /\
    (forall m, pending ic' m = if decide (m = k) then None else pending ic m) /\
    (forall m, valid_inum m -> raw_at d' m =
       if decide (m = k) then default (raw_at d m) (pending ic m) else raw_at d m).
Proof.
  intros Hd Hok. rewrite /FlushInode bind_gets /=. destruct (ic_cache ic !! k) as [e|] eqn:E.
  2:{ exists d, ic. split_and!; [done|reflexivity|done|done|..]; intros m; [|intros _];
        case_decide; [|done|subst|done]; rewrite /pending; subst; by rewrite E. }
  destruct (Hok _ _ E) as (Hk & Hl & _). destruct (ie_dirty e) eqn:Hdirty; cbn [negb].
  2:{ exists d, ic. split_and!; [done|reflexivity|done|done|..]; intros m; [|intros _];
        case_decide; [|done|subst|done]; rewrite /pending; subst; by rewrite E /= Hdirty. }
  destruct (flushFn_ok k (ie_data e) d Hd Hk Hl) as (d' & EF & Hdo & Hraw).
  exists d', (with_icache (alter (ie_mark false) k) ic). split_and!.
  - by rewrite (bind_ok _ _ _ tt (d', ic)); [apply wrapErr_ok; rewrite /onIDev /zoom /= EF|].
  - done.
  - intros m em. rewrite /= lookup_alter_Some. intros [(-> & e' & He' & ->)|[_ Hm]]; [by apply (Hok m e')|by apply Hok].
  - intros m. rewrite /cached /=. destruct (decide (k = m)) as [<-|Hne]; [by rewrite lookup_alter_eq E|by rewrite lookup_alter_ne].
  - intros m. rewrite /pending /=. destruct (decide (m = k)) as [->|Hne]; [by rewrite lookup_alter_eq E|by rewrite lookup_alter_ne; [apply not_eq_sym|]].
  - intros m Hm. rewrite Hraw //. case_decide; [|done]. subst m. rewrite /pending E /=. by rewrite Hdirty.
Qed.

Lemma flush_inodes d ic l :
  table_dev d -> entries_ok ic ->
  exists d' ic', forEach (FlushInode (Some flushFn)) l (d, ic) = (Ok tt, (d', ic')) /\
    dev_only table_block d d' /\ entries_ok ic' /\
    (forall m, cached ic' m = cached ic m) /\
    (forall m, pending ic' m = if decide (m ∈ l) then None else pending ic m) /\
    (forall m, valid_inum m -> raw_at d' m =
       if decide (m ∈ l) then default (raw_at d m) (pending ic m) else raw_at d m).
Proof.
  revert d ic. induction l as [|k l IH]; intros d ic Hd Hok.
  - exists d, ic. split_and!; [done|reflexivity|done|done|..]; intros m; [|intros _];
      case_decide as Hm; try done; by apply elem_of_nil in Hm.
  - destruct (FlushInode_ok d ic k Hd Hok) as (d1 & ic1 & E1 & Hdo1 & Hok1 & Hc1 & Hp1 & Hr1).
    destruct (IH d1 ic1 (table_dev_evol _ _ (do_evol _ _ _ Hdo1) Hd) Hok1) as (d2 & ic2 & E2 & Hdo2 & Hok2 & Hc2 & Hp2 & Hr2).
    exists d2, ic2. split_and!; [by rewrite /= (bind_ok _ _ _ _ _ E1)|by transitivity d1|done|..]; intros m.
    + by rewrite Hc2.
    + rewrite Hp2 Hp1. repeat case_decide; set_solver.
    + intros Hm. rewrite Hr2 // Hr1 // Hp1. repeat case_decide; set_solver.
Qed.

Lemma IFlushAll_ok d ic :
  table_dev d -> entries_ok ic ->
  exists d' ic', IFlushAll (Some flushFn) (d, ic) = (Ok tt, (d', ic')) /\
    dev_only table_block d d' /\ entries_ok ic' /\
    (forall m, cached ic' m = cached ic m /\ pending ic' m = None) /\
    (forall m, valid_inum m -> raw_at d' m = default (raw_at d m) (pending ic m)).
Proof.
  intros Hd Hok. destruct (flush_inodes d (iNextRange ic) (dirtyInums ic) Hd Hok)
    as (d' & ic' & E & Hdo & Hok' & Hc & Hp & Hr).
  change (pending (iNextRange ic)) with (pending ic) in Hp, Hr.
  change (cached (iNextRange ic)) with (cached ic) in Hc.
  exists d', ic'. split_and!; [|done|done|..].
  - by rewrite /IFlushAll bind_gets.
  - intros m. split; [done|]. rewrite Hp. case_decide as Hm; [done|].
    destruct (pending ic m) eqn:E'; [|done]. destruct Hm. apply elem_of_dirtyInums. by rewrite E'.
  - intros m Hv. rewrite Hr //. case_decide as Hm; [done|].
    destruct (pending ic m) eqn:E'; [|done]. destruct Hm. apply elem_of_dirtyInums. by rewrite E'.
Qed.

Lemma makeRoom_spec ic :
  exists ic1, makeRoom ic = (Ok tt, ic1) /\
    (ic_cache ic1 = ic_cache ic \/
     exists k e, ic_cache ic !! k = Some e /\ ie_refs e = 0 /\ ic_cache ic1 = delete k (ic_cache ic) /\
       ic_capacity ic <= mapLen (ic_cache ic) /\
       (ie_dirty e = true -> forall k' e', ic_cache ic !! k' = Some e' -> ie_refs e' = 0 -> ie_dirty e' = true)).
Proof.
  rewrite /makeRoom bind_gets. destruct (Z.leb_spec (ic_capacity ic) (mapLen (ic_cache ic))); [|by exists ic; split; [|left]].
  destruct (evictOne_spec ic) as (ic1 & E & _ & [(k & e & ? & ? & ? & ?)|[? _]]); exists ic1; (split; [done|]).
  - right. exists k, e. by split_and!.
  - by left.
Qed.

Lemma IUpdate_spec ic inum data :
  entries_ok ic -> valid_inum inum -> length data = InodeLen ->
  exists ic', IUpdate inum data ic = (Ok tt, ic') /\ entries_ok ic' /\
    cached ic' inum = Some data /\ pending ic' inum = Some data /\
    (mapLen (ic_cache ic) < ic_capacity ic \/
     (exists k e, ic_cache ic !! k = Some e /\ ie_refs e = 0 /\ ie_dirty e = false) \/
     (forall k e, ic_cache ic !! k = Some e -> ie_refs e <> 0) ->
     forall m, m <> inum -> pending ic' m = pending ic m).
Proof.
  intros Hok Hv Hl. rewrite /IUpdate bind_gets. destruct (ic_cache ic !! inum) as [e|] eqn:E.
  - destruct (Hok _ _ E) as (_ & _ & Hr). eexists. split; [reflexivity|]. rewrite /cached /pending /=. split_and!.
    + intros m em. rewrite /= lookup_alter_Some. intros [(-> & e' & He' & ->)|[_ Hm]]; [|by apply Hok].
      by destruct (Hok _ _ He') as (_ & _ & ?).
    + by rewrite lookup_alter_eq E.
    + by rewrite lookup_alter_eq E.
    + intros _ m Hm. by rewrite lookup_alter_ne; [apply not_eq_sym|].
  - destruct (makeRoom_spec ic) as (ic1 & Em & Hc). rewrite (bind_ok _ _ _ _ _ Em).
    eexists. split; [reflexivity|]. rewrite /cached /pending /=. split_and!.
    + intros m em. rewrite /= lookup_insert_Some. intros [[<- <-]|[_ Hm]]; [by split_and!|].
      destruct Hc as [Hc|(k & e & _ & _ & Hc & _)]; rewrite Hc in Hm; [by apply Hok|].
      apply lookup_delete_Some in Hm as [_ Hm]. by apply Hok.
    + by rewrite lookup_insert_eq.
    + by rewrite lookup_insert_eq.
    + intros Hcase m Hm. rewrite lookup_insert_ne; [by apply not_eq_sym|].
      destruct Hc as [->|(k & e & Hk & Hr & -> & Hfull & Hd)]; [done|].
      destruct (decide (k = m)) as [<-|Hne]; [|by rewrite lookup_delete_ne].
      rewrite lookup_delete_eq Hk /=. destruct (ie_dirty e) eqn:Ed; [|done]. exfalso.
      destruct Hcase as [Hlt|[(k' & e' & Hk' & Hr' & Hd')|Hno]]; [lia| |by apply (Hno _ _ Hk)].
      rewrite (Hd eq_refl k' e' Hk' Hr') in Hd'. done.
Qed.


(** C36: An update of an inode is lost when the cache is full and all its
    unreferenced entries are dirty: another inode's [Update] then drops one
    of them without writing it, and a later [FlushAll], which succeeds, leaves
    the old inode on the disk. *)
Theorem icache_drops_update d ic inum data v e :
  table_dev d -> entries_ok ic -> valid_inum inum -> length data = InodeLen ->
  ic_cache ic !! inum = None -> ic_capacity ic <= mapLen (ic_cache ic) ->
  ic_cache ic !! v = Some e -> ie_refs e = 0 ->
  (forall k x, ic_cache ic !! k = Some x -> ie_refs x = 0 -> ie_dirty x = true) ->
  exists lost old d' ic', pending ic lost = Some old /\
    (onIcache (IUpdate inum data) ;; IFlushAll (Some flushFn)) (d, ic) = (Ok tt, (d', ic')) /\
    raw_at d' lost = raw_at d lost /\ cached ic' lost = None.
Proof.
  intros Hd Hok Hv Hl Hn Hfull Hve Hr Hall.
  destruct (IUpdate_full ic inum data Hn Hfull) as (ic1 & E1 & EU).
  destruct (evictOne_spec ic) as (ic1' & E1' & _ & Hc). rewrite E1 in E1'. injection E1' as <-.
  destruct Hc as [(k & x & Hk & Hx & Hdel & _)|[_ Hno]]; [|by destruct (Hno _ _ Hve)].
  destruct (IUpdate_spec ic inum data Hok Hv Hl) as (ic2 & EU2 & Hok2 & _).
  rewrite EU in EU2. injection EU2 as <-. set (ic2 := with_icache _ ic1) in *.
  destruct (IFlushAll_ok d ic2 Hd Hok2) as (d' & ic' & EF & _ & _ & Hc' & Hraw).
  assert (k <> inum) as Hki by (intros ->; congruence).
  assert (ic_cache ic2 !! k = None) as H2.
  { by rewrite /= lookup_insert_ne; [apply not_eq_sym|rewrite Hdel lookup_delete_eq]. }
  exists k, (ie_data x), d', ic'. split_and!.
  - apply lookup_pending. exists x. split_and!; [done|by apply (Hall k)|done].
  - by rewrite (bind_ok _ _ _ tt (d, ic2)); [rewrite /onIcache /zoom /= EU|].
  - rewrite Hraw; [by apply (Hok k x)|]. by rewrite /pending H2.
  - by rewrite (proj1 (Hc' k)) /cached H2.
Qed.
End with_order.

(** A cache of one inode, which is dirty. *)
Definition demoIcache : InodeCache := mkInodeCache {[ 5 := mkInodeEntry (replicate InodeLen x01) true 0 ]} 1 0.

Lemma demoIcache_ok : entries_ok demoIcache.
Proof. intros k e H. rewrite /demoIcache /= in H. apply lookup_singleton_Some in H as [<- <-]. by split_and!. Qed.

Lemma demoTable : table_dev (blank 132).
Proof. split; [by split|by apply wf_blank|done]. Qed.


Lemma icache_drops_update_witness :
  exists lost old d' ic', pending demoIcache lost = Some old /\
    (onIcache (@IUpdate inOrder 7 zeroInodeData) ;; @IFlushAll inOrder (Some flushFn)) (blank 132, demoIcache)
      = (Ok tt, (d', ic')) /\
    raw_at d' lost = raw_at (blank 132) lost /\ cached ic' lost = None.
Proof.
  apply (@icache_drops_update inOrder (blank 132) demoIcache 7 zeroInodeData 5
    (mkInodeEntry (replicate InodeLen x01) true 0));
    [apply demoTable|apply demoIcache_ok|done|apply length_zeros|done|done|done|done|].
  intros k x H. rewrite /demoIcache /= in H. by apply lookup_singleton_Some in H as [<- <-].
Defined.
