(* ===== verification/Extent.v ===== *)
(** * Extent: [internal/fs/extent.go]

    The map of an inode from logical to physical blocks: twelve direct
    pointers and trees of one, two and three levels of pointer blocks.  The
    code passes the device, the allocator and a pointer to the inode: here the
    state is the allocator (which holds the device) and the inode.

    The specification gives every pointer a position ([pos]) and reads the
    whole tree as one function from positions to addresses ([node]); every
    step of [AllocBlockForOffset] and [FreeBlocksFrom] is the update of that
    function at one position. *)

From S2P Require Export Alloc.

Definition inode_state : Type := Allocator * DiskInode.

Definition onAlloc {A} (m : M Allocator A) : M inode_state A :=
  zoom fst (fun a s => (a, s.2)) m.
Definition modInode (f : DiskInode -> DiskInode) : M inode_state unit :=
  modify (fun s => (s.1, f s.2)).
(** A call with the [dev] argument. *)
Definition onBlk {A} (m : M BlockDevice A) : M inode_state A := onAlloc (onDev m).

Definition ptrs : Z := PointersPerBlock.

(** The assignments to the fields of the inode. *)
Definition set_pointers (dir : list Z) (i1 i2 i3 b512 : Z) (di : DiskInode) : DiskInode :=
  mkInode (Mode di) (UID di) (SizeLo di) (ATime di) (CTime di) (MTime di) (DTime di) (GID di)
    (Links di) b512 (Flags di) dir i1 i2 i3 (Generation di) (SizeHi di).
Definition setDirect (lb p : Z) (di : DiskInode) : DiskInode :=
  set_pointers (<[Z.to_nat lb := p]> (Direct di)) (Indirect1 di) (Indirect2 di) (Indirect3 di)
    (Blocks512 di) di.
Definition setIndirect1 (p : Z) (di : DiskInode) : DiskInode :=
  set_pointers (Direct di) p (Indirect2 di) (Indirect3 di) (Blocks512 di) di.
Definition setIndirect2 (p : Z) (di : DiskInode) : DiskInode :=
  set_pointers (Direct di) (Indirect1 di) p (Indirect3 di) (Blocks512 di) di.
Definition setIndirect3 (p : Z) (di : DiskInode) : DiskInode :=
  set_pointers (Direct di) (Indirect1 di) (Indirect2 di) p (Blocks512 di) di.
(** [di.Blocks512 += BlockSize / 512] *)
Definition addBlocks512 (di : DiskInode) : DiskInode :=
  set_pointers (Direct di) (Indirect1 di) (Indirect2 di) (Indirect3 di)
    (u32 (Blocks512 di + BlockSize / 512)) di.

(** ** Operations *)

Definition readPointer (blk : block) (idx : Z) : Z := LEUint32 blk (Z.to_nat idx * 4).
Definition writePointer (blk : block) (idx val : Z) : block := LEPutUint32 blk (Z.to_nat idx * 4) val.

Definition blocksForSize (size : Z) : Z :=
  if size =? 0 then 0 else u32 (Z.quot (i64 (size + BlockSize - 1)) BlockSize).

Definition GetBlockForOffset (di : DiskInode) (logicalBlock : Z) : M BlockDevice Z :=
  if logicalBlock <? 12 then mret (Direct di !!! Z.to_nat logicalBlock)
  else
  let lb := logicalBlock - 12 in
  if lb <? ptrs then
    if Indirect1 di =? 0 then mret 0
    else
      blk ← wrapErr "extent: read indirect1 block: %w" [] (ReadBlock (Indirect1 di));
      mret (readPointer blk lb)
  else
  let lb := lb - ptrs in
  if lb <? ptrs * ptrs then
    if Indirect2 di =? 0 then mret 0
    else
      blk ← wrapErr "extent: read indirect2 block: %w" [] (ReadBlock (Indirect2 di));
      let l2 := readPointer blk (lb / ptrs) in
      if l2 =? 0 then mret 0
      else
        blk2 ← wrapErr "extent: read indirect2 leaf: %w" [] (ReadBlock l2);
        mret (readPointer blk2 (lb mod ptrs))
  else
  let lb := lb - ptrs * ptrs in
  if lb <? ptrs * ptrs * ptrs then
    if Indirect3 di =? 0 then mret 0
    else
      blk ← wrapErr "extent: read indirect3 block: %w" [] (ReadBlock (Indirect3 di));
      let l2 := readPointer blk (lb / (ptrs * ptrs)) in
      if l2 =? 0 then mret 0
      else
        blk2 ← wrapErr "extent: read indirect3 l2: %w" [] (ReadBlock l2);
        let l3 := readPointer blk2 ((lb / ptrs) mod ptrs) in
        if l3 =? 0 then mret 0
        else
          blk3 ← wrapErr "extent: read indirect3 leaf: %w" [] (ReadBlock l3);
          mret (readPointer blk3 (lb mod ptrs))
  else throw ErrTooBig.

(** [if di.IndirectN == 0 { allocate it }], then the block it points to. *)
Definition ensureRoot (root : DiskInode -> Z) (setRoot : Z -> DiskInode -> DiskInode)
    : M inode_state Z :=
  r ← gets (fun s => root s.2);
  whenM (r =? 0) (
    ind ← onAlloc AllocBlock;
    modInode (setRoot ind) ;;
    modInode addBlocks512) ;;
  gets (fun s => root s.2).

(** The child of [parent] at [idx], allocated when it is missing. *)
Definition ensureChild (parent : Z) (blk : block) (idx : Z) : M inode_state Z :=
  let l2 := readPointer blk idx in
  if l2 =? 0 then
    l2 ← onAlloc AllocBlock;
    onBlk (WriteBlock parent (writePointer blk idx l2)) ;;
    modInode addBlocks512 ;;
    mret l2
  else mret l2.

(** The new data block, written in its slot of [parent]. *)
Definition placeLeaf (parent : Z) (blk : block) (idx : Z) : M inode_state Z :=
  newBlk ← onAlloc AllocBlock;
  onBlk (WriteBlock parent (writePointer blk idx newBlk)) ;;
  modInode addBlocks512 ;;
  mret newBlk.

Definition AllocBlockForOffset (logicalBlock : Z) : M inode_state Z :=
  di ← gets snd;
  existing ← onBlk (GetBlockForOffset di logicalBlock);
  if negb (existing =? 0) then mret existing
  else
  if logicalBlock <? 12 then
    newBlk ← onAlloc AllocBlock;
    modInode (setDirect logicalBlock newBlk) ;;
    modInode addBlocks512 ;;
    mret newBlk
  else
  let lb := logicalBlock - 12 in
  if lb <? ptrs then
    ind ← ensureRoot Indirect1 setIndirect1;
    blk ← onBlk (ReadBlock ind);
    placeLeaf ind blk lb
  else
  let lb := lb - ptrs in
  if lb <? ptrs * ptrs then
    ind ← ensureRoot Indirect2 setIndirect2;
    blk ← onBlk (ReadBlock ind);
    l2 ← ensureChild ind blk (lb / ptrs);
    blk2 ← onBlk (ReadBlock l2);
    placeLeaf l2 blk2 (lb mod ptrs)
  else
  let lb := lb - ptrs * ptrs in
  if lb <? ptrs * ptrs * ptrs then
    ind ← ensureRoot Indirect3 setIndirect3;
    blk ← onBlk (ReadBlock ind);
    l2 ← ensureChild ind blk (lb / (ptrs * ptrs));
    blk2 ← onBlk (ReadBlock l2);
    l3 ← ensureChild l2 blk2 ((lb / ptrs) mod ptrs);
    blk3 ← onBlk (ReadBlock l3);
    placeLeaf l3 blk3 (lb mod ptrs)
  else throw ErrTooBig.

Definition clearPointerAt (logicalBlock : Z) : M inode_state unit :=
  di ← gets snd;
  if logicalBlock <? 12 then modInode (setDirect logicalBlock 0)
  else
  let lb := logicalBlock - 12 in
  if lb <? ptrs then
    if Indirect1 di =? 0 then mret tt
    else
      blk ← onBlk (ReadBlock (Indirect1 di));
      onBlk (WriteBlock (Indirect1 di) (writePointer blk lb 0))
  else
  let lb := lb - ptrs in
  if lb <? ptrs * ptrs then
    if Indirect2 di =? 0 then mret tt
    else
      blk ← onBlk (ReadBlock (Indirect2 di));
      let l2 := readPointer blk (lb / ptrs) in
      if l2 =? 0 then mret tt
      else
        blk2 ← onBlk (ReadBlock l2);
        onBlk (WriteBlock l2 (writePointer blk2 (lb mod ptrs) 0))
  else
  let lb := lb - ptrs * ptrs in
  if lb <? ptrs * ptrs * ptrs then
    if Indirect3 di =? 0 then mret tt
    else
      blk ← onBlk (ReadBlock (Indirect3 di));
      let l2 := readPointer blk (lb / (ptrs * ptrs)) in
      if l2 =? 0 then mret tt
      else
        blk2 ← onBlk (ReadBlock l2);
        let l3 := readPointer blk2 ((lb / ptrs) mod ptrs) in
        if l3 =? 0 then mret tt
        else
          blk3 ← onBlk (ReadBlock l3);
          onBlk (WriteBlock l3 (writePointer blk3 (lb mod ptrs) 0))
  else mret tt.

Definition pruneIndirectBlocks (startLogical : Z) : M inode_state unit :=
  di ← gets snd;
  if Indirect1 di =? 0 then mret tt
  else
    blk ← onBlk (ReadBlock (Indirect1 di));
    let empty := forallb (fun i => readPointer blk i =? 0) (seqZ 0 PointersPerBlock) in
    whenM (empty && (startLogical <=? 12)) (
      onAlloc (FreeBlock (Indirect1 di)) ;;
      modInode (setIndirect1 0)).

(** The body of the loop of [FreeBlocksFrom]. *)
Definition freeOne (lb : Z) : M inode_state unit :=
  di ← gets snd;
  phys ← onBlk (GetBlockForOffset di lb);
  whenM (negb (phys =? 0)) (
    onAlloc (FreeBlock phys) ;;
    clearPointerAt lb).

Definition FreeBlocksFrom (startLogical : Z) : M inode_state unit :=
  totalBlocks ← gets (fun s => blocksForSize (SizeOf s.2));
  if totalBlocks <=? startLogical then mret tt
  else
    forEach freeOne (seqZ startLogical (totalBlocks - startLogical)) ;;
    pruneIndirectBlocks startLogical.

Fixpoint blockListLoop (di : DiskInode) (lbs : list Z) (result : list Z) : M BlockDevice (list Z) :=
  match lbs with
  | [] => mret result
  | lb :: lbs =>
      phys ← GetBlockForOffset di lb;
      blockListLoop di lbs (result ++ [phys])
  end.
Definition BlockList (di : DiskInode) : M BlockDevice (list Z) :=
  blockListLoop di (seqZ 0 (blocksForSize (SizeOf di))) [].

(** ** Specification: positions and nodes

    [(0, [i])] is the direct pointer [i]; [(r, l)] with [r] from 1 to 3 is the
    pointer reached from the root of the [r]-level tree by the indices [l]: a
    pointer block when [length l < r], a data block when [length l = r]. *)
Definition pos : Type := nat * list Z.

Definition root (di : DiskInode) (r : nat) : Z :=
  match r with
  | 1%nat => Indirect1 di
  | 2%nat => Indirect2 di
  | 3%nat => Indirect3 di
  | _ => 0
  end.

Fixpoint walk (d : BlockDevice) (p : Z) (l : list Z) : Z :=
  match l with
  | [] => p
  | i :: l => if p =? 0 then 0 else walk d (readPointer (peek d p) i) l
  end.

Definition node (s : inode_state) (q : pos) : Z :=
  match q with
  | (O, [i]) => Direct s.2 !!! Z.to_nat i
  | (O, _) => 0
  | (r, l) => walk (a_dev s.1) (root s.2 r) l
  end.

Definition is_index (i : Z) : Prop := 0 <= i < ptrs.

Inductive valid_pos : pos -> Prop :=
  | valid_direct i : 0 <= i < 12 -> valid_pos (0%nat, [i])
  | valid_tree r l : (1 <= r <= 3)%nat -> (length l <= r)%nat -> Forall is_index l -> valid_pos (r, l).

Definition is_ptr (q : pos) : Prop := valid_pos q /\ (length q.2 < q.1)%nat.
Definition is_leaf (q : pos) : Prop := valid_pos q /\ (q.1 <= length q.2)%nat.

(** The position of a logical block. *)
Definition leafpos (lb : Z) : option pos :=
  if lb <? 12 then Some (0%nat, [lb])
  else let x := lb - 12 in
  if x <? ptrs then Some (1%nat, [x])
  else let x := x - ptrs in
  if x <? ptrs * ptrs then Some (2%nat, [x / ptrs; x mod ptrs])
  else let x := x - ptrs * ptrs in
  if x <? ptrs * ptrs * ptrs
  then Some (3%nat, [x / (ptrs * ptrs); (x / ptrs) mod ptrs; x mod ptrs])
  else None.

(** The largest file, in blocks. *)
Definition maxBlocks : Z := 12 + ptrs + ptrs * ptrs + ptrs * ptrs * ptrs.

(** Every pointer of the inode is a data block in use, and no two positions
    share a block. *)
Record wf_map (s : inode_state) : Prop := {
  wm_direct : length (Direct s.2) = 12%nat;
  wm_used : forall q, valid_pos q -> node s q <> 0 ->
              data_addr (node s q) /\ IsSet (a_blockBM s.1) (node s q) = true;
  wm_inj : forall p q, valid_pos p -> valid_pos q -> node s p <> 0 -> node s p = node s q -> p = q;
}.

Record state_ok (s : inode_state) : Prop := {
  so_alloc : alloc_ok s.1;
  so_map : wf_map s;
}.

(** What adding blocks at the positions [Q] may do: it keeps the pointers that
    are there, takes only free blocks, leaves no block taken but not linked,
    and keeps the content of every block in use that is not a pointer block
    of this inode; a new data block is zero. *)
Record ext_grow (Q : pos -> Prop) (s s' : inode_state) : Prop := {
  eg_ok : state_ok s -> state_ok s';
  eg_old : forall q, valid_pos q -> node s q <> 0 -> node s' q = node s q;
  eg_frame : forall q, valid_pos q -> ~ Q q -> node s' q = node s q;
  eg_fresh : forall q, valid_pos q -> node s q = 0 -> node s' q <> 0 ->
               IsSet (a_blockBM s.1) (node s' q) = false;
  eg_mono : forall x, 0 <= x -> IsSet (a_blockBM s.1) x = true -> IsSet (a_blockBM s'.1) x = true;
  eg_linked : forall x, 0 <= x -> IsSet (a_blockBM s'.1) x = true ->
                IsSet (a_blockBM s.1) x = true \/ (x <> 0 /\ exists q, valid_pos q /\ node s' q = x);
  eg_zero : forall q, is_leaf q -> node s q = 0 -> node s' q <> 0 ->
              peek (a_dev s'.1) (node s' q) = zeroBlock;
  eg_peek : forall x, 0 <= x -> x <> BlockBitmapAddr ->
              (x < DataStart \/ IsSet (a_blockBM s.1) x = true) ->
              (forall q, is_ptr q -> node s q <> 0 -> node s q <> x) ->
              peek (a_dev s'.1) x = peek (a_dev s.1) x;
}.

(** ** Pointers in blocks *)

Lemma is_index_nat i : is_index i -> (Z.to_nat i * 4 + 4 <= BlockLen)%nat.
Proof. rewrite /is_index /ptrs /PointersPerBlock. lia. Qed.

Lemma readPointer_write b i j v :
  length b = BlockLen -> is_index i -> is_index j -> is_u32 v ->
  readPointer (writePointer b i v) j = if decide (j = i) then v else readPointer b j.
Proof.
  intros Hb Hi Hj Hv. rewrite /readPointer /writePointer.
  pose proof (is_index_nat _ Hi). case_decide as E.
  - subst. rewrite LEUint32_put_same; [lia|]. by apply u32_small.
  - apply LEUint32_put_disj; [lia|]. unfold is_index in *. lia.
Qed.

Lemma readPointer_zero j : readPointer zeroBlock j = 0.
Proof.
  rewrite /readPointer /LEUint32 /slice /zeroBlock /zeros drop_replicate take_replicate.
  apply le_dec_zeros.
Qed.

Lemma length_writePointer b i v :
  length b = BlockLen -> is_index i -> length (writePointer b i v) = BlockLen.
Proof. intros Hb Hi. rewrite length_LEPutUint32 //. pose proof (is_index_nat _ Hi). lia. Qed.

Lemma walk_zero d l : walk d 0 l = 0.
Proof. by destruct l. Qed.

Lemma walk_snoc d p l j :
  walk d p (l ++ [j]) = if walk d p l =? 0 then 0 else readPointer (peek d (walk d p l)) j.
Proof.
  revert p. induction l as [|i l IH]; intros p; simpl; [done|].
  destruct (p =? 0) eqn:E; [done|]. by rewrite IH.
Qed.

Lemma node_tree s r l : (1 <= r)%nat -> node s (r, l) = walk (a_dev s.1) (root s.2 r) l.
Proof. destruct r; [lia|done]. Qed.

Lemma node_snoc s r l j :
  (1 <= r)%nat ->
  node s (r, l ++ [j]) = if node s (r, l) =? 0 then 0 else readPointer (peek (a_dev s.1) (node s (r, l))) j.
Proof. intros Hr. rewrite !node_tree //. apply walk_snoc. Qed.

Lemma valid_snoc r l j :
  (1 <= r)%nat -> valid_pos (r, l ++ [j]) -> is_ptr (r, l) /\ is_index j.
Proof.
  intros Hr Hv. inversion Hv as [i Hi E|r' l' H1 H2 H3 E]; subst; [lia|].
  rewrite length_app /= in H2. apply Forall_app in H3 as [H3 H4].
  split; [|by apply Forall_cons in H4 as [? _]].
  split; [|simpl; lia]. apply valid_tree; [done|lia|done].
Qed.

Lemma valid_child r l j : is_ptr (r, l) -> is_index j -> valid_pos (r, l ++ [j]).
Proof.
  intros [Hv Hl] Hj. simpl in Hl. inversion Hv as [i Hi E|r' l' H1 H2 H3 E]; subst; [simpl in Hl; lia|].
  apply valid_tree; [done|rewrite length_app /=; lia|]. apply Forall_app. split; [done|].
  by constructor.
Qed.

(** The effect on the nodes of a write of [new] at the position [q], below
    which there is nothing. *)
Lemma node_update s s' (q : pos) new :
  (forall j, valid_pos (q.1, q.2 ++ [j]) -> node s (q.1, q.2 ++ [j]) = 0) ->
  (forall i, 0 <= i < 12 -> Direct s'.2 !!! Z.to_nat i
      = if decide ((0%nat, [i]) = q) then new else Direct s.2 !!! Z.to_nat i) ->
  (forall r, (1 <= r <= 3)%nat -> root s'.2 r = if decide ((r, []) = q) then new else root s.2 r) ->
  (new <> 0 -> forall j, is_index j -> readPointer (peek (a_dev s'.1) new) j = 0) ->
  (forall p j, is_ptr p -> p <> q -> node s p <> 0 -> is_index j ->
     readPointer (peek (a_dev s'.1) (node s p)) j
     = if decide ((p.1, p.2 ++ [j]) = q) then new else readPointer (peek (a_dev s.1) (node s p)) j) ->
  (forall p j, is_ptr p -> node s p = 0 -> (p.1, p.2 ++ [j]) <> q) ->
  forall p, valid_pos p -> node s' p = if decide (p = q) then new else node s p.
Proof.
  intros Hbelow HD HR Hnew Hpeek Hz p Hp.
  destruct Hp as [i Hi|r l Hr Hl Hf]; [by apply HD|].
  assert (valid_pos (r, l)) as Hv by by constructor. clear Hl Hf. revert Hv.
  induction l as [|j l IH] using rev_ind; intros Hv.
  { rewrite !node_tree; [lia..|]. simpl. by apply HR. }
  destruct (valid_snoc r l j ltac:(lia) Hv) as [Hptr Hj].
  rewrite !node_snoc; [lia..|]. rewrite IH; [apply Hptr|].
  destruct (decide ((r, l) = q :> pos)) as [E|E].
  - subst q. rewrite (decide_False (P := (r, l ++ [j]) = (r, l))).
    { intros E. assert (length (l ++ [j]) = length l) as E' by congruence.
      rewrite length_app /= in E'. lia. }
    specialize (Hbelow j Hv). cbn [fst snd] in Hbelow. rewrite node_snoc in Hbelow; [lia|]. rewrite Hbelow.
    destruct (new =? 0) eqn:En; [done|]. simpl_bool. by apply Hnew.
  - destruct (decide (node s (r, l) = 0)) as [En|En].
    + rewrite En. rewrite decide_False; [exact (Hz (r, l) j Hptr En)|done].
    + apply Z.eqb_neq in En as En'. rewrite En'. by rewrite (Hpeek (r, l) j).
Qed.

(** ** One block added to the map *)

Definition setRoot (r : nat) (p : Z) (di : DiskInode) : DiskInode :=
  match r with
  | 1%nat => setIndirect1 p di
  | 2%nat => setIndirect2 p di
  | 3%nat => setIndirect3 p di
  | _ => di
  end.

Lemma root_setRoot r r' p di :
  (1 <= r <= 3)%nat -> root (setRoot r p di) r' = if decide (r' = r) then p else root di r'.
Proof.
  intros Hr. destruct r as [|[|[|[|r]]]]; [lia| | | |lia];
    by destruct r' as [|[|[|[|r']]]].
Qed.

Lemma node_used s q :
  wf_map s -> valid_pos q -> node s q <> 0 ->
  0 <= node s q /\ node s q <> BlockBitmapAddr /\ IsSet (a_blockBM s.1) (node s q) = true.
Proof.
  intros Hm Hq Hn. destruct (wm_used _ Hm q Hq Hn) as [[H1 H2] H3].
  unfold DataStart, BlockBitmapAddr in *. split_and!; [lia|lia|done].
Qed.

Lemma node_ne_free s q new :
  wf_map s -> valid_pos q -> data_addr new -> IsSet (a_blockBM s.1) new = false -> node s q <> new.
Proof.
  intros Hm Hq Hn Hc H. subst new. destruct (decide (node s q = 0)) as [E|E].
  - rewrite E in Hn. unfold data_addr, DataStart in Hn. lia.
  - destruct (wm_used _ Hm q Hq E). congruence.
Qed.

Lemma peek_node_did_alloc s q new :
  wf_map s -> valid_pos q -> node s q <> 0 -> data_addr new -> IsSet (a_blockBM s.1) new = false ->
  peek (a_dev (did_alloc new s.1)) (node s q) = peek (a_dev s.1) (node s q).
Proof.
  intros Hm Hq Hz Hn Hc. destruct (node_used _ _ Hm Hq Hz) as (H1 & H2 & _).
  apply peek_did_alloc_ne; [done|done| |done]. by apply node_ne_free.
Qed.

(** The new state grows the old one when its nodes are the old ones but for
    the new block at [q]. *)
Lemma grow_step s s' q new :
  state_ok s -> data_addr new -> IsSet (a_blockBM s.1) new = false ->
  valid_pos q -> node s q = 0 ->
  alloc_ok s'.1 -> a_blockBM s'.1 = a_blockBM (did_alloc new s.1) -> length (Direct s'.2) = 12%nat ->
  (forall p, valid_pos p -> node s' p = if decide (p = q) then new else node s p) ->
  peek (a_dev s'.1) new = zeroBlock ->
  (forall x, 0 <= x -> x <> BlockBitmapAddr -> x <> new ->
     (forall p, is_ptr p -> node s p <> 0 -> node s p <> x) ->
     peek (a_dev s'.1) x = peek (a_dev s.1) x) ->
  ext_grow (fun p => p = q) s s'.
Proof.
  intros [Ha Hm] Hn Hc Hq Hz Ha' Hbm Hlen Hnode Hzero Hpeek.
  assert (forall x, 0 <= x -> IsSet (a_blockBM s'.1) x
            = if decide (x = new) then true else IsSet (a_blockBM s.1) x) as Hbits.
  { intros x Hx. rewrite Hbm. by apply IsSet_did_alloc. }
  pose proof (data_range _ Hn) as Hn0.
  assert (wf_map s') as Hm'.
  { split; [done| |].
    - intros p Hp. rewrite Hnode //. destruct (decide (p = q)) as [->|Hne].
      + intros _. split; [done|]. rewrite Hbits ?decide_True //. lia.
      + intros Hnz. destruct (wm_used _ Hm p Hp Hnz) as [H1 H2]. split; [done|].
        rewrite Hbits; [apply data_range in H1; lia|]. by case_decide.
    - intros p p' Hp Hp'. rewrite !Hnode //.
      pose proof (node_ne_free s p new Hm Hp Hn Hc). pose proof (node_ne_free s p' new Hm Hp' Hn Hc).
      repeat case_decide; try congruence. intros Hz1 Hz2. by apply (wm_inj _ Hm). }
  split.
  - intros _. by split.
  - intros p Hp Hnz. rewrite Hnode //. case_decide; congruence.
  - intros p Hp Hne. rewrite Hnode // decide_False //.
  - intros p Hp Hnz. rewrite Hnode //. case_decide; [done|]. congruence.
  - intros x Hx Hs. rewrite Hbits //. by case_decide.
  - intros x Hx. rewrite Hbits //. case_decide as E; [|by left]. intros _. right.
    split; [unfold data_addr, DataStart in Hn; lia|]. exists q.
    split; [done|]. by rewrite Hnode // decide_True.
  - intros p [Hp _] Hpz. rewrite Hnode //. by case_decide.
  - intros x Hx H1 H2 H3. apply Hpeek; [done|done| |done]. intros ->.
    unfold data_addr in Hn. destruct H2; [lia|congruence].
Qed.

Lemma app_tail_ne (A : Type) (l : list A) x : l ++ [x] <> [].
Proof. by destruct l. Qed.

Lemma grow_root s r new :
  state_ok s -> (1 <= r <= 3)%nat -> root s.2 r = 0 ->
  data_addr new -> IsSet (a_blockBM s.1) new = false ->
  ext_grow (fun p => p = (r, [])) s (did_alloc new s.1, addBlocks512 (setRoot r new s.2)).
Proof.
  intros Hok Hr Hz Hn Hc. pose proof Hok as [Ha Hm].
  assert (node s (r, []) = 0) as Hz' by (rewrite node_tree //; lia).
  apply (grow_step _ _ _ new); [done|done|done|by constructor; [|simpl; lia|]|done|by apply did_alloc_ok|done| | | |].
  - destruct r as [|[|[|[|r]]]]; apply Hm.
  - apply (node_update s _ (r, []) new).
    + intros j _. rewrite node_snoc; [simpl; lia|]. by rewrite Hz'.
    + intros i Hi. rewrite decide_False; [intros [= <-]; lia|].
      by destruct r as [|[|[|[|r]]]].
    + intros r' Hr'. cbn [snd].
      assert (root (addBlocks512 (setRoot r new s.2)) r' = root (setRoot r new s.2) r') as -> by done.
      rewrite root_setRoot //. do 2 case_decide; congruence.
    + intros _ j Hj. cbn [fst]. rewrite peek_did_alloc_new //. apply readPointer_zero.
    + intros p j Hp Hne Hnz Hj. cbn [fst]. rewrite (peek_node_did_alloc s) //; [apply Hp|].
      rewrite decide_False //. intros [= _ E]. by apply app_tail_ne in E.
    + intros p j _ _ [= _ E]. by apply app_tail_ne in E.
  - by apply peek_did_alloc_new.
  - intros x Hx H1 H2 _. by apply peek_did_alloc_ne.
Qed.

Lemma grow_direct s i new :
  state_ok s -> 0 <= i < 12 -> Direct s.2 !!! Z.to_nat i = 0 ->
  data_addr new -> IsSet (a_blockBM s.1) new = false ->
  ext_grow (fun p => p = (0%nat, [i])) s (did_alloc new s.1, addBlocks512 (setDirect i new s.2)).
Proof.
  intros Hok Hi Hz Hn Hc. pose proof Hok as [Ha Hm]. pose proof (wm_direct _ Hm) as Hl.
  assert (forall (p : pos) j, is_ptr p -> (p.1, p.2 ++ [j]) <> (0%nat, [i])) as Hno.
  { intros p j [_ Hlt] [= E _]. lia. }
  apply (grow_step _ _ _ new); [done|done|done|by constructor|done|by apply did_alloc_ok|done| | | |].
  - by rewrite /= length_insert.
  - apply (node_update s _ (0%nat, [i]) new).
    + done.
    + intros i' Hi'. simpl. destruct (decide (i' = i)) as [->|Hne].
      * rewrite decide_True // list_lookup_total_insert_eq //. lia.
      * rewrite decide_False; [congruence|]. rewrite list_lookup_total_insert_ne //. lia.
    + intros r' Hr'. by rewrite decide_False.
    + intros _ j Hj. cbn [fst]. rewrite peek_did_alloc_new //. apply readPointer_zero.
    + intros p j Hp Hne Hnz Hj. cbn [fst]. rewrite (peek_node_did_alloc s) //; [apply Hp|].
      rewrite decide_False //. by apply Hno.
    + intros p j Hp _. by apply Hno.
  - by apply peek_did_alloc_new.
  - intros x Hx H1 H2 _. by apply peek_did_alloc_ne.
Qed.

Lemma grow_link s r l i new :
  state_ok s -> is_ptr (r, l) -> is_index i -> node s (r, l) <> 0 -> node s (r, l ++ [i]) = 0 ->
  data_addr new -> IsSet (a_blockBM s.1) new = false ->
  let P := node s (r, l) in
  let a1 := did_alloc new s.1 in
  ext_grow (fun p => p = (r, l ++ [i])) s
    (with_dev (poke P (writePointer (peek (a_dev s.1) P) i new) (a_dev a1)) a1, addBlocks512 s.2).
Proof.
  intros Hok Hp Hi HP Hz Hn Hc P a1. pose proof Hok as [Ha Hm].
  pose proof (proj1 Hp) as Hv. destruct (node_used _ _ Hm Hv HP) as (HP0 & HP3 & HPs).
  pose proof (wm_used _ Hm _ Hv HP) as [HPd _]. pose proof (did_alloc_ok _ _ Ha Hn Hc) as Ha1.
  assert (P <> new) as HPn by by apply node_ne_free.
  assert (1 <= r)%nat as Hr by (destruct Hp as [_ ?]; simpl in *; lia).
  assert (length (writePointer (peek (a_dev s.1) P) i new) = BlockLen) as Hlen.
  { apply length_writePointer; [|done]. apply wf_peek, Ha. }
  assert (is_u32 new) as Hu by (unfold data_addr, DataStart, TotalBlocks, is_u32 in *; lia).
  set (d' := poke P _ _).
  assert (peek d' P = writePointer (peek (a_dev s.1) P) i new) as HpP.
  { apply peek_poke_eq, wf_in_range; [apply Ha1|]. rewrite (ok_size _ Ha1).
    by apply data_range. }
  assert (forall x, 0 <= x -> x <> P -> peek d' x = peek (a_dev a1) x) as Hpx.
  { intros x Hx Hne. apply peek_poke_ne; [done|done|congruence]. }
  apply (grow_step _ _ _ new); [done|done|done|by apply valid_child|done| |done|apply Hm| | |].
  - destruct Ha1 as [? ? ? ?]. split; [by apply inv_with_dev|done|by apply poke_wf|done].
  - apply (node_update s _ (r, l ++ [i]) new).
    + intros j _. cbn [fst snd]. rewrite node_snoc //. by rewrite Hz.
    + intros i' Hi'. rewrite decide_False //. intros [= <- _]. lia.
    + intros r' Hr'. rewrite decide_False //. intros [= _ E]. symmetry in E. by apply app_tail_ne in E.
    + intros _ j Hj. cbn [fst a_dev with_dev]. rewrite Hpx; [apply data_range in Hn; lia|congruence|].
      rewrite peek_did_alloc_new //. apply readPointer_zero.
    + intros p j Hpp Hne Hnz Hj. cbn [fst a_dev with_dev]. destruct p as [r' l']. cbn [fst snd].
      pose proof (proj1 Hpp) as Hvp. destruct (decide (node s (r', l') = P)) as [E|E].
      * assert ((r', l') = (r, l)) as [= -> ->] by exact (wm_inj _ Hm _ _ (proj1 Hpp) (proj1 Hp) Hnz E).
        rewrite E HpP readPointer_write //; [apply wf_peek, Ha|].
        destruct (decide (j = i)) as [->|Hji]; [by rewrite decide_True|].
        rewrite decide_False //. intros [= Hj']. apply app_inj_tail in Hj' as [_ ?]. congruence.
      * rewrite Hpx; [by apply (node_used _ _ Hm Hvp)|done|]. rewrite peek_node_did_alloc //.
        rewrite decide_False //. intros [= -> El]. apply app_inj_tail in El as [-> ->]. by apply E.
    + intros p j Hpp Hpz Heq. destruct p as [r' l']. cbn [fst snd] in Heq. injection Heq as -> El.
      apply app_inj_tail in El as [-> ->]. by apply HP.
  - cbn [fst a_dev with_dev]. rewrite Hpx; [apply data_range in Hn; lia|congruence|].
    by apply peek_did_alloc_new.
  - intros x Hx H1 H2 H3. cbn [fst a_dev with_dev]. rewrite Hpx; [done|intros ->; by apply (H3 (r, l) Hp HP)|].
    by apply peek_did_alloc_ne.
Qed.

Lemma ext_grow_refl Q s : ext_grow Q s s.
Proof. split; try done; auto. Qed.

Lemma ext_grow_trans Q s s' s'' :
  state_ok s -> ext_grow Q s s' -> ext_grow Q s' s'' -> ext_grow Q s s''.
Proof.
  intros Hok [o1 d1 f1 r1 m1 l1 z1 p1] [o2 d2 f2 r2 m2 l2 z2 p2]. pose proof (o1 Hok) as Hok'.
  assert (forall q, valid_pos q -> node s q <> 0 -> node s'' q = node s q) as Hold.
  { intros q Hq Hn. rewrite d2 //; rewrite d1 //. }
  split; [auto|done| | |auto| | |].
  - intros q Hq Hn. rewrite f2 //. auto.
  - intros q Hq Hn Hn2. destruct (decide (node s' q = 0)) as [E|E].
    + apply not_true_is_false. intros H. apply m1 in H; [by rewrite r2 in H|].
      apply (node_used s''); [apply (o2 Hok')|done|done].
    + rewrite d2 //. by apply r1.
  - intros x Hx H. destruct (l2 x Hx H) as [H'|H']; [|by right].
    destruct (l1 x Hx H') as [H2|(Hnz & q & Hq & H2)]; [by left|]. right. split; [done|].
    exists q. split; [done|]. rewrite d2 //. congruence.
  - intros q Hq Hn Hn2. destruct (decide (node s' q = 0)) as [E|E]; [by apply z2|].
    destruct (node_used s' q (so_map _ Hok') (proj1 Hq) E) as (Hx & Hx3 & Hxs).
    rewrite d2 //; [apply Hq|]. rewrite p2 //; [by right| |by apply z1].
    intros q' Hq' Hn' E'. pose proof (wm_inj _ (so_map _ Hok') _ _ (proj1 Hq') (proj1 Hq) Hn' E') as ->.
    destruct Hq, Hq'. lia.
  - intros x Hx H3 Hu Hptr. rewrite p2 //; [| |by apply p1].
    + destruct Hu; [by left|right; auto].
    + intros q Hq Hnz E. destruct (decide (node s q = 0)) as [En|En].
      * pose proof (r1 q (proj1 Hq) En Hnz) as Hf.
        destruct (wm_used s' (so_map _ Hok') q (proj1 Hq) Hnz) as [[Hd _] _].
        rewrite E in Hf Hd. destruct Hu as [Hu|Hu]; [lia|congruence].
      * apply (Hptr q Hq En). rewrite -d1 //. apply Hq.
Qed.

Lemma ext_grow_mono (Q Q' : pos -> Prop) s s' :
  (forall q, Q q -> Q' q) -> ext_grow Q s s' -> ext_grow Q' s s'.
Proof. intros H [? ? ? ? ? ? ? ?]. split; try done; auto. Qed.

(** ** Reading the map *)

Lemma read_node s q :
  state_ok s -> valid_pos q -> node s q <> 0 ->
  ReadBlock (node s q) (a_dev s.1) = (Ok (peek (a_dev s.1) (node s q)), a_dev s.1).
Proof.
  intros [Ha Hm] Hq Hn. destruct (wm_used _ Hm q Hq Hn) as [[_ H] _].
  apply ReadBlock_ok; [apply Ha|]. by rewrite (ok_size _ Ha).
Qed.

Lemma onBlk_ok {A} (m : M BlockDevice A) s x :
  m (a_dev s.1) = (Ok x, a_dev s.1) -> onBlk m s = (Ok x, s).
Proof.
  intros E. rewrite /onBlk /onAlloc /onDev /zoom E. destruct s as [a di]. by rewrite with_dev_same.
Qed.

Lemma index_div x k : 0 < k -> 0 <= x < ptrs * k -> is_index (x / k).
Proof.
  intros Hk Hx. split; [apply Z.div_pos; lia|]. apply Z.div_lt_upper_bound; lia.
Qed.

Lemma index_mod x : is_index (x mod ptrs).
Proof. apply Z.mod_pos_bound. done. Qed.

Lemma valid_tree_app r l : (1 <= r <= 3)%nat -> (length l <= r)%nat -> Forall is_index l -> valid_pos (r, l).
Proof. apply valid_tree. Qed.

Lemma leafpos_leaf lb p : 0 <= lb -> leafpos lb = Some p -> is_leaf p.
Proof.
  intros H0. rewrite /leafpos. repeat case_if; intros [= <-].
  - by split; [constructor|simpl; lia].
  - split; [|simpl; lia]. constructor; [lia|simpl; lia|].
    constructor; [|constructor]. unfold is_index. lia.
  - split; [|simpl; lia]. constructor; [lia|simpl; lia|].
    constructor; [apply index_div; [done|lia]|]. constructor; [apply index_mod|constructor].
  - split; [|simpl; lia]. constructor; [lia|simpl; lia|].
    constructor; [apply index_div; [done|lia]|]. constructor; [apply index_mod|].
    constructor; [apply index_mod|constructor].
Qed.

Lemma leafpos_None lb : leafpos lb = None <-> maxBlocks <= lb.
Proof. rewrite /leafpos /maxBlocks. repeat case_if; split; try done; unfold ptrs, PointersPerBlock in *; lia. Qed.

(** The position determines the logical block. *)
Definition blockOf (p : pos) : Z :=
  match p with
  | (0%nat, [i]) => i
  | (1%nat, [i]) => 12 + i
  | (2%nat, [i; j]) => 12 + ptrs + (i * ptrs + j)
  | (3%nat, [i; j; k]) => 12 + ptrs + ptrs * ptrs + (i * (ptrs * ptrs) + (j * ptrs + k))
  | _ => 0
  end.

Lemma blockOf_leafpos lb p : leafpos lb = Some p -> blockOf p = lb.
Proof.
  rewrite /leafpos. repeat case_if; intros [= <-]; simpl; [lia|lia| |].
  - set (x := lb - 12 - ptrs). pose proof (Z.div_mod x ptrs ltac:(done)). lia.
  - set (x := lb - 12 - ptrs - ptrs * ptrs).
    pose proof (Z.div_mod x ptrs ltac:(done)). pose proof (Z.div_mod (x / ptrs) ptrs ltac:(done)).
    rewrite -Z.div_div // in H0 *. lia.
Qed.

Lemma leafpos_inj lb lb' p : leafpos lb = Some p -> leafpos lb' = Some p -> lb = lb'.
Proof. intros H1%blockOf_leafpos H2%blockOf_leafpos. congruence. Qed.

Lemma GetBlockForOffset_big di lb d : maxBlocks <= lb -> GetBlockForOffset di lb d = (Err ErrTooBig, d).
Proof.
  intros H. rewrite /GetBlockForOffset. unfold maxBlocks, ptrs, PointersPerBlock in *.
  repeat (case_if; [lia|]). done.
Qed.

(** One level of the walk, as the code writes it. *)
Lemma read_level s r l j fmt (K : Z -> M BlockDevice Z) :
  state_ok s -> (1 <= r)%nat -> valid_pos (r, l) ->
  (if node s (r, l) =? 0 then mret 0
   else blk ← wrapErr fmt [] (ReadBlock (node s (r, l))); K (readPointer blk j)) (a_dev s.1)
  = (if node s (r, l) =? 0 then mret 0 else K (node s (r, l ++ [j]))) (a_dev s.1).
Proof.
  intros Hok Hr Hv. rewrite node_snoc //. destruct (node s (r, l) =? 0) eqn:E; [done|]. simpl_bool.
  by rewrite (bind_ok _ _ _ _ _ (wrapErr_ok _ _ _ _ _ _ (read_node s _ Hok Hv E))).
Qed.

Lemma walk_app_zero d p l k : walk d p l = 0 -> walk d p (l ++ k) = 0.
Proof.
  revert p. induction l as [|i l IH]; intros p; simpl; [intros ->; apply walk_zero|].
  destruct (p =? 0); [done|apply IH].
Qed.

(** Nothing is below a hole. *)
Lemma hole_below s r l k d :
  (1 <= r)%nat -> node s (r, l) = 0 -> (mret 0 : M BlockDevice Z) d = (Ok (node s (r, l ++ k)), d).
Proof. intros Hr. rewrite !node_tree // => E. by rewrite /mret /M_ret walk_app_zero. Qed.

Lemma GetBlockForOffset_ok s lb p :
  state_ok s -> 0 <= lb -> leafpos lb = Some p ->
  GetBlockForOffset s.2 lb (a_dev s.1) = (Ok (node s p), a_dev s.1).
Proof.
  intros Hok H0 Hp. pose proof (leafpos_leaf _ _ H0 Hp) as [Hv _]. revert Hp Hv.
  rewrite /leafpos /GetBlockForOffset.
  case_if; [by intros [= <-]|]. case_if; [intros [= <-]|case_if; [intros [= <-]|case_if; [intros [= <-]|done]]];
    intros Hv.
  - rewrite (read_level s 1 [] (lb - 12) _ mret Hok) //; [constructor; [lia|simpl; lia|done]|].
    case_if; [|done]. apply (hole_below s 1 [] [lb - 12]); [lia|done].
  - set (x := lb - 12 - ptrs) in *. set (i := x / ptrs) in *. set (j := x mod ptrs) in *.
    pose proof (valid_snoc 2 [i] j ltac:(lia) Hv) as [[Hv1 _] _].
    etrans; [apply (read_level s 2 [] i _ (fun l2 => if l2 =? 0 then mret 0 else
        blk2 ← wrapErr "extent: read indirect2 leaf: %w" [] (ReadBlock l2);
        mret (readPointer blk2 j)) Hok); [lia|constructor; [lia|simpl; lia|done]]|].
    case_if; [apply (hole_below s 2 [] [i; j]); [lia|done]|].
    etrans; [apply (read_level s 2 [i] j _ mret Hok); [lia|done]|].
    case_if; [|done]. apply (hole_below s 2 [i] [j]); [lia|done].
  - set (x := lb - 12 - ptrs - ptrs * ptrs) in *. set (i := x / (ptrs * ptrs)) in *.
    set (j := (x / ptrs) mod ptrs) in *. set (k := x mod ptrs) in *.
    pose proof (valid_snoc 3 [i; j] k ltac:(lia) Hv) as [[Hv2 _] _].
    pose proof (valid_snoc 3 [i] j ltac:(lia) Hv2) as [[Hv1 _] _].
    etrans; [apply (read_level s 3 [] i _ (fun l2 => if l2 =? 0 then mret 0 else
        blk2 ← wrapErr "extent: read indirect3 l2: %w" [] (ReadBlock l2);
        let l3 := readPointer blk2 j in
        if l3 =? 0 then mret 0
        else
          blk3 ← wrapErr "extent: read indirect3 leaf: %w" [] (ReadBlock l3);
          mret (readPointer blk3 k)) Hok); [lia|constructor; [lia|simpl; lia|done]]|].
    case_if; [apply (hole_below s 3 [] [i; j; k]); [lia|done]|].
    etrans; [apply (read_level s 3 [i] j _ (fun l3 => if l3 =? 0 then mret 0 else
          blk3 ← wrapErr "extent: read indirect3 leaf: %w" [] (ReadBlock l3);
          mret (readPointer blk3 k)) Hok); [lia|done]|].
    case_if; [apply (hole_below s 3 [i] [j; k]); [lia|done]|].
    etrans; [apply (read_level s 3 [i; j] k _ mret Hok); [lia|done]|].
    case_if; [|done]. apply (hole_below s 3 [i; j] [k]); [lia|done].
Qed.

(** ** Allocation along a path *)

(** One pointer is there, or put there; or there is no space and nothing
    changed. *)
Definition alloc_at (q : pos) (s : inode_state) (o : result Z * inode_state) : Prop :=
  (exists s', o = (Ok (node s' q), s') /\ ext_grow (fun p => p = q) s s' /\ node s' q <> 0) \/
  o = (Err ErrNoSpace, s).

(** A whole allocation for the position [p]: on success the positions [Q]
    may have been filled, on failure those of [Qe]. *)
Definition alloc_path (Q Qe : pos -> Prop) (p : pos) (s : inode_state)
    (o : result Z * inode_state) : Prop :=
  (exists s', o = (Ok (node s' p), s') /\ ext_grow Q s s' /\ node s' p <> 0) \/
  (exists s', o = (Err ErrNoSpace, s') /\ ext_grow Qe s s').

Lemma alloc_path_bind (Q Qe : pos -> Prop) p q (m : M inode_state Z) k s :
  state_ok s -> alloc_at q s (m s) -> Q q -> Qe q ->
  (forall s', ext_grow (fun p => p = q) s s' -> state_ok s' -> node s' q <> 0 ->
     alloc_path Q Qe p s' (k (node s' q) s')) ->
  alloc_path Q Qe p s ((m ≫= k) s).
Proof.
  intros Hok [(s' & E & Hg & Hn)|E] HQ HQe Hk.
  - rewrite (bind_ok _ _ _ _ _ E). pose proof (eg_ok _ _ _ Hg Hok) as Hok'.
    assert (ext_grow Q s s') as HgQ by (eapply ext_grow_mono; [|exact Hg]; naive_solver).
    assert (ext_grow Qe s s') as HgE by (eapply ext_grow_mono; [|exact Hg]; naive_solver).
    destruct (Hk s' Hg Hok' Hn) as [(s2 & E2 & Hg2 & Hn2)|(s2 & E2 & Hg2)].
    + left. exists s2. split_and!; [done|exact (ext_grow_trans _ _ _ _ Hok HgQ Hg2)|done].
    + right. exists s2. split; [done|exact (ext_grow_trans _ _ _ _ Hok HgE Hg2)].
  - rewrite (bind_err _ _ _ _ _ E). right. exists s. split; [done|apply ext_grow_refl].
Qed.

Lemma alloc_path_read Q Qe p q k s :
  state_ok s -> valid_pos q -> node s q <> 0 ->
  alloc_path Q Qe p s (k (peek (a_dev s.1) (node s q)) s) ->
  alloc_path Q Qe p s ((onBlk (ReadBlock (node s q)) ≫= k) s).
Proof.
  intros Hok Hq Hn Hk. rewrite (bind_ok _ _ _ (peek (a_dev s.1) (node s q)) s) //.
  apply onBlk_ok. by apply read_node.
Qed.

Lemma onAlloc_AllocBlock s :
  state_ok s ->
  (exists new, onAlloc AllocBlock s = (Ok new, (did_alloc new s.1, s.2)) /\ data_addr new /\
               IsSet (a_blockBM s.1) new = false) \/
  onAlloc AllocBlock s = (Err ErrNoSpace, s).
Proof.
  intros [Ha _]. destruct (AllocBlock_run _ Ha) as [(new & E & H)|[E _]];
    rewrite /onAlloc /zoom E; [left; eauto|right; by destruct s].
Qed.

Lemma node_new Q s s' q :
  ext_grow Q s s' -> state_ok s -> valid_pos q -> node s' q <> 0 -> 0 < node s' q.
Proof.
  intros Hg Hok Hq Hn. destruct (wm_used s' (so_map _ (eg_ok _ _ _ Hg Hok)) q Hq Hn) as [[H _] _].
  unfold DataStart in H. lia.
Qed.

Lemma ensureRoot_run s r :
  state_ok s -> (1 <= r <= 3)%nat ->
  alloc_at (r, []) s (ensureRoot (fun di => root di r) (setRoot r) s).
Proof.
  intros Hok Hr. rewrite /ensureRoot bind_gets.
  assert (forall t, node t (r, []) = root t.2 r) as En by (intros t; rewrite node_tree //; lia).
  destruct (root s.2 r =? 0) eqn:E; simpl_bool.
  - rewrite /whenM bind_assoc. destruct (onAlloc_AllocBlock s Hok) as [(new & Ea & Hn & Hc)|Ea].
    + rewrite (bind_ok _ _ _ _ _ Ea). left.
      exists (did_alloc new s.1, addBlocks512 (setRoot r new s.2)).
      pose proof (grow_root s r new Hok Hr E Hn Hc) as Hg.
      assert (root (addBlocks512 (setRoot r new s.2)) r = new) as Er.
      { change (root (setRoot r new s.2) r = new). by rewrite root_setRoot // decide_True. }
      rewrite En. split_and!; [done|done|]. cbn [snd]. rewrite Er.
      unfold data_addr, DataStart in Hn. lia.
    + rewrite (bind_err _ _ _ _ _ Ea). by right.
  - left. exists s. rewrite En. split_and!; [done|apply ext_grow_refl|done].
Qed.

(** The three writes that link a new block to its parent. *)
Lemma link_run s r l i :
  state_ok s -> is_ptr (r, l) -> is_index i -> node s (r, l) <> 0 -> node s (r, l ++ [i]) = 0 ->
  alloc_at (r, l ++ [i]) s
    (placeLeaf (node s (r, l)) (peek (a_dev s.1) (node s (r, l))) i s).
Proof.
  intros Hok Hp Hi HP Hz. rewrite /placeLeaf.
  destruct (onAlloc_AllocBlock s Hok) as [(new & Ea & Hn & Hc)|Ea].
  - rewrite (bind_ok _ _ _ _ _ Ea). left.
    pose proof (grow_link s r l i new Hok Hp Hi HP Hz Hn Hc) as Hg. cbv zeta in Hg.
    set (P := node s (r, l)) in *. set (a1 := did_alloc new s.1) in *.
    set (d' := poke P (writePointer (peek (a_dev s.1) P) i new) (a_dev a1)) in *.
    pose proof (did_alloc_ok _ _ (so_alloc _ Hok) Hn Hc) as Ha1.
    pose proof (wm_used _ (so_map _ Hok) _ (proj1 Hp) HP) as [[_ HP2] _].
    assert (WriteBlock P (writePointer (peek (a_dev s.1) P) i new) (a_dev a1) = (Ok tt, d')) as EW.
    { apply WriteBlock_ok; [apply Ha1|by rewrite (ok_size _ Ha1)|].
      apply length_writePointer; [apply wf_peek, (so_alloc _ Hok)|done]. }
    assert (node (with_dev d' a1, addBlocks512 s.2) (r, l ++ [i]) = new) as En.
    { pose proof (eg_linked _ _ _ Hg new) as Hl. cbn [fst] in Hl.
      destruct Hl as [Hl|(Hnz & q & Hq & Hl)]; [by apply data_range in Hn; lia| |congruence|].
      { change (IsSet (a_blockBM (did_alloc new s.1)) new = true).
        rewrite IsSet_did_alloc //; [apply Hok|apply data_range in Hn; lia|]. by rewrite decide_True. }
      destruct (decide (q = (r, l ++ [i]) :> pos)) as [->|Hne]; [done|]. exfalso.
      apply (node_ne_free s q new (so_map _ Hok) Hq Hn Hc). rewrite -Hl. symmetry.
      by apply (eg_frame _ _ _ Hg). }
    exists (with_dev d' a1, addBlocks512 s.2). rewrite En. split_and!; [|done|].
    + rewrite (bind_ok _ _ _ tt (with_dev d' a1, s.2)) //.
      rewrite /onBlk /onAlloc /onDev /zoom. cbn [fst snd]. by rewrite EW.
    + unfold data_addr, DataStart in Hn. lia.
  - rewrite (bind_err _ _ _ _ _ Ea). by right.
Qed.

Lemma ensureChild_run s r l i :
  state_ok s -> is_ptr (r, l) -> is_index i -> node s (r, l) <> 0 ->
  alloc_at (r, l ++ [i]) s
    (ensureChild (node s (r, l)) (peek (a_dev s.1) (node s (r, l))) i s).
Proof.
  intros Hok Hp Hi HP. assert (1 <= r)%nat as Hr by (destruct Hp as [_ ?]; simpl in *; lia).
  assert (node s (r, l ++ [i]) = readPointer (peek (a_dev s.1) (node s (r, l))) i) as En.
  { rewrite node_snoc //. by apply Z.eqb_neq in HP as ->. }
  rewrite /ensureChild -En. destruct (node s (r, l ++ [i]) =? 0) eqn:E; simpl_bool.
  - by apply link_run.
  - left. exists s. split_and!; [done|apply ext_grow_refl|done].
Qed.

(** The positions on the way to [p], and those strictly above it. *)
Definition above_eq (p q : pos) : Prop := q.1 = p.1 /\ q.2 `prefix_of` p.2.
Definition above (p q : pos) : Prop := above_eq p q /\ q <> p.

Lemma above_eq_app r l k : above_eq (r, l ++ k) (r, l).
Proof. split; [done|by exists k]. Qed.

Lemma above_app r l i k : above (r, l ++ i :: k) (r, l).
Proof.
  split; [apply above_eq_app|]. intros [= E]. apply (f_equal length) in E.
  rewrite length_app /= in E. lia.
Qed.

(** The last step: the leaf itself. *)
Lemma place_path s r l i (Qe : pos -> Prop) :
  state_ok s -> is_ptr (r, l) -> is_index i -> node s (r, l) <> 0 -> node s (r, l ++ [i]) = 0 ->
  alloc_path (above_eq (r, l ++ [i])) Qe (r, l ++ [i]) s
    (placeLeaf (node s (r, l)) (peek (a_dev s.1) (node s (r, l))) i s).
Proof.
  intros Hok Hp Hi HP Hz. destruct (link_run s r l i Hok Hp Hi HP Hz) as [(s' & E & Hg & Hn)|E].
  - left. exists s'. split_and!; [done| |done]. eapply ext_grow_mono; [|exact Hg].
    intros q ->. by split.
  - right. exists s. split; [done|apply ext_grow_refl].
Qed.

Lemma grow_keeps_hole s s' (q p : pos) :
  ext_grow (fun x => x = q) s s' -> valid_pos p -> p <> q -> node s p = 0 -> node s' p = 0.
Proof. intros Hg Hp Hne E. by rewrite (eg_frame _ _ _ Hg). Qed.

Lemma AllocBlockForOffset_hole s lb p :
  state_ok s -> 0 <= lb -> leafpos lb = Some p -> node s p = 0 ->
  alloc_path (above_eq p) (above p) p s (AllocBlockForOffset lb s).
Proof.
  intros Hok H0 Hp Hz. pose proof (leafpos_leaf _ _ H0 Hp) as [Hv _].
  rewrite /AllocBlockForOffset bind_gets.
  rewrite (bind_ok _ _ _ (node s p) s); [by apply onBlk_ok, GetBlockForOffset_ok|].
  rewrite Hz /=. revert Hp Hv Hz. rewrite /leafpos. case_if; [intros [= <-]|case_if; [intros [= <-]|
    case_if; [intros [= <-]|case_if; [intros [= <-]|done]]]]; intros Hv Hz.
  - destruct (onAlloc_AllocBlock s Hok) as [(new & Ea & Hn & Hc)|Ea].
    + rewrite (bind_ok _ _ _ _ _ Ea). left.
      pose proof (grow_direct s lb new Hok ltac:(lia) Hz Hn Hc) as Hg.
      assert (Direct (setDirect lb new s.2) !!! Z.to_nat lb = new) as En.
      { simpl. apply list_lookup_total_insert_eq. rewrite (wm_direct _ (so_map _ Hok)). lia. }
      exists (did_alloc new s.1, addBlocks512 (setDirect lb new s.2)).
      change (node _ (0%nat, [lb])) with (Direct (setDirect lb new s.2) !!! Z.to_nat lb).
      rewrite En. split_and!; [done| |unfold data_addr, DataStart in Hn; lia].
      eapply ext_grow_mono; [|exact Hg]. intros q ->. by split.
    + rewrite (bind_err _ _ _ _ _ Ea). right. exists s. split; [done|apply ext_grow_refl].
  - assert (is_index (lb - 12)) as Hi by (unfold is_index; lia).
    eapply (alloc_path_bind _ _ _ (1%nat, [])); [done|apply (ensureRoot_run s 1 Hok); lia|
      by apply (above_eq_app 1 [])|by apply (above_app 1 [])|].
    intros s1 Hg1 Hok1 Hn1. eapply alloc_path_read; [done|constructor; [lia|simpl; lia|done]|done|].
    apply (place_path s1 1 []); [done|split; [constructor; [lia|simpl; lia|done]|simpl; lia]|done|done|].
    by apply (grow_keeps_hole s s1 _ _ Hg1).
  - set (x := lb - 12 - ptrs) in *. set (i := x / ptrs) in *. set (j := x mod ptrs) in *.
    pose proof (valid_snoc 2 [i] j ltac:(lia) Hv) as [Hp1 Hj].
    pose proof (valid_snoc 2 [] i ltac:(lia) (proj1 Hp1)) as [Hp0 Hi].
    eapply (alloc_path_bind _ _ _ (2%nat, [])); [done|apply (ensureRoot_run s 2 Hok); lia|
      by apply (above_eq_app 2 [])|by apply (above_app 2 [])|].
    intros s1 Hg1 Hok1 Hn1. eapply alloc_path_read; [done|apply Hp0|done|].
    eapply (alloc_path_bind _ _ _ (2%nat, [i])); [done|by apply (ensureChild_run s1 2 [])|
      by apply (above_eq_app 2 [i])|by apply (above_app 2 [i])|].
    intros s2 Hg2 Hok2 Hn2. eapply alloc_path_read; [done|apply Hp1|done|].
    apply (place_path s2 2 [i]); [done|done|done|done|].
    by apply (grow_keeps_hole s1 s2 _ _ Hg2), (grow_keeps_hole s s1 _ _ Hg1).
  - set (x := lb - 12 - ptrs - ptrs * ptrs) in *. set (i := x / (ptrs * ptrs)) in *.
    set (j := (x / ptrs) mod ptrs) in *. set (k := x mod ptrs) in *.
    pose proof (valid_snoc 3 [i; j] k ltac:(lia) Hv) as [Hp2 Hk].
    pose proof (valid_snoc 3 [i] j ltac:(lia) (proj1 Hp2)) as [Hp1 Hj].
    pose proof (valid_snoc 3 [] i ltac:(lia) (proj1 Hp1)) as [Hp0 Hi].
    eapply (alloc_path_bind _ _ _ (3%nat, [])); [done|apply (ensureRoot_run s 3 Hok); lia|
      by apply (above_eq_app 3 [])|by apply (above_app 3 [])|].
    intros s1 Hg1 Hok1 Hn1. eapply alloc_path_read; [done|apply Hp0|done|].
    eapply (alloc_path_bind _ _ _ (3%nat, [i])); [done|by apply (ensureChild_run s1 3 [])|
      by apply (above_eq_app 3 [i])|by apply (above_app 3 [i])|].
    intros s2 Hg2 Hok2 Hn2. eapply alloc_path_read; [done|apply Hp1|done|].
    eapply (alloc_path_bind _ _ _ (3%nat, [i; j])); [done|by apply (ensureChild_run s2 3 [i])|
      by apply (above_eq_app 3 [i; j])|by apply (above_app 3 [i; j])|].
    intros s3 Hg3 Hok3 Hn3. eapply alloc_path_read; [done|apply Hp2|done|].
    apply (place_path s3 3 [i; j]); [done|done|done|done|].
    by apply (grow_keeps_hole s2 s3 _ _ Hg3), (grow_keeps_hole s1 s2 _ _ Hg2), (grow_keeps_hole s s1 _ _ Hg1).
Qed.

Lemma AllocBlockForOffset_run s lb p :
  state_ok s -> 0 <= lb -> leafpos lb = Some p ->
  alloc_path (above_eq p) (above p) p s (AllocBlockForOffset lb s).
Proof.
  intros Hok H0 Hp. destruct (decide (node s p = 0)) as [E|E]; [by apply AllocBlockForOffset_hole|].
  left. exists s. split_and!; [|apply ext_grow_refl|done]. rewrite /AllocBlockForOffset bind_gets.
  rewrite (bind_ok _ _ _ (node s p) s); [by apply onBlk_ok, GetBlockForOffset_ok|].
  by apply Z.eqb_neq in E as ->.
Qed.

Lemma AllocBlockForOffset_big s lb :
  maxBlocks <= lb -> AllocBlockForOffset lb s = (Err ErrTooBig, s).
Proof.
  intros H. rewrite /AllocBlockForOffset bind_gets (bind_err _ _ _ ErrTooBig s) //.
  rewrite /onBlk /onAlloc /onDev /zoom GetBlockForOffset_big //. destruct s as [a di].
  by rewrite with_dev_same.
Qed.

(** ** Blocks removed from the map *)

(** What removing blocks at the positions [Q] does: the pointers outside [Q]
    stay, a block is freed exactly when its pointer is cleared, the content of
    every block that is not a pointer block stays, and so do the size and the
    count of sectors of the inode. *)
Record ext_shrink (Q : pos -> Prop) (s s' : inode_state) : Prop := {
  es_ok : state_ok s -> state_ok s';
  es_frame : forall q, valid_pos q -> ~ Q q -> node s' q = node s q;
  es_cleared : forall q, valid_pos q -> node s' q = node s q \/ node s' q = 0;
  es_bits : forall x, 0 <= x ->
    IsSet (a_blockBM s'.1) x = true <->
    IsSet (a_blockBM s.1) x = true /\
      ~ (x <> 0 /\ exists q, valid_pos q /\ node s q = x /\ node s' q = 0);
  es_peek : forall x, 0 <= x -> x <> BlockBitmapAddr ->
              (forall q, is_ptr q -> node s q <> 0 -> node s q <> x) ->
              peek (a_dev s'.1) x = peek (a_dev s.1) x;
  es_size : SizeOf s'.2 = SizeOf s.2 /\ Blocks512 s'.2 = Blocks512 s.2;
}.

Lemma ext_shrink_refl Q s : ext_shrink Q s s.
Proof. split; try done; [auto|]. intros x Hx. split; [|tauto]. intros H. split; [done|].
  intros (Hn & q & _ & H1 & H2). congruence. Qed.

Lemma ext_shrink_trans Q s s' s'' :
  ext_shrink Q s s' -> ext_shrink Q s' s'' -> ext_shrink Q s s''.
Proof.
  intros [o1 f1 c1 b1 p1 z1] [o2 f2 c2 b2 p2 z2].
  assert (forall q, valid_pos q -> node s'' q = node s q \/ node s'' q = 0) as Hc.
  { intros q Hq. destruct (c1 q Hq), (c2 q Hq); [left; congruence|by right|right; congruence|by right]. }
  split; [auto| |done| | |].
  - intros q Hq Hn. rewrite f2 //. auto.
  - intros x Hx. rewrite b2 // b1 //. split.
    + intros [[H1 H2] H3]. split; [done|]. intros (Hx0 & q & Hq & E & E2).
      destruct (c1 q Hq) as [E1|E1].
      * apply H3. split; [done|]. exists q. by rewrite E1.
      * apply H2. split; [done|]. by exists q.
    + intros [H1 H2]. split_and!; [done| |].
      * intros (Hx0 & q & Hq & E & E2). apply H2. split; [done|]. exists q. split_and!; [done|done|].
        destruct (c2 q Hq); congruence.
      * intros (Hx0 & q & Hq & E & E2). apply H2. split; [done|]. exists q. split_and!; [done| |done].
        destruct (c1 q Hq); congruence.
  - intros x Hx H3 Hp. rewrite p2 //; [|by apply p1]. intros q Hq Hn E.
    destruct (c1 q (proj1 Hq)) as [E1|E1]; [|congruence]. apply (Hp q Hq); congruence.
  - destruct z1, z2. split; congruence.
Qed.

Lemma ext_shrink_mono (Q Q' : pos -> Prop) s s' :
  (forall q, Q q -> Q' q) -> ext_shrink Q s s' -> ext_shrink Q' s s'.
Proof. intros H [? ? ? ? ? ?]. split; try done; auto. Qed.

(** The pointer at [q] is cleared. *)
Definition removed (q : pos) (s s' : inode_state) : Prop :=
  ext_shrink (fun p => p = q) s s' /\ node s' q = 0.

Lemma shrink_step s s' q :
  state_ok s -> valid_pos q -> node s q <> 0 ->
  alloc_ok s'.1 -> a_blockBM s'.1 = a_blockBM (did_free (node s q) s.1) ->
  length (Direct s'.2) = 12%nat ->
  (forall p, valid_pos p -> node s' p = if decide (p = q) then 0 else node s p) ->
  (forall x, 0 <= x -> x <> BlockBitmapAddr -> (forall q, is_ptr q -> node s q <> 0 -> node s q <> x) ->
     peek (a_dev s'.1) x = peek (a_dev s.1) x) ->
  SizeOf s'.2 = SizeOf s.2 /\ Blocks512 s'.2 = Blocks512 s.2 ->
  removed q s s'.
Proof.
  intros [Ha Hm] Hq Hz Ha' Hbm Hlen Hnode Hpeek Hsz.
  destruct (wm_used _ Hm q Hq Hz) as [Hd Hs].
  assert (forall x, 0 <= x -> IsSet (a_blockBM s'.1) x
            = IsSet (a_blockBM s.1) x && bool_decide (x <> node s q)) as Hbits.
  { intros x Hx. rewrite Hbm. by apply IsSet_did_free. }
  split; [|by rewrite Hnode // decide_True].
  split; [|intros p Hp Hne; rewrite Hnode // decide_False //| | |done|done].
  - intros _. split; [done|]. split; [done| |].
    + intros p Hp. rewrite Hnode //. case_decide as E; [done|]. intros Hnz.
      destruct (wm_used _ Hm p Hp Hnz) as [H1 H2]. split; [done|].
      rewrite Hbits; [apply data_range in H1; lia|]. rewrite H2 bool_decide_true //.
      intros E2. by apply E, (wm_inj _ Hm).
    + intros p p' Hp Hp'. rewrite !Hnode //. repeat case_decide; try congruence.
      intros Hz1 Hz2. by apply (wm_inj _ Hm).
  - intros p Hp. rewrite Hnode //. case_decide; [by right|by left].
  - intros x Hx. rewrite Hbits // andb_true_iff bool_decide_eq_true. split.
    + intros [H1 H2]. split; [done|]. intros (Hx0 & p & Hp & E & E2). rewrite Hnode // in E2.
      case_decide; congruence.
    + intros [H1 H2]. split; [done|]. intros ->. apply H2. split; [done|].
      exists q. split_and!; [done|done|]. by rewrite Hnode // decide_True.
Qed.

Lemma did_free_wf s q :
  state_ok s -> valid_pos q -> node s q <> 0 ->
  alloc_ok (did_free (node s q) s.1) /\ data_same (a_dev s.1) (a_dev (did_free (node s q) s.1)).
Proof.
  intros [Ha Hm] Hq Hz. destruct (wm_used _ Hm q Hq Hz) as [Hd _].
  split; [by apply did_free_ok|apply did_free_same].
Qed.

Lemma peek_node_did_free s q p :
  state_ok s -> valid_pos q -> node s q <> 0 -> valid_pos p -> node s p <> 0 ->
  peek (a_dev (did_free (node s q) s.1)) (node s p) = peek (a_dev s.1) (node s p).
Proof.
  intros Hok Hq Hz Hp Hzp. destruct (did_free_wf s q Hok Hq Hz) as [_ Hsame].
  destruct (node_used s p (so_map _ Hok) Hp Hzp) as (H1 & H2 & _). by apply Hsame.
Qed.

(** The pointer of [q] is cleared in the inode. *)
Lemma shrink_direct s i :
  state_ok s -> 0 <= i < 12 -> node s (0%nat, [i]) <> 0 ->
  removed (0%nat, [i]) s (did_free (node s (0%nat, [i])) s.1, setDirect i 0 s.2).
Proof.
  intros Hok Hi Hz. assert (valid_pos (0%nat, [i])) as Hv by by constructor.
  pose proof (wm_direct _ (so_map _ Hok)) as Hl. destruct (did_free_wf s _ Hok Hv Hz) as [Ha1 Hsame].
  assert (forall (p : pos) j, is_ptr p -> (p.1, p.2 ++ [j]) <> (0%nat, [i])) as Hno.
  { intros p j [_ Hlt] [= E _]. lia. }
  apply shrink_step; [done|done|done|done|done|by rewrite /= length_insert| | |done].
  - apply (node_update s _ (0%nat, [i]) 0).
    + done.
    + intros i' Hi'. simpl. destruct (decide (i' = i)) as [->|Hne].
      * rewrite decide_True // list_lookup_total_insert_eq //. lia.
      * rewrite decide_False; [congruence|]. rewrite list_lookup_total_insert_ne //. lia.
    + intros r' Hr'. by rewrite decide_False.
    + done.
    + intros p j Hp Hne Hnz Hj. cbn [fst]. rewrite peek_node_did_free //; [apply Hp|].
      rewrite decide_False //. by apply Hno.
    + intros p j Hp _. by apply Hno.
  - intros x Hx H1 _. by apply Hsame.
Qed.

Lemma shrink_root1 s :
  state_ok s -> Indirect1 s.2 <> 0 ->
  (forall j, valid_pos (1%nat, [j]) -> node s (1%nat, [j]) = 0) ->
  removed (1%nat, []) s (did_free (Indirect1 s.2) s.1, setIndirect1 0 s.2).
Proof.
  intros Hok Hz Hbelow. assert (valid_pos (1%nat, [])) as Hv by (constructor; [lia|simpl; lia|done]).
  destruct (did_free_wf s _ Hok Hv Hz) as [Ha1 Hsame].
  apply (shrink_step s _ (1%nat, [])); [done|done|done|done|done|apply (so_map _ Hok)| | |done].
  - apply (node_update s _ (1%nat, []) 0).
    + apply Hbelow.
    + intros i Hi. by case_decide.
    + intros r' Hr'. simpl. destruct r' as [|[|[|[|r']]]]; try done.
    + done.
    + intros p j Hp Hne Hnz Hj. cbn [fst].
      rewrite (peek_node_did_free s (1%nat, [])) //; [apply Hp|].
      rewrite decide_False //. intros [= _ E]. by apply app_tail_ne in E.
    + intros p j Hp _ [= _ E]. by apply app_tail_ne in E.
  - intros x Hx H1 _. by apply Hsame.
Qed.

Lemma node_parent s r l i :
  (1 <= r)%nat -> node s (r, l ++ [i]) <> 0 ->
  node s (r, l) <> 0 /\ readPointer (peek (a_dev s.1) (node s (r, l))) i = node s (r, l ++ [i]).
Proof.
  intros Hr. rewrite node_snoc //. destruct (node s (r, l) =? 0) eqn:E; [done|]. by simpl_bool.
Qed.

Lemma shrink_leaf s r l i :
  state_ok s -> is_ptr (r, l) -> is_index i -> is_leaf (r, l ++ [i]) -> node s (r, l ++ [i]) <> 0 ->
  let P := node s (r, l) in
  let a1 := did_free (node s (r, l ++ [i])) s.1 in
  removed (r, l ++ [i]) s
    (with_dev (poke P (writePointer (peek (a_dev s.1) P) i 0) (a_dev a1)) a1, s.2).
Proof.
  intros Hok Hp Hi [Hv Hleaf] Hz P a1. pose proof Hok as [Ha Hm].
  assert (1 <= r)%nat as Hr by (destruct Hp as [_ ?]; simpl in *; lia).
  destruct (node_parent s r l i Hr Hz) as [HP _]. fold P in HP.
  destruct (node_used _ _ Hm (proj1 Hp) HP) as (HP0 & HP3 & _). fold P in HP0, HP3.
  pose proof (wm_used _ Hm _ (proj1 Hp) HP) as [HPd _]. fold P in HPd.
  destruct (did_free_wf s _ Hok Hv Hz) as [Ha1 Hsame]. fold a1 in Ha1, Hsame.
  assert (length (writePointer (peek (a_dev s.1) P) i 0) = BlockLen) as Hlen.
  { apply length_writePointer; [apply wf_peek, Ha|done]. }
  set (d' := poke P _ _).
  assert (peek d' P = writePointer (peek (a_dev s.1) P) i 0) as HpP.
  { apply peek_poke_eq, wf_in_range; [apply Ha1|]. rewrite (ok_size _ Ha1). by apply data_range. }
  assert (forall x, 0 <= x -> x <> P -> x <> BlockBitmapAddr -> peek d' x = peek (a_dev s.1) x) as Hpx.
  { intros x Hx Hne H3. rewrite /d' peek_poke_ne //; [congruence|]. by apply Hsame. }
  apply (shrink_step s _ (r, l ++ [i])); [done|done|done| |done|apply Hm| | |done].
  - destruct Ha1 as [? ? ? ?]. split; [by apply inv_with_dev|done|by apply poke_wf|done].
  - apply (node_update s _ (r, l ++ [i]) 0).
    + intros j Hvj. exfalso. cbn [fst snd] in *. destruct (valid_snoc r (l ++ [i]) j Hr Hvj) as [[_ Hlt] _].
      simpl in *. lia.
    + intros i' Hi'. rewrite decide_False //. intros [= <- _]. lia.
    + intros r' Hr'. rewrite decide_False //. intros [= _ E]. symmetry in E. by apply app_tail_ne in E.
    + done.
    + intros [r' l'] j Hpp Hne Hnz Hj. cbn [fst snd a_dev with_dev].
      pose proof (proj1 Hpp) as Hvp. destruct (decide (node s (r', l') = P)) as [E|E].
      * assert ((r', l') = (r, l)) as [= -> ->] by exact (wm_inj _ Hm _ _ (proj1 Hpp) (proj1 Hp) Hnz E).
        rewrite E HpP readPointer_write //; [apply wf_peek, Ha|].
        destruct (decide (j = i)) as [->|Hji]; [by rewrite decide_True|].
        rewrite decide_False //. intros [= Hj']. apply app_inj_tail in Hj' as [_ ?]. congruence.
      * destruct (node_used _ _ Hm Hvp Hnz) as (H1 & H2 & _). rewrite Hpx //.
        rewrite decide_False //. intros [= -> El]. apply app_inj_tail in El as [-> ->]. by apply E.
    + intros [r' l'] j Hpp Hpz Heq. cbn [fst snd] in Heq. injection Heq as -> El.
      apply app_inj_tail in El as [-> ->]. by apply HP.
  - intros x Hx H1 H3. cbn [fst a_dev with_dev]. apply Hpx; [done| |done].
    intros ->. by apply (H3 (r, l) Hp HP).
Qed.

(** The walk of [clearPointerAt] in the state after [FreeBlock]. *)
Section clear.
Context (s : inode_state) (q : pos) (Hok : state_ok s) (Hq : valid_pos q) (Hz : node s q <> 0).
Let t : inode_state := (did_free (node s q) s.1, s.2).

Lemma clear_read {A} p (K : block -> M inode_state A) :
  valid_pos p -> node s p <> 0 ->
  (onBlk (ReadBlock (node s p)) ≫= K) t = K (peek (a_dev s.1) (node s p)) t.
Proof.
  intros Hp Hn. destruct (did_free_wf s q Hok Hq Hz) as [Ha1 _].
  destruct (wm_used _ (so_map _ Hok) p Hp Hn) as [[_ Hlt] _].
  rewrite (bind_ok _ _ _ (peek (a_dev s.1) (node s p)) t) //. apply onBlk_ok.
  rewrite ReadBlock_ok; [apply Ha1|by rewrite (ok_size _ Ha1)|].
  by rewrite /t /= peek_node_did_free.
Qed.

Lemma clear_level {A} r l i (x : M inode_state A) (K : Z -> block -> M inode_state A) :
  (1 <= r)%nat -> valid_pos (r, l) -> node s (r, l ++ [i]) <> 0 ->
  (if node s (r, l) =? 0 then x
   else blk ← onBlk (ReadBlock (node s (r, l))); K (readPointer blk i) blk) t
  = K (node s (r, l ++ [i])) (peek (a_dev s.1) (node s (r, l))) t.
Proof.
  intros Hr Hv Hn. destruct (node_parent s r l i Hr Hn) as [HP HE]. pose proof HP as HP'.
  apply Z.eqb_neq in HP' as ->. by rewrite clear_read // HE.
Qed.

Lemma clear_write r l i :
  q = (r, l ++ [i]) -> is_ptr (r, l) -> is_index i -> is_leaf q ->
  exists s', onBlk (WriteBlock (node s (r, l)) (writePointer (peek (a_dev s.1) (node s (r, l))) i 0)) t
             = (Ok tt, s') /\ removed q s s'.
Proof.
  intros -> Hp Hi Hleaf. destruct (did_free_wf s _ Hok Hq Hz) as [Ha1 _].
  assert (1 <= r)%nat as Hr by (destruct Hp as [_ ?]; simpl in *; lia).
  destruct (node_parent s r l i Hr Hz) as [HP _].
  destruct (wm_used _ (so_map _ Hok) _ (proj1 Hp) HP) as [[_ Hlt] _].
  pose proof (shrink_leaf s r l i Hok Hp Hi Hleaf Hz) as Hsh. cbv zeta in Hsh.
  eexists. split; [|exact Hsh]. rewrite /onBlk /onAlloc /onDev /zoom. cbn [t fst snd].
  rewrite WriteBlock_ok //; [apply Ha1|by rewrite (ok_size _ Ha1)|].
  apply length_writePointer; [apply wf_peek, Hok|done].
Qed.

End clear.

Lemma clearPointerAt_run s lb q :
  state_ok s -> 0 <= lb -> leafpos lb = Some q -> node s q <> 0 ->
  exists s', clearPointerAt lb (did_free (node s q) s.1, s.2) = (Ok tt, s') /\
             removed q s s'.
Proof.
  intros Hok H0 Hp Hz. pose proof (leafpos_leaf _ _ H0 Hp) as Hleaf. pose proof (proj1 Hleaf) as Hv.
  revert Hp Hz Hleaf Hv. rewrite /leafpos /clearPointerAt bind_gets. cbn [snd].
  case_if; [intros [= <-]|case_if; [intros [= <-]|case_if; [intros [= <-]|case_if; [intros [= <-]|done]]]];
    intros Hz Hleaf Hv.
  - eexists. split; [done|exact (shrink_direct s lb Hok (conj H0 E) Hz)].
  - set (i := lb - 12) in *. assert (is_index i) as Hi by (unfold is_index; lia).
    assert (is_ptr (1%nat, [])) as Hp0 by (split; [constructor; [lia|simpl; lia|done]|simpl; lia]).
    erewrite (clear_level s _ Hok Hv Hz 1 [] i _ (fun _ blk => onBlk (WriteBlock (Indirect1 s.2) (writePointer blk i 0))));
      [|lia|apply Hp0|done].
    by apply (clear_write s _ Hok Hv Hz 1 [] i).
  - set (x := lb - 12 - ptrs) in *. set (i := x / ptrs) in *. set (j := x mod ptrs) in *.
    pose proof (valid_snoc 2 [i] j ltac:(lia) Hv) as [Hp1 Hj].
    pose proof (valid_snoc 2 [] i ltac:(lia) (proj1 Hp1)) as [Hp0 Hi].
    destruct (node_parent s 2 [i] j ltac:(lia) Hz) as [Hz1 _].
    erewrite (clear_level s _ Hok Hv Hz 2 [] i _ (fun l2 _ => if l2 =? 0 then mret tt else
        blk2 ← onBlk (ReadBlock l2); onBlk (WriteBlock l2 (writePointer blk2 j 0))));
      [|lia|apply Hp0|done].
    erewrite (clear_level s _ Hok Hv Hz 2 [i] j _ (fun _ blk => onBlk (WriteBlock (node s (2%nat, [i])) (writePointer blk j 0))));
      [|lia|apply Hp1|done].
    by apply (clear_write s _ Hok Hv Hz 2 [i] j).
  - set (x := lb - 12 - ptrs - ptrs * ptrs) in *. set (i := x / (ptrs * ptrs)) in *.
    set (j := (x / ptrs) mod ptrs) in *. set (k := x mod ptrs) in *.
    pose proof (valid_snoc 3 [i; j] k ltac:(lia) Hv) as [Hp2 Hk].
    pose proof (valid_snoc 3 [i] j ltac:(lia) (proj1 Hp2)) as [Hp1 Hj].
    pose proof (valid_snoc 3 [] i ltac:(lia) (proj1 Hp1)) as [Hp0 Hi].
    destruct (node_parent s 3 [i; j] k ltac:(lia) Hz) as [Hz2 _].
    destruct (node_parent s 3 [i] j ltac:(lia) Hz2) as [Hz1 _].
    erewrite (clear_level s _ Hok Hv Hz 3 [] i _ (fun l2 _ => if l2 =? 0 then mret tt else
        blk2 ← onBlk (ReadBlock l2);
        let l3 := readPointer blk2 j in
        if l3 =? 0 then mret tt
        else blk3 ← onBlk (ReadBlock l3); onBlk (WriteBlock l3 (writePointer blk3 k 0))));
      [|lia|apply Hp0|done].
    erewrite (clear_level s _ Hok Hv Hz 3 [i] j _ (fun l3 _ => if l3 =? 0 then mret tt else
        blk3 ← onBlk (ReadBlock l3); onBlk (WriteBlock l3 (writePointer blk3 k 0))));
      [|lia|apply Hp1|done].
    erewrite (clear_level s _ Hok Hv Hz 3 [i; j] k _ (fun _ blk => onBlk (WriteBlock (node s (3%nat, [i; j])) (writePointer blk k 0))));
      [|lia|apply Hp2|done].
    by apply (clear_write s _ Hok Hv Hz 3 [i; j] k).
Qed.

Lemma freeOne_run s lb q :
  state_ok s -> 0 <= lb -> leafpos lb = Some q ->
  exists s', freeOne lb s = (Ok tt, s') /\ removed q s s'.
Proof.
  intros Hok H0 Hp. pose proof (leafpos_leaf _ _ H0 Hp) as [Hv _]. rewrite /freeOne bind_gets.
  rewrite (bind_ok _ _ _ (node s q) s); [by apply onBlk_ok, GetBlockForOffset_ok|].
  destruct (node s q =? 0) eqn:E; simpl_bool.
  { exists s. split; [done|]. split; [apply ext_shrink_refl|done]. }
  rewrite /whenM /=. destruct (wm_used _ (so_map _ Hok) q Hv E) as [Hd Hs].
  rewrite (bind_ok _ _ _ tt (did_free (node s q) s.1, s.2)).
  { rewrite /onAlloc /zoom FreeBlock_ok //. apply Hok. }
  by apply clearPointerAt_run.
Qed.

(** The leaves of a range of logical blocks. *)
Definition leaf_in (lbs : list Z) (q : pos) : Prop := exists lb, lb ∈ lbs /\ leafpos lb = Some q.

Lemma freeRange_run lbs s :
  state_ok s -> Forall (fun lb => 0 <= lb < maxBlocks) lbs ->
  exists s', forEach freeOne lbs s = (Ok tt, s') /\ ext_shrink (leaf_in lbs) s s' /\
             forall q, leaf_in lbs q -> node s' q = 0.
Proof.
  intros Hok Hl. revert s Hok. induction Hl as [|lb lbs Hlb Hl IH]; intros s Hok; simpl.
  { exists s. split_and!; [done|apply ext_shrink_refl|]. intros q (lb & Hlb & _). by apply not_elem_of_nil in Hlb. }
  destruct (leafpos lb) as [p|] eqn:Ep; [|apply leafpos_None in Ep; lia].
  pose proof (leafpos_leaf _ _ (proj1 Hlb) Ep) as [Hv _].
  destruct (freeOne_run s lb p Hok (proj1 Hlb) Ep) as (s1 & E1 & Hg1 & Hz1).
  destruct (IH s1 (es_ok _ _ _ Hg1 Hok)) as (s2 & E2 & Hg2 & Hz2).
  exists s2. split_and!; [by rewrite (bind_ok _ _ _ _ _ E1)| |].
  - eapply ext_shrink_trans; [eapply ext_shrink_mono; [|exact Hg1]|eapply ext_shrink_mono; [|exact Hg2]].
    + intros q ->. exists lb. split; [apply list_elem_of_here|done].
    + intros q (lb' & Hin & E). exists lb'. split; [by apply list_elem_of_further|done].
  - intros q (lb' & Hin & E). apply elem_of_cons in Hin as [->|Hin]; [|apply Hz2; by exists lb'].
    rewrite Ep in E. injection E as <-. destruct (es_cleared _ _ _ Hg2 p Hv); congruence.
Qed.

Lemma prune_run start s :
  state_ok s ->
  exists s', pruneIndirectBlocks start s = (Ok tt, s') /\ ext_shrink (fun q => q = (1%nat, [])) s s'.
Proof.
  intros Hok. rewrite /pruneIndirectBlocks bind_gets.
  destruct (Indirect1 s.2 =? 0) eqn:E; simpl_bool; [exists s; split; [done|apply ext_shrink_refl]|].
  assert (valid_pos (1%nat, [])) as Hv by (constructor; [lia|simpl; lia|done]).
  rewrite (bind_ok _ _ _ (peek (a_dev s.1) (Indirect1 s.2)) s); [by apply onBlk_ok, (read_node s (1%nat, []))|].
  rewrite /whenM. destruct (forallb _ _ && _) eqn:Eb; [|exists s; split; [done|apply ext_shrink_refl]].
  apply andb_true_iff in Eb as [Eb _]. rewrite ->forallb_forall in Eb.
  destruct (wm_used _ (so_map _ Hok) (1%nat, []) Hv E) as [Hd _].
  rewrite (bind_ok _ _ _ tt (did_free (Indirect1 s.2) s.1, s.2)).
  { rewrite /onAlloc /zoom FreeBlock_ok //. apply Hok. }
  eexists. split; [done|]. destruct (shrink_root1 s Hok E) as [Hg _]; [|exact Hg]. intros j Hj.
  rewrite (node_snoc s 1 [] j) //. change (node s (1%nat, [])) with (Indirect1 s.2).
  destruct (Indirect1 s.2 =? 0); [done|]. apply Z.eqb_eq, Eb.
  apply list_elem_of_In, elem_of_seqZ. destruct (valid_snoc 1 [] j ltac:(lia) Hj) as [_ Hj2].
  unfold is_index, ptrs in Hj2. lia.
Qed.

(** ** The list of blocks *)

Lemma blockListLoop_ok s lbs res :
  state_ok s -> Forall (fun lb => 0 <= lb < maxBlocks) lbs ->
  blockListLoop s.2 lbs res (a_dev s.1)
  = (Ok (res ++ ((fun lb => default 0 (node s <$> leafpos lb)) <$> lbs)), a_dev s.1).
Proof.
  intros Hok Hl. revert res. induction Hl as [|lb lbs Hlb Hl IH]; intros res; simpl.
  { by rewrite app_nil_r. }
  destruct (leafpos lb) as [p|] eqn:Ep; [|apply leafpos_None in Ep; lia].
  rewrite (bind_ok _ _ _ _ _ (GetBlockForOffset_ok s lb p Hok (proj1 Hlb) Ep)).
  by rewrite IH -app_assoc.
Qed.

Lemma blocksForSize_range size : 0 <= blocksForSize size < 2 ^ 32.
Proof. rewrite /blocksForSize. case_if; [done|apply u32_range]. Qed.

(** What the client of the map sees. *)
Definition mapped (s : inode_state) (lb : Z) : result Z := (GetBlockForOffset s.2 lb (a_dev s.1)).1.

Lemma mapped_node s lb p : state_ok s -> 0 <= lb -> leafpos lb = Some p -> mapped s lb = Ok (node s p).
Proof. intros H1 H2 H3. by rewrite /mapped (GetBlockForOffset_ok _ _ p). Qed.

Lemma mapped_same Q s s' lb :
  ext_grow Q s s' -> state_ok s -> 0 <= lb -> (forall p, leafpos lb = Some p -> ~ Q p) ->
  mapped s' lb = mapped s lb.
Proof.
  intros Hg Hok H0 HQ. pose proof (eg_ok _ _ _ Hg Hok) as Hok'.
  destruct (leafpos lb) as [p|] eqn:Ep.
  - rewrite !(mapped_node _ _ p) //. f_equal. apply (eg_frame _ _ _ Hg); [|by apply HQ].
    by destruct (leafpos_leaf _ _ H0 Ep).
  - apply leafpos_None in Ep. rewrite /mapped !GetBlockForOffset_big //.
Qed.

(** A leaf has no leaf below it. *)
Lemma leaf_not_above lb lb' p p' :
  0 <= lb -> 0 <= lb' -> leafpos lb = Some p -> leafpos lb' = Some p' -> above_eq p p' -> lb' = lb.
Proof.
  intros H0 H0' Ep Ep' [Hr [k Hk]]. destruct (leafpos_leaf _ _ H0 Ep) as [Hv _].
  destruct (leafpos_leaf _ _ H0' Ep') as [Hv' Hl']. apply (leafpos_inj _ _ p); [|done].
  rewrite Ep'. f_equal. destruct p as [r l], p' as [r' l']. cbn [fst snd] in *. subst r' l. f_equal.
  destruct k as [|x k]; [by rewrite app_nil_r|exfalso].
  inversion Hv as [i Hi Ei|r2 l2 Hr2 Hlen Hf]; subst.
  - destruct l' as [|y l']; [inversion Hv'; subst; lia|by destruct l'].
  - rewrite length_app /= in Hlen. lia.
Qed.

(** ** Properties *)

(** C16: allocating for a logical block changes the map at that block only: on a
    device that works, a returned address is the one the map then holds, it
    was there before or it is a zeroed block that was free; every other
    logical block keeps its address; every block in use that is not a pointer
    block of this inode keeps its content; no block is taken without being
    linked in the map. Running out of space leaves every logical block where
    it was, and only the limit of the triple indirect block gives
    [ErrTooBig]. *)
Theorem AllocBlockForOffset_correct s lb :
  state_ok s -> 0 <= lb ->
  match AllocBlockForOffset lb s with
  | (Ok b, s') =>
      state_ok s' /\ mapped s' lb = Ok b /\ b <> 0 /\
      (mapped s lb = Ok b \/ (mapped s lb = Ok 0 /\ IsSet (a_blockBM s.1) b = false /\
                           peek (a_dev s'.1) b = zeroBlock)) /\
      (forall lb', 0 <= lb' -> lb' <> lb -> mapped s' lb' = mapped s lb') /\
      (forall x, 0 <= x -> x <> BlockBitmapAddr -> (x < DataStart \/ IsSet (a_blockBM s.1) x = true) ->
         (forall q, is_ptr q -> node s q <> 0 -> node s q <> x) ->
         peek (a_dev s'.1) x = peek (a_dev s.1) x) /\
      (forall x, 0 <= x -> IsSet (a_blockBM s'.1) x = true ->
         IsSet (a_blockBM s.1) x = true \/ exists q, valid_pos q /\ node s' q = x)
  | (Err e, s') =>
      (e = ErrTooBig /\ maxBlocks <= lb /\ s' = s) \/
      (e = ErrNoSpace /\ lb < maxBlocks /\ state_ok s' /\
       forall lb', 0 <= lb' -> mapped s' lb' = mapped s lb')
  | (Panic, _) => False
  end.
Proof.
  intros Hok H0. destruct (leafpos lb) as [p|] eqn:Ep.
  2:{ apply leafpos_None in Ep. rewrite AllocBlockForOffset_big //. by left. }
  assert (lb < maxBlocks) as Hlt.
  { destruct (decide (maxBlocks <= lb)) as [H|]; [|lia]. apply leafpos_None in H. congruence. }
  pose proof (leafpos_leaf _ _ H0 Ep) as Hleaf.
  destruct (AllocBlockForOffset_run s lb p Hok H0 Ep) as [(s' & -> & Hg & Hn)|(s' & -> & Hg)];
    pose proof (eg_ok _ _ _ Hg Hok) as Hok'.
  - rewrite !(mapped_node _ lb p) //. split_and!; [done|done|done| | |apply Hg|].
    + destruct (decide (node s p = 0)) as [E|E]; [right|left].
      * rewrite E. split_and!; [done|by apply (eg_fresh _ _ _ Hg p (proj1 Hleaf))|].
        by apply (eg_zero _ _ _ Hg).
      * by rewrite (eg_old _ _ _ Hg p (proj1 Hleaf) E).
    + intros lb' H0' Hne. apply (mapped_same _ _ _ _ Hg); [done|done|].
      intros p' Ep' Hab. by apply Hne, (leaf_not_above _ _ p p').
    + intros x Hx H. destruct (eg_linked _ _ _ Hg x Hx H) as [?|[_ ?]]; [by left|by right].
  - right. split_and!; [done|done|done|]. intros lb' H0'.
    apply (mapped_same _ _ _ _ Hg); [done|done|]. intros p' Ep' [Hab Hne].
    pose proof (leaf_not_above _ _ p p' H0 H0' Ep Ep' Hab) as ->. congruence.
Qed.

(** C17: [FreeBlocksFrom] truncates: on a device that works it succeeds, the
    logical blocks from the start to the end of the file become holes and
    every other one keeps its address; a block is freed exactly when its
    pointer is cleared, so that no block is lost or freed twice; no content
    outside pointer blocks changes. The sector count of the inode is not
    touched, and of the pointer blocks only [Indirect1] can be freed. *)
Theorem FreeBlocksFrom_correct s start :
  state_ok s -> 0 <= start -> blocksForSize (SizeOf s.2) <= maxBlocks ->
  exists s', FreeBlocksFrom start s = (Ok tt, s') /\ state_ok s' /\
    (forall lb p, 0 <= lb -> leafpos lb = Some p ->
       node s' p = if decide (start <= lb < blocksForSize (SizeOf s.2)) then 0 else node s p) /\
    (forall q, is_ptr q -> q <> (1%nat, []) -> node s' q = node s q) /\
    (forall x, 0 <= x -> IsSet (a_blockBM s'.1) x = true <->
       IsSet (a_blockBM s.1) x = true /\
       ~ (x <> 0 /\ exists q, valid_pos q /\ node s q = x /\ node s' q = 0)) /\
    (forall x, 0 <= x -> x <> BlockBitmapAddr ->
       (forall q, is_ptr q -> node s q <> 0 -> node s q <> x) ->
       peek (a_dev s'.1) x = peek (a_dev s.1) x) /\
    Blocks512 s'.2 = Blocks512 s.2.
Proof.
  intros Hok H0 Hmax. rewrite /FreeBlocksFrom bind_gets.
  set (total := blocksForSize (SizeOf s.2)) in *.
  destruct (total <=? start) eqn:E; simpl_bool.
  { exists s. pose proof (ext_shrink_refl (fun _ => False) s) as Hr.
    split_and!; [done|done| |done|apply Hr|done|done].
    intros lb p Hlb Hp. by rewrite decide_False; [lia|]. }
  destruct (freeRange_run (seqZ start (total - start)) s Hok) as (s1 & E1 & Hg1 & Hz1).
  { apply Forall_forall. intros lb Hlb%elem_of_seqZ. lia. }
  destruct (prune_run start s1 (es_ok _ _ _ Hg1 Hok)) as (s2 & E2 & Hg2).
  exists s2. rewrite (bind_ok _ _ _ _ _ E1). set (Q := fun q => leaf_in (seqZ start (total - start)) q \/ q = (1%nat, [])).
  assert (ext_shrink Q s s2) as Hg.
  { eapply ext_shrink_trans; [eapply ext_shrink_mono; [|exact Hg1]|eapply ext_shrink_mono; [|exact Hg2]];
      intros q Hq; [by left|by right]. }
  assert (forall q, leaf_in (seqZ start (total - start)) q -> is_leaf q) as Hleaf.
  { intros q (lb & Hlb%elem_of_seqZ & E'). apply (leafpos_leaf lb); [lia|done]. }
  split_and!; [done|by apply Hg| | |apply Hg|apply Hg|apply Hg].
  - intros lb p Hlb Hp. case_decide as Hin.
    + assert (leaf_in (seqZ start (total - start)) p) as HL.
      { exists lb. split; [apply elem_of_seqZ; lia|done]. }
      pose proof (proj1 (Hleaf p HL)) as Hv.
      destruct (es_cleared _ _ _ Hg2 p Hv) as [->|]; [by apply Hz1|done].
    + destruct (leafpos_leaf _ _ Hlb Hp) as [Hv Hl]. apply (es_frame _ _ _ Hg); [done|].
      intros [(lb' & Hlb'%elem_of_seqZ & E') | -> ]; [|simpl in Hl; lia].
      pose proof (leafpos_inj _ _ _ Hp E'). lia.
  - intros q Hq Hne. apply (es_frame _ _ _ Hg); [apply Hq|]. intros [HL|?]; [|done].
    apply Hleaf in HL as [_ HL]. destruct Hq as [_ Hq]. lia.
Qed.

(** ** Witnesses *)

(** An empty file of two blocks, then with its first block allocated. *)
Definition holeState : inode_state := (blankAllocator, SetSize 8192 emptyInode).
Definition oneBlockState : inode_state :=
  (did_alloc 2180 holeState.1, addBlocks512 (setDirect 0 2180 holeState.2)).

Lemma node_holeState q : valid_pos q -> node holeState q = 0.
Proof.
  intros [i Hi|r l Hr _ _].
  - assert (exists k, Z.to_nat i = k /\ (k < 12)%nat) as (k & E & Hk) by (eexists; split; [done|lia]).
    unfold node, holeState. cbn [snd]. rewrite E.
    do 12 (destruct k as [|k]; [reflexivity|]). lia.
  - rewrite node_tree; [lia|]. destruct r as [|[|[|[|r]]]]; try lia; apply walk_zero.
Qed.

Lemma holeState_ok : state_ok holeState.
Proof.
  split; [exact blankAllocator_ok|]. split; [reflexivity| |].
  - intros q Hq Hn. by rewrite node_holeState in Hn.
  - intros p q Hp Hq Hn. by rewrite node_holeState in Hn.
Qed.

Lemma oneBlockState_ok : state_ok oneBlockState.
Proof.
  eapply eg_ok; [apply (grow_direct holeState 0 2180)|exact holeState_ok].
  - exact holeState_ok.
  - lia.
  - reflexivity.
  - unfold data_addr, DataStart, TotalBlocks. lia.
  - reflexivity.
Qed.

Example AllocBlockForOffset_correct_witness :
  match AllocBlockForOffset 1048588 holeState with
  | (Ok b, s') => state_ok s' /\ mapped s' 1048588 = Ok b
  | (Err e, s') => e = ErrNoSpace
  | (Panic, _) => False
  end.
Proof.
  pose proof (AllocBlockForOffset_correct holeState 1048588 holeState_ok ltac:(lia)) as H.
  destruct (AllocBlockForOffset 1048588 holeState) as [[b|e|] s'].
  - exact (conj (proj1 H) (proj1 (proj2 H))).
  - destruct H as [(_ & H & _)|(H & _)]; [|exact H]. exfalso. revert H.
    unfold maxBlocks, ptrs, PointersPerBlock. lia.
  - exact H.
Defined.

Example FreeBlocksFrom_correct_witness :
  exists s', FreeBlocksFrom 0 oneBlockState = (Ok tt, s') /\ IsSet (a_blockBM s'.1) 2180 = false.
Proof.
  destruct (FreeBlocksFrom_correct oneBlockState 0 oneBlockState_ok ltac:(lia))
    as (s' & H1 & _ & H2 & _ & H3 & _).
  - apply Z.leb_le. reflexivity.
  - exists s'. split; [exact H1|]. apply not_true_is_false. intros H.
    apply H3 in H; [|lia]. destruct H as [_ H]. apply H. split; [lia|].
    exists (0%nat, [0]). split; [constructor; lia|]. split; [reflexivity|].
    pose proof (H2 0 (0%nat, [0]) ltac:(lia) eq_refl) as H4. case_decide as E; [exact H4|].
    exfalso. apply E. split; [lia|]. apply Z.ltb_lt. reflexivity.
Defined.
