(* ===== verification/Journal.v ===== *)
(** * Journal: [internal/journal/journal.go], [layout.go] and [transaction.go]

    The write-ahead log.  The state is the shared device and the [Journal]
    record without its pointer to the device; the transaction under
    construction is a value, as [LogBlock] copies the blocks it is given.
    The time [Commit] reads is its argument [now]. *)

From S2P Require Export Extent.

(** ** CRC-32 (IEEE), of the standard library [hash/crc32] *)

Definition crc_bit (c : Z) : Z :=
  if Z.odd c then Z.lxor 0xEDB88320 (Z.shiftr c 1) else Z.shiftr c 1.
Definition crc_byte (c : Z) (b : byte) : Z := Nat.iter 8 crc_bit (Z.lxor c (b2z b)).

(** [crc.Write(data)] on a hash whose sum is [c]; a new hash has the sum 0. *)
Definition crc32_write (c : Z) (data : list byte) : Z :=
  Z.lxor (foldl crc_byte (Z.lxor c 0xFFFFFFFF) data) 0xFFFFFFFF.

Example crc32_check_value : crc32_write 0 (str "123456789") = 0xCBF43926.
Proof. vm_compute. reflexivity. Qed.

(** ** Blocks of the journal *)

Definition JBD2_MAGIC : Z := 0xC03B3998.
Definition JBD2_DESCRIPTOR : Z := 1.
Definition JBD2_COMMIT : Z := 2.

Record JournalHeader : Type := mkHeader { h_Magic : Z; h_BlockType : Z; h_Sequence : Z }.

(** [binary.BigEndian.PutUint32(buf[off:], v)] as a write of a sequence. *)
Definition put32be (off : nat) (v : Z) : put := (off, be_enc 4 v).

Definition header_puts (h : JournalHeader) : list put :=
  [ put32be 0 (h_Magic h); put32be 4 (h_BlockType h); put32be 8 (h_Sequence h) ].
Definition EncodeHeader (h : JournalHeader) (buf : list byte) : list byte := putAll (header_puts h) buf.
Definition DecodeHeader (buf : list byte) : JournalHeader :=
  mkHeader (BEUint32 buf 0) (BEUint32 buf 4) (BEUint32 buf 8).

Definition firstDescriptorCountOffset : nat := 12.
Definition firstDescriptorTagsOffset : nat := 16.
Definition otherDescriptorTagsOffset : nat := 12.

Definition firstDescriptorCapacity : Z := (BlockSize - Z.of_nat firstDescriptorTagsOffset) / 4.
Definition otherDescriptorCapacity : Z := (BlockSize - Z.of_nat otherDescriptorTagsOffset) / 4.

Definition descriptorBlocksFor (blocks : Z) : Z :=
  if blocks <=? firstDescriptorCapacity then 1
  else
    let remaining := blocks - firstDescriptorCapacity in
    let per := otherDescriptorCapacity in
    1 + (remaining + per - 1) / per.

(** ** The journal *)

Record TxRecord : Type := mkTxRecord {
  tx_ID : Z;
  tx_Status : string;
  tx_Blocks : list Z;
  tx_Timestamp : Z;
  tx_Ops : list string;
}.

Definition zeroTxRecord : TxRecord := mkTxRecord 0 "" [] 0 [].
#[export] Instance TxRecord_inhabited : Inhabited TxRecord := populate zeroTxRecord.

Record Journal : Type := mkJournal {
  j_start : Z;
  j_length : Z;
  j_sequence : Z;
  j_head : Z;
  j_metrics : option Metrics;
  j_emit : option (list event);
  j_history : list TxRecord;
  j_histLen : Z;
  j_histPos : Z;
}.

Definition with_sequence (x : Z) (j : Journal) : Journal :=
  mkJournal (j_start j) (j_length j) x (j_head j) (j_metrics j) (j_emit j) (j_history j)
    (j_histLen j) (j_histPos j).
Definition with_head (x : Z) (j : Journal) : Journal :=
  mkJournal (j_start j) (j_length j) (j_sequence j) x (j_metrics j) (j_emit j) (j_history j)
    (j_histLen j) (j_histPos j).
Definition with_jmetrics (x : option Metrics) (j : Journal) : Journal :=
  mkJournal (j_start j) (j_length j) (j_sequence j) (j_head j) x (j_emit j) (j_history j)
    (j_histLen j) (j_histPos j).
Definition with_jemit (x : option (list event)) (j : Journal) : Journal :=
  mkJournal (j_start j) (j_length j) (j_sequence j) (j_head j) (j_metrics j) x (j_history j)
    (j_histLen j) (j_histPos j).
Definition with_history (h : list TxRecord) (len pos : Z) (j : Journal) : Journal :=
  mkJournal (j_start j) (j_length j) (j_sequence j) (j_head j) (j_metrics j) (j_emit j) h len pos.

Definition NewJournal (start length : Z) (m : option Metrics) : Journal :=
  mkJournal start length 1 0 m None (replicate 64 zeroTxRecord) 0 0.

Definition recordTx (tx : TxRecord) (j : Journal) : Journal :=
  with_history (<[Z.to_nat (Z.rem (j_histPos j) 64) := tx]> (j_history j))
    (if j_histLen j <? 64 then j_histLen j + 1 else j_histLen j) (j_histPos j + 1) j.

(** The slot of the [i]-th newest transaction; a negative count gives an empty
    slice (the code's [make] panics on it). *)
Definition RecentTransactions (n : Z) (j : Journal) : result (list TxRecord) :=
  let n := if j_histLen j <? n then j_histLen j else n in
  if n <? 0 then Panic
  else Ok ((fun i => j_history j !!! Z.to_nat (Z.rem (j_histPos j - 1 - i + 64) 64)) <$> seqZ 0 n).

(** The device and the journal. *)
Definition jstate : Type := BlockDevice * Journal.

Definition onDisk {A} (m : M BlockDevice A) : M jstate A := zoom fst (fun d s => (d, s.2)) m.
Definition modJournal (f : Journal -> Journal) : M jstate unit := modify (fun s => (s.1, f s.2)).

Definition JSetEventHook (on : bool) : M jstate unit :=
  modJournal (with_jemit (if on then Some [] else None)).

(** The loop of [Init] and [Checkpoint]. *)
Definition zeroArea (msg : string) : M jstate unit :=
  j ← gets snd;
  forEach (fun i => wrapErr msg [j_start j + i] (onDisk (WriteBlock (u32 (j_start j + i)) zeroBlock)))
    (seqZ 0 (j_length j)).

Definition Init : M jstate unit :=
  zeroArea "journal: init block %d: %w" ;;
  modJournal (with_head 0) ;;
  modJournal (with_sequence 1).

Definition Checkpoint : M jstate unit :=
  zeroArea "journal: checkpoint block %d: %w" ;;
  modJournal (with_head 0).

Definition allocBlocks (n : Z) : M jstate Z :=
  j ← gets snd;
  failIf (j_length j <? n)
    (Errorf "journal: transaction too large (%d blocks, max %d)" [n; j_length j]) ;;
  modJournal (fun j => if j_length j <? u32 (j_head j + n) then with_head 0 j else j) ;;
  off ← gets (fun s => j_head s.2);
  modJournal (fun j => with_head (u32 (j_head j + n)) j) ;;
  mret off.

Definition writeJournalBlock (offset : Z) (data : block) : M jstate unit :=
  j ← gets snd;
  onDisk (WriteBlock (u32 (j_start j + offset)) data).

Definition readJournalBlock (offset : Z) : M jstate block :=
  j ← gets snd;
  onDisk (ReadBlock (u32 (j_start j + offset))).

Definition CurrentSequence (j : Journal) : Z := j_sequence j.

(** ** Transactions *)

Record txBlock : Type := mkTxBlock { tb_addr : Z; tb_data : block }.

Record JournalTransaction : Type := mkTransaction {
  t_sequence : Z;
  t_blocks : list txBlock;
}.

Definition OpenTransaction : M jstate JournalTransaction :=
  modJournal (fun j => with_sequence (u32 (j_sequence j + 1)) j) ;;
  seq ← gets (fun s => j_sequence s.2);
  mret (mkTransaction seq []).

Definition LogBlock (addr : Z) (data : block) (t : JournalTransaction) : result JournalTransaction :=
  if negb (Z.of_nat (length data) =? BlockSize) then
    Err (Errorf "journal: LogBlock data must be %d bytes" [BlockSize])
  else Ok (mkTransaction (t_sequence t) (t_blocks t ++ [mkTxBlock addr data])).

(** The [descIdx]-th descriptor block, for the next [n] of the transaction's
    blocks; [total] is the number of all of them. *)
Definition descriptor_puts (sequence descIdx total : Z) (addrs : list Z) : list put :=
  header_puts (mkHeader JBD2_MAGIC JBD2_DESCRIPTOR sequence) ++
  (if descIdx =? 0 then [put32be firstDescriptorCountOffset (u32 total)] else []) ++
  imap (fun i addr =>
    put32be ((if descIdx =? 0 then firstDescriptorTagsOffset else otherDescriptorTagsOffset) + 4 * i) addr)
    addrs.
Definition makeDescriptor (sequence descIdx total : Z) (addrs : list Z) : block :=
  putAll (descriptor_puts sequence descIdx total addrs) zeroBlock.

(** The loop over the descriptor blocks: [rest] is [t.blocks[index:]]. *)
Fixpoint writeDescriptors (n : nat) (descIdx off sequence total : Z) (rest : list txBlock) : M jstate unit :=
  match n with
  | O => mret tt
  | S n =>
      let capacity := if descIdx =? 0 then firstDescriptorCapacity else otherDescriptorCapacity in
      let k := Z.to_nat (Z.min (Z.of_nat (length rest)) capacity) in
      wrapErr "journal: write descriptor %d: %w" [descIdx]
        (writeJournalBlock (u32 (off + descIdx))
           (makeDescriptor sequence descIdx total (tb_addr <$> take k rest))) ;;
      writeDescriptors n (descIdx + 1) off sequence total (drop k rest)
  end.

(** The loop over the data blocks, with the running checksum. *)
Fixpoint writeData (i dataOff crc : Z) (blocks : list txBlock) : M jstate Z :=
  match blocks with
  | [] => mret crc
  | tb :: blocks =>
      wrapErr "journal: write data block %d: %w" [i]
        (writeJournalBlock (u32 (dataOff + i)) (tb_data tb)) ;;
      writeData (i + 1) dataOff (crc32_write crc (tb_data tb)) blocks
  end.

Definition commit_puts (sequence crc : Z) : list put :=
  header_puts (mkHeader JBD2_MAGIC JBD2_COMMIT sequence) ++ [put32be 12 crc].
Definition makeCommit (sequence crc : Z) : block := putAll (commit_puts sequence crc) zeroBlock.

(** Steps 1 to 3: the whole transaction in the journal area. *)
Definition logTransaction (t : JournalTransaction) : M jstate unit :=
  let len := Z.of_nat (length (t_blocks t)) in
  let descBlocks := descriptorBlocksFor len in
  off ← allocBlocks (u32 (descBlocks + len + 1));
  writeDescriptors (Z.to_nat descBlocks) 0 off (t_sequence t) len (t_blocks t) ;;
  crc ← writeData 0 (u32 (off + descBlocks)) 0 (t_blocks t);
  wrapErr "journal: write commit: %w" []
    (writeJournalBlock (u32 (off + descBlocks + len)) (makeCommit (t_sequence t) crc)).

(** Step 4: the home blocks. *)
Definition writeHome (blocks : list txBlock) : M jstate unit :=
  forEach (fun tb => wrapErr "journal: write real block %d: %w" [tb_addr tb]
             (onDisk (WriteBlock (tb_addr tb) (tb_data tb)))) blocks.

Definition Commit (now : Z) (t : JournalTransaction) : M jstate unit :=
  match t_blocks t with
  | [] => mret tt
  | _ =>
      logTransaction t ;;
      wrapErr "journal: sync journal: %w" [] (onDisk Sync) ;;
      writeHome (t_blocks t) ;;
      wrapErr "journal: sync home blocks: %w" [] (onDisk Sync) ;;
      let addrs := tb_addr <$> t_blocks t in
      modJournal (recordTx (mkTxRecord (t_sequence t) "committed" addrs now [])) ;;
      modJournal (fun j => with_jmetrics (Add JournalCommits 1 <$> j_metrics j) j) ;;
      modJournal (fun j => with_jemit (cons ("journal_commit"%string,
        [("txnId"%string, t_sequence t); ("blockCount"%string, Z.of_nat (length (t_blocks t)))] ++
        ((fun a => ("blocks"%string, a)) <$> addrs)) <$> j_emit j) j)
  end.

(** ** Recovery: [internal/journal/recovery.go]

    The state is the device and the log of the hook. *)

Definition rstate : Type := BlockDevice * option (list event).
Definition onRDisk {A} (m : M BlockDevice A) : M rstate A := zoom fst (fun d s => (d, s.2)) m.

(** [for pos+4 <= BlockSize && len(addrs) < totalAddrs]: at most [BlockSize/4]
    turns. *)
Fixpoint readAddrs (fuel : nat) (pos : nat) (desc : block) (totalAddrs : Z) (addrs : list Z) : list Z :=
  match fuel with
  | O => addrs
  | S fuel =>
      if (Nat.leb (pos + 4) BlockLen) && (Z.of_nat (length addrs) <? totalAddrs)
      then readAddrs fuel (pos + 4) desc totalAddrs (addrs ++ [BEUint32 desc pos])
      else addrs
  end.

(** The loop over the descriptors: [None] for an invalid chain. *)
Fixpoint readChain (n : nat) (descIdx start off seq totalAddrs : Z) (blk : block) (addrs : list Z)
    : M rstate (option (list Z)) :=
  match n with
  | O => mret (Some addrs)
  | S n =>
      if descIdx =? 0 then
        readChain n (descIdx + 1) start off seq totalAddrs blk
          (readAddrs 1024 firstDescriptorTagsOffset blk totalAddrs addrs)
      else
        desc ← wrapErr "journal: recover read descriptor %d: %w" [descIdx]
          (onRDisk (ReadBlock (u32 (start + off + descIdx))));
        let descHdr := DecodeHeader desc in
        if negb (h_Magic descHdr =? JBD2_MAGIC) || negb (h_BlockType descHdr =? JBD2_DESCRIPTOR)
           || negb (h_Sequence descHdr =? seq)
        then mret None
        else readChain n (descIdx + 1) start off seq totalAddrs blk
               (readAddrs 1024 otherDescriptorTagsOffset desc totalAddrs addrs)
  end.

Fixpoint readData (n : nat) (addr crc : Z) (dataBlocks : list block) : M rstate (list block * Z) :=
  match n with
  | O => mret (dataBlocks, crc)
  | S n =>
      db ← wrapErr "journal: recover read data block: %w" [] (onRDisk (ReadBlock (u32 addr)));
      readData n (addr + 1) (crc32_write crc db) (dataBlocks ++ [db])
  end.

(** One turn of the loop: the next offset, or [None] for [break]. *)
Definition recoverStep (start length off : Z) : M rstate (option Z) :=
  blk ← wrapErr "journal: recover read block %d: %w" [u32 (start + off)]
    (onRDisk (ReadBlock (u32 (start + off))));
  let hdr := DecodeHeader blk in
  if negb (h_Magic hdr =? JBD2_MAGIC) || negb (h_BlockType hdr =? JBD2_DESCRIPTOR)
  then mret (Some (off + 1))
  else
  let seq := h_Sequence hdr in
  let totalAddrs := BEUint32 blk firstDescriptorCountOffset in
  if totalAddrs <=? 0 then mret (Some (off + 1))
  else
  let descBlocks := descriptorBlocksFor totalAddrs in
  chain ← readChain (Z.to_nat descBlocks) 0 start off seq totalAddrs blk [];
  match chain with
  | None => mret (Some (off + 1))
  | Some addrs =>
      let len := Z.of_nat (List.length addrs) in
      if negb (len =? totalAddrs) then mret (Some (off + 1))
      else
      let needed := u32 (descBlocks + len + 1) in
      if length <? u32 (off + needed) then mret None
      else
      '(dataBlocks, crc) ← readData (Z.to_nat len) (start + off + descBlocks) 0 [];
      commitBlk ← wrapErr "journal: recover read commit: %w" []
        (onRDisk (ReadBlock (u32 (start + off + descBlocks + len))));
      let commitHdr := DecodeHeader commitBlk in
      if negb (h_Magic commitHdr =? JBD2_MAGIC) || negb (h_BlockType commitHdr =? JBD2_COMMIT)
         || negb (h_Sequence commitHdr =? seq)
      then mret (Some (off + 1))
      else if negb (BEUint32 commitBlk 12 =? crc) then mret (Some (off + 1))
      else
        forEach (fun ad : Z * block => wrapErr "journal: recover write block %d: %w" [ad.1]
                   (onRDisk (WriteBlock ad.1 ad.2))) (zip addrs dataBlocks) ;;
        modify (fun s => (s.1, cons ("journal_recover"%string,
          [("txnId"%string, seq); ("blockCount"%string, len)] ++
          ((fun a => ("blocks"%string, a)) <$> addrs)) <$> s.2)) ;;
        mret (Some (u32 (off + needed)))
  end.

(** The loop, with a bound on its turns; running out of it is a panic, which
    [recover_terminates] excludes. *)
Fixpoint recoverLoop (fuel : nat) (start length off : Z) : M rstate unit :=
  if off <? length then
    match fuel with
    | O => panic
    | S fuel =>
        next ← recoverStep start length off;
        match next with
        | None => mret tt
        | Some off => recoverLoop fuel start length off
        end
    end
  else mret tt.

Definition RecoverWithHook (start length : Z) : M rstate unit :=
  if length =? 0 then mret tt else recoverLoop (Z.to_nat length) start length 0.

Definition Recover (start length : Z) : M BlockDevice unit := fun d =>
  let '(r, s) := RecoverWithHook start length (d, None) in (r, s.1).
