(* ===== verification/Recovery.v ===== *)
(** * Recovery: what the journal promises

    The layout of a transaction in the journal area ([encodeTx]), the replay
    of a journal that holds a sequence of transactions, and the atomicity of
    [Commit] followed by a crash and [Recover], at every point of failure. *)

From S2P Require Export Journal.

(** ** Writes and reads of big-endian sequences *)

Lemma BEUint32_putAll ps buf i off v :
  layout_ok (length buf) (extents ps) = true -> ps !! i = Some (put32be off v) ->
  BEUint32 (putAll ps buf) off = u32 v.
Proof.
  intros H Hi. pose proof (slice_putAll _ _ _ _ H Hi) as E.
  change (slice off 4 (putAll ps buf) = be_enc 4 v) in E. by rewrite /BEUint32 E be_dec_enc.
Qed.

Lemma layout_app n a b :
  layout_ok n (a ++ b) = layout_ok n a && layout_ok n b && forallb (fun e => forallb (disj1 e) b) a.
Proof.
  induction a as [|e a IH]; simpl; [by rewrite andb_true_r|].
  rewrite IH forallb_app. destruct (Nat.leb _ n), (forallb (disj1 e) a), (forallb (disj1 e) b),
    (layout_ok n a), (layout_ok n b), (forallb _ a); done.
Qed.

(** A run of 32-bit words from [base]. *)
Definition words (base : nat) (l : list Z) : list put := imap (fun i v => put32be (base + 4 * i) v) l.

Lemma words_cons base v l : words base (v :: l) = put32be base v :: words (base + 4) l.
Proof.
  rewrite /words imap_cons. f_equal; [f_equal; lia|]. apply imap_ext. intros i x _. simpl. f_equal. lia.
Qed.

Lemma words_above off base l :
  (off + 4 <= base)%nat -> forallb (disj1 (off, 4%nat)) (extents (words base l)) = true.
Proof.
  revert base. induction l as [|v l IH]; intros base H; [done|].
  rewrite words_cons /= IH; [lia|]. rewrite andb_true_r /disj1 /=. apply orb_true_iff. left.
  apply Nat.leb_le. lia.
Qed.

Lemma words_layout base l n :
  (base + 4 * length l <= n)%nat -> layout_ok n (extents (words base l)) = true.
Proof.
  revert base. induction l as [|v l IH]; intros base H; [done|].
  rewrite words_cons /= in H *. rewrite words_above ?IH; [lia..|]. rewrite !andb_true_r.
  apply Nat.leb_le. lia.
Qed.

Lemma words_lookup base l i v :
  l !! i = Some v -> words base l !! i = Some (put32be (base + 4 * i) v).
Proof. intros H. by rewrite /words list_lookup_imap H. Qed.

(** ** The checksum is a 32-bit word *)

Lemma lxor_range k a b : 0 <= k -> 0 <= a < 2 ^ k -> 0 <= b < 2 ^ k -> 0 <= Z.lxor a b < 2 ^ k.
Proof.
  intros Hk Ha Hb. assert (0 <= Z.lxor a b) as H0 by (apply Z.lxor_nonneg; lia).
  split; [done|]. destruct (Z.eq_dec (Z.lxor a b) 0) as [->|Hne]; [lia|].
  apply Z.log2_lt_pow2; [lia|].
  pose proof (Z.log2_lxor a b ltac:(lia) ltac:(lia)) as HL.
  assert (forall x, 0 <= x < 2 ^ k -> 0 < k -> Z.log2 x < k) as HX.
  { intros x Hx Hk0. destruct (Z.eq_dec x 0) as [->|]; [done|]. apply Z.log2_lt_pow2; lia. }
  destruct (Z.eq_dec k 0) as [->|]; [|pose proof (HX a Ha); pose proof (HX b Hb); lia].
  assert (a = 0) as -> by lia. assert (b = 0) as -> by lia. done.
Qed.

Lemma crc_bit_range c : is_u32 c -> is_u32 (crc_bit c).
Proof.
  intros Hc. rewrite /crc_bit /is_u32 in Hc *.
  assert (0 <= Z.shiftr c 1 < 2 ^ 32) as Hs.
  { rewrite Z.shiftr_div_pow2 //. change (2 ^ 1) with 2.
    pose proof (Z.div_mod c 2). pose proof (Z.mod_pos_bound c 2). lia. }
  destruct (Z.odd c); [apply lxor_range; lia|done].
Qed.

Lemma crc_byte_range c b : is_u32 c -> is_u32 (crc_byte c b).
Proof.
  intros Hc. rewrite /crc_byte.
  assert (is_u32 (Z.lxor c (b2z b))) as H.
  { apply lxor_range; [lia|done|]. pose proof (b2z_range b). lia. }
  do 8 (apply crc_bit_range in H). exact H.
Qed.

Lemma crc32_write_range c data : is_u32 c -> is_u32 (crc32_write c data).
Proof.
  intros Hc. rewrite /crc32_write. apply lxor_range; [lia| |lia].
  assert (is_u32 (Z.lxor c 0xFFFFFFFF)) as H by (apply lxor_range; [lia|done|lia]).
  revert H. generalize (Z.lxor c 0xFFFFFFFF). induction data as [|b data IH]; intros x Hx; [done|].
  apply IH. by apply crc_byte_range.
Qed.

(** ** The blocks of one transaction *)

Definition tagsOffset (descIdx : Z) : nat :=
  if descIdx =? 0 then firstDescriptorTagsOffset else otherDescriptorTagsOffset.
Definition capacityOf (descIdx : Z) : Z :=
  if descIdx =? 0 then firstDescriptorCapacity else otherDescriptorCapacity.

Fixpoint encodeDescriptors (n : nat) (descIdx sequence total : Z) (rest : list txBlock) : list block :=
  match n with
  | O => []
  | S n =>
      let k := Z.to_nat (Z.min (Z.of_nat (length rest)) (capacityOf descIdx)) in
      makeDescriptor sequence descIdx total (tb_addr <$> take k rest)
      :: encodeDescriptors n (descIdx + 1) sequence total (drop k rest)
  end.

Definition crcOf (crc : Z) (blocks : list txBlock) : Z :=
  foldl (fun c tb => crc32_write c (tb_data tb)) crc blocks.

Definition numBlocks (t : JournalTransaction) : Z := Z.of_nat (length (t_blocks t)).
Definition numDescs (t : JournalTransaction) : Z := descriptorBlocksFor (numBlocks t).
Definition txLen (t : JournalTransaction) : Z := numDescs t + numBlocks t + 1.

Definition encodeTx (t : JournalTransaction) : list block :=
  encodeDescriptors (Z.to_nat (numDescs t)) 0 (t_sequence t) (numBlocks t) (t_blocks t) ++
  (tb_data <$> t_blocks t) ++
  [makeCommit (t_sequence t) (crcOf 0 (t_blocks t))].

(** A transaction that can be logged: at least one block, 32-bit fields. *)
Record wf_tx (t : JournalTransaction) : Prop := {
  wt_seq : is_u32 (t_sequence t);
  wt_len : 0 < numBlocks t < 2 ^ 20;
  wt_blocks : Forall (fun tb => is_u32 (tb_addr tb) /\ length (tb_data tb) = BlockLen) (t_blocks t);
}.

Lemma firstCap : firstDescriptorCapacity = 1020.
Proof. done. Qed.
Lemma otherCap : otherDescriptorCapacity = 1021.
Proof. done. Qed.

Lemma descriptor_layout sequence descIdx total addrs :
  Z.of_nat (length addrs) <= capacityOf descIdx ->
  layout_ok BlockLen (extents (descriptor_puts sequence descIdx total addrs)) = true.
Proof.
  intros Hl. rewrite /descriptor_puts /capacityOf in Hl *.
  change (imap _ addrs) with (words (tagsOffset descIdx) addrs). rewrite /tagsOffset.
  destruct (descIdx =? 0); rewrite ?firstCap ?otherCap in Hl.
  - rewrite /extents !fmap_app -!/(extents _) !layout_app.
    rewrite words_layout; [change firstDescriptorTagsOffset with 16%nat; lia|].
    by rewrite /= !words_above; [unfold firstDescriptorTagsOffset, firstDescriptorCountOffset; lia..|].
  - rewrite /extents !fmap_app -!/(extents _) !layout_app.
    rewrite words_layout; [change otherDescriptorTagsOffset with 12%nat; lia|].
    by rewrite /= !words_above; [unfold otherDescriptorTagsOffset; lia..|].
Qed.

Lemma length_makeDescriptor sequence descIdx total addrs :
  Z.of_nat (length addrs) <= capacityOf descIdx ->
  length (makeDescriptor sequence descIdx total addrs) = BlockLen.
Proof.
  intros Hl. rewrite /makeDescriptor length_putAll length_zeroBlock //. by apply descriptor_layout.
Qed.

Lemma length_makeCommit sequence crc : length (makeCommit sequence crc) = BlockLen.
Proof. rewrite /makeCommit length_putAll length_zeroBlock //. Qed.

Lemma decode_descriptor sequence descIdx total addrs :
  is_u32 sequence -> Z.of_nat (length addrs) <= capacityOf descIdx ->
  DecodeHeader (makeDescriptor sequence descIdx total addrs)
  = mkHeader JBD2_MAGIC JBD2_DESCRIPTOR sequence.
Proof.
  intros Hs Hl. pose proof (descriptor_layout sequence descIdx total addrs Hl) as H.
  rewrite -length_zeroBlock in H. rewrite /DecodeHeader /makeDescriptor.
  rewrite (BEUint32_putAll _ _ 0 _ JBD2_MAGIC H) // (BEUint32_putAll _ _ 1 _ JBD2_DESCRIPTOR H) //.
  rewrite (BEUint32_putAll _ _ 2 _ sequence H) // (u32_small sequence) //.
Qed.

Lemma descriptor_count sequence total addrs :
  0 <= total < 2 ^ 32 -> Z.of_nat (length addrs) <= capacityOf 0 ->
  BEUint32 (makeDescriptor sequence 0 total addrs) firstDescriptorCountOffset = total.
Proof.
  intros Ht Hl. pose proof (descriptor_layout sequence 0 total addrs Hl) as H.
  rewrite -length_zeroBlock in H. rewrite /makeDescriptor.
  rewrite (BEUint32_putAll _ _ 3 _ (u32 total) H) //. by rewrite !u32_small.
Qed.

Lemma descriptor_addr sequence descIdx total addrs i a :
  Z.of_nat (length addrs) <= capacityOf descIdx -> addrs !! i = Some a -> is_u32 a ->
  BEUint32 (makeDescriptor sequence descIdx total addrs) (tagsOffset descIdx + 4 * i) = a.
Proof.
  intros Hl Hi Ha. pose proof (descriptor_layout sequence descIdx total addrs Hl) as H.
  rewrite -length_zeroBlock in H. rewrite -[RHS](u32_small a) // /makeDescriptor.
  pose proof (words_lookup (tagsOffset descIdx) _ _ _ Hi) as Hw.
  eapply (BEUint32_putAll _ _ (Nat.add (if descIdx =? 0 then 4%nat else 3%nat) i) _ a H).
  rewrite /descriptor_puts. change (imap _ addrs) with (words (tagsOffset descIdx) addrs).
  by destruct (descIdx =? 0).
Qed.

Lemma decode_commit sequence crc :
  is_u32 sequence -> is_u32 crc ->
  DecodeHeader (makeCommit sequence crc) = mkHeader JBD2_MAGIC JBD2_COMMIT sequence /\
  BEUint32 (makeCommit sequence crc) 12 = crc.
Proof.
  intros Hs Hc. assert (layout_ok (length zeroBlock) (extents (commit_puts sequence crc)) = true) as H.
  { by rewrite length_zeroBlock. }
  rewrite /DecodeHeader /makeCommit.
  rewrite (BEUint32_putAll _ _ 0 _ JBD2_MAGIC H) // (BEUint32_putAll _ _ 1 _ JBD2_COMMIT H) //.
  rewrite (BEUint32_putAll _ _ 2 _ sequence H) // (BEUint32_putAll _ _ 3 _ crc H) //.
  by rewrite !(u32_small sequence) // !(u32_small crc).
Qed.

(** The addresses read from a block that holds [l] from [pos] on. *)
Lemma readAddrs_spec fuel pos desc total acc l :
  (forall i a, l !! i = Some a -> BEUint32 desc (pos + 4 * i) = a) ->
  (length l < fuel)%nat -> (pos + 4 * length l <= BlockLen)%nat ->
  Z.of_nat (length acc + length l) <= total ->
  ((BlockLen < pos + 4 * length l + 4)%nat \/ Z.of_nat (length acc + length l) = total) ->
  readAddrs fuel pos desc total acc = acc ++ l.
Proof.
  revert pos acc l. induction fuel as [|fuel IH]; intros pos acc l Hl Hf Hp Ht Hend; [lia|].
  simpl readAddrs. destruct l as [|a l]; simpl length in *.
  - rewrite app_nil_r. destruct (Nat.leb (pos + 4) BlockLen) eqn:E1; [|done].
    destruct (Z.of_nat (length acc) <? total) eqn:E2; [|done]. apply Nat.leb_le in E1. simpl_bool. lia.
  - replace (Nat.leb (pos + 4) BlockLen) with true by (symmetry; apply Nat.leb_le; lia).
    replace (Z.of_nat (length acc) <? total) with true by (symmetry; apply Z.ltb_lt; lia).
    cbn [andb]. rewrite (IH _ _ l); [| | | | |by rewrite -app_assoc -(Hl 0%nat a) // Nat.mul_0_r Nat.add_0_r].
    + intros i x Hi. rewrite -(Hl (S i) x) //. f_equal. lia.
    + lia.
    + lia.
    + rewrite length_app /=. lia.
    + rewrite length_app /=. lia.
Qed.

Lemma readAddrs_bound fuel pos desc total acc :
  (4 * length (readAddrs fuel pos desc total acc) <= 4 * length acc + (BlockLen - pos))%nat.
Proof.
  revert pos acc. induction fuel as [|fuel IH]; intros pos acc; simpl readAddrs; [lia|].
  destruct (Nat.leb (pos + 4) BlockLen && _) eqn:E; [|lia]. apply andb_true_iff in E as [E _].
  apply Nat.leb_le in E. specialize (IH (pos + 4)%nat (acc ++ [BEUint32 desc pos])).
  rewrite length_app /= in IH. lia.
Qed.

#[global] Arguments readAddrs : simpl never.

(** ** Blocks at consecutive addresses *)

Definition holds (d : BlockDevice) (base : Z) (l : list block) : Prop :=
  forall i b, l !! i = Some b -> peek d (base + Z.of_nat i) = b.

Lemma holds_app d base l k :
  holds d base (l ++ k) <-> holds d base l /\ holds d (base + Z.of_nat (length l)) k.
Proof.
  split.
  - intros H. split; intros i b Hi.
    + apply H. by apply lookup_app_l_Some.
    + rewrite -Z.add_assoc -Nat2Z.inj_add. apply H. rewrite lookup_app_r; [lia|].
      by rewrite Nat.add_comm Nat.add_sub.
  - intros [H1 H2] i b Hi. apply lookup_app_Some in Hi as [Hi|[Hle Hi]]; [by apply H1|].
    rewrite -(H2 _ _ Hi). f_equal. lia.
Qed.

Lemma holds_cons d base b l : holds d base (b :: l) <-> peek d base = b /\ holds d (base + 1) l.
Proof.
  rewrite (holds_app _ _ [b] l). cbn [length]. split; intros [H1 H2]; (split; [|done]).
  - rewrite -(H1 0%nat b) //. f_equal. lia.
  - intros i x Hi. destruct i; simplify_eq/=. by rewrite Z.add_0_r.
Qed.

Section reads.
Context (d : BlockDevice) (h : option (list event)) (start len : Z).
Hypothesis (Hh : healthy d) (Hs : 0 <= start) (Hlen : 0 <= len < 2 ^ 20) (Hend : start + len <= BlockCount d)
  (Hcount : BlockCount d < 2 ^ 31).

Lemma rread off fmt args :
  0 <= off < len ->
  wrapErr fmt args (onRDisk (ReadBlock (u32 (start + off)))) (d, h) = (Ok (peek d (start + off)), (d, h)).
Proof.
  intros Ho. apply wrapErr_ok. rewrite u32_small; [lia|].
  rewrite /onRDisk /zoom. cbn [fst snd]. rewrite ReadBlock_ok //. lia.
Qed.

(** The checksum and the blocks read from the journal. *)
Lemma readData_ok n off crc acc blocks :
  0 <= off -> off + Z.of_nat n <= len -> length blocks = n -> holds d (start + off) (tb_data <$> blocks) ->
  readData n (start + off) crc acc (d, h)
  = (Ok (acc ++ (tb_data <$> blocks), crcOf crc blocks), (d, h)).
Proof.
  revert off crc acc blocks. induction n as [|n IH]; intros off crc acc blocks Ho Hn Hl Hb.
  - destruct blocks; [|done]. by rewrite /= app_nil_r.
  - destruct blocks as [|tb blocks]; [done|]. simpl in Hl. injection Hl as Hl.
    rewrite fmap_cons holds_cons in Hb. destruct Hb as [Hb Hbs]. simpl readData.
    rewrite (bind_ok _ _ _ _ _ (rread off _ _ ltac:(lia))) Hb.
    replace (start + off + 1) with (start + (off + 1)) in Hbs |- * by lia.
    rewrite (IH (off + 1) _ _ blocks) //; [lia..|]. by rewrite -app_assoc.
Qed.

Lemma readData_any n off crc acc :
  0 <= off -> off + Z.of_nat n <= len ->
  exists r, readData n (start + off) crc acc (d, h) = (Ok r, (d, h)).
Proof.
  revert off crc acc. induction n as [|n IH]; intros off crc acc Ho Hn; simpl; [eauto|].
  rewrite (bind_ok _ _ _ _ _ (rread off _ _ ltac:(lia))).
  replace (start + off + 1) with (start + (off + 1)) by lia. apply IH; lia.
Qed.

(** The [n] descriptors from [descIdx] on have room for [rest]. *)
Definition fits (n : nat) (descIdx : Z) (rest : list txBlock) : Prop :=
  match n with
  | O => rest = []
  | S n => Z.of_nat (length rest) <= capacityOf descIdx + 1021 * Z.of_nat n
  end.

Lemma capacity_cases descIdx :
  (descIdx = 0 /\ capacityOf descIdx = 1020 /\ tagsOffset descIdx = 16%nat) \/
  (descIdx <> 0 /\ capacityOf descIdx = 1021 /\ tagsOffset descIdx = 12%nat).
Proof.
  rewrite /capacityOf /tagsOffset. destruct (descIdx =? 0) eqn:E; simpl_bool; [left|right]; done.
Qed.

Lemma capacity_range descIdx : 1020 <= capacityOf descIdx <= 1021.
Proof. destruct (capacity_cases descIdx) as [(_ & -> & _)|(_ & -> & _)]; lia. Qed.

Lemma fits_next n descIdx rest :
  0 <= descIdx -> fits (S n) descIdx rest ->
  let k := Z.to_nat (Z.min (Z.of_nat (length rest)) (capacityOf descIdx)) in
  fits n (descIdx + 1) (drop k rest).
Proof.
  intros Hd Hf k. rewrite /fits in Hf *. destruct (capacity_cases descIdx) as [(_ & Hc & _)|(_ & Hc & _)];
    destruct n as [|n].
  1,3: apply drop_ge; lia.
  all: rewrite length_drop /capacityOf; replace (descIdx + 1 =? 0) with false by (symmetry; apply Z.eqb_neq; lia);
    rewrite otherCap; lia.
Qed.

(** One descriptor read back. *)
Lemma readAddrs_descriptor descIdx seq total0 rest acc total :
  Forall (fun tb => is_u32 (tb_addr tb)) rest -> Z.of_nat (length acc + length rest) = total ->
  let k := Z.to_nat (Z.min (Z.of_nat (length rest)) (capacityOf descIdx)) in
  readAddrs 1024 (tagsOffset descIdx) (makeDescriptor seq descIdx total0 (tb_addr <$> take k rest)) total acc
  = acc ++ (tb_addr <$> take k rest).
Proof.
  intros Hu Ht k. pose proof (capacity_range descIdx) as Hcap. assert (length (tb_addr <$> take k rest) = k) as Hk.
  { rewrite length_fmap length_take. lia. }
  apply readAddrs_spec.
  - intros i a Hi. apply descriptor_addr; [lia|done|].
    apply list_elem_of_lookup_2, list_elem_of_fmap in Hi as (tb & -> & Hi).
    apply (Forall_take _ k) in Hu. rewrite ->Forall_forall in Hu. by apply Hu.
  - rewrite Hk. destruct (capacity_cases descIdx) as [(_ & Hc & _)|(_ & Hc & _)]; lia.
  - rewrite Hk. destruct (capacity_cases descIdx) as [(_ & Hc & Hp)|(_ & Hc & Hp)]; rewrite Hp; lia.
  - rewrite Hk. lia.
  - rewrite Hk. destruct (capacity_cases descIdx) as [(_ & Hc & Hp)|(_ & Hc & Hp)]; rewrite Hp; lia.
Qed.

Lemma readChain_ok n descIdx off seq total0 total blk acc rest :
  0 <= off -> 0 <= descIdx -> off + descIdx + Z.of_nat n <= len ->
  is_u32 seq -> Forall (fun tb => is_u32 (tb_addr tb)) rest ->
  Z.of_nat (length acc + length rest) = total -> fits n descIdx rest ->
  holds d (start + off + descIdx) (encodeDescriptors n descIdx seq total0 rest) ->
  (descIdx = 0 -> blk = peek d (start + off)) ->
  readChain n descIdx start off seq total blk acc (d, h)
  = (Ok (Some (acc ++ (tb_addr <$> rest))), (d, h)).
Proof.
  revert descIdx acc rest. induction n as [|n IH]; intros descIdx acc rest Ho Hd Hn Hseq Hu Ht Hf Hb Hblk.
  { simpl in Hf. subst. by rewrite /= app_nil_r. }
  simpl encodeDescriptors in Hb. apply holds_cons in Hb as [Hb Hbs].
  pose proof (capacity_range descIdx) as Hcap.
  pose proof (fits_next n descIdx rest Hd Hf) as Hf'.
  pose proof (readAddrs_descriptor descIdx seq total0 rest acc total Hu Ht) as HR. cbv zeta in HR, Hf'.
  set (k := Z.to_nat (Z.min (Z.of_nat (length rest)) (capacityOf descIdx))) in *.
  assert (readChain n (descIdx + 1) start off seq total blk (acc ++ (tb_addr <$> take k rest)) (d, h)
          = (Ok (Some (acc ++ (tb_addr <$> rest))), (d, h))) as Hrec.
  { rewrite (IH _ _ (drop k rest)); [done|lia|lia|done|by apply Forall_drop| |done| |lia|].
    - rewrite length_app length_fmap length_take length_drop. lia.
    - by rewrite Z.add_assoc.
    - by rewrite -app_assoc -fmap_app take_drop. }
  cbn [readChain]. destruct (descIdx =? 0) eqn:E.
  - simpl_bool. subst descIdx. rewrite Hblk // -(Z.add_0_r (start + off)) Hb.
    change firstDescriptorTagsOffset with (tagsOffset 0). rewrite HR -Hb Z.add_0_r -Hblk //.
  - replace (start + off + descIdx) with (start + (off + descIdx)) by lia.
    rewrite (bind_ok _ _ _ _ _ (rread (off + descIdx) _ _ ltac:(lia))).
    cbv beta zeta. rewrite Z.add_assoc Hb decode_descriptor //=.
    { rewrite length_fmap length_take. lia. }
    rewrite Z.eqb_refl. cbn [negb orb].
    assert (otherDescriptorTagsOffset = tagsOffset descIdx) as -> by by rewrite /tagsOffset E.
    by rewrite HR.
Qed.

(** ** Blocks that recovery passes over *)

Definition is_desc (b : block) : Prop :=
  h_Magic (DecodeHeader b) = JBD2_MAGIC /\ h_BlockType (DecodeHeader b) = JBD2_DESCRIPTOR.
Definition is_commit (b : block) : Prop :=
  h_Magic (DecodeHeader b) = JBD2_MAGIC /\ h_BlockType (DecodeHeader b) = JBD2_COMMIT.

(** From [off] on the area holds no commit block, and its last block is no
    descriptor. *)
Definition clean_from (off : Z) : Prop :=
  (forall i, off <= i < len -> ~ is_commit (peek d (start + i))) /\
  (off < len -> ~ is_desc (peek d (start + (len - 1)))).

Lemma readChain_any n descIdx off seq total blk acc :
  0 <= off -> 0 <= descIdx -> off + descIdx <= len -> off < len ->
  ~ is_desc (peek d (start + (len - 1))) ->
  (0 < descIdx -> is_desc (peek d (start + (off + descIdx - 1)))) ->
  (descIdx = 0 -> is_desc (peek d (start + off))) ->
  exists r, readChain n descIdx start off seq total blk acc (d, h) = (Ok r, (d, h)) /\
    forall addrs, r = Some addrs -> off + descIdx + Z.of_nat n <= len /\
      Z.of_nat (length addrs) <= Z.of_nat (length acc) + 1021 * Z.of_nat n.
Proof.
  intros Ho Hd Hle Hlt Hlast. revert descIdx acc Hd Hle. induction n as [|n IH]; intros descIdx acc Hd Hle Hprev H0.
  { exists (Some acc). split; [done|]. intros addrs [= <-]. lia. }
  assert (off + descIdx < len) as Hlt2.
  { destruct (decide (off + descIdx = len)) as [E|]; [|lia]. destruct (decide (descIdx = 0)); [lia|].
    exfalso. apply Hlast. rewrite -E. apply Hprev. lia. }
  assert (forall desc pos, Z.of_nat (length (readAddrs 1024 pos desc total acc))
            <= Z.of_nat (length acc) + 1021 \/ (pos < 12)%nat) as Hb.
  { intros desc pos. pose proof (readAddrs_bound 1024 pos desc total acc).
    destruct (decide (pos < 12)%nat); [by right|left]. lia. }
  cbn [readChain]. destruct (descIdx =? 0) eqn:E; simpl_bool.
  - subst. destruct (IH (0 + 1) (readAddrs 1024 firstDescriptorTagsOffset blk total acc)) as (r & -> & Hr); [lia|lia| |done|].
    { intros _. replace (off + (0 + 1) - 1) with off by lia. by apply H0. }
    exists r. split; [done|]. intros addrs Ha. specialize (Hr addrs Ha).
    destruct (Hb blk firstDescriptorTagsOffset) as [H|H]; [lia|unfold firstDescriptorTagsOffset in H; lia].
  - replace (start + off + descIdx) with (start + (off + descIdx)) by lia.
    rewrite (bind_ok _ _ _ _ _ (rread (off + descIdx) _ _ ltac:(lia))). cbv beta zeta.
    set (desc := peek d (start + (off + descIdx))).
    destruct (negb (h_Magic (DecodeHeader desc) =? JBD2_MAGIC) || negb (h_BlockType (DecodeHeader desc) =? JBD2_DESCRIPTOR)
      || negb (h_Sequence (DecodeHeader desc) =? seq)) eqn:G; [by exists None|]. simpl_bool.
    destruct (IH (descIdx + 1) (readAddrs 1024 otherDescriptorTagsOffset desc total acc)) as (r & -> & Hr); [lia|lia| |lia|].
    { intros _. replace (off + (descIdx + 1) - 1) with (off + descIdx) by lia. by split. }
    exists r. split; [done|]. intros addrs Ha. specialize (Hr addrs Ha).
    destruct (Hb desc otherDescriptorTagsOffset) as [H'|H']; [lia|unfold otherDescriptorTagsOffset in H'; lia].
Qed.

Lemma recoverStep_clean off :
  0 <= off < len -> clean_from off ->
  recoverStep start len off (d, h) = (Ok (Some (off + 1)), (d, h)) \/
  recoverStep start len off (d, h) = (Ok None, (d, h)).
Proof.
  intros Ho [Hc Hlast]. rewrite /recoverStep (bind_ok _ _ _ _ _ (rread off _ _ Ho)). cbv beta zeta.
  set (blk := peek d (start + off)).
  destruct (negb (h_Magic (DecodeHeader blk) =? JBD2_MAGIC) || negb (h_BlockType (DecodeHeader blk) =? JBD2_DESCRIPTOR)) eqn:G1;
    [by left|]. simpl_bool.
  destruct (BEUint32 blk firstDescriptorCountOffset <=? 0) eqn:G2; [by left|]. simpl_bool.
  set (total := BEUint32 blk firstDescriptorCountOffset) in *.
  assert (1 <= descriptorBlocksFor total) as Hdb.
  { rewrite /descriptorBlocksFor firstCap otherCap. case_if; [done|].
    assert (0 <= (total - 1020 + 1021 - 1) / 1021) by (apply Z.div_pos; lia). lia. }
  destruct (readChain_any (Z.to_nat (descriptorBlocksFor total)) 0 off (h_Sequence (DecodeHeader blk)) total blk [])
    as (r & Er & Hr); [lia|lia|lia|lia|apply Hlast; lia|lia|done|].
  rewrite (bind_ok _ _ _ _ _ Er). destruct r as [addrs|]; [|by left].
  destruct (Hr addrs eq_refl) as [Hn Hlen2].
  destruct (negb (Z.of_nat (length addrs) =? total)) eqn:G3; [by left|]. simpl_bool. simpl length in Hlen2.
  rewrite (u32_small (descriptorBlocksFor total + _ + 1)); [lia|].
  rewrite (u32_small (off + _)); [lia|].
  destruct (len <? off + (descriptorBlocksFor total + Z.of_nat (length addrs) + 1)) eqn:G4; [by right|]. simpl_bool.
  rewrite Nat2Z.id.
  destruct (readData_any (length addrs) (off + descriptorBlocksFor total) 0 []) as ([dbs crc] & Ed); [lia|lia|].
  rewrite Z.add_assoc in Ed. rewrite (bind_ok _ _ _ _ _ Ed). cbv beta zeta.
  set (cpos := off + descriptorBlocksFor total + Z.of_nat (length addrs)).
  replace (start + off + descriptorBlocksFor total + Z.of_nat (length addrs)) with (start + cpos) by (rewrite /cpos; lia).
  rewrite (bind_ok _ _ _ _ _ (rread cpos _ _ ltac:(lia))). cbv beta zeta.
  destruct (negb (h_Magic (DecodeHeader (peek d (start + cpos))) =? JBD2_MAGIC) || _ || _) eqn:G5; [by left|].
  simpl_bool. exfalso. by apply (Hc cpos); [lia|].
Qed.

Lemma recoverLoop_clean fuel off :
  0 <= off -> clean_from off -> len - off <= Z.of_nat fuel ->
  recoverLoop fuel start len off (d, h) = (Ok tt, (d, h)).
Proof.
  revert off. induction fuel as [|fuel IH]; intros off Ho Hc Hf; cbn [recoverLoop].
  - destruct (off <? len) eqn:E; [simpl_bool; lia|done].
  - destruct (off <? len) eqn:E; [simpl_bool|done].
    destruct (recoverStep_clean off) as [E'|E']; [lia|done|rewrite (bind_ok _ _ _ _ _ E')..]; [|done].
    apply IH; [lia| |lia]. destruct Hc as [H1 H2]. split; [intros i Hi; apply H1; lia|intros _; apply H2; lia].
Qed.

End reads.

(** ** Replay *)

Definition applyBlocks (blocks : list txBlock) (d : BlockDevice) : BlockDevice :=
  foldl (fun d tb => poke (tb_addr tb) (tb_data tb) d) d blocks.

(** A block address outside the journal area. *)
Definition is_home (start len a : Z) : Prop := 0 <= a /\ (a < start \/ start + len <= a).

Definition home_blocks (start len count : Z) (blocks : list txBlock) : Prop :=
  Forall (fun tb => is_home start len (tb_addr tb) /\ tb_addr tb < count /\
                    length (tb_data tb) = BlockLen) blocks.

Lemma applyBlocks_facts start len blocks d :
  home_blocks start len (BlockCount d) blocks ->
  (healthy d -> healthy (applyBlocks blocks d)) /\ (wf_dev d -> wf_dev (applyBlocks blocks d)) /\
  BlockCount (applyBlocks blocks d) = BlockCount d /\ dev_file (applyBlocks blocks d) = dev_file d /\
  forall a, 0 <= a -> ~ is_home start len a -> peek (applyBlocks blocks d) a = peek d a.
Proof.
  intros Hb. revert d Hb. induction blocks as [|tb blocks IH]; intros d Hb; [done|].
  apply Forall_cons in Hb as [(Hh & Hlt & Hl) Hb]. simpl.
  destruct (IH (poke (tb_addr tb) (tb_data tb) d)) as (H1 & H2 & H3 & H4 & H5); [done|].
  split_and!; [auto| |done|done|].
  - intros Hwf. apply H2. by apply poke_wf.
  - intros a Ha Hn. rewrite H5 // peek_poke_ne //; [apply Hh|]. by intros <-.
Qed.

Lemma holds_same d d' base l :
  holds d base l -> (forall i, (i < length l)%nat -> peek d' (base + Z.of_nat i) = peek d (base + Z.of_nat i)) ->
  holds d' base l.
Proof. intros H Hs i b Hi. rewrite Hs; [by apply lookup_lt_Some in Hi|]. by apply H. Qed.

(** The effect of [writeHome] and of the writes of recovery. *)
Lemma onRDisk_writes blocks d h start len :
  healthy d -> home_blocks start len (BlockCount d) blocks ->
  forEach (fun ad : Z * block => wrapErr "journal: recover write block %d: %w" [ad.1]
             (onRDisk (WriteBlock ad.1 ad.2))) (zip (tb_addr <$> blocks) (tb_data <$> blocks)) (d, h)
  = (Ok tt, (applyBlocks blocks d, h)).
Proof.
  intros Hh Hb. revert d Hh Hb. induction blocks as [|tb blocks IH]; intros d Hh Hb; [done|].
  apply Forall_cons in Hb as [(Hhome & Hlt & Hl) Hb]. rewrite !fmap_cons /=.
  rewrite (bind_ok _ _ _ tt (poke (tb_addr tb) (tb_data tb) d, h)).
  { apply wrapErr_ok. rewrite /onRDisk /zoom /= WriteBlock_ok //. }
  by apply IH.
Qed.

Lemma numDescs_facts t :
  0 <= numBlocks t ->
  1 <= numDescs t /\ fits (Z.to_nat (numDescs t)) 0 (t_blocks t) /\ numDescs t <= 1 + numBlocks t.
Proof.
  intros Hn. rewrite /numDescs /descriptorBlocksFor firstCap otherCap.
  destruct (numBlocks t <=? 1020) eqn:E; simpl_bool.
  - split_and!; [done| |lia]. change (fits 1 0 (t_blocks t)). rewrite /fits. change (capacityOf 0) with 1020.
    rewrite /numBlocks in E. lia.
  - set (x := numBlocks t - 1020 + 1021 - 1).
    pose proof (Z.div_mod x 1021 ltac:(lia)). pose proof (Z.mod_pos_bound x 1021 ltac:(lia)).
    assert (0 < x / 1021) by (apply Z.div_str_pos; lia).
    split_and!; [lia| |lia]. replace (Z.to_nat (1 + x / 1021)) with (S (Z.to_nat (x / 1021))) by lia.
    rewrite /fits. change (capacityOf 0) with 1020. change (Z.of_nat (length (t_blocks t))) with (numBlocks t). lia.
Qed.

Lemma length_encodeDescriptors n descIdx sequence total rest :
  length (encodeDescriptors n descIdx sequence total rest) = n.
Proof. revert descIdx rest. induction n as [|n IH]; intros descIdx rest; [done|]. simpl. by rewrite IH. Qed.

Lemma length_encodeTx t : 0 <= numBlocks t -> Z.of_nat (length (encodeTx t)) = txLen t.
Proof.
  intros Hn. destruct (numDescs_facts t Hn) as (H & _).
  rewrite /encodeTx !length_app length_encodeDescriptors length_fmap /txLen /=. unfold numBlocks in *. lia.
Qed.

Lemma crcOf_range crc blocks : is_u32 crc -> is_u32 (crcOf crc blocks).
Proof.
  intros H. rewrite /crcOf. revert crc H. induction blocks as [|tb blocks IH]; intros crc H; [done|].
  simpl. apply IH. apply crc32_write_range, H.
Qed.

(** The device and the journal area: all that recovery assumes of them. *)
Record geometry (start len : Z) (d : BlockDevice) : Prop := {
  ge_healthy : healthy d;
  ge_start : 0 <= start;
  ge_len : 0 <= len < 2 ^ 20;
  ge_end : start + len <= BlockCount d;
  ge_count : BlockCount d < 2 ^ 31;
}.

Lemma area_not_home start len off : 0 <= start -> 0 <= off < len -> ~ is_home start len (start + off).
Proof. intros Hs Ho [_ [H|H]]; lia. Qed.

Lemma applyBlocks_geometry start len blocks d :
  geometry start len d -> home_blocks start len (BlockCount d) blocks ->
  geometry start len (applyBlocks blocks d) /\
  forall off, 0 <= off < len -> peek (applyBlocks blocks d) (start + off) = peek d (start + off).
Proof.
  intros [? ? ? ? ?] Hb. destruct (applyBlocks_facts _ _ _ _ Hb) as (H1 & _ & H3 & _ & H5).
  split; [split; rewrite ?H3; auto|]. intros off Ho. apply H5; [lia|by apply area_not_home].
Qed.

(** What the hook is told of a replayed transaction. *)
Definition replay_event (t : JournalTransaction) : event :=
  ("journal_recover"%string,
   [("txnId"%string, t_sequence t); ("blockCount"%string, numBlocks t)] ++
   ((fun a => ("blocks"%string, a)) <$> (tb_addr <$> t_blocks t))).

Lemma recoverStep_tx d h start len off t :
  geometry start len d -> wf_tx t -> 0 <= off -> off + txLen t <= len ->
  holds d (start + off) (encodeTx t) -> home_blocks start len (BlockCount d) (t_blocks t) ->
  recoverStep start len off (d, h)
  = (Ok (Some (off + txLen t)), (applyBlocks (t_blocks t) d, cons (replay_event t) <$> h)).
Proof.
  intros [Hh Hs Hl He Hc] [Hseq Hnb Hbs] Ho Htl Hholds Hhome.
  destruct (numDescs_facts t ltac:(lia)) as (Hd1 & Hfit & Hd2).
  rewrite /encodeTx !holds_app !length_encodeDescriptors length_fmap in Hholds.
  destruct Hholds as (HD & HT & HC). rewrite Z2Nat.id in HT; [lia|]. rewrite Z2Nat.id in HC; [lia|].
  rewrite holds_cons in HC. destruct HC as [HC _].
  assert (Forall (fun tb => is_u32 (tb_addr tb)) (t_blocks t)) as Hu.
  { eapply Forall_impl; [exact Hbs|]. naive_solver. }
  rewrite /txLen in Htl |- *. unfold numBlocks in *.
  set (N := Z.of_nat (length (t_blocks t))) in *.
  assert (peek d (start + off) = makeDescriptor (t_sequence t) 0 N (tb_addr <$> take (Z.to_nat (Z.min N 1020)) (t_blocks t))) as Hfirst.
  { destruct (Z.to_nat (numDescs t)) as [|n] eqn:En; [lia|]. cbn [encodeDescriptors] in HD.
    apply holds_cons in HD as [HD _]. exact HD. }
  assert (Z.of_nat (length (tb_addr <$> take (Z.to_nat (Z.min N 1020)) (t_blocks t))) <= capacityOf 0) as Hcap.
  { rewrite length_fmap length_take. change (capacityOf 0) with 1020. lia. }
  rewrite /recoverStep (bind_ok _ _ _ _ _ (rread d h start len Hh Hs Hl He Hc off _ _ ltac:(lia))).
  assert (DecodeHeader (peek d (start + off)) = mkHeader JBD2_MAGIC JBD2_DESCRIPTOR (t_sequence t)) as Hhdr.
  { by rewrite Hfirst decode_descriptor. }
  assert (BEUint32 (peek d (start + off)) firstDescriptorCountOffset = N) as Hcnt.
  { rewrite Hfirst descriptor_count //. lia. }
  cbv beta zeta. rewrite Hhdr Hcnt. cbn [h_Magic h_BlockType h_Sequence]. rewrite !Z.eqb_refl. cbn [negb orb].
  replace (N <=? 0) with false by (symmetry; apply Z.leb_gt; lia).
  change (descriptorBlocksFor N) with (numDescs t).
  rewrite (bind_ok _ _ _ (Some ([] ++ (tb_addr <$> t_blocks t))) (d, h)).
  { apply (readChain_ok d h start len Hh Hs Hl He Hc _ _ _ _ N); try lia; try done.
    by rewrite Z.add_0_r. }
  rewrite app_nil_l length_fmap -/N Z.eqb_refl. cbn [negb].
  rewrite (u32_small (numDescs t + N + 1)); [lia|]. rewrite (u32_small (off + _)); [lia|].
  replace (len <? off + (numDescs t + N + 1)) with false by (symmetry; apply Z.ltb_ge; lia).
  rewrite (bind_ok _ _ _ (tb_data <$> t_blocks t, crcOf 0 (t_blocks t)) (d, h)).
  { rewrite Nat2Z.id -Z.add_assoc.
    apply (readData_ok d h start len Hh Hs Hl He Hc _ _ _ [] (t_blocks t)); [lia|lia|done|].
    by rewrite Z.add_assoc. }
  cbv beta iota zeta.
  replace (start + off + numDescs t + N) with (start + (off + numDescs t + N)) by lia.
  rewrite (bind_ok _ _ _ _ _ (rread d h start len Hh Hs Hl He Hc (off + numDescs t + N) _ _ ltac:(lia))). cbv beta zeta.
  replace (start + (off + numDescs t + N)) with (start + off + numDescs t + N) by lia. rewrite HC.
  destruct (decode_commit (t_sequence t) (crcOf 0 (t_blocks t)) Hseq ltac:(by apply crcOf_range)) as [-> ->].
  rewrite !Z.eqb_refl. cbn [negb orb].
  rewrite (bind_ok _ _ _ _ _ (onRDisk_writes _ _ _ _ _ Hh Hhome)) //.
Qed.

(** ** Replay of a sequence of transactions *)

Definition journalOf (ts : list JournalTransaction) : list block := ts ≫= encodeTx.
Definition blocksOf (ts : list JournalTransaction) : list txBlock := ts ≫= t_blocks.
Definition totalLen (ts : list JournalTransaction) : Z := Z.of_nat (sum_list_with (fun t => Z.to_nat (txLen t)) ts).

(** A transaction that can be logged on a device of [count] blocks. *)
Definition loggable (start len count : Z) (t : JournalTransaction) : Prop :=
  wf_tx t /\ home_blocks start len count (t_blocks t).

Lemma txLen_pos t : wf_tx t -> 3 <= txLen t.
Proof.
  intros [_ Hn _]. destruct (numDescs_facts t ltac:(lia)) as [H _]. rewrite /txLen. lia.
Qed.

Lemma totalLen_nonneg ts : 0 <= totalLen ts.
Proof. rewrite /totalLen. lia. Qed.

Lemma totalLen_cons t ts : wf_tx t -> totalLen (t :: ts) = txLen t + totalLen ts.
Proof. intros H. apply txLen_pos in H. rewrite /totalLen /=. lia. Qed.

Lemma totalLen_snoc ts t : wf_tx t -> totalLen (ts ++ [t]) = totalLen ts + txLen t.
Proof. intros H. apply txLen_pos in H. rewrite /totalLen sum_list_with_app /=. lia. Qed.

Lemma length_journalOf start len count ts :
  Forall (loggable start len count) ts -> Z.of_nat (length (journalOf ts)) = totalLen ts.
Proof.
  induction 1 as [|t ts [Ht _] _ IH]; [done|].
  rewrite totalLen_cons // /journalOf bind_cons length_app -/(journalOf ts) Nat2Z.inj_add IH length_encodeTx //.
  destruct Ht. lia.
Qed.

Lemma applyBlocks_app a b d : applyBlocks (a ++ b) d = applyBlocks b (applyBlocks a d).
Proof. apply foldl_app. Qed.

Lemma recoverLoop_txs fuel d h start len off ts :
  geometry start len d -> Forall (loggable start len (BlockCount d)) ts ->
  0 <= off -> off + totalLen ts <= len -> len - off <= Z.of_nat fuel ->
  holds d (start + off) (journalOf ts) -> clean_from d start len (off + totalLen ts) ->
  recoverLoop fuel start len off (d, h)
  = (Ok tt, (applyBlocks (blocksOf ts) d, app (rev (replay_event <$> ts)) <$> h)).
Proof.
  revert fuel d h off. induction ts as [|t ts IH]; intros fuel d h off Hg Hts Ho Hlen Hf Hj Hc.
  { rewrite Z.add_0_r in Hc. destruct Hg. rewrite recoverLoop_clean //. by destruct h. }
  apply Forall_cons in Hts as [[Hwf Hhome] Hts]. pose proof (txLen_pos _ Hwf) as Hpos.
  rewrite totalLen_cons // in Hlen Hc. rewrite /journalOf bind_cons -/(journalOf ts) holds_app in Hj.
  destruct Hj as [Hj1 Hj2]. rewrite length_encodeTx in Hj2; [destruct Hwf; lia|].
  pose proof (totalLen_nonneg ts) as Hnn.
  destruct fuel as [|fuel]; [lia|]. cbn [recoverLoop].
  replace (off <? len) with true by (symmetry; apply Z.ltb_lt; lia).
  rewrite (bind_ok _ _ _ _ _ (recoverStep_tx d h start len off t Hg Hwf Ho ltac:(lia) Hj1 Hhome)).
  destruct (applyBlocks_geometry _ _ _ _ Hg Hhome) as [Hg2 Hsame].
  assert (BlockCount (applyBlocks (t_blocks t) d) = BlockCount d) as HBC by by apply (applyBlocks_facts _ _ _ _ Hhome).
  rewrite (IH fuel _ _ (off + txLen t)); [done|by rewrite HBC|lia|lia|lia| | |].
  - rewrite Z.add_assoc. apply (holds_same _ _ _ _ Hj2). intros i Hi.
    pose proof (length_journalOf _ _ _ _ Hts) as Hl.
    replace (start + off + txLen t + Z.of_nat i) with (start + (off + txLen t + Z.of_nat i)) by lia.
    apply Hsame. lia.
  - rewrite -Z.add_assoc. destruct Hc as [Hc1 Hc2]. split.
    + intros i Hi. rewrite Hsame; [lia|]. by apply Hc1.
    + intros Hi. rewrite Hsame; [lia|]. by apply Hc2.
  - rewrite /blocksOf bind_cons applyBlocks_app. f_equal. f_equal.
    rewrite fmap_cons /= -option_fmap_compose. destruct h; [|done]. simpl. by rewrite -app_assoc.
Qed.

Lemma RecoverWithHook_txs d h start len ts :
  geometry start len d -> Forall (loggable start len (BlockCount d)) ts -> totalLen ts <= len ->
  holds d start (journalOf ts) -> clean_from d start len (totalLen ts) ->
  RecoverWithHook start len (d, h)
  = (Ok tt, (applyBlocks (blocksOf ts) d, app (rev (replay_event <$> ts)) <$> h)).
Proof.
  intros Hg Hts Hlen Hj Hc. rewrite /RecoverWithHook. destruct (len =? 0) eqn:E.
  - simpl_bool. destruct ts as [|t ts]; [by destruct h|]. apply Forall_cons in Hts as [[Hw _] _].
    rewrite totalLen_cons // in Hlen. pose proof (txLen_pos _ Hw). pose proof (totalLen_nonneg ts). lia.
  - apply recoverLoop_txs; try done; [|by rewrite Z.add_0_r]. destruct Hg. lia.
Qed.

(** ** The content after a replay *)

(** The last block written at [a]. *)
Definition lastWrite (blocks : list txBlock) (a : Z) : option block :=
  foldl (fun r tb => if decide (tb_addr tb = a) then Some (tb_data tb) else r) None blocks.

Lemma lastWrite_foldl blocks a r :
  foldl (fun r tb => if decide (tb_addr tb = a) then Some (tb_data tb) else r) r blocks
  = match lastWrite blocks a with Some b => Some b | None => r end.
Proof.
  rewrite /lastWrite. revert r. induction blocks as [|tb blocks IH]; intros r; [done|]. simpl.
  rewrite IH (IH (if decide _ then _ else _)). by destruct (foldl _ None blocks), (decide (tb_addr tb = a)).
Qed.

Lemma lastWrite_app b1 b2 a :
  lastWrite (b1 ++ b2) a = match lastWrite b2 a with Some b => Some b | None => lastWrite b1 a end.
Proof. by rewrite {1}/lastWrite foldl_app lastWrite_foldl. Qed.

Lemma lastWrite_cons tb bs a :
  lastWrite (tb :: bs) a
  = match lastWrite bs a with
    | Some b => Some b
    | None => if decide (tb_addr tb = a) then Some (tb_data tb) else None
    end.
Proof. apply (lastWrite_app [tb] bs a). Qed.

Lemma lastWrite_home start len count blocks a b :
  home_blocks start len count blocks -> lastWrite blocks a = Some b -> is_home start len a.
Proof.
  intros Hb. induction Hb as [|tb blocks (H & _) _ IH]; [done|]. rewrite lastWrite_cons.
  destruct (lastWrite blocks a); [auto|]. destruct (decide (tb_addr tb = a)) as [<-|]; [by intros _|done].
Qed.

Lemma peek_applyBlocks start len blocks d a :
  wf_dev d -> home_blocks start len (BlockCount d) blocks -> 0 <= a ->
  peek (applyBlocks blocks d) a = default (peek d a) (lastWrite blocks a).
Proof.
  intros Hwf Hb Ha. revert d Hwf Hb. induction blocks as [|tb blocks IH]; intros d Hwf Hb; [done|].
  apply Forall_cons in Hb as [(Hh & Hlt & Hl) Hb]. simpl. rewrite IH; [by apply poke_wf|done|].
  rewrite lastWrite_cons. destruct (lastWrite blocks a) as [b|]; [done|]. simpl.
  destruct (decide (tb_addr tb = a)) as [<-|Hne]; simpl.
  - rewrite peek_poke_eq //. apply wf_in_range; [done|]. destruct Hh. lia.
  - rewrite peek_poke_ne //. apply Hh.
Qed.

Lemma home_blocksOf start len count ts :
  Forall (loggable start len count) ts -> home_blocks start len count (blocksOf ts).
Proof.
  induction 1 as [|t ts [_ Ht] _ IH]; [done|]. rewrite /blocksOf bind_cons. by apply Forall_app.
Qed.

(** ** The state between transactions *)

Record jinv (ts : list JournalTransaction) (s : jstate) : Prop := {
  ji_wf : wf_dev s.1;
  ji_file : dev_file s.1 = dev_data s.1;
  ji_geo : geometry (j_start s.2) (j_length s.2) (crash s.1);
  ji_txs : Forall (loggable (j_start s.2) (j_length s.2) (BlockCount s.1)) ts;
  ji_area : holds s.1 (j_start s.2) (journalOf ts);
  ji_head : j_head s.2 = totalLen ts /\ totalLen ts <= j_length s.2;
  ji_rest : clean_from s.1 (j_start s.2) (j_length s.2) (totalLen ts);
  ji_replay : forall a, 0 <= a -> default (peek s.1 a) (lastWrite (blocksOf ts) a) = peek s.1 a;
}.

(** The blocks of a transaction cannot be taken for commit blocks. *)
Definition innocent (t : JournalTransaction) : Prop :=
  Forall (fun tb => ~ is_commit (tb_data tb)) (t_blocks t).

Lemma crash_wf d : wf_dev d -> wf_dev (crash d).
Proof. intros [(n & ? & ? & ? & ?)]. constructor. by exists n. Qed.

(** Recovery of a device [d1] that differs from [d] only in the free part of
    the area, which holds nothing complete. *)
Lemma recover_old ts d j d1 h :
  jinv ts (d, j) -> wf_dev d1 -> geometry (j_start j) (j_length j) d1 -> BlockCount d1 = BlockCount d ->
  (forall a, 0 <= a -> a < j_start j + totalLen ts \/ j_start j + j_length j <= a -> peek d1 a = peek d a) ->
  clean_from d1 (j_start j) (j_length j) (totalLen ts) ->
  exists d2, RecoverWithHook (j_start j) (j_length j) (d1, h)
             = (Ok tt, (d2, app (rev (replay_event <$> ts)) <$> h)) /\
    forall a, is_home (j_start j) (j_length j) a -> peek d2 a = peek d a.
Proof.
  intros [_ _ _ Htxs Harea [Hhd Hle] _ Hrep] Hwf Hg HBC Hsame Hc. cbn [fst snd] in *.
  rewrite -HBC in Htxs. exists (applyBlocks (blocksOf ts) d1). split.
  - apply RecoverWithHook_txs; try done. apply (holds_same _ _ _ _ Harea). intros i Hi. apply Hsame.
    + destruct Hg. lia.
    + left. pose proof (length_journalOf _ _ _ _ Htxs). lia.
  - intros a [Ha Hhome]. rewrite (peek_applyBlocks _ _ _ _ _ Hwf (home_blocksOf _ _ _ _ Htxs) Ha).
    rewrite -[RHS](Hrep a Ha) Hsame //. pose proof (totalLen_nonneg ts). lia.
Qed.

(** Recovery of a device that holds the whole of [t] after [ts], with home
    blocks that are the old or the new ones. *)
Lemma recover_new ts t d j d1 h :
  jinv ts (d, j) -> loggable (j_start j) (j_length j) (BlockCount d) t ->
  totalLen ts + txLen t <= j_length j ->
  wf_dev d1 -> geometry (j_start j) (j_length j) d1 -> BlockCount d1 = BlockCount d ->
  (forall off, 0 <= off < totalLen ts -> peek d1 (j_start j + off) = peek d (j_start j + off)) ->
  holds d1 (j_start j + totalLen ts) (encodeTx t) ->
  clean_from d1 (j_start j) (j_length j) (totalLen ts + txLen t) ->
  (forall a, is_home (j_start j) (j_length j) a -> lastWrite (t_blocks t) a = None -> peek d1 a = peek d a) ->
  exists d2, RecoverWithHook (j_start j) (j_length j) (d1, h)
             = (Ok tt, (d2, app (rev (replay_event <$> (ts ++ [t]))) <$> h)) /\
    forall a, is_home (j_start j) (j_length j) a -> peek d2 a = peek (applyBlocks (t_blocks t) d) a.
Proof.
  intros [Hwd _ _ Htxs Harea [Hhd Hle] _ Hrep] Ht Hfit Hwf Hg HBC Hold Hnew Hc Hhome. cbn [fst snd] in *.
  pose proof (proj2 Ht) as Hbt. rewrite -HBC in Htxs Ht.
  assert (Forall (loggable (j_start j) (j_length j) (BlockCount d1)) (ts ++ [t])) as Hall.
  { apply Forall_app. by rewrite Forall_singleton. }
  exists (applyBlocks (blocksOf (ts ++ [t])) d1). split.
  - apply RecoverWithHook_txs; try done; rewrite ?totalLen_snoc //; [apply Ht| |apply Ht].
    rewrite /journalOf bind_app bind_singleton -/(journalOf ts). apply holds_app. split.
    + apply (holds_same _ _ _ _ Harea). intros i Hi. apply Hold.
      pose proof (length_journalOf _ _ _ _ Htxs). lia.
    + by rewrite (length_journalOf _ _ _ _ Htxs).
  - intros a Ha. pose proof Ha as [Ha0 _].
    rewrite (peek_applyBlocks _ _ _ _ _ Hwf (home_blocksOf _ _ _ _ Hall) Ha0).
    rewrite (peek_applyBlocks _ _ _ _ _ Hwd Hbt Ha0).
    rewrite /blocksOf bind_app bind_singleton -/(blocksOf ts) lastWrite_app.
    destruct (lastWrite (t_blocks t) a) as [b|] eqn:E; [done|]. simpl.
    rewrite -[RHS](Hrep a Ha0) Hhome //.
Qed.

(** ** The writes of [Commit] under any failure *)

Lemma WriteBlock_Ok_data a b d d' :
  WriteBlock a b d = (Ok tt, d') ->
  dev_data d' = <[Z.to_nat a := b]> (dev_data d) /\ dev_dirty d' = true.
Proof.
  rewrite /WriteBlock /checkFault /failIf /modify /gets /mbind /M_bind.
  repeat (case_match; simplify_eq/=; try done); by intros [= <-].
Qed.

Lemma wrapErr_ok_inv {S A} fmt args (m : M S A) s a s' :
  wrapErr fmt args m s = (Ok a, s') -> m s = (Ok a, s').
Proof. rewrite /wrapErr. destruct (m s) as [[x|e|] s1]; intros [=]; by subst. Qed.

Lemma onDisk_ok_inv {A} (m : M BlockDevice A) s a s' :
  onDisk m s = (Ok a, s') -> s'.2 = s.2 /\ m s.1 = (Ok a, s'.1).
Proof. rewrite /onDisk /zoom. destruct (m s.1) as [r d']. intros [= -> <-]. done. Qed.

(** A step that has written [bs] from the block [base] on. *)
Definition wrote (base : Z) (bs : list block) (s s' : jstate) : Prop :=
  s'.2 = s.2 /\ dev_data s'.1 = list_inserts (Z.to_nat base) bs (dev_data s.1).

Lemma wrote_app base b1 b2 s1 s2 s3 :
  0 <= base -> wrote base b1 s1 s2 -> wrote (base + Z.of_nat (length b1)) b2 s2 s3 -> wrote base (b1 ++ b2) s1 s3.
Proof.
  intros Hb [H1 H2] [H3 H4]. split; [congruence|]. rewrite H4 H2 list_inserts_app_l. f_equal. lia.
Qed.

Lemma writeJournalBlock_inv off b s s' :
  0 <= j_start s.2 + off < 2 ^ 32 ->
  writeJournalBlock off b s = (Ok tt, s') -> wrote (j_start s.2 + off) [b] s s'.
Proof.
  intros Hr. rewrite /writeJournalBlock bind_gets u32_small //.
  intros [H1 [H2 _]%WriteBlock_Ok_data]%onDisk_ok_inv. split; [done|]. by rewrite H2.
Qed.

Lemma writeJournalBlock_dirty off b s s' :
  writeJournalBlock off b s = (Ok tt, s') -> dev_dirty s'.1 = true.
Proof. rewrite /writeJournalBlock bind_gets. by intros [_ [_ H]%WriteBlock_Ok_data]%onDisk_ok_inv. Qed.

Lemma writeDescriptors_inv n descIdx off seq total rest s s' :
  0 <= off -> 0 <= descIdx -> 0 <= j_start s.2 -> j_start s.2 + off + descIdx + Z.of_nat n < 2 ^ 32 ->
  writeDescriptors n descIdx off seq total rest s = (Ok tt, s') ->
  wrote (j_start s.2 + off + descIdx) (encodeDescriptors n descIdx seq total rest) s s'.
Proof.
  revert descIdx rest s. induction n as [|n IH]; intros descIdx rest s Ho Hd Hs Hn; simpl.
  { intros [= <-]. done. }
  intros ([] & s1 & H1%wrapErr_ok_inv & H2)%bind_ok_inv. rewrite (u32_small (off + descIdx)) in H1; [lia|].
  apply writeJournalBlock_inv in H1; [|lia]. pose proof H1 as [Hj _].
  apply IH in H2; [|rewrite ?Hj; lia..]. rewrite -Z.add_assoc. eapply (wrote_app _ [_]); [lia|exact H1|].
  rewrite Hj in H2. cbn [length]. by replace (j_start s.2 + (off + descIdx) + Z.of_nat 1)
    with (j_start s.2 + off + (descIdx + 1)) by lia.
Qed.

Lemma writeData_inv i dataOff crc blocks s r s' :
  0 <= dataOff -> 0 <= i -> 0 <= j_start s.2 ->
  j_start s.2 + dataOff + i + Z.of_nat (length blocks) < 2 ^ 32 ->
  writeData i dataOff crc blocks s = (Ok r, s') ->
  r = crcOf crc blocks /\ wrote (j_start s.2 + dataOff + i) (tb_data <$> blocks) s s'.
Proof.
  revert i crc s. induction blocks as [|tb blocks IH]; intros i crc s Ho Hi Hs Hn; simpl.
  { intros [= <- <-]. done. }
  simpl in Hn. intros ([] & s1 & H1%wrapErr_ok_inv & H2)%bind_ok_inv. rewrite (u32_small (dataOff + i)) in H1; [lia|].
  apply writeJournalBlock_inv in H1; [|lia]. pose proof H1 as [Hj _].
  apply IH in H2 as [-> H2]; [|rewrite ?Hj; lia..]. split; [done|]. rewrite -Z.add_assoc.
  eapply (wrote_app _ [_]); [lia|exact H1|].
  rewrite Hj in H2. cbn [length]. by replace (j_start s.2 + (dataOff + i) + Z.of_nat 1)
    with (j_start s.2 + dataOff + (i + 1)) by lia.
Qed.

Lemma allocBlocks_fit n s :
  0 <= n -> 0 <= j_head s.2 -> j_head s.2 + n <= j_length s.2 -> j_length s.2 < 2 ^ 32 ->
  allocBlocks n s = (Ok (j_head s.2), (s.1, with_head (j_head s.2 + n) s.2)).
Proof.
  intros Hn Hh Hfit Hl. destruct s as [d j]. cbn [fst snd] in *.
  rewrite /allocBlocks bind_gets bind_failIf_false; [apply Z.ltb_ge; cbn [snd]; lia|].
  rewrite /modJournal !bind_modify /= u32_small; [lia|].
  replace (j_length j <? j_head j + n) with false by (symmetry; apply Z.ltb_ge; lia).
  rewrite bind_gets bind_modify /=. rewrite u32_small //. lia.
Qed.

Lemma logTransaction_inv t s s' :
  wf_tx t -> 0 <= j_start s.2 -> 0 <= j_head s.2 -> j_head s.2 + txLen t <= j_length s.2 ->
  j_start s.2 + j_length s.2 < 2 ^ 31 ->
  logTransaction t s = (Ok tt, s') ->
  s'.2 = with_head (j_head s.2 + txLen t) s.2 /\
  dev_data s'.1 = list_inserts (Z.to_nat (j_start s.2 + j_head s.2)) (encodeTx t) (dev_data s.1) /\
  dev_dirty s'.1 = true.
Proof.
  intros Hwf Hs Hh Hfit Hsum. pose proof Hwf as [Hseq Hn Hb].
  destruct (numDescs_facts t ltac:(lia)) as (Hd1 & _ & _). destruct s as [d j]. cbn [fst snd] in *.
  rewrite /logTransaction. change (Z.of_nat (length (t_blocks t))) with (numBlocks t).
  change (descriptorBlocksFor (numBlocks t)) with (numDescs t). unfold txLen in *.
  rewrite (u32_small (numDescs t + numBlocks t + 1)); [lia|].
  rewrite (bind_ok _ _ _ _ _ (allocBlocks_fit (numDescs t + numBlocks t + 1) (d, j)
    ltac:(lia) Hh Hfit ltac:(cbn [snd]; lia))). cbn [fst snd].
  set (j' := with_head _ j).
  intros ([] & s1 & H1 & H2)%bind_ok_inv.
  apply writeDescriptors_inv in H1; [|subst j'; cbn [snd j_start with_head]; lia..].
  cbn [snd j_start with_head j'] in H1. rewrite Z.add_0_r in H1. pose proof H1 as [E1 _]. cbn [snd] in E1.
  apply bind_ok_inv in H2 as (crc & s2 & H2 & H3). rewrite (u32_small (j_head j + numDescs t)) in H2; [lia|].
  apply writeData_inv in H2 as [-> H2]; [|rewrite ?E1; subst j'; cbn [j_start with_head]; unfold numBlocks in *; lia..].
  pose proof H2 as [E2 _]. rewrite E1 in E2.
  apply wrapErr_ok_inv in H3. rewrite (u32_small (j_head j + numDescs t + numBlocks t)) in H3; [lia|].
  pose proof (writeJournalBlock_dirty _ _ _ _ H3) as HD.
  apply writeJournalBlock_inv in H3; [|rewrite E2; subst j'; cbn [j_start with_head]; lia].
  rewrite E1 in H2. rewrite E2 in H3. change (j_start j') with (j_start j) in H1, H2, H3.
  assert (wrote (j_start j + j_head j) (encodeTx t) (d, j') s') as [F1 F2].
  { eapply wrote_app; [lia|exact H1|]. rewrite length_encodeDescriptors Z2Nat.id; [lia|].
    eapply wrote_app; [lia| |].
    - rewrite Z.add_0_r Z.add_assoc in H2. exact H2.
    - rewrite length_fmap. change (Z.of_nat (length (t_blocks t))) with (numBlocks t).
      by rewrite !Z.add_assoc in H3. }
  done.
Qed.

Lemma applyBlocks_data blocks d1 d2 :
  dev_data d1 = dev_data d2 -> dev_data (applyBlocks blocks d1) = dev_data (applyBlocks blocks d2).
Proof.
  revert d1 d2. induction blocks as [|x l IHl]; intros d1 d2 H; [done|]. apply IHl. by rewrite /= H.
Qed.

Lemma length_applyBlocks blocks d : length (dev_data (applyBlocks blocks d)) = length (dev_data d).
Proof.
  revert d. induction blocks as [|x l IHl]; intros d; [done|]. by rewrite /= IHl length_insert.
Qed.

Lemma writeHome_inv blocks s s' :
  writeHome blocks s = (Ok tt, s') ->
  s'.2 = s.2 /\ dev_data s'.1 = dev_data (applyBlocks blocks s.1) /\
  (blocks <> [] -> dev_dirty s'.1 = true).
Proof.
  revert s. induction blocks as [|tb blocks IH]; intros s; simpl.
  { intros [= <-]. done. }
  intros ([] & s1 & H1%wrapErr_ok_inv & H2)%bind_ok_inv.
  apply onDisk_ok_inv in H1 as [Hj [Hd Hdirty]%WriteBlock_Ok_data].
  pose proof (IH _ H2) as (E1 & E2 & E3). split_and!; [congruence| |].
  - rewrite E2. by apply applyBlocks_data.
  - intros _. destruct blocks as [|x l]; [|by apply E3]. by injection H2 as <-.
Qed.

Lemma descriptors_not_commit n descIdx seq total rest :
  is_u32 seq -> Forall (fun b => ~ is_commit b) (encodeDescriptors n descIdx seq total rest).
Proof.
  intros Hs. revert descIdx rest. induction n as [|n IH]; intros descIdx rest; [constructor|].
  simpl. constructor; [|apply IH]. pose proof (capacity_range descIdx) as Hc.
  intros [_ H]. rewrite decode_descriptor // in H. rewrite length_fmap length_take. lia.
Qed.

Lemma encodeTx_not_commit t i b :
  wf_tx t -> innocent t -> encodeTx t !! i = Some b -> (S i < length (encodeTx t))%nat -> ~ is_commit b.
Proof.
  intros [Hseq _ _] Hi. rewrite /encodeTx app_assoc. intros Hb Hlt.
  rewrite length_app /= in Hlt. rewrite lookup_app_l in Hb; [lia|].
  assert (Forall (fun b => ~ is_commit b)
    (encodeDescriptors (Z.to_nat (numDescs t)) 0 (t_sequence t) (numBlocks t) (t_blocks t) ++
     (tb_data <$> t_blocks t))) as HF.
  { apply Forall_app. split; [by apply descriptors_not_commit|]. by apply Forall_fmap. }
  rewrite ->Forall_lookup in HF. exact (HF _ _ Hb).
Qed.

(** A file whose first [k] blocks are new. *)
Lemma torn_inserts p l (old : list block) k :
  take k (list_inserts p l old) ++ drop k old = list_inserts p (take (k - p) l) old.
Proof.
  apply list_eq. intros i. rewrite lookup_app.
  destruct (decide (i < length old)%nat) as [Hi|Hi]; cycle 1.
  { rewrite (lookup_ge_None_2 (list_inserts p (take (k - p) l) old)) ?length_inserts; [lia|].
    rewrite lookup_ge_None_2 ?length_take ?length_inserts; [lia|].
    rewrite lookup_drop lookup_ge_None_2 //. lia. }
  destruct (decide (i < k)%nat) as [Hk|Hk].
  - rewrite lookup_take_lt //. destruct (decide (i < p \/ p + length l <= i)%nat) as [Ho|Ho].
    + assert (list_inserts p l old !! i = old !! i) as ->.
      { destruct Ho; [by apply list_lookup_inserts_lt|by apply list_lookup_inserts_ge]. }
      destruct (lookup_lt_is_Some_2 old i Hi) as [x Hx]. rewrite Hx. symmetry.
      destruct Ho; [by rewrite list_lookup_inserts_lt|]. rewrite list_lookup_inserts_ge // length_take. lia.
    + rewrite list_lookup_inserts; [lia|done|].
      destruct (lookup_lt_is_Some_2 l (i - p)) as [x Hx]; [lia|]. rewrite Hx. symmetry.
      rewrite list_lookup_inserts ?length_take //; [lia|]. rewrite lookup_take_lt //. lia.
  - rewrite lookup_take_ge; [lia|]. rewrite length_take length_inserts lookup_drop.
    replace (k + (i - k `min` length old))%nat with i by lia.
    destruct (decide (i < p)%nat) as [Hp|Hp].
    + by rewrite list_lookup_inserts_lt.
    + rewrite list_lookup_inserts_ge // length_take. lia.
Qed.

Lemma peek_inserts_out d d1 p l a :
  dev_data d1 = list_inserts (Z.to_nat p) l (dev_data d) -> 0 <= p -> 0 <= a ->
  a < p \/ p + Z.of_nat (length l) <= a -> peek d1 a = peek d a.
Proof.
  intros H Hp Ha Ho. rewrite /peek H. f_equal.
  destruct Ho; [apply list_lookup_inserts_lt|apply list_lookup_inserts_ge]; lia.
Qed.

Lemma peek_inserts_in d d1 p l i b :
  dev_data d1 = list_inserts (Z.to_nat p) l (dev_data d) -> 0 <= p ->
  (Z.to_nat p + i < length (dev_data d))%nat -> l !! i = Some b -> peek d1 (p + Z.of_nat i) = b.
Proof.
  intros H Hp Hr Hb. pose proof (lookup_lt_Some _ _ _ Hb). rewrite /peek H list_lookup_inserts; [lia..|].
  replace (Z.to_nat (p + Z.of_nat i) - Z.to_nat p)%nat with i by lia. by rewrite Hb.
Qed.

(** ** A crash during [Commit] *)

Section crash_points.
Context (ts : list JournalTransaction) (t : JournalTransaction) (d : BlockDevice) (j : Journal).
Hypothesis (Hinv : jinv ts (d, j)) (Ht : loggable (j_start j) (j_length j) (BlockCount d) t)
  (Hinn : innocent t) (Hfit : totalLen ts + txLen t <= j_length j).

(** After the crash recovery finds the old or the new home blocks. *)
Definition recovers_to (d1 : BlockDevice) (target : BlockDevice) : Prop :=
  forall h, exists d2 h', RecoverWithHook (j_start j) (j_length j) (d1, h) = (Ok tt, (d2, h')) /\
    forall a, is_home (j_start j) (j_length j) a -> peek d2 a = peek target a.

Abbreviation base := (j_start j + totalLen ts).

Lemma base_facts : 0 <= base /\ 0 <= j_start j /\ 0 <= totalLen ts /\ j_start j + j_length j <= BlockCount d /\
  BlockCount d = Z.of_nat (length (dev_data d)) /\ BlockCount d < 2 ^ 31 /\ Z.of_nat (length (encodeTx t)) = txLen t.
Proof.
  destruct Hinv as [Hw _ [_ ? _ He ?] _ _ _ _ _]. cbn [fst snd] in *. pose proof (totalLen_nonneg ts).
  change (BlockCount (crash d)) with (BlockCount d) in *. split_and!; try lia.
  - by apply wf_BlockCount.
  - apply length_encodeTx. destruct Ht as [[]]. lia.
Qed.

(** A prefix of the journal blocks, without the commit block. *)
Lemma crash_partial d1 m :
  wf_dev d1 -> dev_fault d1 = None -> dev_os d1 = None -> BlockCount d1 = BlockCount d ->
  (m < length (encodeTx t))%nat ->
  dev_data d1 = list_inserts (Z.to_nat base) (take m (encodeTx t)) (dev_data d) ->
  recovers_to d1 d.
Proof.
  intros Hw Hf Ho HBC Hm Hdata h. destruct base_facts as (Hb & Hs & Ht0 & He & Hlen & Hc & Htx).
  assert (geometry (j_start j) (j_length j) d1) as Hg.
  { destruct Hinv as [_ _ [] _ _ _ _ _]. cbn [fst snd] in *. split; rewrite ?HBC //. }
  assert (length (take m (encodeTx t)) = m) as Hlm by (rewrite length_take; lia).
  pose proof (fun a H1 => peek_inserts_out _ _ _ _ a Hdata Hb H1) as Hout. rewrite Hlm in Hout.
  destruct (recover_old ts d j d1 h) as (d2 & E & H2); try done.
  - intros a Ha Hcase. apply Hout; [done|lia].
  - destruct Hinv as [_ _ _ _ _ _ [Hr1 Hr2] _]. cbn [fst snd] in *. split.
    + intros i Hi. destruct (decide (j_start j + i < base + Z.of_nat m)) as [Hin|Hin].
      * destruct (lookup_lt_is_Some_2 (encodeTx t) (Z.to_nat (i - totalLen ts))) as [b Hb']; [lia|].
        assert (peek d1 (j_start j + i) = b) as ->.
        { replace (j_start j + i) with (base + Z.of_nat (Z.to_nat (i - totalLen ts))) by lia.
          apply (peek_inserts_in _ _ _ _ _ _ Hdata); [lia|lia|]. rewrite lookup_take_lt //. lia. }
        apply (encodeTx_not_commit t _ _ (proj1 Ht) Hinn Hb'). lia.
      * rewrite Hout; [lia|lia|]. by apply Hr1.
    + intros Hi. rewrite Hout; [lia|lia|]. by apply Hr2.
  - by exists d2, (app (rev (replay_event <$> ts)) <$> h).
Qed.

(** The whole transaction, and home blocks that are the old or new ones. *)
Lemma crash_complete d1 d3 :
  wf_dev d1 -> dev_fault d1 = None -> dev_os d1 = None -> BlockCount d1 = BlockCount d ->
  dev_data d3 = list_inserts (Z.to_nat base) (encodeTx t) (dev_data d) ->
  (forall a, 0 <= a -> lastWrite (t_blocks t) a = None -> peek d1 a = peek d3 a) ->
  recovers_to d1 (applyBlocks (t_blocks t) d) /\ holds d1 (j_start j) (journalOf (ts ++ [t])) /\
  clean_from d1 (j_start j) (j_length j) (totalLen ts + txLen t).
Proof.
  intros Hw Hf Ho HBC Hdata Hsame. destruct base_facts as (Hb & Hs & Ht0 & He & Hlen & Hc & Htx).
  pose proof (proj2 Ht) as Hhb.
  assert (forall off, 0 <= off < j_length j -> peek d1 (j_start j + off) = peek d3 (j_start j + off)) as Harea.
  { intros off Hoff. apply Hsame; [lia|]. destruct (lastWrite _ _) as [b|] eqn:E; [|done].
    apply (lastWrite_home _ _ _ _ _ _ Hhb) in E. by apply area_not_home in E. }
  pose proof (fun a H1 => peek_inserts_out _ _ _ _ a Hdata Hb H1) as Hout. rewrite Htx in Hout.
  assert (holds d1 base (encodeTx t)) as Hholds.
  { intros i b Hi. pose proof (lookup_lt_Some _ _ _ Hi).
    rewrite -Z.add_assoc Harea; [lia|]. rewrite Z.add_assoc.
    apply (peek_inserts_in _ _ _ _ _ _ Hdata); [lia|lia|done]. }
  assert (clean_from d1 (j_start j) (j_length j) (totalLen ts + txLen t)) as Hcl.
  { pose proof (txLen_pos t (proj1 Ht)). destruct Hinv as [_ _ _ _ _ _ [Hr1 Hr2] _]. cbn [fst snd] in *. split.
    - intros i Hi. rewrite Harea; [lia|]. rewrite Hout; [lia|lia|]. apply Hr1. lia.
    - intros Hi. rewrite Harea; [lia|]. rewrite Hout; [lia|lia|]. apply Hr2. lia. }
  split_and!; [| |done].
  2:{ rewrite /journalOf bind_app bind_singleton -/(journalOf ts). apply holds_app.
      destruct Hinv as [_ _ _ Htxs Ha [_ Hle] _ _]. cbn [fst snd] in *.
      pose proof (length_journalOf _ _ _ _ Htxs) as Hl. rewrite Hl. split; [|done].
      apply (holds_same _ _ _ _ Ha). intros i Hi. rewrite Harea; [lia|]. apply Hout; lia. }
  intros h. destruct (recover_new ts t d j d1 h) as (d2 & E & H2); try done.
  - destruct Hinv as [_ _ [] _ _ _ _ _]. cbn [fst snd] in *. split; rewrite ?HBC //.
  - intros off Hoff. pose proof (txLen_pos t (proj1 Ht)). rewrite Harea; [lia|]. apply Hout; lia.
  - intros a [Ha Hh] Hn. rewrite Hsame //. apply Hout; [done|lia].
  - by exists d2, (app (rev (replay_event <$> (ts ++ [t]))) <$> h).
Qed.

End crash_points.

(** What every step of the journal keeps of the device, up to a [Sync]. *)
Definition before_sync (s s' : jstate) : Prop := dev_only (fun _ => True) s.1 s'.1.

#[export] Instance before_sync_preorder : PreOrder before_sync.
Proof. split; [intros s; by rewrite /before_sync|intros s1 s2 s3 H1 H2; exact (transitivity (R:=dev_only _) H1 H2)]. Qed.

Lemma onDisk_keeps {A} (m : M BlockDevice A) :
  keeps (dev_only (fun _ => True)) m -> keeps before_sync (onDisk m).
Proof. intros H. rewrite /onDisk. eapply keeps_zoom; [apply _|exact H|]. by intros s d'. Qed.

Lemma writeJournalBlock_keeps off b : keeps before_sync (writeJournalBlock off b).
Proof.
  rewrite /writeJournalBlock. keeps_solve. apply onDisk_keeps, WriteBlock_keeps; [apply u32_range|done].
Qed.
#[local] Hint Resolve writeJournalBlock_keeps : keeps.

Lemma modJournal_keeps f : keeps before_sync (modJournal f).
Proof. apply keeps_modify; [apply _|]. intros s. by rewrite /before_sync. Qed.
#[local] Hint Resolve modJournal_keeps : keeps.

Lemma writeDescriptors_keeps n descIdx off seq total rest :
  keeps before_sync (writeDescriptors n descIdx off seq total rest).
Proof. revert descIdx rest. induction n; intros; simpl; keeps_solve. Qed.

Lemma writeData_keeps i dataOff crc blocks : keeps before_sync (writeData i dataOff crc blocks).
Proof. revert i crc. induction blocks; intros; simpl; keeps_solve. Qed.
#[local] Hint Resolve writeDescriptors_keeps writeData_keeps : keeps.

Lemma logTransaction_keeps t : keeps before_sync (logTransaction t).
Proof. rewrite /logTransaction /allocBlocks. keeps_solve. Qed.

Lemma writeHome_keeps start len count blocks :
  home_blocks start len count blocks -> keeps before_sync (writeHome blocks).
Proof.
  induction 1 as [|tb blocks ([H _] & _) _ IH]; [apply keeps_ret, _|].
  apply keeps_bind; [apply _| |done]. apply keeps_wrapErr; [apply _|]. by apply onDisk_keeps, WriteBlock_keeps.
Qed.

(** Nothing in [Commit] panics. *)
Lemma Sync_total : total Sync.
Proof. intros d. pose proof (Sync_cases d). by destruct (Sync d) as [[]]. Qed.

Lemma writeJournalBlock_total off b : total (writeJournalBlock off b).
Proof. apply total_bind; [done|]. intros j. apply total_zoom, WriteBlock_total. Qed.

Lemma Commit_total now t : total (Commit now t).
Proof.
  rewrite /Commit. destruct (t_blocks t) as [|tb bs] eqn:E; [done|]. rewrite -E. clear E.
  assert (forall n k off seq tot rest, total (writeDescriptors n k off seq tot rest)) as HD.
  { induction n; intros; simpl; [done|]. apply total_bind; [apply total_wrapErr, writeJournalBlock_total|done]. }
  assert (forall l i off crc, total (writeData i off crc l)) as HW.
  { induction l; intros; simpl; [done|]. apply total_bind; [apply total_wrapErr, writeJournalBlock_total|done]. }
  apply total_bind.
  { rewrite /logTransaction. apply total_bind.
    - rewrite /allocBlocks. repeat (apply total_bind; [first [apply total_failIf|done]|intros ?]). done.
    - intros off. apply total_bind; [apply HD|intros _]. apply total_bind; [apply HW|intros crc].
      apply total_wrapErr, writeJournalBlock_total. }
  intros _. apply total_bind; [apply total_wrapErr, total_zoom, Sync_total|intros _].
  apply total_bind; [apply total_forEach; intros x; apply total_wrapErr, total_zoom, WriteBlock_total|intros _].
  apply total_bind; [apply total_wrapErr, total_zoom, Sync_total|intros _]. done.
Qed.

(** ** Atomicity of [Commit] *)

Definition next_jinv (ts : list JournalTransaction) (t : JournalTransaction) (s s' : jstate) : Prop :=
  jinv (ts ++ [t]) s' /\
  (forall a, is_home (j_start s.2) (j_length s.2) a -> peek s'.1 a = peek (applyBlocks (t_blocks t) s.1) a).

Definition old_or_new (t : JournalTransaction) (s s' : jstate) : Prop :=
  recovers_to s.2 (crash s'.1) s.1 \/ recovers_to s.2 (crash s'.1) (applyBlocks (t_blocks t) s.1).

Lemma crash_unchanged ts d j d' :
  jinv ts (d, j) -> dev_file d' = dev_file d -> dev_size d' = dev_size d ->
  recovers_to j (crash d') d.
Proof.
  intros Hinv Hf Hs h. pose proof Hinv as [Hw Hfd [] Htxs _ _ Hrest _]. cbn [fst snd] in *.
  assert (crash d' = crash d) as -> by by rewrite /crash Hf Hs.
  assert (forall a, peek (crash d) a = peek d a) as Hp by (intros a; by rewrite /peek /= Hfd).
  destruct (recover_old ts d j (crash d) h Hinv) as (d2 & E & H2); [by apply crash_wf|done|done| | |].
  - intros a _ _. apply Hp.
  - destruct Hrest as [H1 H2]. split; intros; rewrite Hp; auto.
  - by exists d2, (app (rev (replay_event <$> ts)) <$> h).
Qed.

Lemma peek_same d1 d2 a : dev_data d1 !! Z.to_nat a = dev_data d2 !! Z.to_nat a -> peek d1 a = peek d2 a.
Proof. rewrite /peek. by intros ->. Qed.

Lemma lookup_torn (A F : list block) k i :
  length A = length F ->
  (take k A ++ drop k F) !! i = A !! i \/ (take k A ++ drop k F) !! i = F !! i.
Proof.
  intros Hl. destruct (decide (i < k)%nat) as [Hi|Hi]; [left|right].
  - rewrite lookup_app lookup_take_lt //. destruct (A !! i) eqn:E; [done|].
    rewrite lookup_ge_None in E. rewrite lookup_drop lookup_ge_None_2 // length_take. lia.
  - rewrite lookup_app lookup_take_ge; [lia|]. rewrite length_take lookup_drop.
    destruct (decide (k <= length A)%nat); [f_equal; lia|].
    rewrite !lookup_ge_None_2 //; lia.
Qed.

Lemma BlockCount_same d d1 : dev_size d1 = dev_size d -> BlockCount d1 = BlockCount d.
Proof. intros H. by rewrite /BlockCount H. Qed.

Section commit.
Context (ts : list JournalTransaction) (t : JournalTransaction) (s : jstate).
Hypothesis (Hinv : jinv ts s) (Ht : loggable (j_start s.2) (j_length s.2) (BlockCount s.1) t)
  (Hinn : innocent t) (Hfit : totalLen ts + txLen t <= j_length s.2).

(** A device after [logTransaction]. *)
Definition logged (d1 : BlockDevice) : Prop :=
  wf_dev d1 /\ dev_size d1 = dev_size s.1 /\
  dev_data d1 = list_inserts (Z.to_nat (j_start s.2 + totalLen ts)) (encodeTx t) (dev_data s.1).

(** The file of [d2] holds the whole log; its home blocks are old or new. *)
Lemma committed d1 d2 :
  logged d1 -> wf_dev d2 -> dev_size d2 = dev_size s.1 ->
  (forall i, dev_file d2 !! i = dev_data d1 !! i \/
             dev_file d2 !! i = dev_data (applyBlocks (t_blocks t) d1) !! i) ->
  recovers_to s.2 (crash d2) (applyBlocks (t_blocks t) s.1) /\
  holds (crash d2) (j_start s.2) (journalOf (ts ++ [t])) /\
  clean_from (crash d2) (j_start s.2) (j_length s.2) (totalLen ts + txLen t).
Proof.
  intros (Hw1 & Hs1 & Hd1) Hw2 Hs2 Hfile. destruct s as [d j]. cbn [fst snd] in *.
  apply (crash_complete ts t d j Hinv Ht Hinn Hfit (crash d2) d1); try done.
  - by apply crash_wf.
  - by rewrite -(BlockCount_same _ d2 Hs2).
  - intros a Ha Hn. destruct (Hfile (Z.to_nat a)) as [E|E].
    + by apply peek_same.
    + transitivity (peek (applyBlocks (t_blocks t) d1) a); [by apply peek_same|].
      pose proof (proj2 Ht) as Hb. rewrite -(BlockCount_same _ d1 Hs1) in Hb.
      by rewrite (peek_applyBlocks _ _ _ _ _ Hw1 Hb Ha) Hn.
Qed.

(** A failed synchronisation of the journal. *)
Lemma torn_journal d1 d2 :
  logged d1 -> wf_dev d2 -> dev_size d2 = dev_size s.1 ->
  torn (dev_data d1) (dev_file s.1) (dev_file d2) ->
  recovers_to s.2 (crash d2) s.1 \/ recovers_to s.2 (crash d2) (applyBlocks (t_blocks t) s.1).
Proof.
  intros Hl Hw2 Hs2 [k Hk]. pose proof Hl as (Hw1 & Hs1 & Hd1).
  rewrite (ji_file _ _ Hinv) Hd1 torn_inserts in Hk.
  set (m := (k - Z.to_nat (j_start s.2 + totalLen ts))%nat) in *.
  destruct (decide (m < length (encodeTx t))%nat) as [Hm|Hm].
  - left. destruct s as [d j]. cbn [fst snd] in *.
    apply (crash_partial ts t d j Hinv Ht Hinn Hfit _ m); try done; [by apply crash_wf|].
    by rewrite -(BlockCount_same _ d2 Hs2).
  - right. apply (committed d1 d2 Hl Hw2 Hs2). intros i. left.
    by rewrite Hk Hd1 take_ge; [lia|].
Qed.

Lemma logged_intro s1 :
  logTransaction t s = (Ok tt, s1) ->
  logged s1.1 /\ dev_file s1.1 = dev_file s.1 /\ dev_dirty s1.1 = true /\
  s1.2 = with_head (totalLen (ts ++ [t])) s.2.
Proof.
  intros E. pose proof (logTransaction_keeps t s) as [[Hs _ Hw] Hf _]. rewrite E /= in Hs Hw Hf.
  pose proof Hinv as [Hwf _ [] _ _ [Hhd _] _ _]. pose proof (totalLen_nonneg ts).
  change (BlockCount (crash s.1)) with (BlockCount s.1) in *.
  apply logTransaction_inv in E as (E1 & E2 & E3); [|apply Ht|lia..].
  rewrite Hhd in E1 E2. rewrite totalLen_snoc; [apply Ht|]. split_and!; try done. split_and!; auto.
Qed.

(** The state after a successful [Commit]. *)
Lemma Commit_final d1 s' :
  logged d1 -> wf_dev s'.1 -> dev_size s'.1 = dev_size s.1 ->
  dev_data s'.1 = dev_data (applyBlocks (t_blocks t) d1) -> dev_file s'.1 = dev_data s'.1 ->
  j_start s'.2 = j_start s.2 -> j_length s'.2 = j_length s.2 -> j_head s'.2 = totalLen (ts ++ [t]) ->
  next_jinv ts t s s'.
Proof.
  intros Hl Hw Hs Hdata Hfile Hst Hln Hhd. pose proof Hl as (Hw1 & Hs1 & Hd1).
  pose proof (BlockCount_same _ _ Hs) as HBC.
  destruct (committed d1 s'.1 Hl Hw Hs) as (Hrec & Hholds & Hclean).
  { intros i. right. by rewrite Hfile Hdata. }
  assert (forall a, peek (crash s'.1) a = peek s'.1 a) as Hp by (intros a; apply peek_same; by rewrite /= Hfile).
  pose proof (proj2 Ht) as Hb. pose proof Hb as Hb1. rewrite -(BlockCount_same _ d1 Hs1) in Hb1.
  assert (forall a, 0 <= a -> peek s'.1 a = default (peek d1 a) (lastWrite (t_blocks t) a)) as Hnew.
  { intros a Ha. rewrite -(peek_applyBlocks _ _ _ _ _ Hw1 Hb1 Ha). apply peek_same. by rewrite Hdata. }
  pose proof Hinv as [Hwf _ Hgeo Htxs _ [Hhd0 _] _ Hrep]. pose proof (totalLen_nonneg ts) as Hnn.
  assert (forall a, is_home (j_start s.2) (j_length s.2) a -> peek d1 a = peek s.1 a) as Hold.
  { intros a [Ha Hh]. apply (peek_inserts_out _ _ _ _ _ Hd1); [destruct Hgeo; lia|done|].
    rewrite length_encodeTx; [destruct Ht as [[]]; lia|]. lia. }
  split.
  - split; rewrite ?Hst ?Hln ?HBC; try done.
    + destruct Hgeo as [? ? ? ? ?]. change (BlockCount (crash s.1)) with (BlockCount s.1) in *.
      split; try done; change (BlockCount (crash s'.1)) with (BlockCount s'.1); rewrite HBC //.
    + apply Forall_app. by rewrite Forall_singleton.
    + apply (holds_same _ _ _ _ Hholds). intros i _. by rewrite Hp.
    + by rewrite Hhd (totalLen_snoc ts t (proj1 Ht)).
    + rewrite totalLen_snoc; [apply Ht|]. destruct Hclean as [H1 H2].
      split; intros; rewrite -Hp; auto.
    + intros a Ha. rewrite Hnew // /blocksOf bind_app bind_singleton -/(blocksOf ts) lastWrite_app.
      destruct (lastWrite (t_blocks t) a) as [b|] eqn:E; [done|]. simpl.
      destruct (lastWrite (blocksOf ts) a) as [b|] eqn:E2; [|done]. simpl.
      rewrite Hold; [exact (lastWrite_home _ _ _ _ _ _ (home_blocksOf _ _ _ _ Htxs) E2)|].
      by rewrite -(Hrep a Ha) E2.
  - intros a Ha. pose proof (proj1 Ha) as Ha0. rewrite Hnew // (peek_applyBlocks _ _ _ _ _ Hwf Hb Ha0) Hold //.
Qed.

End commit.

Lemma Commit_phases ts t now s :
  jinv ts s -> loggable (j_start s.2) (j_length s.2) (BlockCount s.1) t ->
  innocent t -> totalLen ts + txLen t <= j_length s.2 ->
  match Commit now t s with
  | (Ok _, s') => recovers_to s.2 (crash s'.1) (applyBlocks (t_blocks t) s.1) /\ next_jinv ts t s s'
  | (Err _, s') => old_or_new t s s'
  | (Panic, _) => False
  end.
Proof.
  intros Hinv Ht Hinn Hfit.
  pose proof (Commit_total now t s) as Htot. destruct (Commit now t s) as [r s'] eqn:E. simpl in Htot.
  assert (t_blocks t <> []) as Hne.
  { intros Hnil. destruct Ht as [[_ H _] _]. rewrite /numBlocks Hnil /= in H. lia. }
  revert E. rewrite /Commit. destruct (t_blocks t) as [|tb bs] eqn:Et; [done|]. rewrite -Et in Hne |- *. clear Et.
  rewrite {1}/mbind {1}/M_bind. pose proof (logTransaction_keeps t s) as [[Hs1 _ Hw1] Hf1 _].
  pose proof Hinv as [Hwf _ _ _ _ _ _ _]. specialize (Hw1 Hwf).
  destruct (logTransaction t s) as [[[]|e|] s1] eqn:E1; simpl in Hs1, Hw1, Hf1.
  3: by intros [= <- <-].
  2: { intros [= <- <-]. left. destruct s as [d j]. by apply (crash_unchanged ts). }
  destruct (logged_intro ts t s Hinv Ht Hinn Hfit s1 E1) as (Hl & Hfile1 & Hdirty & Hj). clear E1.
  rewrite {1}/mbind {1}/M_bind {1}/wrapErr {1}/onDisk {1}/zoom.
  pose proof (Sync_cases s1.1) as HS. pose proof (Sync_evol s1.1) as [Hs2 _ Hw2].
  destruct (Sync s1.1) as [[[]|e|] d2]; simpl in HS, Hs2, Hw2; [| |done].
  2: { intros [= <- <-]. destruct HS as (_ & _ & Htorn). rewrite Hfile1 in Htorn.
       apply (torn_journal ts t s Hinv Ht Hinn Hfit s1.1); [done|auto|cbn [fst]; congruence|done]. }
  destruct HS as (Hd2 & _ & Hf2). rewrite Hdirty in Hf2. specialize (Hw2 Hw1).
  rewrite {1}/mbind {1}/M_bind.
  pose proof (writeHome_keeps _ _ _ _ (proj2 Ht) (d2, s1.2)) as [[Hs3 _ Hw3] Hf3 _].
  destruct (writeHome (t_blocks t) (d2, s1.2)) as [[[]|e|] s3] eqn:E3; simpl in Hs3, Hw3, Hf3; specialize (Hw3 Hw2).
  3: by intros [= <- <-].
  2: { intros [= <- <-]. right. apply (committed ts t s Hinv Ht Hinn Hfit s1.1);
       [done|done|congruence|intros i; left; by rewrite Hf3 Hf2]. }
  apply writeHome_inv in E3 as (Hj3 & Hd3 & Hdirty3). specialize (Hdirty3 Hne). cbn [fst snd] in Hj3, Hd3.
  rewrite (applyBlocks_data _ d2 s1.1 Hd2) in Hd3.
  rewrite {1}/mbind {1}/M_bind {1}/wrapErr {1}/onDisk {1}/zoom.
  pose proof (Sync_cases s3.1) as HS. pose proof (Sync_evol s3.1) as [Hs4 _ Hw4].
  destruct (Sync s3.1) as [[[]|e|] d4]; simpl in HS, Hs4, Hw4; [| |done]; specialize (Hw4 Hw3).
  2: { intros [= <- <-]. destruct HS as (_ & _ & [k Hk]). right.
       apply (committed ts t s Hinv Ht Hinn Hfit s1.1); cbn [fst]; [done|done|congruence|].
       intros i. rewrite Hk Hf3 Hf2 Hd3 or_comm. apply lookup_torn.
       by rewrite length_applyBlocks. }
  destruct HS as (Hd4 & _ & Hf4). rewrite Hdirty3 in Hf4.
  rewrite /modJournal !bind_modify. intros [= <- <-]. split.
  - apply (committed ts t s Hinv Ht Hinn Hfit s1.1); cbn [fst]; [done|done|congruence|].
    intros i. right. by rewrite Hf4 Hd3.
  - apply (Commit_final ts t s Hinv Ht Hinn Hfit s1.1); cbn [fst snd]; try done; try congruence;
      by rewrite Hj3 Hj.
Qed.



(** ** Termination of recovery, under any failure *)

Definition rsame (s s' : rstate) : Prop := dev_size s'.1 = dev_size s.1.

#[export] Instance rsame_preorder : PreOrder rsame.
Proof. split; [done|]. intros s1 s2 s3 H1 H2. by rewrite /rsame H2 H1. Qed.

Lemma onRDisk_rsame {A} (m : M BlockDevice A) : keeps dev_evol m -> keeps rsame (onRDisk m).
Proof. intros H. rewrite /onRDisk. eapply keeps_zoom; [apply _|exact H|]. by intros s d' [Hs _ _]. Qed.

Lemma ReadBlock_rsame a : keeps rsame (onRDisk (ReadBlock a)).
Proof. apply onRDisk_rsame. eapply keeps_weaken; [apply (ReadBlock_keeps (fun _ => True))|by intros ?? []]. Qed.

Lemma WriteBlock_rsame a b : keeps rsame (onRDisk (WriteBlock a b)).
Proof.
  intros [d h]. rewrite /onRDisk /zoom /WriteBlock /checkFault /failIf /modify /gets /mbind /M_bind.
  cbn [fst snd]. repeat (case_match; simplify_eq/=; try done).
Qed.
#[local] Hint Resolve ReadBlock_rsame WriteBlock_rsame : keeps.

Lemma readChain_rsame n descIdx start off seq total blk acc :
  keeps rsame (readChain n descIdx start off seq total blk acc).
Proof. revert descIdx acc. induction n; intros; simpl; keeps_solve. Qed.

Lemma readData_rsame n addr crc acc : keeps rsame (readData n addr crc acc).
Proof. revert addr crc acc. induction n; intros; simpl; keeps_solve. Qed.
#[local] Hint Resolve readChain_rsame readData_rsame : keeps.

Lemma recoverStep_rsame start length off : keeps rsame (recoverStep start length off).
Proof. rewrite /recoverStep. keeps_solve. apply keeps_modify; [apply _|done]. Qed.

Lemma ReadBlock_Ok_range a s b s' :
  onRDisk (ReadBlock a) s = (Ok b, s') -> a < BlockCount s.1.
Proof.
  rewrite /onRDisk /zoom /ReadBlock /checkFault /failIf /gets /mbind /M_bind.
  destruct s as [d h]. cbn [fst snd]. repeat (case_match; simplify_eq/=; try done); intros; simpl_bool; done.
Qed.

Lemma rsame_BlockCount s s' : rsame s s' -> BlockCount s'.1 = BlockCount s.1.
Proof. rewrite /rsame /BlockCount. by intros ->. Qed.

Lemma readChain_bounds n descIdx start off seq total blk acc s addrs s' :
  0 <= start + off + descIdx <= BlockCount s.1 -> 0 <= descIdx -> BlockCount s.1 < 2 ^ 21 ->
  (descIdx = 0 -> start + off < BlockCount s.1) ->
  readChain n descIdx start off seq total blk acc s = (Ok (Some addrs), s') ->
  start + off + descIdx + Z.of_nat n <= BlockCount s.1 /\
  Z.of_nat (length addrs) <= Z.of_nat (length acc) + 1021 * Z.of_nat n.
Proof.
  revert descIdx acc s. induction n as [|n IH]; intros descIdx acc s Hr Hd HB H0; cbn [readChain].
  { intros [= <- _]. lia. }
  assert (forall desc pos, (12 <= pos)%nat -> Z.of_nat (length (readAddrs 1024 pos desc total acc))
            <= Z.of_nat (length acc) + 1021) as Hb.
  { intros desc pos Hp. pose proof (readAddrs_bound 1024 pos desc total acc). lia. }
  destruct (descIdx =? 0) eqn:E; simpl_bool.
  - subst. intros H. apply IH in H as [H1 H2]; [|lia|lia|done|lia].
    pose proof (Hb blk firstDescriptorTagsOffset ltac:(unfold firstDescriptorTagsOffset; lia)). lia.
  - intros (desc & s1 & H1 & H2)%bind_ok_inv. pose proof H1 as Hlt%wrapErr_ok_inv%ReadBlock_Ok_range.
    rewrite u32_small in Hlt; [lia|].
    pose proof (keeps_wrapErr rsame "journal: recover read descriptor %d: %w" [descIdx] _
      (ReadBlock_rsame (u32 (start + off + descIdx))) s) as Hs1.
    rewrite H1 in Hs1. apply rsame_BlockCount in Hs1. cbn [fst snd] in Hs1.
    destruct (_ || _ || _); [done|]. apply IH in H2 as [H2 H3]; [|rewrite ?Hs1; lia..].
    pose proof (Hb desc otherDescriptorTagsOffset ltac:(unfold otherDescriptorTagsOffset; lia)). lia.
Qed.

(** Every turn moves forward, and [off+needed] does not wrap around. *)
Lemma recoverStep_forward start len off s off' s' :
  0 <= start -> 0 <= off < len -> start + len <= BlockCount s.1 -> BlockCount s.1 < 2 ^ 21 ->
  recoverStep start len off s = (Ok (Some off'), s') -> off < off'.
Proof.
  intros Hs Ho Hlen HB. rewrite /recoverStep. intros (blk & s1 & H1 & H2)%bind_ok_inv.
  pose proof (keeps_wrapErr rsame "journal: recover read block %d: %w" [u32 (start + off)] _
      (ReadBlock_rsame (u32 (start + off))) s) as Hs1.
  rewrite H1 in Hs1. apply rsame_BlockCount in Hs1. cbn [fst snd] in Hs1. clear H1. revert H2.
  destruct (_ || _); [by intros [= <- _]; lia|].
  destruct (_ <=? 0) eqn:Et; [by intros [= <- _]; lia|]. simpl_bool.
  set (total := BEUint32 blk firstDescriptorCountOffset) in *.
  intros (chain & s2 & H2 & H3)%bind_ok_inv. revert H3.
  destruct chain as [addrs|]; [|by intros [= <- _]; lia].
  apply readChain_bounds in H2 as [Hn Hl]; [|rewrite ?Hs1; lia..]. rewrite Hs1 in Hn. cbn [length] in Hl.
  assert (0 < descriptorBlocksFor total) as Hdb.
  { rewrite /descriptorBlocksFor firstCap otherCap. case_if; [done|]. simpl_bool.
    assert (0 <= (total - 1020 + 1021 - 1) / 1021) by (apply Z.div_pos; lia). lia. }
  destruct (negb _); [by intros [= <- _]; lia|].
  rewrite (u32_small (descriptorBlocksFor total + _ + 1)); [lia|].
  rewrite (u32_small (off + _)); [lia|]. destruct (len <? _); [done|].
  intros ([dbs crc] & s3 & _ & H4)%bind_ok_inv. apply bind_ok_inv in H4 as (cb & s4 & _ & H5). revert H5.
  destruct (_ || _ || _); [by intros [= <- _]; lia|]. destruct (negb _); [by intros [= <- _]; lia|].
  intros (? & s5 & _ & H6)%bind_ok_inv. apply bind_ok_inv in H6 as (? & s6 & _ & H7).
  injection H7 as <- _. lia.
Qed.

Lemma recoverStep_total start len off : total (recoverStep start len off).
Proof.
  assert (forall a, total (onRDisk (ReadBlock a))) as HR by (intros a; apply total_zoom, ReadBlock_total).
  assert (forall n k acc sq tot blk, total (readChain n k start off sq tot blk acc)) as HC.
  { induction n; intros; cbn [readChain]; [done|]. destruct (k =? 0); [done|].
    apply total_bind; [by apply total_wrapErr|]. intros x. cbv zeta. by destruct (_ || _ || _). }
  assert (forall n addr crc acc, total (readData n addr crc acc)) as HD.
  { induction n; intros; simpl; [done|]. apply total_bind; [by apply total_wrapErr|done]. }
  apply total_bind; [by apply total_wrapErr|]. intros blk. cbv zeta.
  destruct (_ || _); [done|]. destruct (_ <=? 0); [done|].
  apply total_bind; [done|]. intros [addrs|]; [|done]. destruct (negb _); [done|]. destruct (len <? _); [done|].
  apply total_bind; [done|]. intros [dbs crc]. apply total_bind; [by apply total_wrapErr|]. intros cb.
  destruct (_ || _ || _); [done|]. destruct (negb _); [done|].
  apply total_bind; [|done]. apply total_forEach. intros ad. apply total_wrapErr, total_zoom, WriteBlock_total.
Qed.

Lemma recoverLoop_total fuel start len off s :
  0 <= start -> 0 <= off -> start + len <= BlockCount s.1 -> BlockCount s.1 < 2 ^ 21 ->
  len - off <= Z.of_nat fuel -> (recoverLoop fuel start len off s).1 <> Panic.
Proof.
  intros Hs. revert off s. induction fuel as [|fuel IH]; intros off s Ho Hlen HB Hf; cbn [recoverLoop].
  { destruct (off <? len) eqn:E; simpl_bool; [lia|done]. }
  destruct (off <? len) eqn:E; simpl_bool; [|done].
  rewrite /mbind /M_bind. pose proof (recoverStep_total start len off s) as Ht.
  pose proof (rsame_BlockCount _ _ (recoverStep_rsame start len off s)) as HBC.
  destruct (recoverStep start len off s) as [[[off'|]|e|] s1] eqn:E1; simpl in Ht, HBC; try done.
  apply recoverStep_forward in E1; [|lia..]. apply IH; rewrite ?HBC; lia.
Qed.

(** C25: recovery terminates on every journal content, well-formed or not, and
    under any injected failure: each turn of the loop moves the offset
    forward, so a turn for each block of the area is enough. *)
Theorem Recover_terminates start len d h :
  0 <= start -> start + len <= BlockCount d -> BlockCount d < 2 ^ 21 ->
  (RecoverWithHook start len (d, h)).1 <> Panic /\ (Recover start len d).1 <> Panic.
Proof.
  intros Hs Hlen HB. assert (forall h, (RecoverWithHook start len (d, h)).1 <> Panic) as H.
  { intros h'. rewrite /RecoverWithHook. destruct (len =? 0); [done|]. apply recoverLoop_total; cbn [fst]; lia. }
  split; [done|]. rewrite /Recover. specialize (H None).
  by destruct (RecoverWithHook start len (d, None)).
Qed.

(** ** [Commit] on a device that does not fail *)

Section fine.
Context (n st len : Z).
Hypothesis (Hst : 0 <= st) (Hlen : 0 <= len < 2 ^ 20) (Hend : st + len <= n) (Hn : n < 2 ^ 31).

Definition fine (s : jstate) : Prop :=
  healthy s.1 /\ BlockCount s.1 = n /\ j_start s.2 = st /\ j_length s.2 = len.

Lemma writeJournalBlock_fine off b fmt args s :
  fine s -> 0 <= off < len -> length b = BlockLen ->
  runs (wrapErr fmt args (writeJournalBlock (u32 off) b)) s (fun _ => fine).
Proof.
  intros (Hh & HB & Hs & Hl) Ho Hb. destruct s as [d j]. cbn [fst snd] in *.
  apply runs_wrapErr. exists tt, (poke (st + off) b d, j). split; [|done].
  rewrite /writeJournalBlock bind_gets /onDisk /zoom. cbn [fst snd].
  rewrite (u32_small off) ?Hs ?u32_small; [lia..|]. rewrite WriteBlock_ok //. lia.
Qed.

Lemma writeDescriptors_fine k descIdx off seq total rest s :
  fine s -> 0 <= off -> 0 <= descIdx -> off + descIdx + Z.of_nat k <= len ->
  runs (writeDescriptors k descIdx off seq total rest) s (fun _ => fine).
Proof.
  revert descIdx rest s. induction k as [|k IH]; intros descIdx rest s Hf Ho Hd Hk; simpl; [by apply runs_ret|].
  eapply runs_bind; [apply writeJournalBlock_fine; [done|lia|]|intros [] s1 Hf1; apply IH; [done|lia..]].
  apply length_makeDescriptor. pose proof (capacity_range descIdx). rewrite length_fmap length_take.
  unfold capacityOf in *. destruct (descIdx =? 0); lia.
Qed.

Lemma writeData_fine i dataOff crc blocks s :
  fine s -> 0 <= dataOff -> 0 <= i -> dataOff + i + Z.of_nat (length blocks) <= len ->
  Forall (fun tb => length (tb_data tb) = BlockLen) blocks ->
  runs (writeData i dataOff crc blocks) s (fun _ => fine).
Proof.
  revert i crc s. induction blocks as [|tb blocks IH]; intros i crc s Hf Ho Hi Hk HF; simpl; [by apply runs_ret|].
  simpl in Hk. apply Forall_cons in HF as [Hl HF].
  eapply runs_bind; [apply writeJournalBlock_fine; [done|lia|done]|intros [] s1 Hf1; apply IH; [done|lia..|done]].
Qed.

Lemma writeHome_fine blocks s :
  fine s -> home_blocks st len n blocks -> runs (writeHome blocks) s (fun _ => fine).
Proof.
  intros Hf Hb. apply runs_forEach; [done|]. intros tb [d j] Hin (Hh & HB & Hs).
  rewrite /home_blocks Forall_forall in Hb. destruct (Hb tb Hin) as (_ & Hlt & Hl). cbn [fst snd] in *.
  apply runs_wrapErr. exists tt, (poke (tb_addr tb) (tb_data tb) d, j). split; [|done].
  rewrite /onDisk /zoom /= WriteBlock_ok //. lia.
Qed.

Lemma Sync_fine fmt s : fine s -> runs (wrapErr fmt [] (onDisk Sync)) s (fun _ => fine).
Proof.
  intros (Hh & HB & Hs). destruct s as [d j]. cbn [fst snd] in *. apply runs_wrapErr. eexists tt, (_, j). split.
  - rewrite /onDisk /zoom /= Sync_ok //.
  - by destruct (dev_dirty d).
Qed.

Lemma logTransaction_fine t s :
  fine s -> wf_tx t -> 0 <= j_head s.2 -> j_head s.2 + txLen t <= len -> runs (logTransaction t) s (fun _ => fine).
Proof.
  intros Hf [_ Hnb HF] Hh Hfit. destruct (numDescs_facts t ltac:(lia)) as (Hd1 & _ & _).
  rewrite /logTransaction. change (Z.of_nat (length (t_blocks t))) with (numBlocks t).
  change (descriptorBlocksFor (numBlocks t)) with (numDescs t). unfold txLen in Hfit. pose proof Hf as (_ & _ & _ & Hlj).
  rewrite (u32_small (numDescs t + numBlocks t + 1)); [lia|].
  eapply (runs_bind _ _ _ (fun off s1 => off = j_head s.2 /\ fine s1)).
  { do 2 eexists. split; [apply allocBlocks_fit; lia|]. done. }
  intros off s1 [-> Hf1].
  eapply runs_bind; [apply writeDescriptors_fine; [done|done|done|lia]|]. intros [] s2 Hf2.
  rewrite (u32_small (j_head s.2 + numDescs t)); [lia|].
  eapply runs_bind; [apply writeData_fine; [done|lia|done|unfold numBlocks in *; lia|]|].
  { eapply Forall_impl; [exact HF|]. by intros x []. }
  intros crc s3 Hf3. apply writeJournalBlock_fine; [done|lia|apply length_makeCommit].
Qed.

Lemma Commit_fine now t s :
  fine s -> loggable st len n t -> 0 <= j_head s.2 -> j_head s.2 + txLen t <= len ->
  runs (Commit now t) s (fun _ => fine).
Proof.
  intros Hf [Hwf Hhome] Hh Hfit. rewrite /Commit.
  destruct (t_blocks t) as [|tb bs] eqn:Et; [by apply runs_ret|]. rewrite -Et in Hhome |- *. clear Et.
  eapply runs_bind; [by apply logTransaction_fine|]. intros [] s1 Hf1.
  eapply runs_bind; [by apply Sync_fine|]. intros [] s2 Hf2.
  eapply runs_bind; [by apply writeHome_fine|]. intros [] s3 Hf3.
  eapply runs_bind; [by apply Sync_fine|]. intros [] s4 Hf4.
  rewrite /runs /modJournal !bind_modify. by do 2 eexists.
Qed.

End fine.

(** ** The journal wraps around *)

(** With no room left, [Commit] starts again at the first block of the area. *)
Lemma Commit_wrap now t s :
  wf_tx t -> 0 <= j_head s.2 <= j_length s.2 -> j_length s.2 < 2 ^ 20 ->
  txLen t <= j_length s.2 < j_head s.2 + txLen t ->
  Commit now t s = Commit now t (s.1, with_head 0 s.2).
Proof.
  intros Hwf Hh Hl Hw. pose proof Hwf as [_ Hnb HF]. destruct (numDescs_facts t ltac:(lia)) as (Hd1 & _ & Hd2).
  rewrite /Commit. destruct (t_blocks t) as [|tb bs] eqn:Et; [rewrite /numBlocks Et /= in Hnb; lia|].
  rewrite -Et. clear Et. assert (logTransaction t s = logTransaction t (s.1, with_head 0 s.2)) as E; cycle 1.
  { rewrite /mbind /M_bind E. done. }
  rewrite /logTransaction. change (Z.of_nat (length (t_blocks t))) with (numBlocks t).
  change (descriptorBlocksFor (numBlocks t)) with (numDescs t). change (numDescs t + numBlocks t + 1) with (txLen t).
  unfold txLen in *. rewrite (u32_small (numDescs t + numBlocks t + 1)); [lia|].
  set (N := numDescs t + numBlocks t + 1) in *.
  assert (allocBlocks N s = allocBlocks N (s.1, with_head 0 s.2)) as E.
  { destruct s as [d j]. cbn [fst snd] in *.
    rewrite /allocBlocks !bind_gets. cbn [snd]. change (j_length (with_head 0 j)) with (j_length j).
    rewrite !bind_failIf_false; [apply Z.ltb_ge; lia..|].
    rewrite /modJournal !bind_modify /= !u32_small; [lia..|].
    replace (j_length j <? j_head j + N) with true by (symmetry; apply Z.ltb_lt; lia).
    by replace (j_length j <? 0 + N) with false by (symmetry; apply Z.ltb_ge; lia). }
  by rewrite /mbind /M_bind E.
Qed.

(** The image and the file after a [Commit] that returned [nil]. *)
Lemma Commit_Ok_inv now t s s' :
  wf_dev s.1 -> loggable (j_start s.2) (j_length s.2) (BlockCount s.1) t -> 0 <= j_start s.2 -> 0 <= j_head s.2 ->
  j_head s.2 + txLen t <= j_length s.2 -> j_start s.2 + j_length s.2 < 2 ^ 31 ->
  Commit now t s = (Ok tt, s') ->
  exists d1, wf_dev d1 /\ dev_size d1 = dev_size s.1 /\
    dev_data d1 = list_inserts (Z.to_nat (j_start s.2 + j_head s.2)) (encodeTx t) (dev_data s.1) /\
    dev_data s'.1 = dev_data (applyBlocks (t_blocks t) d1) /\ dev_file s'.1 = dev_data s'.1 /\
    dev_size s'.1 = dev_size s.1 /\ wf_dev s'.1.
Proof.
  intros Hw [Hwf Hhome] Hs Hh Hfit Hsum. rewrite /Commit. pose proof Hwf as [_ Hnb _].
  destruct (t_blocks t) as [|tb bs] eqn:Et; [rewrite /numBlocks Et /= in Hnb; lia|].
  assert (t_blocks t <> []) as Hne by by rewrite Et. rewrite -Et in Hhome |- *. clear Et.
  intros ([] & s1 & E1 & H)%bind_ok_inv. pose proof (logTransaction_keeps t s) as [[Hs1 _ Hw1] _ _].
  rewrite E1 /= in Hs1 Hw1. apply logTransaction_inv in E1 as (_ & Hd1 & _); [|done..].
  apply bind_ok_inv in H as ([] & s2 & H2%wrapErr_ok_inv%onDisk_ok_inv & H). destruct H2 as [_ H2].
  pose proof (Sync_cases s1.1) as HS2. pose proof (Sync_evol s1.1) as [Hs2 _ Hw2]. rewrite H2 /= in HS2 Hs2 Hw2.
  apply bind_ok_inv in H as ([] & s3 & H3 & H).
  pose proof (writeHome_keeps _ _ _ _ Hhome s2) as [[Hs3 _ Hw3] _ _]. rewrite H3 /= in Hs3 Hw3.
  apply writeHome_inv in H3 as (_ & Hd3 & Hdirty). specialize (Hdirty Hne).
  apply bind_ok_inv in H as ([] & s4 & H4%wrapErr_ok_inv%onDisk_ok_inv & H). destruct H4 as [_ H4].
  pose proof (Sync_cases s3.1) as HS4. pose proof (Sync_evol s3.1) as [Hs4 _ Hw4]. rewrite H4 /= Hdirty in HS4 Hs4 Hw4.
  rewrite /modJournal !bind_modify in H. injection H as <-. cbn [fst snd].
  destruct HS2 as (E2 & _ & _), HS4 as (E4 & _ & F4). exists s1.1. split_and!; try congruence; auto.
  rewrite E4 Hd3. by apply applyBlocks_data.
Qed.

(** What a reader of the image sees after a successful [Commit]. *)
Lemma Commit_image now t s s' :
  wf_dev s.1 -> loggable (j_start s.2) (j_length s.2) (BlockCount s.1) t -> 0 <= j_start s.2 -> 0 <= j_head s.2 ->
  j_head s.2 + txLen t <= j_length s.2 -> j_start s.2 + j_length s.2 <= BlockCount s.1 -> BlockCount s.1 < 2 ^ 31 ->
  Commit now t s = (Ok tt, s') ->
  wf_dev s'.1 /\ BlockCount s'.1 = BlockCount s.1 /\ dev_file s'.1 = dev_data s'.1 /\
  (forall a, is_home (j_start s.2) (j_length s.2) a ->
     peek s'.1 a = default (peek s.1 a) (lastWrite (t_blocks t) a)) /\
  (forall off, 0 <= off < j_length s.2 -> off < j_head s.2 \/ j_head s.2 + txLen t <= off ->
     peek s'.1 (j_start s.2 + off) = peek s.1 (j_start s.2 + off)) /\
  holds s'.1 (j_start s.2 + j_head s.2) (encodeTx t).
Proof.
  intros Hw Ht Hs Hh Hfit He Hc E.
  apply Commit_Ok_inv in E as (d1 & Hw1 & Hs1 & Hd1 & Hd' & Hf' & Hs' & Hw'); [|done..|lia].
  pose proof (BlockCount_same _ _ Hs1) as HBC1. pose proof (proj2 Ht) as Hb. rewrite -HBC1 in Hb.
  assert (Z.of_nat (length (encodeTx t)) = txLen t) as HL by (apply length_encodeTx; destruct Ht as [[]]; lia).
  assert (forall a, 0 <= a -> peek s'.1 a = default (peek d1 a) (lastWrite (t_blocks t) a)) as Hnew.
  { intros a Ha. rewrite -(peek_applyBlocks _ _ _ _ _ Hw1 Hb Ha). apply peek_same. by rewrite Hd'. }
  assert (forall off, 0 <= off < j_length s.2 -> peek s'.1 (j_start s.2 + off) = peek d1 (j_start s.2 + off)) as Ha'.
  { intros off Ho. rewrite Hnew; [lia|]. destruct (lastWrite _ _) as [b|] eqn:EL; [|done].
    apply (lastWrite_home _ _ _ _ _ _ Hb) in EL. by apply area_not_home in EL. }
  split_and!; [done|by apply BlockCount_same|done| | |].
  - intros a [Ha Hh']. rewrite Hnew //. f_equal. apply (peek_inserts_out _ _ _ _ _ Hd1); lia.
  - intros off Ho Hor. rewrite Ha'; [done|]. apply (peek_inserts_out _ _ _ _ _ Hd1); lia.
  - intros i b Hi. pose proof (lookup_lt_Some _ _ _ Hi). rewrite -Z.add_assoc Ha'; [lia|]. rewrite Z.add_assoc.
    apply (peek_inserts_in _ _ _ _ _ _ Hd1); [lia| |done]. rewrite wf_BlockCount // in He. lia.
Qed.

Lemma totalLen_pair t1 t2 : wf_tx t1 -> wf_tx t2 -> totalLen [t1; t2] = txLen t1 + txLen t2.
Proof. intros H1 H2. rewrite totalLen_cons // totalLen_cons //. change (totalLen []) with 0. lia. Qed.

Lemma journalOf_pair t1 t2 : journalOf [t1; t2] = encodeTx t1 ++ encodeTx t2.
Proof. by rewrite /journalOf !bind_cons app_nil_r. Qed.

(** C26: the journal is never emptied, so it is not durable once it has wrapped
    around.  A third transaction that finds no room is written over the first
    one; [Commit] returns [nil] with its data on the disk, and yet a crash and
    the recovery bring the older data of the second one back. *)
Theorem Commit_wraparound_stale t1 t2 t3 now s :
  jinv [t1; t2] s -> healthy s.1 -> loggable (j_start s.2) (j_length s.2) (BlockCount s.1) t3 ->
  txLen t3 = txLen t1 -> j_length s.2 < totalLen [t1; t2] + txLen t3 ->
  exists s' d2, Commit now t3 s = (Ok tt, s') /\ dev_file s'.1 = dev_data s'.1 /\
    RecoverWithHook (j_start s.2) (j_length s.2) (crash s'.1, None) = (Ok tt, (d2, None)) /\
    forall a b2 b3, lastWrite (t_blocks t2) a = Some b2 -> lastWrite (t_blocks t3) a = Some b3 ->
      peek s'.1 a = b3 /\ peek d2 a = b2.
Proof.
  intros Hinv Hhealthy Ht3 Heq Hwrap. pose proof Hinv as [Hw Hfile [_ Hs Hl He Hc] Htxs Harea [Hhd Hle] [R1 R2] _].
  change (BlockCount (crash s.1)) with (BlockCount s.1) in *.
  pose proof Htxs as (Ht1 & [Ht2 _]%Forall_cons)%Forall_cons. pose proof (txLen_pos _ (proj1 Ht3)) as Hpos.
  rewrite journalOf_pair holds_app in Harea. destruct Harea as [_ Harea].
  rewrite length_encodeTx in Harea; [destruct Ht1 as [[]]; lia|].
  rewrite (totalLen_pair _ _ (proj1 Ht1) (proj1 Ht2)) in Hwrap Hhd Hle R1 R2.
  pose proof (txLen_pos _ (proj1 Ht2)) as Hpos2. rewrite (Commit_wrap now t3 s (proj1 Ht3)); [lia..|].
  destruct s as [d j]. cbn [fst snd] in *. set (s0 := (d, with_head 0 j)).
  destruct (Commit_fine (BlockCount d) (j_start j) (j_length j) Hs Hl He Hc now t3 s0)
    as ([] & s' & E & _); [done|done|done|cbn [snd j_head with_head s0]; lia|].
  pose proof E as (Hw' & HBC & Hf' & Hhome & Hout & Hin)%Commit_image;
    [|done|done|done|done|cbn [snd j_head j_length with_head s0]; lia|done|done].
  cbn [snd fst j_start j_length j_head with_head s0] in *. rewrite Z.add_0_r in Hin.
  assert (forall a, peek (crash s'.1) a = peek s'.1 a) as Hp by (intros a; apply peek_same; by rewrite /= Hf').
  assert (Forall (loggable (j_start j) (j_length j) (BlockCount (crash s'.1))) [t3; t2]) as Hlog.
  { change (BlockCount (crash s'.1)) with (BlockCount s'.1). rewrite HBC. repeat constructor; (apply Ht2 || apply Ht3). }
  exists s', (applyBlocks (blocksOf [t3; t2]) (crash s'.1)). split_and!; [done|done| |].
  - apply (RecoverWithHook_txs (crash s'.1) None (j_start j) (j_length j) [t3; t2]); [|done|..];
      rewrite ?(totalLen_pair _ _ (proj1 Ht3) (proj1 Ht2)); [|lia| |].
    + split; try done; change (BlockCount (crash s'.1)) with (BlockCount s'.1); by rewrite HBC.
    + rewrite journalOf_pair. apply holds_app. split; intros i b Hi; rewrite Hp; [by apply Hin|].
      pose proof (lookup_lt_Some _ _ _ Hi) as Hlt. rewrite length_encodeTx; [destruct Ht3 as [[]]; lia|].
      pose proof (length_encodeTx t2 ltac:(destruct Ht2 as [[]]; lia)).
      rewrite -Z.add_assoc Hout; [lia|lia|]. rewrite -(Harea i b Hi). f_equal. lia.
    + split; intros; rewrite Hp Hout; [lia|lia| |lia|lia|]; [apply R1|apply R2]; lia.
  - intros a b2 b3 E2 E3. pose proof (lastWrite_home _ _ _ _ _ _ (proj2 Ht3) E3) as Ha. split.
    + rewrite Hhome // E3 //.
    + rewrite (peek_applyBlocks _ _ _ _ _ (crash_wf _ Hw') (home_blocksOf _ _ _ _ Hlog) (proj1 Ha)).
      rewrite /blocksOf !bind_cons app_nil_r lastWrite_app E2 //.
Qed.

(** ** The ring of the last transactions *)

Record ring_inv (h : list TxRecord) (j : Journal) : Prop := {
  ri_len : length (j_history j) = 64%nat;
  ri_pos : j_histPos j = Z.of_nat (length h);
  ri_cnt : j_histLen j = Z.of_nat (length h `min` 64);
  ri_slot : forall i, (i < length h)%nat -> (length h <= i + 64)%nat -> j_history j !! (i mod 64)%nat = h !! i;
}.

Definition recordAll (h : list TxRecord) (j : Journal) : Journal := foldl (fun j tx => recordTx tx j) j h.

Lemma ring_inv_record h j tx : ring_inv h j -> ring_inv (h ++ [tx]) (recordTx tx j).
Proof.
  intros [Hl Hp Hc Hs]. split; rewrite /recordTx; cbn [j_history j_histLen j_histPos with_history].
  - by rewrite length_insert.
  - rewrite Hp length_app /=. lia.
  - rewrite length_app /= Hc. case_if; lia.
  - intros i Hi Hi2. rewrite length_app /= in Hi Hi2. rewrite Hp.
    replace (Z.to_nat (Z.rem (Z.of_nat (length h)) 64)) with (length h mod 64)%nat.
    2:{ rewrite Z.rem_mod_nonneg; [lia..|]. rewrite -(Nat2Z.inj_mod _ 64). lia. }
    destruct (decide (i = length h)) as [->|Hne].
    + rewrite list_lookup_insert_eq ?Hl; [apply Nat.mod_upper_bound; lia|].
      by rewrite lookup_app_r // Nat.sub_diag.
    + rewrite list_lookup_insert_ne.
      { intros H. pose proof (Nat.div_mod_eq i 64). pose proof (Nat.div_mod_eq (length h) 64). lia. }
      rewrite Hs; [lia|lia|]. by rewrite lookup_app_l; [lia|].
Qed.

Lemma ring_inv_all start length' m h : ring_inv h (recordAll h (NewJournal start length' m)).
Proof.
  induction h as [|tx h IH] using rev_ind; [split; simpl; [done|done|done|lia]|].
  rewrite /recordAll foldl_app. by apply ring_inv_record.
Qed.

(** [RecentTransactions(n)] returns the last [min(n, 64)] transactions of
    the whole history, the newest first, whatever the number of transactions
    the ring of 64 slots has seen; a negative [n] panics. *)
Theorem RecentTransactions_newest start length' m h n :
  RecentTransactions n (recordAll h (NewJournal start length' m))
  = if n <? 0 then Panic else Ok (take (Z.to_nat n `min` 64) (reverse h)).
Proof.
  destruct (ring_inv_all start length' m h) as [Hl Hp Hc Hs]. set (j := recordAll _ _) in *.
  rewrite /RecentTransactions Hc.
  destruct (n <? 0) eqn:En; simpl_bool.
  { replace (Z.of_nat (length h `min` 64) <? n) with false by (symmetry; apply Z.ltb_ge; lia).
    apply Z.ltb_lt in En. by rewrite En. }
  set (k := if _ <? n then _ else n).
  assert (k = Z.of_nat (Z.to_nat n `min` (length h `min` 64))) as -> by (rewrite /k; case_if; lia).
  replace (Z.of_nat _ <? 0) with false by (symmetry; apply Z.ltb_ge; lia). f_equal. apply list_eq. intros i.
  rewrite list_lookup_fmap. destruct (decide (i < Z.to_nat n `min` (length h `min` 64))%nat) as [Hi|Hi].
  - rewrite lookup_seqZ_lt; [lia|]. rewrite lookup_take_lt; [lia|]. rewrite reverse_lookup; [lia|]. simpl.
    rewrite Hp. replace (Z.to_nat (Z.rem _ 64)) with ((length h - S i) mod 64)%nat.
    + rewrite list_lookup_total_alt Hs; [lia..|].
      destruct (lookup_lt_is_Some_2 h (length h - S i)) as [x Hx]; [lia|]. by rewrite Hx.
    + rewrite Z.rem_mod_nonneg; [lia..|]. apply Nat2Z.inj. rewrite Nat2Z.inj_mod Z2Nat.id; [apply Z.mod_pos_bound; lia|].
      replace (Z.of_nat (length h) - 1 - (0 + Z.of_nat i) + 64) with (Z.of_nat (length h - S i) + 1 * 64) by lia.
      by rewrite Z.mod_add.
  - rewrite lookup_seqZ_ge; [lia|]. simpl. symmetry. apply lookup_ge_None_2.
    rewrite length_take length_reverse. lia.
Qed.

(** ** Witnesses *)

Definition demoBlock (b : byte) : block := replicate BlockLen b.
Definition demoTx (seq : Z) (b : byte) : JournalTransaction := mkTransaction seq [mkTxBlock 30 (demoBlock b)].

Lemma zero_not_journal : ~ is_commit zeroBlock /\ ~ is_desc zeroBlock.
Proof. split; intros [H _]; vm_compute in H; discriminate. Qed.

Lemma demoTx_loggable seq b : is_u32 seq -> loggable 2 8 40 (demoTx seq b).
Proof.
  intros Hs. assert (length (demoBlock b) = BlockLen) as Hl by apply length_replicate.
  split; [split|]; rewrite /home_blocks ?Forall_singleton; cbn [demoTx t_sequence t_blocks tb_addr tb_data]; try done.
  split; [|done]. split; [done|by right].
Qed.

Lemma jinv_blank m : jinv [] (blank 40, NewJournal 2 8 m).
Proof.
  destruct zero_not_journal as [H1 H2].
  assert (clean_from (blank 40) 2 8 0) as Hc by (split; intros; by rewrite peek_blank).
  assert (geometry 2 8 (crash (blank 40))) as Hg by by split.
  split; try done. by apply wf_blank.
Qed.

Lemma demo_innocent seq : innocent (demoTx seq Byte.x01).
Proof. repeat constructor. intros [H _]. vm_compute in H. discriminate H. Qed.


(** A device on which a first, then a second transaction has been committed. *)
Lemma demo_commit ts s seq :
  jinv ts s -> healthy s.1 -> j_start s.2 = 2 -> j_length s.2 = 8 -> BlockCount s.1 = 40 -> is_u32 seq ->
  totalLen ts + 3 <= 8 ->
  exists s', Commit 7 (demoTx seq Byte.x01) s = (Ok tt, s') /\ jinv (ts ++ [demoTx seq Byte.x01]) s' /\
    healthy s'.1 /\ j_start s'.2 = 2 /\ j_length s'.2 = 8 /\ BlockCount s'.1 = 40.
Proof.
  intros Hinv Hh Hs Hl HB Hseq Hfit. pose proof (demoTx_loggable seq Byte.x01 Hseq) as Ht.
  pose proof (totalLen_nonneg ts). pose proof (ji_head _ _ Hinv) as [Hhd _].
  assert (txLen (demoTx seq Byte.x01) = 3) as HT by done.
  destruct (Commit_fine 40 2 8 ltac:(lia) ltac:(lia) ltac:(lia) ltac:(lia) 7 (demoTx seq Byte.x01) s)
    as ([] & s' & E & F); [done|done|lia|lia|].
  pose proof (Commit_phases ts (demoTx seq Byte.x01) 7 s Hinv) as HP.
  rewrite Hs Hl HB E in HP. destruct (HP Ht (demo_innocent seq)) as (_ & Hj & _); [lia|].
  destruct F as (F1 & F2 & F3 & F4). by exists s'.
Qed.


Example Recover_terminates_witness :
  (RecoverWithHook 2 8 (blank 40, None)).1 <> Panic /\ (Recover 2 8 (blank 40)).1 <> Panic.
Proof. apply (Recover_terminates 2 8 (blank 40) None); done. Defined.

Example Commit_wraparound_stale_witness :
  exists s s' d2, Commit 7 (demoTx 4 Byte.x02) s = (Ok tt, s') /\ dev_file s'.1 = dev_data s'.1 /\
    RecoverWithHook 2 8 (crash s'.1, None) = (Ok tt, (d2, None)) /\
    peek s'.1 30 = demoBlock Byte.x02 /\ peek d2 30 = demoBlock Byte.x01.
Proof.
  destruct (demo_commit [] (blank 40, NewJournal 2 8 None) 2) as (s1 & _ & Hj1 & Hh1 & Hs1 & Hl1 & HB1);
    [apply jinv_blank|done|done|done|done|done|done|].
  destruct (demo_commit _ s1 3 Hj1 Hh1 Hs1 Hl1 HB1) as (s2 & _ & Hj2 & Hh2 & Hs2 & Hl2 & HB2); [done|done|].
  destruct (Commit_wraparound_stale (demoTx 2 Byte.x01) (demoTx 3 Byte.x01) (demoTx 4 Byte.x02) 7 s2)
    as (s' & d2 & E1 & E2 & E3 & E4); [exact Hj2|exact Hh2|rewrite Hs2 Hl2 HB2; by apply demoTx_loggable|done|by rewrite Hl2|].
  rewrite Hs2 Hl2 in E3. exists s2, s', d2. split; [exact E1|]. split; [exact E2|]. split; [exact E3|].
  exact (E4 30 (demoBlock Byte.x01) (demoBlock Byte.x02) eq_refl eq_refl).
Defined.
