(* ===== verification/Dir.v ===== *)
(** * Dir: directories, [internal/fs/dir.go]

    The entries of a directory are chained by their record lengths through the
    data blocks of its inode.  A callback that closes over variables is a
    function that also takes and returns their values.  The specification
    reads a block as a list of slots that tile it ([encSlots]); insertion,
    removal and lookup are then operations on that list. *)

From S2P Require Export Extent Maps.

(** ** Entries *)

Definition DirEntryMinSize : Z := 8.
Definition MaxNameLen : Z := 255.

Record DirEntry : Type := mkDirEntry {
  de_Inode : Z;
  de_RecLen : Z;
  de_NameLen : Z;
  de_FileType : Z;
  de_Name : list byte;
}.

(** [(n + 3) &^ 3] *)
Definition align4 (n : Z) : Z := Z.land (n + 3) (Z.lnot 3).
Definition DirEntrySize (nameLen : Z) : Z := align4 (DirEntryMinSize + nameLen).

(** [buf[i]] *)
Definition byteAt (buf : list byte) (i : nat) : Z := b2z (buf !!! i).

(** The entry and the number of bytes it takes. *)
Definition ParseDirEntry (buf : list byte) : result (DirEntry * Z) :=
  let len := Z.of_nat (length buf) in
  if len <? DirEntryMinSize then Err (Errorf "dir: buffer too short for entry header" [])
  else
    let ino := LEUint32 buf 0 in
    let recLen := LEUint16 buf 4 in
    let nameLen := byteAt buf 6 in
    let fileType := byteAt buf 7 in
    if (recLen <? DirEntryMinSize) || (len <? recLen) then
      Err (Errorf "dir: invalid recLen %d (buf=%d)" [recLen; len])
    else if recLen - DirEntryMinSize <? nameLen then
      Err (Errorf "dir: nameLen %d exceeds recLen %d" [nameLen; recLen])
    else Ok (mkDirEntry ino recLen nameLen fileType (slice 8 (Z.to_nat nameLen) buf), recLen).

(** [copy(dst, src)] *)
Definition copyInto (off : nat) (src dst : list byte) : list byte :=
  splice off (take (length dst - off) src) dst.

Definition encodeDirEntry (de : DirEntry) (buf : list byte) : list byte :=
  let buf := LEPutUint32 buf 0 (de_Inode de) in
  let buf := LEPutUint16 buf 4 (de_RecLen de) in
  let buf := splice 6 [z2b (de_NameLen de)] buf in
  let buf := splice 7 [z2b (de_FileType de)] buf in
  copyInto 8 (de_Name de) buf.

(** A write into the slice [blk[off:]]. *)
Definition updateFrom (off : nat) (f : list byte -> list byte) (blk : list byte) : list byte :=
  take off blk ++ f (drop off blk).

(** [off+DirEntryMinSize <= BlockSize] *)
Definition moreEntries (off : nat) : bool := Nat.leb (off + 8) BlockLen.

(** Every entry that parses has at least eight bytes, so that a block has at
    most 512 of them: [turns] is enough for the loops over a block. *)
Definition turns : nat := 513.

(** ** Iteration *)

Section iterate.
Context {V : Type}.
(** The callback, with the variables it assigns: it returns [true] to go on. *)
Variable fn : DirEntry -> Z -> nat -> V -> V * bool.

(** The loop over one block; the boolean is [false] when [fn] has stopped. *)
Fixpoint iterBlock (fuel : nat) (blk : block) (b : Z) (off : nat) (v : V) : V * bool :=
  match fuel with
  | O => (v, true)
  | S fuel =>
      if moreEntries off then
        match ParseDirEntry (drop off blk) with
        | Ok (de, consumed) =>
            if consumed =? 0 then (v, true)
            else if negb (de_Inode de =? 0) then
              let (v, continue) := fn de b off v in
              if negb continue then (v, false)
              else iterBlock fuel blk b (off + Z.to_nat consumed) v
            else iterBlock fuel blk b (off + Z.to_nat consumed) v
        | _ => (v, true)
        end
      else (v, true)
  end.

Fixpoint iterBlocks (di : DiskInode) (bs : list Z) (v : V) : M BlockDevice V :=
  match bs with
  | [] => mret v
  | b :: bs =>
      physBlk ← wrapErr "dir: get block for offset %d: %w" [b] (GetBlockForOffset di b);
      if physBlk =? 0 then iterBlocks di bs v
      else
        blk ← wrapErr "dir: read block %d: %w" [physBlk] (ReadBlock physBlk);
        let (v, continue) := iterBlock turns blk b 0 v in
        if negb continue then mret v else iterBlocks di bs v
  end.

(** [uint32((size + BlockSize - 1) / BlockSize)] *)
Definition numBlocks (di : DiskInode) : Z := u32 (Z.quot (i64 (SizeOf di + BlockSize - 1)) BlockSize).

Definition IterDirEntries (di : DiskInode) (v : V) : M BlockDevice V :=
  if SizeOf di =? 0 then mret v else iterBlocks di (seqZ 0 (numBlocks di)) v.

End iterate.

Definition LookupEntry (di : DiskInode) (name : list byte) : M BlockDevice (Z * Z) :=
  failIf (negb (IsDir di)) ErrNotDir ;;
  found ← IterDirEntries (fun de _ _ found =>
    if bool_decide (de_Name de = name) then ((de_Inode de, de_FileType de), false) else (found, true))
    di (0, 0);
  if found.1 =? 0 then throw ErrNotFound else mret found.

Definition dot : list byte := str ".".
Definition dotdot : list byte := str "..".

Definition IsEmptyDir (di : DiskInode) : M BlockDevice bool :=
  count ← IterDirEntries (fun de _ _ count =>
    if negb (bool_decide (de_Name de = dot)) && negb (bool_decide (de_Name de = dotdot))
    then (count + 1, false) else (count, true)) di 0;
  mret (count =? 0).

Definition ReadAllEntries (di : DiskInode) : M BlockDevice (list DirEntry) :=
  IterDirEntries (fun de _ _ entries => (entries ++ [de], true)) di [].

(** ** Updates *)

(** The loop of [AddEntry] over one block: the block with the entry in it. *)
Fixpoint addScan (fuel : nat) (needed : Z) (name : list byte) (inum fileType : Z) (blk : block) (off : nat)
    : option block :=
  match fuel with
  | O => None
  | S fuel =>
      if moreEntries off then
        match ParseDirEntry (drop off blk) with
        | Ok (de, _) =>
            if de_RecLen de =? 0 then None
            else
              let next := addScan fuel needed name inum fileType blk (off + Z.to_nat (de_RecLen de)) in
              if de_Inode de =? 0 then
                if needed <=? de_RecLen de then
                  Some (updateFrom off (encodeDirEntry
                    (mkDirEntry inum (de_RecLen de) (u8 (Z.of_nat (length name))) fileType name)) blk)
                else next
              else
                let minSize := DirEntrySize (de_NameLen de) in
                let spare := de_RecLen de - minSize in
                if needed <=? spare then
                  let blk := LEPutUint16 blk (off + 4) (u16 minSize) in
                  Some (updateFrom (off + Z.to_nat minSize) (encodeDirEntry
                    (mkDirEntry inum (u16 spare) (u8 (Z.of_nat (length name))) fileType name)) blk)
                else next
        | _ => None
        end
      else None
  end.

(** The blocks of the directory, in order; [true] when the entry is written. *)
Fixpoint addBlocks (di : DiskInode) (needed : Z) (name : list byte) (inum fileType : Z) (bs : list Z)
    : M BlockDevice bool :=
  match bs with
  | [] => mret false
  | b :: bs =>
      physBlk ← GetBlockForOffset di b;
      if physBlk =? 0 then addBlocks di needed name inum fileType bs
      else
        blk ← ReadBlock physBlk;
        match addScan turns needed name inum fileType blk 0 with
        | Some blk => WriteBlock physBlk blk ;; mret true
        | None => addBlocks di needed name inum fileType bs
        end
  end.

Definition setBlockForOffset (logicalBlock physBlock : Z) : M inode_state unit :=
  if logicalBlock <? 12 then
    modInode (setDirect logicalBlock physBlock) ;;
    modInode addBlocks512
  else
  let lb := logicalBlock - 12 in
  if lb <? ptrs then
    ind ← ensureRoot Indirect1 setIndirect1;
    blk ← onBlk (ReadBlock ind);
    modInode addBlocks512 ;;
    onBlk (WriteBlock ind (writePointer blk lb physBlock))
  else throw ErrTooBig.

(** The new block when no slot is left. *)
Definition newDirBlock (name : list byte) (inum fileType : Z) : block :=
  encodeDirEntry (mkDirEntry inum (u16 BlockSize) (u8 (Z.of_nat (length name))) fileType name) zeroBlock.

Definition AddEntry (name : list byte) (inum fileType : Z) : M inode_state unit :=
  failIf (MaxNameLen <? Z.of_nat (length name)) ErrNameTooLong ;;
  di ← gets snd;
  failIf (negb (IsDir di)) ErrNotDir ;;
  let needed := DirEntrySize (Z.of_nat (length name)) in
  done ← onBlk (addBlocks di needed name inum fileType (seqZ 0 (numBlocks di)));
  if done : bool then mret tt
  else
    newPhys ← onAlloc AllocBlock;
    onBlk (WriteBlock newPhys (newDirBlock name inum fileType)) ;;
    let logicalBlock := numBlocks di in
    setBlockForOffset logicalBlock newPhys ;;
    modInode (SetSize (i64 (u32 (logicalBlock + 1) * BlockSize))).

(** The loop of [RemoveEntry] over one block. *)
Fixpoint removeScan (fuel : nat) (name : list byte) (blk : block) (off : nat) : option block :=
  match fuel with
  | O => None
  | S fuel =>
      if moreEntries off then
        match ParseDirEntry (drop off blk) with
        | Ok (de, _) =>
            if de_RecLen de =? 0 then None
            else if negb (de_Inode de =? 0) && bool_decide (de_Name de = name) then
              Some (LEPutUint32 blk off 0)
            else removeScan fuel name blk (off + Z.to_nat (de_RecLen de))
        | _ => None
        end
      else None
  end.

Fixpoint removeBlocks (di : DiskInode) (name : list byte) (bs : list Z) : M BlockDevice unit :=
  match bs with
  | [] => throw ErrNotFound
  | b :: bs =>
      physBlk ← GetBlockForOffset di b;
      if physBlk =? 0 then removeBlocks di name bs
      else
        blk ← ReadBlock physBlk;
        match removeScan turns name blk 0 with
        | Some blk => WriteBlock physBlk blk
        | None => removeBlocks di name bs
        end
  end.

Definition RemoveEntry (di : DiskInode) (name : list byte) : M BlockDevice unit :=
  failIf (negb (IsDir di)) ErrNotDir ;;
  removeBlocks di name (seqZ 0 (numBlocks di)).

(** The first block of a new directory. *)
Definition initialDirBlock (dirInum parentInum : Z) : block :=
  let dotSize := DirEntrySize 1 in
  let blk := encodeDirEntry (mkDirEntry dirInum (u16 dotSize) 1 FT_DIR dot) zeroBlock in
  updateFrom (Z.to_nat dotSize)
    (encodeDirEntry (mkDirEntry parentInum (u16 (BlockSize - dotSize)) 2 FT_DIR dotdot)) blk.

Definition InitDirBlock (di : DiskInode) (dirInum parentInum : Z) : M BlockDevice unit :=
  failIf (Direct di !!! 0%nat =? 0) (Errorf "dir: no first block allocated" []) ;;
  WriteBlock (Direct di !!! 0%nat) (initialDirBlock dirInum parentInum).

Fixpoint parseBlockLoop (fuel : nat) (data : list byte) (offset : nat) : list DirEntry :=
  match fuel with
  | O => []
  | S fuel =>
      if Nat.ltb offset (length data) && Nat.leb (offset + 8) (length data) then
        match ParseDirEntry (drop offset data) with
        | Ok (de, consumed) =>
            if consumed <=? 0 then [] else de :: parseBlockLoop fuel data (offset + Z.to_nat consumed)
        | _ => []
        end
      else []
  end.

(** Each entry is a map from the five keys to the fields of the [DirEntry]. *)
Definition ParseDirBlock (data : list byte) : list DirEntry := parseBlockLoop (length data) data 0.

(** ** Slots *)

Record slot : Type := mkSlot { sl_ino : Z; sl_ft : Z; sl_name : list byte; sl_pad : list byte }.

Definition sl_len (s : slot) : nat := (8 + length (sl_name s) + length (sl_pad s))%nat.

Definition encSlot (s : slot) : list byte :=
  le_enc 4 (sl_ino s) ++ le_enc 2 (Z.of_nat (sl_len s)) ++
  [z2b (Z.of_nat (length (sl_name s))); z2b (sl_ft s)] ++ sl_name s ++ sl_pad s.
Definition encSlots (l : list slot) : list byte := l ≫= encSlot.

Record wf_slot (s : slot) : Prop := {
  ws_ino : is_u32 (sl_ino s);
  ws_ft : is_u8 (sl_ft s);
  ws_name : Z.of_nat (length (sl_name s)) <= 255;
  ws_len : (sl_len s <= BlockLen)%nat;
}.

(** The slots tile a block. *)
Definition tiled (l : list slot) : Prop := Forall wf_slot l /\ length (encSlots l) = BlockLen.

Definition entryOf (s : slot) : DirEntry :=
  mkDirEntry (sl_ino s) (Z.of_nat (sl_len s)) (Z.of_nat (length (sl_name s))) (sl_ft s) (sl_name s).

Definition is_live (s : slot) : bool := negb (sl_ino s =? 0).
Definition live (l : list slot) : list slot := filter (fun s => is_live s = true) l.

Lemma length_encSlot s : length (encSlot s) = sl_len s.
Proof. rewrite /encSlot !length_app !length_le_enc /=. rewrite /sl_len. lia. Qed.

Lemma encSlots_cons s l : encSlots (s :: l) = encSlot s ++ encSlots l.
Proof. done. Qed.

Lemma length_encSlots_cons s l : length (encSlots (s :: l)) = (sl_len s + length (encSlots l))%nat.
Proof. by rewrite encSlots_cons length_app length_encSlot. Qed.

Lemma encSlots_app l k : encSlots (l ++ k) = encSlots l ++ encSlots k.
Proof. apply bind_app. Qed.

Lemma length_encSlots_le l : Forall wf_slot l -> (8 * length l <= length (encSlots l))%nat.
Proof.
  induction 1 as [|s l _ _ IH]; [done|]. rewrite encSlots_cons length_app length_encSlot /sl_len /=. lia.
Qed.

Lemma slice_app_here {A} (a b c : list A) off n :
  off = length a -> n = length b -> slice off n (a ++ b ++ c) = b.
Proof. intros -> ->. rewrite /slice drop_app_length. by rewrite take_app_length. Qed.

(** A slot is parsed back, whatever follows it. *)
Lemma ParseDirEntry_enc s rest :
  wf_slot s -> ParseDirEntry (encSlot s ++ rest) = Ok (entryOf s, Z.of_nat (sl_len s)).
Proof.
  intros [Hi Hf Hn Hl]. pose proof (length_encSlot s) as HL.
  assert (8 <= sl_len s)%nat as H8 by (rewrite /sl_len; lia).
  assert (LEUint32 (encSlot s ++ rest) 0 = sl_ino s) as E1.
  { rewrite /LEUint32 /encSlot -!app_assoc.
    rewrite (slice_app_here (A:=byte) [] (le_enc 4 (sl_ino s)) (_ ++ _) 0 4 eq_refl) ?length_le_enc //.
    rewrite le_dec_enc. apply Z.mod_small. done. }
  assert (LEUint16 (encSlot s ++ rest) 4 = Z.of_nat (sl_len s)) as E2.
  { rewrite /LEUint16 /encSlot -!app_assoc (slice_app_here (le_enc 4 (sl_ino s))) ?length_le_enc //.
    rewrite le_dec_enc. apply Z.mod_small. change (2 ^ (8 * Z.of_nat 2)) with 65536. lia. }
  assert ((encSlot s ++ rest) !!! 6%nat = z2b (Z.of_nat (length (sl_name s)))) as E3.
  { rewrite list_lookup_total_alt /encSlot -!app_assoc. done. }
  assert ((encSlot s ++ rest) !!! 7%nat = z2b (sl_ft s)) as E4.
  { rewrite list_lookup_total_alt /encSlot -!app_assoc. done. }
  rewrite /ParseDirEntry E1 E2 /byteAt E3 E4 !b2z_z2b length_app HL /DirEntryMinSize.
  rewrite (Z.mod_small (Z.of_nat _) 256); [lia|]. rewrite (Z.mod_small (sl_ft s) 256); [exact Hf|].
  replace (Z.of_nat (sl_len s + length rest) <? 8) with false by (symmetry; apply Z.ltb_ge; lia).
  replace (Z.of_nat (sl_len s) <? 8) with false by (symmetry; apply Z.ltb_ge; lia).
  replace (Z.of_nat (sl_len s + length rest) <? Z.of_nat (sl_len s)) with false by (symmetry; apply Z.ltb_ge; lia).
  cbn [orb].
  replace (Z.of_nat (sl_len s) - 8 <? Z.of_nat (length (sl_name s))) with false
    by (symmetry; apply Z.ltb_ge; rewrite /sl_len; lia).
  rewrite Nat2Z.id. do 3 f_equal. rewrite /encSlot !app_assoc -app_assoc -app_assoc.
  rewrite /entryOf. f_equal. apply slice_app_here; [|done]. rewrite !length_app !length_le_enc //.
Qed.


#[global] Arguments encSlot : simpl never.
#[global] Arguments encSlots : simpl never.

(** ** The loops over a block, on slots *)

Section iterate_slots.
Context {V : Type} (fn : DirEntry -> Z -> nat -> V -> V * bool).

Fixpoint iterSlots (l : list slot) (b : Z) (off : nat) (v : V) : V * bool :=
  match l with
  | [] => (v, true)
  | s :: l =>
      if is_live s then
        let (v, continue) := fn (entryOf s) b off v in
        if continue then iterSlots l b (off + sl_len s) v else (v, false)
      else iterSlots l b (off + sl_len s) v
  end.

Lemma iterBlock_slots fuel pre l b v :
  Forall wf_slot l -> length (pre ++ encSlots l) = BlockLen -> (length l < fuel)%nat ->
  iterBlock fn fuel (pre ++ encSlots l) b (length pre) v = iterSlots l b (length pre) v.
Proof.
  revert pre l v. induction fuel as [|fuel IH]; intros pre l v Hw Hl Hf; [lia|]. simpl iterBlock.
  rewrite length_app in Hl. destruct l as [|s l].
  - rewrite /moreEntries. change (length (encSlots [])) with 0%nat in Hl.
    by replace (Nat.leb (length pre + 8) BlockLen) with false by (symmetry; apply Nat.leb_gt; lia).
  - apply Forall_cons in Hw as [Hs Hw]. rewrite encSlots_cons length_app length_encSlot in Hl.
    assert (8 <= sl_len s)%nat as H8 by (rewrite /sl_len; lia).
    rewrite /moreEntries. replace (Nat.leb (length pre + 8) BlockLen) with true by (symmetry; apply Nat.leb_le; lia).
    rewrite drop_app_length encSlots_cons ParseDirEntry_enc //.
    replace (Z.of_nat (sl_len s) =? 0) with false by (symmetry; apply Z.eqb_neq; lia).
    rewrite Nat2Z.id. change (de_Inode (entryOf s)) with (sl_ino s). simpl iterSlots. rewrite /is_live.
    assert (forall v, iterBlock fn fuel (pre ++ encSlot s ++ encSlots l) b (length pre + sl_len s) v
              = iterSlots l b (length pre + sl_len s) v) as HIH.
    { intros v'. rewrite app_assoc. rewrite -length_encSlot -length_app. apply IH; [done| |simpl in Hf; lia].
      rewrite length_app (length_app pre) length_encSlot. lia. }
    destruct (negb (sl_ino s =? 0)); [|apply HIH].
    destruct (fn _ b (length pre) v) as [v' []]; [apply HIH|done].
Qed.

Lemma iterBlock_tiled l b v : tiled l -> iterBlock fn turns (encSlots l) b 0 v = iterSlots l b 0 v.
Proof.
  intros [Hw Hl]. apply (iterBlock_slots turns [] l); [done|done|].
  pose proof (length_encSlots_le l Hw). rewrite /turns. lia.
Qed.

End iterate_slots.

(** A callback that does not look at positions, folded over the live slots. *)
Fixpoint foldStop {V} (f : slot -> V -> V * bool) (l : list slot) (v : V) : V * bool :=
  match l with
  | [] => (v, true)
  | s :: l => let (v, continue) := f s v in if continue then foldStop f l v else (v, false)
  end.

Lemma foldStop_app {V} (f : slot -> V -> V * bool) l k v :
  foldStop f (l ++ k) v = (let (v, c) := foldStop f l v in if c then foldStop f k v else (v, false)).
Proof.
  revert v. induction l as [|s l IH]; intros v; [done|]. simpl. destruct (f s v) as [v' []]; [apply IH|done].
Qed.

Lemma live_cons s l : live (s :: l) = if is_live s then s :: live l else live l.
Proof. rewrite /live filter_cons. by destruct (is_live s). Qed.

Lemma live_app l k : live (l ++ k) = live l ++ live k.
Proof. apply filter_app. Qed.

Lemma iterSlots_live {V} (f : slot -> V -> V * bool) fn l b off v :
  (forall s off v, s ∈ l -> fn (entryOf s) b off v = f s v) ->
  iterSlots fn l b off v = foldStop f (live l) v.
Proof.
  revert off v. induction l as [|s l IH]; intros off v Hfn; [done|]. rewrite live_cons. simpl iterSlots.
  assert (forall off v, iterSlots fn l b off v = foldStop f (live l) v) as HIH.
  { intros off' v'. apply IH. intros; apply Hfn. by right. }
  destruct (is_live s); [|apply HIH]. simpl. rewrite Hfn; [left|].
  destruct (f s v) as [v' []]; [apply HIH|done].
Qed.

(** Insertion in the first slot with room. *)
Definition neededFor (name : list byte) : nat := Z.to_nat (DirEntrySize (Z.of_nat (length name))).
Definition minLen (s : slot) : nat := neededFor (sl_name s).

(** A slot for the entry over the bytes [room]. *)
Definition placed (name : list byte) (inum ft : Z) (room : list byte) : slot :=
  mkSlot inum ft name (drop (length name) room).

Fixpoint addSlots (name : list byte) (inum ft : Z) (l : list slot) : option (list slot) :=
  match l with
  | [] => None
  | s :: l =>
      if is_live s then
        if Nat.leb (minLen s + neededFor name) (sl_len s) then
          let k := (minLen s - 8 - length (sl_name s))%nat in
          Some (mkSlot (sl_ino s) (sl_ft s) (sl_name s) (take k (sl_pad s))
                :: placed name inum ft (drop (k + 8) (sl_pad s)) :: l)
        else cons s <$> addSlots name inum ft l
      else if Nat.leb (neededFor name) (sl_len s)
      then Some (placed name inum ft (sl_name s ++ sl_pad s) :: l)
      else cons s <$> addSlots name inum ft l
  end.

(** Deletion of the first live slot of that name. *)
Fixpoint removeSlots (name : list byte) (l : list slot) : option (list slot) :=
  match l with
  | [] => None
  | s :: l =>
      if is_live s && bool_decide (sl_name s = name)
      then Some (mkSlot 0 (sl_ft s) (sl_name s) (sl_pad s) :: l)
      else cons s <$> removeSlots name l
  end.

Lemma DirEntrySize_bounds n : 0 <= n -> 8 + n <= DirEntrySize n <= 8 + n + 3 /\ DirEntrySize n mod 4 = 0.
Proof.
  intros Hn. rewrite /DirEntrySize /align4 /DirEntryMinSize.
  assert (Z.land (8 + n + 3) (Z.lnot 3) = (8 + n + 3) / 4 * 4) as ->.
  { change (Z.lnot 3) with (Z.lnot (Z.ones 2)). rewrite -Z.ldiff_land Z.ldiff_ones_r; [lia|].
    rewrite Z.shiftl_mul_pow2 // Z.shiftr_div_pow2 //. }
  pose proof (Z.div_mod (8 + n + 3) 4 ltac:(lia)). pose proof (Z.mod_pos_bound (8 + n + 3) 4 ltac:(lia)).
  split; [lia|]. by rewrite Z.mod_mul.
Qed.

Lemma neededFor_bounds name : (8 + length name <= neededFor name <= 11 + length name)%nat /\
  Z.of_nat (neededFor name) = DirEntrySize (Z.of_nat (length name)).
Proof. rewrite /neededFor. pose proof (DirEntrySize_bounds (Z.of_nat (length name))). lia. Qed.

Lemma encodeDirEntry_room name inum ft buf rest :
  (8 + length name <= length buf)%nat -> Z.of_nat (length name) <= 255 ->
  encodeDirEntry (mkDirEntry inum (Z.of_nat (length buf)) (u8 (Z.of_nat (length name))) ft name) (buf ++ rest)
  = encSlot (placed name inum ft (drop 8 buf)) ++ rest.
Proof.
  intros Hl Hn. rewrite u8_small; [lia|].
  assert (sl_len (placed name inum ft (drop 8 buf)) = length buf) as HL.
  { rewrite /sl_len /placed /= !length_drop. lia. }
  rewrite /encSlot HL /placed /=. clear HL.
  do 8 (destruct buf as [|? buf]; [simpl in Hl; lia|]). simpl in Hl.
  rewrite /encodeDirEntry /copyInto. cbn [de_Inode de_RecLen de_NameLen de_FileType de_Name].
  rewrite /LEPutUint32 /LEPutUint16 /splice !length_le_enc. cbn [le_enc take drop app length Nat.add Nat.sub].
  rewrite !drop_0 take_0 /= (firstn_all2 name); [rewrite length_app; lia|]. rewrite drop_app_le; [lia|]. by rewrite -app_assoc.
Qed.

Lemma LEPutUint16_slot s rest n :
  LEPutUint16 (encSlot s ++ rest) 4 n
  = le_enc 4 (sl_ino s) ++ le_enc 2 n ++ [z2b (Z.of_nat (length (sl_name s))); z2b (sl_ft s)] ++
    sl_name s ++ sl_pad s ++ rest.
Proof. rewrite /encSlot /LEPutUint16 /splice !length_le_enc. cbn [le_enc take drop app Nat.add]. by rewrite -app_assoc. Qed.

Lemma updateFrom_at pre off f l : off = length pre -> updateFrom off f (pre ++ l) = pre ++ f l.
Proof. intros ->. by rewrite /updateFrom take_app_length drop_app_length. Qed.

Lemma LEPutUint16_at pre l off n : LEPutUint16 (pre ++ l) (length pre + off) n = pre ++ LEPutUint16 l off n.
Proof.
  rewrite /LEPutUint16 /splice take_app_add -app_assoc -Nat.add_assoc drop_app_add. done.
Qed.

Lemma LEPutUint32_at pre l n : LEPutUint32 (pre ++ l) (length pre) n = pre ++ LEPutUint32 l 0 n.
Proof. rewrite /LEPutUint32 /splice take_app_length drop_app_add. done. Qed.

(** Splitting a live slot. *)
Lemma split_slot s rest name inum ft :
  wf_slot s -> Z.of_nat (length name) <= 255 -> (minLen s + neededFor name <= sl_len s)%nat ->
  let k := (minLen s - 8 - length (sl_name s))%nat in
  updateFrom (minLen s) (encodeDirEntry (mkDirEntry inum (u16 (Z.of_nat (sl_len s) - Z.of_nat (minLen s)))
    (u8 (Z.of_nat (length name))) ft name)) (LEPutUint16 (encSlot s ++ rest) 4 (u16 (Z.of_nat (minLen s))))
  = encSlot (mkSlot (sl_ino s) (sl_ft s) (sl_name s) (take k (sl_pad s))) ++
    encSlot (placed name inum ft (drop (k + 8) (sl_pad s))) ++ rest.
Proof.
  intros [Hi Hf Hn Hl] Hname Hfit k. destruct (neededFor_bounds name) as [HA _].
  destruct (neededFor_bounds (sl_name s)) as [HB _]. fold (minLen s) in HB.
  assert (length (sl_pad s) = k + (sl_len s - minLen s))%nat as Hpad by (rewrite /k; unfold sl_len in *; lia).
  set (s1 := mkSlot (sl_ino s) (sl_ft s) (sl_name s) (take k (sl_pad s))).
  assert (sl_len s1 = minLen s) as HL1 by (rewrite /sl_len /s1 /= length_take; lia).
  rewrite (u16_small (Z.of_nat (minLen s))); [lia|]. rewrite LEPutUint16_slot.
  replace (_ ++ _ ++ _ ++ _ ++ sl_pad s ++ rest) with (encSlot s1 ++ (drop k (sl_pad s) ++ rest)); cycle 1.
  { rewrite /encSlot HL1 /s1 /= -!app_assoc. by rewrite (app_assoc (take k _)) take_drop. }
  rewrite updateFrom_at; [by rewrite length_encSlot|]. f_equal.
  rewrite u16_small; [unfold sl_len in *; lia|].
  replace (Z.of_nat (sl_len s) - Z.of_nat (minLen s)) with (Z.of_nat (length (drop k (sl_pad s)))) by (rewrite length_drop; lia).
  rewrite encodeDirEntry_room ?drop_drop //. rewrite length_drop. lia.
Qed.

Lemma addScan_slots fuel pre l name inum ft :
  Forall wf_slot l -> length (pre ++ encSlots l) = BlockLen -> (length l < fuel)%nat ->
  Z.of_nat (length name) <= 255 ->
  addScan fuel (DirEntrySize (Z.of_nat (length name))) name inum ft (pre ++ encSlots l) (length pre)
  = (fun l' => pre ++ encSlots l') <$> addSlots name inum ft l.
Proof.
  revert pre l. induction fuel as [|fuel IH]; intros pre l Hw Hl Hf Hn; [lia|]. simpl addScan.
  rewrite length_app in Hl. destruct (neededFor_bounds name) as [HA HAz].
  destruct l as [|s l].
  { rewrite /moreEntries. change (length (encSlots [])) with 0%nat in Hl.
    by replace (Nat.leb (length pre + 8) BlockLen) with false by (symmetry; apply Nat.leb_gt; lia). }
  apply Forall_cons in Hw as [Hs Hw]. rewrite encSlots_cons length_app length_encSlot in Hl.
  assert (8 <= sl_len s)%nat as H8 by (rewrite /sl_len; lia).
  rewrite /moreEntries. replace (Nat.leb (length pre + 8) BlockLen) with true by (symmetry; apply Nat.leb_le; lia).
  rewrite drop_app_length encSlots_cons ParseDirEntry_enc //. cbn [de_RecLen de_Inode de_NameLen entryOf].
  replace (Z.of_nat (sl_len s) =? 0) with false by (symmetry; apply Z.eqb_neq; lia). rewrite Nat2Z.id.
  assert (addScan fuel (DirEntrySize (Z.of_nat (length name))) name inum ft (pre ++ encSlot s ++ encSlots l) (length pre + sl_len s)
          = (fun l' => pre ++ encSlots l') <$> (cons s <$> addSlots name inum ft l)) as HIH.
  { rewrite app_assoc -length_encSlot -length_app IH //; [|simpl in Hf; lia|].
    - rewrite length_app (length_app pre) length_encSlot. lia.
    - rewrite -!option_fmap_compose. destruct (addSlots _ _ _ l); [|done]. cbn [fmap option_fmap option_map]. f_equal. by rewrite /compose encSlots_cons app_assoc. }
  destruct (neededFor_bounds (sl_name s)) as [HB HBz]. fold (minLen s) in HB, HBz.
  simpl addSlots. rewrite /is_live. destruct (sl_ino s =? 0) eqn:E; cbn [negb].
  - destruct (Nat.leb_spec (neededFor name) (sl_len s)) as [Hle|Hlt].
    + replace (DirEntrySize _ <=? Z.of_nat (sl_len s)) with true by (symmetry; apply Z.leb_le; lia). cbn [fmap option_fmap option_map].
      f_equal. rewrite updateFrom_at // -length_encSlot. rewrite encodeDirEntry_room; [rewrite length_encSlot; lia|done|]. done.
    + replace (DirEntrySize _ <=? Z.of_nat (sl_len s)) with false by (symmetry; apply Z.leb_gt; lia). exact HIH.
  - rewrite -HBz. destruct (Nat.leb_spec (minLen s + neededFor name) (sl_len s)) as [Hle|Hlt].
    + replace (DirEntrySize _ <=? _) with true by (symmetry; apply Z.leb_le; lia). cbn [fmap option_fmap option_map]. f_equal.
      rewrite LEPutUint16_at Nat2Z.id. rewrite /updateFrom take_app_add drop_app_add -app_assoc. f_equal.
      exact (split_slot s (encSlots l) name inum ft Hs Hn Hle).
    + replace (DirEntrySize _ <=? _) with false by (symmetry; apply Z.leb_gt; lia). exact HIH.
Qed.

Lemma removeScan_slots fuel pre l name :
  Forall wf_slot l -> length (pre ++ encSlots l) = BlockLen -> (length l < fuel)%nat ->
  removeScan fuel name (pre ++ encSlots l) (length pre)
  = (fun l' => pre ++ encSlots l') <$> removeSlots name l.
Proof.
  revert pre l. induction fuel as [|fuel IH]; intros pre l Hw Hl Hf; [lia|]. simpl removeScan.
  rewrite length_app in Hl. destruct l as [|s l].
  { rewrite /moreEntries. change (length (encSlots [])) with 0%nat in Hl.
    by replace (Nat.leb (length pre + 8) BlockLen) with false by (symmetry; apply Nat.leb_gt; lia). }
  apply Forall_cons in Hw as [Hs Hw]. rewrite encSlots_cons length_app length_encSlot in Hl.
  assert (8 <= sl_len s)%nat as H8 by (rewrite /sl_len; lia).
  rewrite /moreEntries. replace (Nat.leb (length pre + 8) BlockLen) with true by (symmetry; apply Nat.leb_le; lia).
  rewrite drop_app_length encSlots_cons ParseDirEntry_enc //. cbn [de_RecLen de_Inode de_Name entryOf].
  replace (Z.of_nat (sl_len s) =? 0) with false by (symmetry; apply Z.eqb_neq; lia). rewrite Nat2Z.id.
  simpl removeSlots. rewrite /is_live. destruct (_ && _) eqn:E; cbn [fmap option_fmap option_map].
  - f_equal. by rewrite LEPutUint32_at.
  - rewrite app_assoc -length_encSlot -length_app IH //; [|simpl in Hf; lia|].
    + rewrite length_app (length_app pre) length_encSlot. lia.
    + rewrite -!option_fmap_compose. destruct (removeSlots _ l); [|done]. cbn [fmap option_fmap option_map]. f_equal. by rewrite /compose encSlots_cons app_assoc.
Qed.

(** ** The entries of a list of slots *)

(** Name, inode number and file type. *)
Definition dent : Type := list byte * (Z * Z).
Definition dentOf (s : slot) : dent := (sl_name s, (sl_ino s, sl_ft s)).
Definition dents (l : list slot) : list dent := dentOf <$> live l.

Lemma dents_cons s l : dents (s :: l) = if is_live s then dentOf s :: dents l else dents l.
Proof. rewrite /dents live_cons. by destruct (is_live s). Qed.

Lemma dents_app l k : dents (l ++ k) = dents l ++ dents k.
Proof. by rewrite /dents live_app fmap_app. Qed.

Lemma placed_facts name inum ft room :
  is_u32 inum -> is_u8 ft -> Z.of_nat (length name) <= 255 -> (length name <= length room)%nat ->
  (length room + 8 <= BlockLen)%nat ->
  wf_slot (placed name inum ft room) /\ sl_len (placed name inum ft room) = (8 + length room)%nat.
Proof.
  intros Hi Hf Hn Hl Hb. assert (sl_len (placed name inum ft room) = (8 + length room)%nat) as HL.
  { rewrite /sl_len /placed /= length_drop. lia. }
  split; [|done]. split; try done. rewrite HL. lia.
Qed.

(** Insertion keeps the tiling and adds one entry. *)
Lemma addSlots_spec name inum ft l l' :
  Forall wf_slot l -> is_u32 inum -> inum <> 0 -> is_u8 ft -> Z.of_nat (length name) <= 255 ->
  addSlots name inum ft l = Some l' ->
  Forall wf_slot l' /\ length (encSlots l') = length (encSlots l) /\ dents l' ≡ₚ (name, (inum, ft)) :: dents l.
Proof.
  intros Hw Hi H0 Hf Hn. revert l' Hw. destruct (neededFor_bounds name) as [HA _].
  assert (forall room, is_live (placed name inum ft room) = true) as Hlive.
  { intros room. rewrite /is_live /=. by apply negb_true_iff, Z.eqb_neq. }
  induction l as [|s l IH]; intros l' Hw; [done|]. apply Forall_cons in Hw as [Hs Hw]. simpl addSlots.
  assert (forall l', cons s <$> addSlots name inum ft l = Some l' ->
    Forall wf_slot l' /\ length (encSlots l') = length (encSlots (s :: l)) /\
    dents l' ≡ₚ (name, (inum, ft)) :: dents (s :: l)) as HIH.
  { intros l2 H. apply fmap_Some in H as (l3 & E & ->). destruct (IH l3 Hw E) as (H1 & H2 & H3).
    split_and!; [by constructor|by rewrite !length_encSlots_cons H2|].
    rewrite !dents_cons. destruct (is_live s); [|done]. rewrite H3. apply Permutation_swap. }
  destruct (neededFor_bounds (sl_name s)) as [HB _]. fold (minLen s) in HB. pose proof Hs as [S1 S2 S3 S4].
  destruct (is_live s) eqn:El.
  - destruct (Nat.leb_spec (minLen s + neededFor name) (sl_len s)) as [Hle|_]; [|apply HIH]. intros [= <-].
    set (k := (minLen s - 8 - length (sl_name s))%nat).
    assert (length (sl_pad s) = k + (sl_len s - minLen s))%nat as Hp by (rewrite /k; unfold sl_len in *; lia).
    destruct (placed_facts name inum ft (drop (k + 8) (sl_pad s))) as [HP HPl]; try done; [rewrite length_drop; unfold sl_len in *; lia..|].
    set (s1 := mkSlot _ _ _ (take k _)). assert (sl_len s1 = minLen s) as HL1 by (rewrite /sl_len /s1 /= length_take; lia).
    split_and!.
    + constructor; [|by constructor]. split; try done. rewrite HL1. unfold sl_len in *; lia.
    + rewrite !length_encSlots_cons HL1 HPl length_drop. lia.
    + rewrite !dents_cons El Hlive. change (is_live s1) with (is_live s). rewrite El. apply Permutation_swap.
  - destruct (Nat.leb_spec (neededFor name) (sl_len s)) as [Hle|_]; [|apply HIH]. intros [= <-].
    destruct (placed_facts name inum ft (sl_name s ++ sl_pad s)) as [HP HPl]; try done; [rewrite length_app; unfold sl_len in *; lia..|].
    split_and!; [by constructor| |by rewrite !dents_cons El Hlive].
    rewrite !length_encSlots_cons HPl length_app. rewrite /sl_len. lia.
Qed.

Lemma removeSlots_spec name l :
  match removeSlots name l with
  | Some l' => (Forall wf_slot l -> Forall wf_slot l') /\ length (encSlots l') = length (encSlots l) /\
      exists a e b, dents l = a ++ (name, e) :: b /\ dents l' = a ++ b /\ name ∉ a.*1
  | None => name ∉ (dents l).*1
  end.
Proof.
  induction l as [|s l IH]; [apply not_elem_of_nil|]. simpl removeSlots. rewrite dents_cons.
  destruct (is_live s && bool_decide (sl_name s = name)) eqn:E.
  - apply andb_true_iff in E as [E Ename%bool_decide_eq_true]. rewrite E. split_and!.
    + intros [[H1 H2 H3 H4] Hw]%Forall_cons. constructor; [|done]. by split.
    + by rewrite !length_encSlots_cons.
    + exists [], (sl_ino s, sl_ft s), (dents l). subst name. rewrite dents_cons /=. split_and!; [done|done|apply not_elem_of_nil].
  - assert (is_live s = true -> sl_name s <> name) as Hne.
    { intros H. rewrite H /= in E. by apply bool_decide_eq_false in E. }
    destruct (removeSlots name l) as [l'|]; cbn [fmap option_fmap option_map].
    + destruct IH as (H1 & H2 & (a & e & b & E1 & E2 & E3)). split_and!.
      * intros [Hs Hw]%Forall_cons. constructor; auto.
      * by rewrite !length_encSlots_cons H2.
      * rewrite dents_cons E1 E2. destruct (is_live s); [|by exists a, e, b].
        exists (dentOf s :: a), e, b. split_and!; [done|done|]. rewrite fmap_cons not_elem_of_cons. split; [|done].
        intros H. by apply Hne.
    + destruct (is_live s); [|done]. rewrite fmap_cons not_elem_of_cons. split; [|done]. intros H. by apply Hne.
Qed.

(** ** A directory and its blocks *)

(** The blocks of the directory, each with its slots; a hole has none. *)
Record dir_ok (s : inode_state) (bs : list (list slot)) : Prop := {
  dk_state : state_ok s;
  dk_isdir : IsDir s.2 = true;
  dk_size : SizeOf s.2 = BlockSize * Z.of_nat (length bs);
  dk_blocks : forall lb sl, bs !! lb = Some sl -> exists q, leafpos (Z.of_nat lb) = Some q /\
    (node s q = 0 /\ sl = [] \/ node s q <> 0 /\ tiled sl /\ peek (a_dev s.1) (node s q) = encSlots sl);
  dk_past : forall lb q, (length bs <= lb)%nat -> leafpos (Z.of_nat lb) = Some q -> node s q = 0;
}.

Definition dirents (bs : list (list slot)) : list dent := bs ≫= dents.
Definition liveSlots (bs : list (list slot)) : list slot := bs ≫= live.

Lemma dirents_live bs : dirents bs = dentOf <$> liveSlots bs.
Proof. induction bs as [|sl bs IH]; [done|]. rewrite /dirents /liveSlots !bind_cons fmap_app -/(dirents bs) IH //. Qed.

Lemma dir_ok_max s bs : dir_ok s bs -> Z.of_nat (length bs) <= maxBlocks.
Proof.
  intros [_ _ _ H _]. destruct bs as [|sl bs _] using rev_ind; [done|].
  destruct (H (length bs) sl) as (q & Hq & _); [by rewrite lookup_app_r // Nat.sub_diag|].
  destruct (decide (maxBlocks <= Z.of_nat (length bs))) as [Hm|Hm]; [|rewrite length_app /=; lia].
  apply leafpos_None in Hm. congruence.
Qed.

Lemma numBlocks_ok s bs : dir_ok s bs -> numBlocks s.2 = Z.of_nat (length bs).
Proof.
  intros Hd. pose proof (dir_ok_max _ _ Hd) as Hm. rewrite /numBlocks (dk_size _ _ Hd).
  unfold maxBlocks, ptrs, PointersPerBlock in Hm. unfold BlockSize in *.
  rewrite i64_small; [lia|]. rewrite Z.quot_div_nonneg; [lia..|].
  replace (4096 * Z.of_nat (length bs) + 4096 - 1) with (4095 + Z.of_nat (length bs) * 4096) by lia.
  rewrite Z.div_add // u32_small; [|done]. change (4095 / 4096) with 0. lia.
Qed.

(** Reading the block at [lb]. *)
Lemma read_dir_block s bs lb sl :
  dir_ok s bs -> bs !! lb = Some sl -> exists p, GetBlockForOffset s.2 (Z.of_nat lb) (a_dev s.1) = (Ok p, a_dev s.1) /\
    (p = 0 /\ sl = [] \/ p <> 0 /\ tiled sl /\ ReadBlock p (a_dev s.1) = (Ok (encSlots sl), a_dev s.1)).
Proof.
  intros Hd Hl. destruct (dk_blocks _ _ Hd _ _ Hl) as (q & Hq & Hcase). pose proof (dk_state _ _ Hd) as Hok.
  exists (node s q). split; [apply GetBlockForOffset_ok; [done|lia|done]|].
  destruct Hcase as [[H1 H2]|(H1 & H2 & H3)]; [by left|right]. split_and!; [done|done|].
  rewrite -H3. apply (read_node s q Hok); [|done]. by apply (leafpos_leaf (Z.of_nat lb)); [lia|].
Qed.

(** ** Reading a directory *)

Section reading.
Context {V : Type} (fn : DirEntry -> Z -> nat -> V -> V * bool) (f : slot -> V -> V * bool).
Hypothesis (Hfn : forall s b off v, is_u32 (sl_ino s) -> fn (entryOf s) b off v = f s v).

Lemma tiled_u32 sl s : tiled sl -> s ∈ sl -> is_u32 (sl_ino s).
Proof. intros [H _] Hs. rewrite ->Forall_forall in H. by apply H. Qed.

Lemma iterBlocks_ok s bs k n v :
  dir_ok s bs -> (k + n <= length bs)%nat ->
  iterBlocks fn s.2 (seqZ (Z.of_nat k) (Z.of_nat n)) v (a_dev s.1)
  = (Ok (foldStop f (liveSlots (take n (drop k bs))) v).1, a_dev s.1).
Proof.
  intros Hd. revert k v. induction n as [|n IH]; intros k v Hk; [done|].
  rewrite seqZ_cons; [lia|]. cbn [iterBlocks].
  destruct (lookup_lt_is_Some_2 bs k) as [sl Hsl]; [lia|]. rewrite (drop_S _ _ _ Hsl) firstn_cons.
  rewrite /liveSlots bind_cons foldStop_app -/(liveSlots _).
  destruct (read_dir_block s bs k sl Hd Hsl) as (p & Ep & Hcase).
  rewrite (bind_ok _ _ _ p (a_dev s.1)); [by apply wrapErr_ok|].
  replace (Z.succ (Z.of_nat k)) with (Z.of_nat (S k)) by lia. replace (Z.pred (Z.of_nat (S n))) with (Z.of_nat n) by lia.
  destruct Hcase as [[-> ->]|(Hp & Ht & Er)].
  - cbn [Z.eqb]. rewrite IH //; lia.
  - apply Z.eqb_neq in Hp as ->. rewrite (bind_ok _ _ _ (encSlots sl) (a_dev s.1)); [by apply wrapErr_ok|].
    rewrite iterBlock_tiled // (iterSlots_live f); [intros; apply Hfn; by apply (tiled_u32 sl)|].
    destruct (foldStop f (live sl) v) as [v' []]; [cbn [negb]; rewrite IH //; lia|done].
Qed.

Lemma IterDirEntries_ok s bs v :
  dir_ok s bs -> IterDirEntries fn s.2 v (a_dev s.1) = (Ok (foldStop f (liveSlots bs) v).1, a_dev s.1).
Proof.
  intros Hd. rewrite /IterDirEntries (numBlocks_ok _ _ Hd) (dk_size _ _ Hd).
  destruct (BlockSize * Z.of_nat (length bs) =? 0) eqn:E; simpl_bool.
  - unfold BlockSize in E. destruct bs as [|sl bs]; [done|simpl in E; lia].
  - rewrite (iterBlocks_ok s bs 0 (length bs)) // drop_0 firstn_all //.
Qed.

End reading.

(** The first entry of a name. *)
Fixpoint findDent (name : list byte) (l : list dent) : option (Z * Z) :=
  match l with
  | [] => None
  | (n, e) :: l => if decide (n = name) then Some e else findDent name l
  end.

Lemma findDent_None name l : findDent name l = None <-> name ∉ l.*1.
Proof.
  induction l as [|[n e] l IH]; [split; [intros _; apply not_elem_of_nil|done]|].
  rewrite fmap_cons not_elem_of_cons. cbn [findDent fst]. case_decide; [|rewrite IH]; naive_solver.
Qed.

Lemma findDent_app name a b :
  findDent name (a ++ b) = match findDent name a with Some e => Some e | None => findDent name b end.
Proof. induction a as [|[n e] a IH]; simpl; [done|]. by case_decide. Qed.

Lemma LookupEntry_ok s bs name :
  dir_ok s bs ->
  LookupEntry s.2 name (a_dev s.1)
  = (match findDent name (dirents bs) with Some e => Ok e | None => Err ErrNotFound end, a_dev s.1).
Proof.
  intros Hd. rewrite /LookupEntry bind_failIf_false ?(dk_isdir _ _ Hd) //.
  erewrite bind_ok; [|apply (IterDirEntries_ok _ (fun sl found =>
    if bool_decide (sl_name sl = name) then ((sl_ino sl, sl_ft sl), false) else (found, true))); [done|exact Hd]].
  rewrite dirents_live. assert (Forall (fun sl => sl_ino sl <> 0) (liveSlots bs)) as Hl.
  { apply Forall_forall. intros sl (l & Hin & _)%list_elem_of_bind. apply list_elem_of_filter in Hin as [H _].
    rewrite /is_live in H. by simpl_bool. }
  induction Hl as [|sl l Hsl _ IH]; [done|]. simpl.
  destruct (decide (sl_name sl = name)) as [E|E].
  - rewrite bool_decide_eq_true_2 //=. by apply Z.eqb_neq in Hsl as ->.
  - rewrite bool_decide_eq_false_2 //.
Qed.

Lemma ReadAllEntries_ok s bs :
  dir_ok s bs -> ReadAllEntries s.2 (a_dev s.1) = (Ok (entryOf <$> liveSlots bs), a_dev s.1).
Proof.
  intros Hd. rewrite /ReadAllEntries (IterDirEntries_ok (fun de _ _ l => (l ++ [de], true))
    (fun sl l => (l ++ [entryOf sl], true)) ltac:(done) s bs [] Hd).
  assert (forall l acc, (foldStop (fun sl l => (l ++ [entryOf sl], true)) l acc).1 = acc ++ (entryOf <$> l)) as H.
  { induction l as [|sl l IH]; intros acc; [by rewrite app_nil_r|]. by rewrite /= IH -app_assoc. }
  by rewrite H.
Qed.

Lemma IsEmptyDir_ok s bs :
  dir_ok s bs -> IsEmptyDir s.2 (a_dev s.1)
  = (Ok (bool_decide (Forall (fun e : dent => e.1 = dot \/ e.1 = dotdot) (dirents bs))), a_dev s.1).
Proof.
  intros Hd. rewrite /IsEmptyDir. erewrite bind_ok; [|apply (IterDirEntries_ok _ (fun sl count =>
    if negb (bool_decide (sl_name sl = dot)) && negb (bool_decide (sl_name sl = dotdot))
    then (count + 1, false) else (count, true))); [done|exact Hd]].
  rewrite /mret /M_ret dirents_live. do 2 f_equal. induction (liveSlots bs) as [|sl l IH]; [done|]. simpl.
  destruct (bool_decide_reflect (sl_name sl = dot)); simpl;
    [|destruct (bool_decide_reflect (sl_name sl = dotdot)); simpl].
  3: { symmetry. apply bool_decide_eq_false. intros [[]]%Forall_cons; done. }
  all: rewrite IH; apply bool_decide_ext; rewrite Forall_cons /=; naive_solver.
Qed.

(** ** Writing a block of a directory *)

(** Only the content of data blocks changes. *)
Lemma node_same s s' :
  s'.2 = s.2 -> (forall p, is_ptr p -> node s p <> 0 -> peek (a_dev s'.1) (node s p) = peek (a_dev s.1) (node s p)) ->
  forall q, valid_pos q -> node s' q = node s q.
Proof.
  intros Hdi Hp q Hq. destruct Hq as [i Hi|r l Hr Hl Hf]; [by rewrite /node Hdi|].
  assert (valid_pos (r, l)) as Hv by by constructor. clear Hl Hf. revert Hv.
  induction l as [|j l IH] using rev_ind; intros Hv.
  { rewrite !node_tree; [lia..|]. by rewrite Hdi. }
  destruct (valid_snoc r l j ltac:(lia) Hv) as [Hptr Hj]. rewrite !node_snoc; [lia..|].
  rewrite IH; [apply Hptr|]. destruct (node s (r, l) =? 0) eqn:E; [done|]. simpl_bool. by rewrite (Hp (r, l)).
Qed.

Definition pokeAt (p : Z) (b : block) (s : inode_state) : inode_state :=
  (with_dev (poke p b (a_dev s.1)) s.1, s.2).

Lemma pokeAt_leaf s q b :
  state_ok s -> is_leaf q -> node s q <> 0 -> length b = BlockLen ->
  state_ok (pokeAt (node s q) b s) /\ (forall p, valid_pos p -> node (pokeAt (node s q) b s) p = node s p) /\
  peek (a_dev (pokeAt (node s q) b s).1) (node s q) = b /\
  (forall x, 0 <= x -> x <> node s q -> peek (a_dev (pokeAt (node s q) b s).1) x = peek (a_dev s.1) x).
Proof.
  intros [Ha Hm] [Hq Hleaf] Hn Hb. pose proof (wm_used _ Hm q Hq Hn) as [Hdata Hset].
  pose proof (data_range _ Hdata) as Hr.
  assert (forall p, valid_pos p -> node (pokeAt (node s q) b s) p = node s p) as Hnode.
  { apply node_same; [done|]. intros p Hp Hpn. cbn [pokeAt fst a_dev with_dev].
    apply peek_poke_ne; [lia|destruct (node_used _ _ Hm (proj1 Hp) Hpn); lia|].
    intros E. pose proof (wm_inj _ Hm q p Hq (proj1 Hp) Hn E) as ->. destruct Hp. lia. }
  split_and!; [|done| |].
  - split.
    + destruct Ha as [? ? ? ?]. split; [by apply inv_with_dev|done|by apply poke_wf|done].
    + split; [apply Hm| |].
      * intros p Hp. rewrite Hnode //. by apply (wm_used _ Hm).
      * intros p p' Hp Hp'. rewrite !Hnode //. by apply (wm_inj _ Hm).
  - cbn [pokeAt fst a_dev with_dev]. apply peek_poke_eq, wf_in_range; [apply Ha|]. by rewrite (ok_size _ Ha).
  - intros x Hx Hne. cbn [pokeAt fst a_dev with_dev]. apply peek_poke_ne; [lia|done|congruence].
Qed.

Lemma dir_ok_poke s bs lb sl q sl' :
  dir_ok s bs -> bs !! lb = Some sl -> leafpos (Z.of_nat lb) = Some q -> node s q <> 0 -> tiled sl' ->
  dir_ok (pokeAt (node s q) (encSlots sl') s) (<[lb := sl']> bs).
Proof.
  intros Hd Hl Hq Hn Ht. pose proof (leafpos_leaf (Z.of_nat lb) q ltac:(lia) Hq) as Hleaf.
  pose proof (dk_state _ _ Hd) as Hok. pose proof (lookup_lt_Some _ _ _ Hl) as Hlt.
  destruct (pokeAt_leaf s q (encSlots sl') Hok Hleaf Hn (proj2 Ht)) as (H1 & H2 & H3 & H4).
  split; [done|apply Hd|rewrite length_insert; apply Hd| |].
  2: { intros lb' q' Hge Hq'. rewrite length_insert in Hge. rewrite H2; [apply (leafpos_leaf (Z.of_nat lb')); [lia|done]|].
       by apply (dk_past _ _ Hd lb'). }
  intros lb' sl2 Hl2. destruct (decide (lb' = lb)) as [->|Hne].
  - rewrite list_lookup_insert_eq // in Hl2. injection Hl2 as <-. exists q. split; [done|]. right.
    rewrite H2; [apply Hleaf|]. done.
  - rewrite list_lookup_insert_ne in Hl2; [congruence|]. destruct (dk_blocks _ _ Hd _ _ Hl2) as (q' & Hq' & Hcase).
    pose proof (leafpos_leaf (Z.of_nat lb') q' ltac:(lia) Hq') as Hleaf'.
    exists q'. split; [done|]. rewrite H2; [apply Hleaf'|].
    destruct Hcase as [|(Hc1 & Hc2 & Hc3)]; [by left|right]. split_and!; [done|done|]. rewrite H4 //.
    + destruct (node_used _ _ (so_map _ Hok) (proj1 Hleaf') Hc1). lia.
    + intros E. pose proof (wm_inj _ (so_map _ Hok) q' q (proj1 Hleaf') (proj1 Hleaf) Hc1 E) as ->.
      pose proof (leafpos_inj _ _ _ Hq Hq'). lia.
Qed.

Lemma write_dir_block s bs lb sl sl' q :
  dir_ok s bs -> bs !! lb = Some sl -> leafpos (Z.of_nat lb) = Some q -> node s q <> 0 -> tiled sl' ->
  WriteBlock (node s q) (encSlots sl') (a_dev s.1) = (Ok tt, poke (node s q) (encSlots sl') (a_dev s.1)).
Proof.
  intros Hd Hl Hq Hn [_ Ht]. pose proof (dk_state _ _ Hd) as [Ha Hm].
  pose proof (leafpos_leaf (Z.of_nat lb) q ltac:(lia) Hq) as [Hv _].
  destruct (wm_used _ Hm q Hv Hn) as [[_ H] _]. apply WriteBlock_ok; [apply Ha|by rewrite (ok_size _ Ha)|done].
Qed.

Definition hasRoom (name : list byte) (inum ft : Z) (bs : list (list slot)) : Prop :=
  Exists (fun sl => is_Some (addSlots name inum ft sl)) bs.

(** The blocks are tried in order. *)
Lemma addBlocks_ok s bs k n name inum ft :
  dir_ok s bs -> (k + n <= length bs)%nat -> Z.of_nat (length name) <= 255 ->
  is_u32 inum -> inum <> 0 -> is_u8 ft ->
  let r := addBlocks s.2 (DirEntrySize (Z.of_nat (length name))) name inum ft (seqZ (Z.of_nat k) (Z.of_nat n)) (a_dev s.1) in
  (exists lb sl sl' q, bs !! lb = Some sl /\ addSlots name inum ft sl = Some sl' /\ leafpos (Z.of_nat lb) = Some q /\
     node s q <> 0 /\ tiled sl' /\ dents sl' ≡ₚ (name, (inum, ft)) :: dents sl /\
     r = (Ok true, poke (node s q) (encSlots sl') (a_dev s.1))) \/
  (r = (Ok false, a_dev s.1) /\ ~ hasRoom name inum ft (take n (drop k bs))).
Proof.
  intros Hd. revert k. induction n as [|n IH]; intros k Hk Hn Hi H0 Hf r.
  { right. split; [done|]. by intros H%Exists_nil. }
  subst r. rewrite seqZ_cons; [lia|]. cbn [addBlocks].
  replace (Z.succ (Z.of_nat k)) with (Z.of_nat (S k)) by lia. replace (Z.pred (Z.of_nat (S n))) with (Z.of_nat n) by lia.
  destruct (lookup_lt_is_Some_2 bs k) as [sl Hsl]; [lia|]. rewrite (drop_S _ _ _ Hsl) firstn_cons.
  specialize (IH (S k) ltac:(lia) Hn Hi H0 Hf).
  destruct (dk_blocks _ _ Hd _ _ Hsl) as (q & Hq & Hcase). pose proof (dk_state _ _ Hd) as Hok.
  rewrite (bind_ok _ _ _ (node s q) (a_dev s.1)); [by apply GetBlockForOffset_ok; [|lia|]|].
  destruct Hcase as [[-> ->]|(Hp & [Htw Htl] & Er)].
  - cbn [Z.eqb]. destruct IH as [IH|[E IH]]; [by left|right]. split; [done|].
    intros [[? H]|H]%Exists_cons; [done|by apply IH].
  - apply Z.eqb_neq in Hp as Hp'. rewrite Hp'.
    pose proof (leafpos_leaf (Z.of_nat k) q ltac:(lia) Hq) as [Hv _].
    rewrite (bind_ok _ _ _ (encSlots sl) (a_dev s.1)); [rewrite -Er; by apply read_node|].
    pose proof (addScan_slots turns [] sl name inum ft Htw Htl) as HS. simpl app in HS. rewrite HS //; clear HS.
    { pose proof (length_encSlots_le sl Htw). rewrite /turns. lia. }
    destruct (addSlots name inum ft sl) as [sl'|] eqn:Ea; cbn [fmap option_fmap option_map].
    + left. destruct (addSlots_spec _ _ _ _ _ Htw Hi H0 Hf Hn Ea) as (W & L & P).
      assert (tiled sl') as Ht' by (split; [done|congruence]).
      exists k, sl, sl', q. split_and!; try done.
      by rewrite (bind_ok _ _ _ _ _ (write_dir_block s bs k sl sl' q Hd Hsl Hq Hp Ht')).
    + destruct IH as [IH|[E IH]]; [by left|right]. split; [done|].
      intros [[? H]|H]%Exists_cons; [congruence|by apply IH].
Qed.

Lemma removeBlocks_ok s bs k n name :
  dir_ok s bs -> (k + n <= length bs)%nat ->
  let r := removeBlocks s.2 name (seqZ (Z.of_nat k) (Z.of_nat n)) (a_dev s.1) in
  (exists lb sl sl' q e a b, (k <= lb < k + n)%nat /\ bs !! lb = Some sl /\ leafpos (Z.of_nat lb) = Some q /\
     node s q <> 0 /\ tiled sl' /\ dents sl = a ++ (name, e) :: b /\ dents sl' = a ++ b /\ name ∉ a.*1 /\
     name ∉ (dirents (take (lb - k) (drop k bs))).*1 /\
     r = (Ok tt, poke (node s q) (encSlots sl') (a_dev s.1))) \/
  (r = (Err ErrNotFound, a_dev s.1) /\ name ∉ (dirents (take n (drop k bs))).*1).
Proof.
  intros Hd. revert k. induction n as [|n IH]; intros k Hk r.
  { right. split; [done|apply not_elem_of_nil]. }
  subst r. rewrite seqZ_cons; [lia|]. cbn [removeBlocks].
  replace (Z.succ (Z.of_nat k)) with (Z.of_nat (S k)) by lia. replace (Z.pred (Z.of_nat (S n))) with (Z.of_nat n) by lia.
  destruct (lookup_lt_is_Some_2 bs k) as [sl Hsl]; [lia|]. rewrite (drop_S _ _ _ Hsl) firstn_cons.
  specialize (IH (S k) ltac:(lia)). cbv zeta in IH.
  assert (forall x l, dirents (x :: l) = dents x ++ dirents l) as Hdc by done.
  destruct (dk_blocks _ _ Hd _ _ Hsl) as (q & Hq & Hcase). pose proof (dk_state _ _ Hd) as Hok.
  rewrite (bind_ok _ _ _ (node s q) (a_dev s.1)); [by apply GetBlockForOffset_ok; [|lia|]|].
  (* the rest of the blocks, when this one has no entry of the name *)
  set (r := removeBlocks s.2 name (seqZ (Z.of_nat (S k)) (Z.of_nat n)) (a_dev s.1)) in *.
  assert (name ∉ (dents sl).*1 ->
    (exists lb sl0 sl' q e a b, (k <= lb < k + S n)%nat /\ bs !! lb = Some sl0 /\ leafpos (Z.of_nat lb) = Some q /\
       node s q <> 0 /\ tiled sl' /\ dents sl0 = a ++ (name, e) :: b /\ dents sl' = a ++ b /\ name ∉ a.*1 /\
       name ∉ (dirents (take (lb - k) (sl :: drop (S k) bs))).*1 /\
       r = (Ok tt, poke (node s q) (encSlots sl') (a_dev s.1))) \/
    (r = (Err ErrNotFound, a_dev s.1) /\ name ∉ (dirents (sl :: take n (drop (S k) bs))).*1)) as Hrest.
  { intros Hno. destruct IH as [(lb & sl0 & sl' & q' & e & a & b & Hlb & H1 & H2 & H3 & H4 & H5 & H6 & H7 & H8 & H9)|[H1 H2]].
    - left. exists lb, sl0, sl', q', e, a, b. split_and!; try done; try lia.
      replace (lb - k)%nat with (S (lb - S k)) by lia. rewrite firstn_cons Hdc fmap_app not_elem_of_app. done.
    - right. rewrite Hdc fmap_app not_elem_of_app. done. }
  destruct Hcase as [[-> ->]|(Hp & [Htw Htl] & Er)].
  - cbn [Z.eqb]. apply Hrest, not_elem_of_nil.
  - apply Z.eqb_neq in Hp as Hp'. rewrite Hp'. clear IH.
    pose proof (leafpos_leaf (Z.of_nat k) q ltac:(lia) Hq) as [Hv _].
    rewrite (bind_ok _ _ _ (encSlots sl) (a_dev s.1)); [rewrite -Er; by apply read_node|].
    pose proof (removeScan_slots turns [] sl name Htw Htl) as HS. simpl app in HS. rewrite HS //; clear HS.
    { pose proof (length_encSlots_le sl Htw). rewrite /turns. lia. }
    pose proof (removeSlots_spec name sl) as HR.
    destruct (removeSlots name sl) as [sl'|]; cbn [fmap option_fmap option_map]; [|by apply Hrest].
    left. destruct HR as (W & L & a & e & b & E1 & E2 & E3).
    assert (tiled sl') as Ht' by (split; [auto|congruence]).
    exists k, sl, sl', q, e, a, b. split_and!; try done; [lia| |].
    + rewrite Nat.sub_diag take_0. apply not_elem_of_nil.
    + exact (write_dir_block s bs k sl sl' q Hd Hsl Hq Hp Ht').
Qed.

Lemma dirents_insert bs lb sl sl' :
  bs !! lb = Some sl -> exists a b, dirents bs = a ++ dents sl ++ b /\ dirents (<[lb := sl']> bs) = a ++ dents sl' ++ b /\
    a = dirents (take lb bs).
Proof.
  intros Hl. exists (dirents (take lb bs)), (dirents (drop (S lb) bs)). split_and!; [| |done].
  - rewrite -{1}(take_drop_middle bs lb sl Hl) /dirents bind_app bind_cons //.
  - rewrite insert_take_drop; [exact (lookup_lt_Some _ _ _ Hl)|]. rewrite /dirents bind_app bind_cons //.
Qed.

(** [onBlk] of a computation that changes one block. *)
Lemma onBlk_poke {A} (m : M BlockDevice A) s x p b :
  m (a_dev s.1) = (x, poke p b (a_dev s.1)) -> onBlk m s = (x, pokeAt p b s).
Proof. intros E. by rewrite /onBlk /onAlloc /onDev /zoom E. Qed.

Lemma encSlots_new name inum ft :
  Z.of_nat (length name) <= 255 ->
  newDirBlock name inum ft = encSlots [placed name inum ft (drop 8 zeroBlock)].
Proof.
  intros Hn. rewrite /newDirBlock u16_small; [done|].
  change BlockSize with (Z.of_nat (length zeroBlock)) at 1. rewrite -(app_nil_r zeroBlock) encodeDirEntry_room //.
  rewrite length_zeroBlock. lia.
Qed.

Lemma zero_room : length (drop 8 zeroBlock) = 4088%nat.
Proof. by rewrite length_drop length_zeroBlock. Qed.

Lemma new_tiled name inum ft :
  is_u32 inum -> is_u8 ft -> Z.of_nat (length name) <= 255 -> tiled [placed name inum ft (drop 8 zeroBlock)].
Proof.
  intros Hi Hf Hn. pose proof zero_room as Hz.
  destruct (placed_facts name inum ft (drop 8 zeroBlock)) as [HP HPl]; [done|done|done|lia|rewrite Hz; lia|].
  split; [by constructor|]. rewrite length_encSlots_cons HPl Hz. done.
Qed.

(** A directory with a new last block. *)
Lemma dir_ok_grow s bs new name inum ft :
  dir_ok s bs -> Z.of_nat (length bs) < 12 -> data_addr new -> IsSet (a_blockBM s.1) new = false ->
  is_u32 inum -> inum <> 0 -> is_u8 ft -> Z.of_nat (length name) <= 255 ->
  let lb := Z.of_nat (length bs) in
  let b := newDirBlock name inum ft in
  dir_ok (with_dev (poke new b (a_dev (did_alloc new s.1))) (did_alloc new s.1),
          SetSize (BlockSize * (lb + 1)) (addBlocks512 (setDirect lb new s.2)))
         (bs ++ [[placed name inum ft (drop 8 zeroBlock)]]).
Proof.
  intros Hd Hlb Hn Hc Hi H0 Hf Hname lb b. pose proof (dk_state _ _ Hd) as Hok.
  assert (leafpos lb = Some (0%nat, [lb])) as Hq2.
  { rewrite /leafpos. by replace (lb <? 12) with true by (symmetry; apply Z.ltb_lt; lia). }
  assert (node s (0%nat, [lb]) = 0) as Hz by by apply (dk_past _ _ Hd (length bs)).
  pose proof (grow_direct s lb new Hok ltac:(lia) Hz Hn Hc) as Hg.
  set (s1 := (did_alloc new s.1, addBlocks512 (setDirect lb new s.2))) in *.
  pose proof (eg_ok _ _ _ Hg Hok) as Hok1.
  assert (node s1 (0%nat, [lb]) = new) as En.
  { change (Direct (setDirect lb new s.2) !!! Z.to_nat lb = new). apply list_lookup_total_insert_eq.
    rewrite (wm_direct _ (so_map _ Hok)). lia. }
  assert (new <> 0) as Hn0 by (unfold data_addr, DataStart in Hn; lia).
  pose proof (new_tiled name inum ft Hi Hf Hname) as Ht.
  assert (length b = BlockLen) as Hb by (rewrite /b encSlots_new //; apply Ht).
  assert (is_leaf (0%nat, [lb])) as Hleaf by (split; [constructor; lia|simpl; lia]).
  destruct (pokeAt_leaf s1 (0%nat, [lb]) b Hok1 Hleaf ltac:(by rewrite En) Hb) as (H1 & H2 & H3 & H4).
  rewrite En in H1, H2, H3, H4. set (s2 := pokeAt new b s1) in *.
  set (s3 := (_, SetSize _ _)). assert (forall q, node s3 q = node s2 q) as HN.
  { intros [[|r] l]; [by destruct l as [|? [|]]|]. rewrite !node_tree; [lia..|]. by destruct r as [|[|[|]]]. }
  assert (state_ok s3) as Hok3.
  { split; [apply H1|]. split; [apply H1| |].
    - intros q. rewrite HN. apply (wm_used _ (so_map _ H1)).
    - intros p q. rewrite !HN. apply (wm_inj _ (so_map _ H1)). }
  split; [done|apply Hd| | |].
  3: { intros lb' q Hge Hq. rewrite length_app /= in Hge.
       pose proof (leafpos_leaf (Z.of_nat lb') q ltac:(lia) Hq) as Hleaf'.
       rewrite HN H2; [apply Hleaf'|]. rewrite (eg_frame _ _ _ Hg q (proj1 Hleaf')).
       - intros ->. pose proof (leafpos_inj _ _ _ Hq Hq2). lia.
       - apply (dk_past _ _ Hd lb'); [lia|done]. }
  - rewrite length_app /= Nat2Z.inj_add. apply SizeOf_SetSize. rewrite /BlockSize. unfold lb. lia.
  - intros lb' sl Hl. apply lookup_app_Some in Hl as [Hl|[Hge Hl]].
    + destruct (dk_blocks _ _ Hd _ _ Hl) as (q & Hq & Hcase).
      pose proof (leafpos_leaf (Z.of_nat lb') q ltac:(lia) Hq) as Hleaf'. pose proof (lookup_lt_Some _ _ _ Hl) as Hlt.
      assert (q <> (0%nat, [lb])) as Hne.
      { intros ->. pose proof (leafpos_inj _ _ _ Hq Hq2). lia. }
      exists q. split; [done|]. rewrite HN H2; [apply Hleaf'|]. rewrite (eg_frame _ _ _ Hg q (proj1 Hleaf') Hne).
      destruct Hcase as [|(Hc1 & Hc2 & Hc3)]; [by left|right]. split_and!; [done|done|].
      destruct (node_used _ _ (so_map _ Hok) (proj1 Hleaf') Hc1) as (N1 & N2 & N3).
      change (a_dev s3.1) with (a_dev s2.1). rewrite H4 //; [intros E; congruence|].
      rewrite (eg_peek _ _ _ Hg) //; [by right|]. intros p Hp Hpn E.
      pose proof (wm_inj _ (so_map _ Hok) _ _ (proj1 Hp) (proj1 Hleaf') Hpn E) as ->. destruct Hp, Hleaf'. lia.
    + apply list_lookup_singleton_Some in Hl as [Hl <-]. assert (lb' = length bs) as -> by lia.
      exists (0%nat, [lb]). split; [done|]. right. rewrite HN H2; [apply Hleaf|]. rewrite En. split_and!; [done|done|].
      change (a_dev s3.1) with (a_dev s2.1). by rewrite H3 /b encSlots_new.
Qed.

(** What adding an entry does besides: the blocks of the directory stay where
    they are, a new one was free, and the content of every other block in use,
    the bitmap of the inodes and the other fields of the inode are kept. *)
Record dir_step (s s' : inode_state) : Prop := {
  ad_old : forall q, valid_pos q -> node s q <> 0 -> node s' q = node s q;
  ad_fresh : forall q, valid_pos q -> node s q = 0 -> node s' q <> 0 -> IsSet (a_blockBM s.1) (node s' q) = false;
  ad_mono : forall x, 0 <= x -> IsSet (a_blockBM s.1) x = true -> IsSet (a_blockBM s'.1) x = true;
  ad_peek : forall x, 0 <= x -> x <> BlockBitmapAddr -> (x < DataStart \/ IsSet (a_blockBM s.1) x = true) ->
    (forall q, valid_pos q -> node s q <> 0 -> node s q <> x) -> peek (a_dev s'.1) x = peek (a_dev s.1) x;
  ad_imap : a_inodeBM s'.1 = a_inodeBM s.1;
  ad_wf : wf_inode s.2 -> wf_inode s'.2;
  ad_stat : (Mode s'.2, UID s'.2, GID s'.2, Links s'.2) = (Mode s.2, UID s.2, GID s.2, Links s.2);
  ad_evol : dev_evol (a_dev s.1) (a_dev s'.1);
  ad_size : SizeOf s'.2 <= SizeOf s.2 + BlockSize;
}.

Lemma poke_step s q b :
  state_ok s -> is_leaf q -> node s q <> 0 -> length b = BlockLen -> dir_step s (pokeAt (node s q) b s).
Proof.
  intros Hok Hq Hn Hb. destruct (pokeAt_leaf s q b Hok Hq Hn Hb) as (_ & H2 & _ & H4). split; try done.
  - intros p Hp _. by apply H2.
  - intros p Hp E. by rewrite H2 // E.
  - intros x Hx _ _ Hne. apply H4; [done|]. intros ->. by apply (Hne q (proj1 Hq)).
  - by apply poke_evol.
  - cbn [snd pokeAt]. unfold BlockSize. lia.
Qed.

Lemma wf_setDirect lb new di : is_u32 new -> wf_inode di -> wf_inode (addBlocks512 (setDirect lb new di)).
Proof.
  intros Hn (H1 & H2 & H3 & H4). split; [done|]. split.
  - rewrite !Forall_cons in H2. rewrite /= !Forall_cons. pose proof (u32_range (Blocks512 di + BlockSize / 512)).
    unfold is_u32 in *. tauto.
  - split; [by rewrite /= length_insert|]. by apply Forall_insert.
Qed.

Lemma grow_dir_step s lb new b size :
  state_ok s -> 0 <= lb < 12 -> node s (0%nat, [lb]) = 0 -> data_addr new -> IsSet (a_blockBM s.1) new = false ->
  length b = BlockLen -> 0 <= size < 2 ^ 63 -> size <= SizeOf s.2 + BlockSize ->
  dir_step s (with_dev (poke new b (a_dev (did_alloc new s.1))) (did_alloc new s.1),
              SetSize size (addBlocks512 (setDirect lb new s.2))).
Proof.
  intros Hok Hlb Hz Hn Hc Hb Hs1 Hs2. pose proof (grow_direct s lb new Hok Hlb Hz Hn Hc) as Hg.
  set (s1 := (did_alloc new s.1, addBlocks512 (setDirect lb new s.2))) in *. pose proof (eg_ok _ _ _ Hg Hok) as Hok1.
  assert (node s1 (0%nat, [lb]) = new) as En.
  { change (Direct (setDirect lb new s.2) !!! Z.to_nat lb = new). apply list_lookup_total_insert_eq.
    rewrite (wm_direct _ (so_map _ Hok)). lia. }
  assert (is_leaf (0%nat, [lb])) as Hleaf by (split; [by constructor|simpl; lia]).
  assert (new <> 0) as Hn0 by (unfold data_addr, DataStart in Hn; lia).
  pose proof (poke_step s1 _ b Hok1 Hleaf ltac:(by rewrite En) Hb) as Hp. rewrite En in Hp.
  set (s3 := (with_dev _ _, SetSize _ _)). assert (forall q, node s3 q = node (pokeAt new b s1) q) as HN.
  { intros [[|r] l]; [by destruct l as [|? [|]]|]. rewrite !node_tree; [lia..|]. by destruct r as [|[|[|]]]. }
  assert (forall q, valid_pos q -> node s1 q <> 0 -> node s3 q = node s1 q) as Hkeep.
  { intros q Hq Hnq. rewrite HN. by apply (ad_old _ _ Hp). }
  assert (forall q, valid_pos q -> node s1 q = 0 -> node s3 q = 0) as Hkeep0.
  { intros q Hq Hnq. rewrite HN. destruct (pokeAt_leaf s1 _ b Hok1 Hleaf ltac:(by rewrite En) Hb) as (_ & H2 & _).
    rewrite En in H2. by rewrite H2. }
  split; try done.
  - intros q Hq Hnq. rewrite Hkeep //; rewrite (eg_old _ _ _ Hg) //.
  - intros q Hq Hnq Hne. destruct (decide (node s1 q = 0)) as [E|E]; [by rewrite Hkeep0 in Hne|].
    rewrite Hkeep //. by apply (eg_fresh _ _ _ Hg).
  - apply (eg_mono _ _ _ Hg).
  - intros x Hx Hbm Hused Hne. assert (x <> new) as Hxn.
    { intros ->. unfold data_addr in Hn. destruct Hused; [lia|congruence]. }
    assert (peek (a_dev s3.1) x = peek (a_dev s1.1) x) as ->.
    { apply peek_poke_ne; [unfold data_addr, DataStart in Hn; lia|done|exact (not_eq_sym Hxn)]. }
    apply (eg_peek _ _ _ Hg); [done..|]. intros q Hq. by apply Hne, Hq.
  - intros Hw. assert (is_u32 new) as Hnu by (unfold data_addr, DataStart, TotalBlocks, is_u32 in *; lia).
    destruct (wf_setDirect lb new s.2 Hnu Hw) as (H1 & H2 & H3 & H4). split; [done|]. split; [|done].
    rewrite !Forall_cons in H2. rewrite /= !Forall_cons. pose proof (u32_range (Z.land size 0xFFFFFFFF)).
    pose proof (u32_range (Z.shiftr size 32)). unfold is_u32 in *. tauto.
  - etrans; [|by apply poke_evol]. etrans; [apply (poke_evol BlockBitmapAddr), length_bitmapBlock|].
    apply (poke_evol new). exact length_zeroBlock.
  - cbn [snd]. rewrite SizeOf_SetSize; [lia|done].
Qed.

(** ** A directory as a finite map from names to inodes *)

Definition entries : Type := gmap (list byte) (Z * Z).

Lemma findDent_map name (l : list dent) : findDent name l = (list_to_map l : entries) !! name.
Proof.
  induction l as [|[n e] l IH]; [done|]. simpl. case_decide as E.
  - subst. by rewrite lookup_insert_eq.
  - by rewrite lookup_insert_ne.
Qed.

(** The inode [s.2] is a directory with the entries [m]. *)
Definition dir_rep (s : inode_state) (m : entries) : Prop :=
  exists bs, dir_ok s bs /\ NoDup (dirents bs).*1 /\ list_to_map (dirents bs) = m.

(** ** Insertion and removal *)

Lemma dirents_perm bs lb sl sl' x :
  bs !! lb = Some sl -> dents sl' ≡ₚ x :: dents sl -> dirents (<[lb := sl']> bs) ≡ₚ x :: dirents bs.
Proof.
  intros Hl Hp. destruct (dirents_insert bs lb sl sl' Hl) as (a & b & -> & -> & _).
  rewrite Hp /=. symmetry. apply Permutation_middle.
Qed.

(** What [AddEntry] can do to a directory of fewer than 13 blocks. *)
Lemma AddEntry_run s bs name inum ft :
  dir_ok s bs -> Z.of_nat (length name) <= MaxNameLen -> is_u32 inum -> inum <> 0 -> is_u8 ft ->
  Z.of_nat (length bs) < 12 \/ hasRoom name inum ft bs ->
  (exists s' bs', AddEntry name inum ft s = (Ok tt, s') /\ dir_ok s' bs' /\
     dirents bs' ≡ₚ (name, (inum, ft)) :: dirents bs /\ dir_step s s') \/
  (AddEntry name inum ft s = (Err ErrNoSpace, s) /\ ~ hasRoom name inum ft bs).
Proof.
  intros Hd Hname Hi H0 Hf Hsmall. unfold MaxNameLen in Hname.
  rewrite /AddEntry bind_failIf_false; [apply Z.ltb_ge; unfold MaxNameLen; lia|]. rewrite bind_gets.
  rewrite bind_failIf_false ?(dk_isdir _ _ Hd) // (numBlocks_ok _ _ Hd).
  pose proof (addBlocks_ok s bs 0 (length bs) name inum ft Hd ltac:(lia) Hname Hi H0 Hf) as HA.
  rewrite drop_0 firstn_all in HA.
  destruct HA as [(lb & sl & sl' & q & Hl & Ha & Hq & Hn & Ht & Hp & E)|[E Hroom]].
  - left. rewrite (bind_ok _ _ _ _ _ (onBlk_poke _ _ _ _ _ E)). do 2 eexists. split; [done|].
    split; [by apply (dir_ok_poke s bs lb sl q sl')|]. split; [by apply (dirents_perm bs lb sl sl')|].
    apply poke_step; [apply Hd|exact (leafpos_leaf (Z.of_nat lb) q ltac:(lia) Hq)|done|apply Ht].
  - rewrite (bind_ok _ _ _ false s); [by apply onBlk_ok|].
    destruct (onAlloc_AllocBlock s (dk_state _ _ Hd)) as [(new & Ea & Hn & Hc)|Ea]; cycle 1.
    { right. by rewrite (bind_err _ _ _ _ _ Ea). }
    left. destruct Hsmall as [Hsmall|]; [|done]. rewrite (bind_ok _ _ _ _ _ Ea).
    pose proof (did_alloc_ok _ _ (so_alloc _ (dk_state _ _ Hd)) Hn Hc) as Ha1.
    set (b := newDirBlock name inum ft). set (s1 := (did_alloc new s.1, s.2)).
    assert (length b = BlockLen) as Hb.
    { rewrite /b encSlots_new //. by apply new_tiled. }
    rewrite (bind_ok _ _ _ tt (pokeAt new b s1)).
    { apply onBlk_poke, WriteBlock_ok; [apply Ha1|cbn [fst s1]; rewrite (ok_size _ Ha1); apply Hn|done]. }
    pose proof (dir_ok_grow s bs new name inum ft Hd Hsmall Hn Hc Hi H0 Hf Hname) as Hg. cbv zeta in Hg.
    do 2 eexists. split; [|split; [exact Hg|split]].
    + rewrite /setBlockForOffset. replace (Z.of_nat (length bs) <? 12) with true by (symmetry; apply Z.ltb_lt; lia).
      rewrite /modInode /mbind /M_bind /modify. cbn [fst snd pokeAt s1].
      rewrite (u32_small (Z.of_nat (length bs) + 1)); [lia|]. rewrite i64_small; [unfold BlockSize; lia|].
      by rewrite Z.mul_comm.
    + rewrite /dirents bind_app bind_singleton -/(dirents bs) Permutation_app_comm.
      rewrite dents_cons /is_live /=. by apply Z.eqb_neq in H0 as ->.
    + apply grow_dir_step; [apply Hd|lia| |done|done|done|unfold BlockSize; lia|rewrite (dk_size _ _ Hd); unfold BlockSize; lia].
      apply (dk_past _ _ Hd (length bs)); [done|]. rewrite /leafpos.
      by replace (Z.of_nat (length bs) <? 12) with true by (symmetry; apply Z.ltb_lt; lia).
Qed.

Lemma AddEntry_step s m name inum ft :
  dir_rep s m -> m !! name = None -> is_u32 inum -> inum <> 0 -> is_u8 ft ->
  SizeOf s.2 < 12 * BlockSize -> Z.of_nat (length name) <= MaxNameLen ->
  (exists s', AddEntry name inum ft s = (Ok tt, s') /\ dir_rep s' (<[name := (inum, ft)]> m) /\ dir_step s s') \/
  AddEntry name inum ft s = (Err ErrNoSpace, s).
Proof.
  intros (bs & Hd & Hnd & Hm) Hnew Hi H0 Hf Hsize Hlen.
  destruct (AddEntry_run s bs name inum ft Hd) as [(s' & bs' & E' & Hd' & Hp & Hs)|[E' _]]; try done.
  - left. rewrite (dk_size _ _ Hd) /BlockSize in Hsize. lia.
  - left. exists s'. split; [done|]. split; [|done]. exists bs'. split; [done|].
    rewrite -Hm -findDent_map findDent_None in Hnew.
    assert (NoDup ((name, (inum, ft)) :: dirents bs).*1) as Hnd'.
    { rewrite fmap_cons. by constructor. }
    split; [by rewrite Hp|]. rewrite (list_to_map_proper _ _ _ Hp) ?Hp // -Hm //.
  - by right.
Qed.


(** C14: removal.  The entry of that name is removed and every other one kept;
    without one the result is [ErrNotFound] and nothing has changed. *)
Theorem RemoveEntry_correct s m name :
  dir_rep s m ->
  match m !! name with
  | None => RemoveEntry s.2 name (a_dev s.1) = (Err ErrNotFound, a_dev s.1)
  | Some _ => exists d', RemoveEntry s.2 name (a_dev s.1) = (Ok tt, d') /\
                dir_rep (with_dev d' s.1, s.2) (delete name m)
  end.
Proof.
  intros (bs & Hd & Hnd & Hm). rewrite /RemoveEntry bind_failIf_false ?(dk_isdir _ _ Hd) // (numBlocks_ok _ _ Hd).
  pose proof (removeBlocks_ok s bs 0 (length bs) name Hd ltac:(lia)) as HR. cbv zeta in HR.
  rewrite drop_0 firstn_all in HR. rewrite -Hm -findDent_map.
  destruct HR as [(lb & sl & sl' & q & e & a & b & Hlb & Hl & Hq & Hn & Ht & E1 & E2 & E3 & _ & E)|[E Hno]].
  - destruct (dirents_insert bs lb sl sl' Hl) as (x & y & D1 & D2 & _). rewrite E1 in D1. rewrite E2 in D2.
    destruct (findDent name (dirents bs)) as [e'|] eqn:Ef; cycle 1.
    { exfalso. revert Ef. rewrite findDent_None D1 !fmap_app fmap_cons !elem_of_app elem_of_cons. naive_solver. }
    eexists. split; [exact E|]. exists (<[lb := sl']> bs). split; [exact (dir_ok_poke s bs lb sl q sl' Hd Hl Hq Hn Ht)|].
    assert (dirents bs ≡ₚ (name, e) :: x ++ (a ++ b) ++ y) as Hp.
    { rewrite D1 -!app_assoc /= -Permutation_middle. symmetry. apply Permutation_middle. }
    assert (NoDup ((name, e) :: x ++ (a ++ b) ++ y).*1) as Hnd' by by rewrite -Hp.
    rewrite fmap_cons NoDup_cons in Hnd'. destruct Hnd' as [Hni Hnd']. rewrite D2. split; [done|].
    rewrite (list_to_map_proper _ _ Hnd Hp) /=. rewrite delete_insert_eq. symmetry.
    apply delete_id. by rewrite -findDent_map findDent_None.
  - apply findDent_None in Hno as ->. exact E.
Qed.

(** C15: reading.  [LookupEntry] is the lookup in the map, [ReadAllEntries]
    lists the map, and [IsEmptyDir] tells whether it holds more than "." and
    ".."; none of them changes anything. *)
Theorem directory_reads s m name :
  dir_rep s m ->
  LookupEntry s.2 name (a_dev s.1)
    = (match m !! name with Some e => Ok e | None => Err ErrNotFound end, a_dev s.1) /\
  (exists l, ReadAllEntries s.2 (a_dev s.1) = (Ok l, a_dev s.1) /\
     ((fun de => (de_Name de, (de_Inode de, de_FileType de))) <$> l) ≡ₚ map_to_list m) /\
  IsEmptyDir s.2 (a_dev s.1)
    = (Ok (bool_decide (map_Forall (fun n _ => n = dot \/ n = dotdot) m)), a_dev s.1).
Proof.
  intros (bs & Hd & Hnd & Hm). split_and!.
  - by rewrite (LookupEntry_ok s bs name Hd) findDent_map Hm.
  - exists (entryOf <$> liveSlots bs). split; [by apply ReadAllEntries_ok|]. rewrite -list_fmap_compose -Hm.
    etrans; [|symmetry; by apply map_to_list_to_map]. by rewrite dirents_live.
  - rewrite (IsEmptyDir_ok s bs Hd). do 2 f_equal. apply bool_decide_ext. subst m. rewrite Forall_forall. split.
    + intros H n e He. apply elem_of_list_to_map_2 in He. exact (H (n, e) He).
    + intros H [n e] He. apply (H n e). by apply elem_of_list_to_map_1.
Qed.

(** ** A new directory *)

Lemma zeroBlock_split n : (n <= BlockLen)%nat -> zeroBlock = zeros n ++ zeros (BlockLen - n).
Proof. intros Hn. rewrite /zeroBlock /zeros -replicate_add. f_equal. lia. Qed.

Definition dotSlot (inum : Z) : slot := mkSlot inum FT_DIR dot (zeros 3).
Definition dotdotSlot (inum : Z) : slot := mkSlot inum FT_DIR dotdot (zeros 4074).

Lemma initialDirBlock_slots dirInum parentInum :
  initialDirBlock dirInum parentInum = encSlots [dotSlot dirInum; dotdotSlot parentInum].
Proof.
  assert (forall inum name n rest, (8 + length name <= n)%nat -> Z.of_nat (length name) <= 255 ->
    encodeDirEntry (mkDirEntry inum (Z.of_nat n) (Z.of_nat (length name)) FT_DIR name) (zeros n ++ rest)
    = encSlot (mkSlot inum FT_DIR name (zeros (n - 8 - length name))) ++ rest) as HE.
  { intros inum name n rest Hl Hn. pose proof (encodeDirEntry_room name inum FT_DIR (zeros n) rest) as H.
    rewrite length_zeros u8_small in H; [lia|]. rewrite H // /placed. do 3 f_equal.
    rewrite /zeros !drop_replicate. f_equal. }
  rewrite /initialDirBlock (zeroBlock_split 12); [lia|].
  pose proof (HE dirInum dot 12%nat (zeros 4084) ltac:(simpl; lia) ltac:(simpl; lia)) as H1.
  change (Z.of_nat 12) with (u16 (DirEntrySize 1)) in H1. change (Z.of_nat (length dot)) with 1 in H1.
  change (BlockLen - 12)%nat with 4084%nat. rewrite H1. change (12 - 8 - length dot)%nat with 3%nat.
  rewrite updateFrom_at; [by rewrite length_encSlot|].
  pose proof (HE parentInum dotdot 4084%nat [] ltac:(simpl; lia) ltac:(simpl; lia)) as H2. rewrite !app_nil_r in H2.
  exact (f_equal (app _) H2).
Qed.

Lemma initial_tiled dirInum parentInum :
  is_u32 dirInum -> is_u32 parentInum -> tiled [dotSlot dirInum; dotdotSlot parentInum].
Proof.
  intros H1 H2.
  assert (sl_len (dotSlot dirInum) = 12%nat) as L1 by done.
  assert (sl_len (dotdotSlot parentInum) = 4084%nat) as L2.
  { rewrite /sl_len. cbn [sl_name sl_pad dotdotSlot]. rewrite length_zeros. done. }
  split.
  - constructor; [split; [exact H1|done|done|rewrite L1; lia]|].
    constructor; [split; [exact H2|done|done|rewrite L2; lia]|done].
  - by rewrite !length_encSlots_cons L1 L2.
Qed.

Lemma InitDirBlock_run s dirInum parentInum :
  state_ok s -> IsDir s.2 = true -> SizeOf s.2 = BlockSize ->
  (forall lb q, 0 < lb -> leafpos lb = Some q -> node s q = 0) ->
  is_u32 dirInum -> is_u32 parentInum -> dirInum <> 0 -> parentInum <> 0 ->
  if decide (Direct s.2 !!! 0%nat = 0)
  then exists e, InitDirBlock s.2 dirInum parentInum (a_dev s.1) = (Err e, a_dev s.1)
  else exists d', InitDirBlock s.2 dirInum parentInum (a_dev s.1) = (Ok tt, d') /\
    dir_rep (with_dev d' s.1, s.2) {[ dot := (dirInum, FT_DIR); dotdot := (parentInum, FT_DIR) ]}.
Proof.
  intros Hok Hdir Hsize Hrest Hd Hp Hd0 Hp0. rewrite /InitDirBlock. destruct (decide (_ = 0)) as [E|E].
  - rewrite E /failIf /mbind /M_bind /=. by eexists.
  - apply Z.eqb_neq in E as E'. rewrite bind_failIf_false //.
    pose proof (initial_tiled dirInum parentInum Hd Hp) as Ht. rewrite initialDirBlock_slots.
    set (q := (0%nat, [0]) : pos). assert (leafpos 0 = Some q) as Hq by done.
    pose proof (leafpos_leaf 0 q ltac:(lia) Hq) as Hleaf. assert (node s q <> 0) as Hn by done.
    destruct (wm_used _ (so_map _ Hok) q (proj1 Hleaf) Hn) as [[_ Hlt] _].
    destruct (pokeAt_leaf s q (encSlots [dotSlot dirInum; dotdotSlot parentInum]) Hok Hleaf Hn (proj2 Ht))
      as (H1 & H2 & H3 & H4).
    eexists. split.
    { apply WriteBlock_ok; [apply Hok|by rewrite (ok_size _ (so_alloc _ Hok))|apply Ht]. }
    exists [[dotSlot dirInum; dotdotSlot parentInum]].
    assert (dirents [[dotSlot dirInum; dotdotSlot parentInum]] = [(dot, (dirInum, FT_DIR)); (dotdot, (parentInum, FT_DIR))]) as Hde.
    { apply Z.eqb_neq in Hd0, Hp0. by rewrite /dirents bind_singleton !dents_cons /is_live /= Hd0 Hp0. }
    split; [split; [exact H1|done|by rewrite Hsize| |]|by rewrite Hde; split; [repeat constructor; set_solver|]].
    + intros lb sl Hl. apply list_lookup_singleton_Some in Hl as [-> <-]. exists q. split; [done|]. right.
      change (with_dev _ s.1, s.2) with (pokeAt (node s q) (encSlots [dotSlot dirInum; dotdotSlot parentInum]) s).
      rewrite H2; [apply Hleaf|]. done.
    + intros lb q' Hge Hq'. simpl in Hge.
      change (with_dev _ s.1, s.2) with (pokeAt (node s q) (encSlots [dotSlot dirInum; dotdotSlot parentInum]) s).
      pose proof (leafpos_leaf (Z.of_nat lb) q' ltac:(lia) Hq') as Hleaf'.
      rewrite H2; [apply Hleaf'|]. apply (Hrest (Z.of_nat lb)); [lia|done].
Qed.

(** [InitDirBlock] makes a directory with exactly the entries "." and
    ".." in an inode whose first block is the only one mapped, and refuses an
    inode without a first block. *)
Theorem InitDirBlock_correct s dirInum parentInum :
  state_ok s -> IsDir s.2 = true -> SizeOf s.2 = BlockSize ->
  (forall lb q, 0 < lb -> leafpos lb = Some q -> node s q = 0) ->
  is_u32 dirInum -> is_u32 parentInum -> dirInum <> 0 -> parentInum <> 0 ->
  if decide (Direct s.2 !!! 0%nat = 0)
  then exists e, InitDirBlock s.2 dirInum parentInum (a_dev s.1) = (Err e, a_dev s.1)
  else exists d', InitDirBlock s.2 dirInum parentInum (a_dev s.1) = (Ok tt, d') /\
    dir_rep (with_dev d' s.1, s.2) {[ dot := (dirInum, FT_DIR); dotdot := (parentInum, FT_DIR) ]}.
Proof. apply InitDirBlock_run. Qed.

(** ** Blocks with any content *)

Lemma ParseDirEntry_bounds buf de n :
  ParseDirEntry buf = Ok (de, n) ->
  n = de_RecLen de /\ 8 <= n <= Z.of_nat (length buf) /\ 0 <= de_NameLen de <= n - 8 /\
  Z.of_nat (length (de_Name de)) = de_NameLen de /\ is_u32 (de_Inode de) /\ is_u8 (de_FileType de).
Proof.
  rewrite /ParseDirEntry /DirEntryMinSize. case_if; [done|]. case_if; [done|]. case_if; [done|].
  intros [= <- <-]. cbn [de_RecLen de_NameLen de_Name de_Inode de_FileType]. simpl_bool.
  pose proof (b2z_range (buf !!! 6%nat)) as H6. pose proof (b2z_range (buf !!! 7%nat)) as H7.
  unfold byteAt in *. split_and!; try lia; [|apply LEUint32_range|done].
  rewrite length_slice; lia.
Qed.

Lemma iterBlock_fuel {V} (fn : DirEntry -> Z -> nat -> V -> V * bool) f1 f2 blk b off v :
  (BlockLen < off + 8 * f1)%nat -> (BlockLen < off + 8 * f2)%nat -> iterBlock fn f1 blk b off v = iterBlock fn f2 blk b off v.
Proof.
  revert f2 off v. induction f1 as [|f1 IH]; intros f2 off v H1 H2.
  - destruct f2; [done|]. simpl. rewrite /moreEntries.
    by replace (Nat.leb (off + 8) BlockLen) with false by (symmetry; apply Nat.leb_gt; lia).
  - destruct f2 as [|f2].
    + simpl. rewrite /moreEntries.
      by replace (Nat.leb (off + 8) BlockLen) with false by (symmetry; apply Nat.leb_gt; lia).
    + simpl. destruct (moreEntries off); [|done].
      destruct (ParseDirEntry (drop off blk)) as [[de n]|e|] eqn:E; [|done..].
      apply ParseDirEntry_bounds in E as (_ & Hn & _).
      assert (forall v, iterBlock fn f1 blk b (off + Z.to_nat n) v = iterBlock fn f2 blk b (off + Z.to_nat n) v) as HIH.
      { intros v'. apply IH; lia. }
      destruct (n =? 0); [done|]. destruct (negb _); [|apply HIH].
      destruct (fn de b off v) as [v' []]; [apply HIH|done].
Qed.


(** ** Witnesses *)

(** An empty directory inode, and one with a first block. *)
Definition dirHole : inode_state := (blankAllocator, SetSize 4096 (with_mode 0x41ED emptyInode)).
Definition dirOneBlock : inode_state :=
  (did_alloc 2180 dirHole.1, addBlocks512 (setDirect 0 2180 dirHole.2)).

Lemma node_dirHole q : valid_pos q -> node dirHole q = 0.
Proof.
  intros Hq. rewrite -(node_holeState q Hq). destruct Hq as [i Hi|r l Hr _ _]; [done|].
  rewrite !node_tree; [lia..|]. by destruct r as [|[|[|[|r]]]].
Qed.

Lemma dirHole_ok : state_ok dirHole.
Proof.
  split; [exact blankAllocator_ok|]. split; [reflexivity| |].
  - intros q Hq Hn. by rewrite node_dirHole in Hn.
  - intros p q Hp Hq Hn. by rewrite node_dirHole in Hn.
Qed.

Lemma dirOneBlock_grow : ext_grow (fun p => p = (0%nat, [0])) dirHole dirOneBlock.
Proof.
  apply grow_direct; [exact dirHole_ok|lia|reflexivity| |reflexivity].
  unfold data_addr, DataStart, TotalBlocks. lia.
Qed.

Lemma dirOneBlock_rest lb q : 0 < lb -> leafpos lb = Some q -> node dirOneBlock q = 0.
Proof.
  intros Hlb Hq. pose proof (leafpos_leaf lb q ltac:(lia) Hq) as [Hv _].
  rewrite (eg_frame _ _ _ dirOneBlock_grow q Hv); [|by apply node_dirHole].
  intros ->. pose proof (leafpos_inj lb 0 _ Hq eq_refl). lia.
Qed.

(** A directory that holds "." and "..". *)
Lemma demoDir : exists d', InitDirBlock dirOneBlock.2 2 2 (a_dev dirOneBlock.1) = (Ok tt, d') /\
  dir_rep (with_dev d' dirOneBlock.1, dirOneBlock.2) {[ dot := (2, FT_DIR); dotdot := (2, FT_DIR) ]}.
Proof.
  pose proof (InitDirBlock_run dirOneBlock 2 2 (eg_ok _ _ _ dirOneBlock_grow dirHole_ok) eq_refl eq_refl
    dirOneBlock_rest) as H.
  specialize (H ltac:(done) ltac:(done) ltac:(done) ltac:(done)). destruct (decide (Direct dirOneBlock.2 !!! 0%nat = 0)) as [E|_]; [discriminate E|exact H].
Qed.

Example InitDirBlock_correct_witness :
  exists d', InitDirBlock dirOneBlock.2 2 2 (a_dev dirOneBlock.1) = (Ok tt, d') /\
  dir_rep (with_dev d' dirOneBlock.1, dirOneBlock.2) {[ dot := (2, FT_DIR); dotdot := (2, FT_DIR) ]}.
Proof.
  pose proof (InitDirBlock_correct dirOneBlock 2 2 (eg_ok _ _ _ dirOneBlock_grow dirHole_ok) eq_refl eq_refl
    dirOneBlock_rest) as H.
  specialize (H ltac:(done) ltac:(done) ltac:(done) ltac:(done)). destruct (decide (Direct dirOneBlock.2 !!! 0%nat = 0)) as [E|_]; [discriminate E|exact H].
Defined.


Example RemoveEntry_correct_witness :
  exists s d', RemoveEntry s.2 dotdot (a_dev s.1) = (Ok tt, d') /\
    dir_rep (with_dev d' s.1, s.2) (delete dotdot {[ dot := (2, FT_DIR); dotdot := (2, FT_DIR) ]}).
Proof.
  destruct demoDir as (d' & _ & Hrep). pose proof (RemoveEntry_correct _ _ dotdot Hrep) as H.
  assert (({[ dot := (2, FT_DIR); dotdot := (2, FT_DIR) ]} : entries) !! dotdot = Some (2, FT_DIR)) as E by done.
  rewrite E in H. destruct H as (d2 & E2 & H). do 2 eexists. exact (conj E2 H).
Defined.

Example directory_reads_witness :
  exists s, LookupEntry s.2 dot (a_dev s.1) = (Ok (2, FT_DIR), a_dev s.1) /\
    LookupEntry s.2 (str "x") (a_dev s.1) = (Err ErrNotFound, a_dev s.1).
Proof.
  destruct demoDir as (d' & _ & Hrep). eexists. split.
  - exact (proj1 (directory_reads _ _ dot Hrep)).
  - exact (proj1 (directory_reads _ _ (str "x") Hrep)).
Defined.
