(* ===== verification/Mkfs.v ===== *)
(** * Mkfs: making a file system, [internal/fs/mkfs.go]

    The superblock the code passes along with the allocator is the one the
    allocator points to: it is [a_sb].  The clock readings and the random
    bytes of [Format] are arguments. *)

From S2P Require Export Dir.

#[export] Instance error_eq_decision : EqDecision error.
Proof. solve_decision. Defined.

(** ** Paths *)

(** [splitPath], from position [i]: [cur] is [path[start:i]]. *)
Fixpoint splitLoop (path cur : list byte) : list (list byte) :=
  match path with
  | [] => if bool_decide (cur = []) then [] else [cur]
  | c :: path =>
      if bool_decide (c = x2f) then
        (if bool_decide (cur = []) then [] else [cur]) ++ splitLoop path []
      else splitLoop path (cur ++ [c])
  end.
Definition splitPath (path : list byte) : list (list byte) := splitLoop path [].

(** ** The default tree *)

(** A call that takes the pointer [di] to an inode: the inode after it. *)
Definition withInode (di : DiskInode) (m : M inode_state unit) : M Allocator DiskInode := fun a =>
  match m (a, di) with
  | (Ok _, s) => (Ok s.2, s.1)
  | (Err e, s) => (Err e, s.1)
  | (Panic, s) => (Panic, s.1)
  end.

(** A new directory whose first block is [blk]. *)
Definition newDirInode (now blk : Z) : DiskInode :=
  SetSize BlockSize
    (setDirect 0 blk
      (mkInode (Z.lor S_IFDIR 0x1ED) 0 0 now now now 0 0 2 (BlockSize / 512) 0 (replicate 12 0) 0 0 0 0 0)).

(** [di.Links++] *)
Definition incLinks (di : DiskInode) : DiskInode :=
  mkInode (Mode di) (UID di) (SizeLo di) (ATime di) (CTime di) (MTime di) (DTime di) (GID di)
    (u16 (Links di + 1)) (Blocks512 di) (Flags di) (Direct di) (Indirect1 di) (Indirect2 di) (Indirect3 di)
    (Generation di) (SizeHi di).

(** The loop of [mkdirPath] over the components of the path. *)
Fixpoint mkdirParts (now : Z) (parts : list (list byte)) (parentInum : Z) : M Allocator unit :=
  match parts with
  | [] => mret tt
  | part :: parts =>
      parentInode ← onDev (ReadInode parentInum);
      found ← tryM (onDev (LookupEntry parentInode part));
      match found with
      | inl (childInum, _) => mkdirParts now parts childInum
      | inr err =>
          failIf (negb (bool_decide (err = ErrNotFound))) err ;;
          newInum ← AllocInode;
          dirBlk ← AllocBlock;
          let newInode := newDirInode now dirBlk in
          onDev (WriteInode newInum newInode) ;;
          onDev (InitDirBlock newInode newInum parentInum) ;;
          parentInode ← withInode (incLinks parentInode) (AddEntry part newInum FT_DIR);
          onDev (WriteInode parentInum parentInode) ;;
          mkdirParts now parts newInum
      end
  end.

(** [WriteSuperblock(dev, sb)] with the shared superblock. *)
Definition writeSb : M Allocator unit :=
  sb ← gets a_sb;
  onDev (WriteSuperblock sb).

Definition mkdirPath (path : list byte) (now : Z) : M Allocator unit :=
  match splitPath path with
  | [] => mret tt
  | parts => mkdirParts now parts 1 ;; writeSb
  end.

(** [parentPath] of [createFile]: the components joined with slashes. *)
Definition joinParts (parts : list (list byte)) : list byte :=
  foldl (fun path p => if bool_decide (path = []) then p else path ++ str "/" ++ p) [] parts.

(** The loop that finds the parent directory. *)
Fixpoint findParent (parts : list (list byte)) (parentInum : Z) : M Allocator Z :=
  match parts with
  | [] => mret parentInum
  | part :: parts =>
      parentInode ← onDev (ReadInode parentInum);
      '(childInum, _) ← wrapErr "createFile: parent %s: %w" [] (onDev (LookupEntry parentInode part));
      findParent parts childInum
  end.

(** The inode of a new file: [newInode], before and after its content is
    written. *)
Definition newFileInode (now : Z) : DiskInode :=
  mkInode (Z.lor S_IFREG 0x1A4) 0 0 now now now 0 0 1 0 0 (replicate 12 0) 0 0 0 0 0.
Definition withContent (blk size : Z) (di : DiskInode) : DiskInode :=
  SetSize size
    (set_pointers (<[0%nat := blk]> (Direct di)) (Indirect1 di) (Indirect2 di) (Indirect3 di)
      (BlockSize / 512) di).

Definition createFile (path content : list byte) (now : Z) : M Allocator unit :=
  let parts := splitPath path in
  match last parts with
  | None => throw ErrInvalidArg
  | Some name =>
      let dirs := take (length parts - 1) parts in
      whenM (Nat.ltb 1 (length parts)) (mkdirPath (joinParts dirs) now) ;;
      parentInum ← findParent dirs 1;
      parentInode ← onDev (ReadInode parentInum);
      newInum ← AllocInode;
      newInode ←
        (if Nat.ltb 0 (length content) then
           blkAddr ← AllocBlock;
           onDev (WriteBlock blkAddr (copyInto 0 content zeroBlock)) ;;
           mret (withContent blkAddr (Z.of_nat (length content)) (newFileInode now))
         else mret (newFileInode now));
      onDev (WriteInode newInum newInode) ;;
      parentInode ← withInode parentInode (AddEntry name newInum FT_REG_FILE);
      onDev (WriteInode parentInum parentInode)
  end.

Definition seedDirs : list (list byte) := str <$>
  [ "bin"; "etc"; "home"; "tmp"; "usr"; "var";
    "lib"; "dev"; "proc"; "sys"; "mnt"; "opt";
    "usr/bin"; "usr/lib"; "usr/local";
    "home/user";
    "var/log"; "var/tmp";
    "etc/init.d" ]%string.

Definition newline : list byte := [x0a].
Definition seedFiles : list (list byte * list byte) :=
  [ (str "etc/hostname", str "fsengine" ++ newline);
    (str "etc/version", str "fs-engine v1.0" ++ newline);
    (str "home/user/readme.txt", str "Welcome to fs-engine!" ++ newline) ].

Definition seedFS (now : Z) : M Allocator unit :=
  forEach (fun path => wrapErr "seed mkdir %s: %w" [] (mkdirPath path now)) seedDirs ;;
  forEach (fun f : list byte * list byte =>
             wrapErr "seed file %s: %w" [] (createFile f.1 f.2 now)) seedFiles ;;
  writeSb.

(** ** Format *)

(** The version bits of a random UUID. *)
Definition makeUUID (rnd : list byte) : list byte :=
  let uuid := <[6%nat := z2b (Z.lor (Z.land (b2z (rnd !!! 6%nat)) 0x0f) 0x40)]> rnd in
  <[8%nat := z2b (Z.lor (Z.land (b2z (uuid !!! 8%nat)) 0x3f) 0x80)]> uuid.

Definition newSuperblock (now : Z) (rnd : list byte) : DiskSuperblock :=
  mkSuperblock SuperblockMagic InodeCount TotalBlocks (InodeCount - 1) (TotalBlocks - DataStart)
    DataStart BlockSize InodeSize TotalBlocks SuperblockMagicV2 StateClean 0 20 now now now
    InodeBitmapAddr BlockBitmapAddr InodeTableStart JournalStart JournalBlocks 1
    (makeUUID rnd) (copyInto 0 (str "myfs") (zeros 16)).

Definition initialInodeBM : Bitmap := SetBit (NewBitmap InodeCount) 0.
Definition initialBlockBM : Bitmap := foldl SetBit (NewBitmap TotalBlocks) (seqZ 0 DataStart).

(** [for i := uint32(0); i < n; i++ { dev.WriteBlock(start+i, zero) }] *)
Definition zeroBlocks (msg : string) (start n : Z) : M BlockDevice unit :=
  forEach (fun i => wrapErr msg [i] (WriteBlock (u32 (start + i)) zeroBlock)) (seqZ 0 n).

(** The part of [Format] that runs with the new allocator. *)
Definition formatRoot (now now' : Z) : M Allocator unit :=
  rootBlk ← wrapErr "mkfs: alloc root block: %w" [] AllocBlock;
  let rootInode := newDirInode now rootBlk in
  wrapErr "mkfs: write root inode: %w" [] (onDev (WriteInode 1 rootInode)) ;;
  wrapErr "mkfs: init root dir block: %w" [] (onDev (InitDirBlock rootInode 1 1)) ;;
  wrapErr "mkfs: write final superblock: %w" [] writeSb ;;
  wrapErr "mkfs: seed: %w" [] (seedFS now').

(** [alloc := NewAllocator(dev, ...)] and a computation with it. *)
Definition withAllocator {A} (sb : DiskSuperblock) (blockBM inodeBM : Bitmap) (m : M Allocator A)
    : M BlockDevice A := fun d =>
  let '(r, a) := m (NewAllocator d sb blockBM inodeBM None) in (r, a_dev a).

Definition Format (now now' : Z) (rnd : list byte) : M BlockDevice DiskSuperblock :=
  let sb := newSuperblock now rnd in
  wrapErr "mkfs: zero boot block: %w" [] (WriteBlock BootBlock zeroBlock) ;;
  wrapErr "mkfs: write superblock: %w" [] (WriteSuperblock sb) ;;
  let inodeBM := initialInodeBM in
  let blockBM := initialBlockBM in
  wrapErr "mkfs: write inode bitmap: %w" [] (WriteInodeBitmap inodeBM) ;;
  wrapErr "mkfs: write block bitmap: %w" [] (WriteBlockBitmap blockBM) ;;
  zeroBlocks "mkfs: zero inode table block %d: %w" InodeTableStart InodeTableBlocks ;;
  zeroBlocks "mkfs: zero journal block %d: %w" JournalStart JournalBlocks ;;
  withAllocator sb blockBM inodeBM (formatRoot now now' ;; gets a_sb).
