(* ===== verification/Fs.v ===== *)
(** * Fs: the file system object, [internal/fs/fs.go]

    [Filesystem] ties the components together.  All of them point to one
    device and to one set of metrics, which are those of the allocator here;
    each component runs on its part of the state ([onFsAlloc], [onFsBuf],
    [onFsInodes], [onFsJournal]), and the events of its hook are sent to the
    event channel, in which no receiver makes room during an operation.

    The file system and its allocator point to one superblock, except after a
    rollback that fails halfway: [fs_ownSb] is the superblock the file system
    then has for itself.  Every reading of the clock is an argument. *)

From S2P Require Export Recovery Mkfs Cache Icache.

Record Event : Type := mkEvent {
  evt_Type : string;
  evt_Source : string;
  evt_Path : list byte;
  evt_Data : list (string * Z);
  evt_Error : option error;
}.

Definition EventMount : string := "mount".
Definition EventUmount : string := "umount".
Definition EventCreate : string := "create".
Definition EventDelete : string := "delete".
Definition EventWrite : string := "write".
Definition EventMkdir : string := "mkdir".
Definition EventRmdir : string := "rmdir".
Definition EventRename : string := "rename".
Definition EventLink : string := "link".
Definition EventCacheEvict : string := "cache_evict".
Definition EventJournalRecover : string := "journal_recover".
Definition EventMutationRollback : string := "mutation_rollback".
Definition EventSourceFS : string := "fs".
Definition EventSourceAllocator : string := "allocator".
Definition EventSourceCache : string := "cache".
Definition EventSourceJournal : string := "journal".

(** [make(chan Event, 64)] *)
Definition eventCapacity : nat := 64.

Record Filesystem : Type := mkFilesystem {
  fs_alloc : Allocator;
  fs_ownSb : option DiskSuperblock;
  fs_buf : BufferCache;
  fs_inodes : InodeCache;
  fs_journal : Journal;
  fs_Events : list Event;
  fs_closed : bool;
  fs_mutating : bool;
  (** the flusher's goroutine runs *)
  fs_flushing : bool;
}.

Definition with_alloc (x : Allocator) (f : Filesystem) : Filesystem :=
  mkFilesystem x (fs_ownSb f) (fs_buf f) (fs_inodes f) (fs_journal f) (fs_Events f) (fs_closed f)
    (fs_mutating f) (fs_flushing f).
Definition with_ownSb (x : option DiskSuperblock) (f : Filesystem) : Filesystem :=
  mkFilesystem (fs_alloc f) x (fs_buf f) (fs_inodes f) (fs_journal f) (fs_Events f) (fs_closed f)
    (fs_mutating f) (fs_flushing f).
Definition with_buf (x : BufferCache) (f : Filesystem) : Filesystem :=
  mkFilesystem (fs_alloc f) (fs_ownSb f) x (fs_inodes f) (fs_journal f) (fs_Events f) (fs_closed f)
    (fs_mutating f) (fs_flushing f).
Definition with_inodes (x : InodeCache) (f : Filesystem) : Filesystem :=
  mkFilesystem (fs_alloc f) (fs_ownSb f) (fs_buf f) x (fs_journal f) (fs_Events f) (fs_closed f)
    (fs_mutating f) (fs_flushing f).
Definition with_journal (x : Journal) (f : Filesystem) : Filesystem :=
  mkFilesystem (fs_alloc f) (fs_ownSb f) (fs_buf f) (fs_inodes f) x (fs_Events f) (fs_closed f)
    (fs_mutating f) (fs_flushing f).
Definition with_Events (g : list Event -> list Event) (f : Filesystem) : Filesystem :=
  mkFilesystem (fs_alloc f) (fs_ownSb f) (fs_buf f) (fs_inodes f) (fs_journal f) (g (fs_Events f))
    (fs_closed f) (fs_mutating f) (fs_flushing f).
Definition with_closed (x : bool) (f : Filesystem) : Filesystem :=
  mkFilesystem (fs_alloc f) (fs_ownSb f) (fs_buf f) (fs_inodes f) (fs_journal f) (fs_Events f) x
    (fs_mutating f) (fs_flushing f).
Definition with_mutating (x : bool) (f : Filesystem) : Filesystem :=
  mkFilesystem (fs_alloc f) (fs_ownSb f) (fs_buf f) (fs_inodes f) (fs_journal f) (fs_Events f)
    (fs_closed f) x (fs_flushing f).
Definition with_flushing (x : bool) (f : Filesystem) : Filesystem :=
  mkFilesystem (fs_alloc f) (fs_ownSb f) (fs_buf f) (fs_inodes f) (fs_journal f) (fs_Events f)
    (fs_closed f) (fs_mutating f) x.

(** [fs.dev], [fs.sb] and [fs.metrics]. *)
Definition f_dev (f : Filesystem) : BlockDevice := a_dev (fs_alloc f).
Definition f_sb (f : Filesystem) : DiskSuperblock := default (a_sb (fs_alloc f)) (fs_ownSb f).
Definition f_metrics (f : Filesystem) : option Metrics := a_metrics (fs_alloc f).
Definition put_dev (d : BlockDevice) (f : Filesystem) : Filesystem :=
  with_alloc (with_dev d (fs_alloc f)) f.
Definition put_metrics (m : option Metrics) (f : Filesystem) : Filesystem :=
  with_alloc (with_metrics m (fs_alloc f)) f.

(** ** Events *)

Definition sendEvent (e : Event) : Filesystem -> Filesystem := with_Events (trySend eventCapacity e).

Definition EmitTypedEvent (ty source : string) (path : list byte) (data : list (string * Z))
    : M Filesystem unit :=
  modify (sendEvent (mkEvent ty source path data None)).

(** [EmitEvent], which the operations call without data. *)
Definition EmitEvent (ty : string) (path : list byte) : M Filesystem unit :=
  EmitTypedEvent ty EventSourceFS path [].

(** The calls a component made to its hook, newest first, are passed on. *)
Definition forward (source : string) (log : option (list event)) (f : Filesystem) : Filesystem :=
  foldl (fun f (e : event) => sendEvent (mkEvent e.1 source [] e.2 None) f) f (rev (default [] log)).

(** [if fs.metrics != nil { fs.metrics.c.Add(n) }] *)
Definition fsCount (c : counter) (n : Z) : M Filesystem unit :=
  modify (fun f => put_metrics (Metrics.Add c n <$> f_metrics f) f).

(** ** The components *)

Definition onFsDev {A} (m : M BlockDevice A) : M Filesystem A := zoom f_dev put_dev m.

(** A hook whose log is empty before and after. *)
Definition noLog (log : option (list event)) : option (list event) := (fun _ => []) <$> log.

Definition onFsAlloc {A} (m : M Allocator A) : M Filesystem A := fun f =>
  let '(r, a) := m (with_emit (noLog (a_emit (fs_alloc f))) (fs_alloc f)) in
  (r, forward EventSourceAllocator (a_emit a) (with_alloc (with_emit (noLog (a_emit a)) a) f)).

(** [AddEntry] and the block maps work on an inode as well. *)
Definition onFsInode {A} (di : DiskInode) (m : M inode_state A) : M Filesystem (A * DiskInode) :=
  onFsAlloc (fun a => match m (a, di) with
    | (Ok x, s) => (Ok (x, s.2), s.1)
    | (Err e, s) => (Err e, s.1)
    | (Panic, s) => (Panic, s.1)
    end).

(** The hook of the buffer cache counts evictions before it sends the event. *)
Definition countEvictions (log : option (list event)) (f : Filesystem) : Filesystem :=
  put_metrics (Metrics.Add CacheEvictions
    (Z.of_nat (length (filter (fun e : event => e.1 = EventCacheEvict) (default [] log)))) <$> f_metrics f) f.

Definition onFsBuf {A} (m : M cstate A) : M Filesystem A := fun f =>
  let '(r, s) := m (f_dev f, with_cemit (noLog (c_emit (fs_buf f))) (fs_buf f)) in
  let log := c_emit s.2 in
  (r, forward EventSourceCache log (countEvictions log
        (put_dev s.1 (with_buf (with_cemit (noLog log) s.2) f)))).

Definition onFsInodes {A} (m : M InodeCache A) : M Filesystem A := zoom fs_inodes with_inodes m.
Definition onFsIstate {A} (m : M istate A) : M Filesystem A :=
  zoom (fun f => (f_dev f, fs_inodes f)) (fun s f => put_dev s.1 (with_inodes s.2 f)) m.

Definition onFsJournal {A} (m : M jstate A) : M Filesystem A := fun f =>
  let j := with_jmetrics (f_metrics f) (with_jemit (noLog (j_emit (fs_journal f))) (fs_journal f)) in
  let '(r, s) := m (f_dev f, j) in
  let log := j_emit s.2 in
  (r, forward EventSourceJournal log
        (put_metrics (j_metrics s.2) (put_dev s.1 (with_journal (with_jemit (noLog log) s.2) f)))).

Section with_order.
Context {O : MapOrder}.

(** ** Inodes through the cache *)

Definition fsReadInode (inum : Z) : M Filesystem DiskInode :=
  data ← onFsInodes (IGet inum);
  match data with
  | Some data => mret (decodeInode data)
  | None =>
      di ← onFsDev (ReadInode inum);
      onFsInodes (IPut inum (encodeInode di zeroInodeData)) ;;
      mret di
  end.

Definition UpdateInodeCacheRaw (inum : Z) (raw : list byte) : M Filesystem unit :=
  onFsInodes (IUpdate inum (copyInto 0 raw zeroInodeData)).

Definition UpdateInodeCache (inum : Z) (di : DiskInode) : M Filesystem unit :=
  onFsInodes (IUpdate inum (encodeInode di zeroInodeData)).

Definition InvalidateInodeCache (inum : Z) : M Filesystem unit := onFsInodes (IInvalidate inum).

Definition FlushInodeCache (inum : Z) : M Filesystem unit := onFsIstate (FlushInode (Some flushFn) inum).

(** Inside a mutation the inode goes to the device, else through a transaction
    of its own. *)
Definition WriteInodeFS (now inum : Z) (di : DiskInode) : M Filesystem unit :=
  let data := encodeInode di zeroInodeData in
  let '(blockAddr, off) := InodeNumToBlock inum in
  onFsInodes (IUpdate inum data) ;;
  mutating ← gets fs_mutating;
  blk ← onFsDev (ReadBlock blockAddr);
  let blk := splice off data blk in
  if mutating : bool then onFsDev (WriteBlock blockAddr blk)
  else
    tx ← onFsJournal OpenTransaction;
    tx ← liftResult (LogBlock blockAddr blk tx);
    onFsJournal (Commit now tx).

(** ** Rollback *)

Definition resetCaches : M Filesystem unit :=
  onFsInodes IInvalidateAll ;;
  onFsBuf InvalidateAll.

(** [NewAllocator] and its hook, on the present device and metrics. *)
Definition newAllocator (sb : DiskSuperblock) (blockBM inodeBM : Bitmap) (f : Filesystem) : Filesystem :=
  with_ownSb None
    (with_alloc (with_emit (Some []) (NewAllocator (f_dev f) sb blockBM inodeBM (f_metrics f))) f).

Definition reloadFromDevice : M Filesystem unit :=
  sb ← onFsDev ReadSuperblock;
  blockBM ← onFsDev ReadBlockBitmap;
  inodeBM ← onFsDev ReadInodeBitmap;
  modify (newAllocator sb blockBM inodeBM) ;;
  resetCaches.

(** [_ = fs.dev.Reload(); _ = fs.reloadFromDevice()] *)
Definition abandon : M Filesystem unit :=
  _ ← tryM (onFsDev Reload);
  _ ← tryM reloadFromDevice;
  mret tt.

(** ** Mutations *)

Definition inJournal (addr : Z) : bool :=
  (JournalStart <=? addr) && (addr <? JournalStart + JournalBlocks).

Fixpoint readBlocks (addrs : list Z) : M BlockDevice (list (Z * block)) :=
  match addrs with
  | [] => mret []
  | addr :: addrs =>
      blk ← ReadBlock addr;
      rest ← readBlocks addrs;
      mret ((addr, blk) :: rest)
  end.

(** [tx.LogBlock] of every changed block. *)
Fixpoint logBlocks (blocks : list (Z * block)) (tx : JournalTransaction) : result JournalTransaction :=
  match blocks with
  | [] => Ok tx
  | (addr, blk) :: blocks =>
      match LogBlock addr blk tx with
      | Ok tx => logBlocks blocks tx
      | r => r
      end
  end.

(** [fs.sb] is written back as it is. *)
Definition writeFsSb : M Filesystem unit :=
  sb ← gets f_sb;
  onFsDev (WriteSuperblock sb).

(** What follows a successful [fn]: the caches are flushed, the changed blocks
    are collected, undone and committed by one transaction. *)
Definition commitMutation (now : Z) (snapshot : list block) : M Filesystem unit :=
  onErr (onFsIstate (IFlushAll (Some flushFn))) (fun err => fsCount CacheFlushErrors 1 ;; abandon ;; throw err) ;;
  onErr (onFsBuf FlushAll) (fun err => fsCount CacheFlushErrors 1 ;; abandon ;; throw err) ;;
  onErr writeFsSb (fun err => abandon ;; throw err) ;;
  changed ← onFsDev (ChangedBlocks snapshot);
  let changed := filter (fun addr => inJournal addr = false) changed in
  match changed with
  | [] => onFsDev Sync
  | _ =>
      finalBlocks ← onFsDev (readBlocks changed);
      onFsDev (RestoreBlocks snapshot changed) ;;
      tx ← onFsJournal OpenTransaction;
      tx ← onErr (liftResult (logBlocks finalBlocks tx)) (fun err => abandon ;; throw err);
      onErr (onFsJournal (Commit now tx)) (fun err => abandon ;; throw err)
  end.

(** What follows a failed one. *)
Definition rollback {A} (sbSnapshot : DiskSuperblock) (err : error) : M Filesystem A :=
  fsCount MutationRollbacks 1 ;;
  modify (sendEvent (mkEvent EventMutationRollback EventSourceFS [] [] (Some err))) ;;
  restored ← tryM (onFsDev Reload ;; modify (with_ownSb (Some sbSnapshot)) ;; reloadFromDevice);
  match restored with
  | inr restoreErr => throw (Wrapf "mutation failed (%v); rollback failed: %w" [] restoreErr)
  | inl _ => throw err
  end.

(** [RunMutation]; the variables that [fn] assigns for its caller are its
    result. *)
Definition RunMutation {A} (now : Z) (fn : M Filesystem A) : M Filesystem A :=
  snapshot ← gets (fun f => Snapshot (f_dev f));
  sbSnapshot ← gets f_sb;
  modify (with_mutating true) ;;
  r ← tryM fn;
  modify (with_mutating false) ;;
  match r with
  | inr err => rollback sbSnapshot err
  | inl a => commitMutation now snapshot ;; mret a
  end.

(** ** Mount and unmount *)

(** [sb.MountCount++; sb.LastMount = now; sb.State = StateClean] *)
Definition mountedSb (now : Z) (sb : DiskSuperblock) : DiskSuperblock :=
  mkSuperblock (Magic sb) (sb_InodeCount sb) (sb_BlockCount sb) (FreeInodes sb) (FreeBlocks sb)
    (FirstDataBlock sb) (sb_BlockSize sb) (sb_InodeSize sb) (BlocksPerGroup sb) (MagicV2 sb)
    StateClean (u16 (MountCount sb + 1)) (MaxMountCount sb) now (LastWrite sb) (LastCheck sb)
    (InodeBitmapBlock sb) (BlockBitmapBlock sb) (InodeTableBlock sb) (sb_JournalStart sb)
    (JournalLength sb) (Version sb) (UUID sb) (VolumeName sb).
(** [sb.State = StateClean; sb.LastWrite = now] *)
Definition unmountedSb (now : Z) (sb : DiskSuperblock) : DiskSuperblock :=
  mkSuperblock (Magic sb) (sb_InodeCount sb) (sb_BlockCount sb) (FreeInodes sb) (FreeBlocks sb)
    (FirstDataBlock sb) (sb_BlockSize sb) (sb_InodeSize sb) (BlocksPerGroup sb) (MagicV2 sb)
    StateClean (MountCount sb) (MaxMountCount sb) (LastMount sb) now (LastCheck sb)
    (InodeBitmapBlock sb) (BlockBitmapBlock sb) (InodeTableBlock sb) (sb_JournalStart sb)
    (JournalLength sb) (Version sb) (UUID sb) (VolumeName sb).
(** [sb.State = StateClean] *)
Definition cleanSb (sb : DiskSuperblock) : DiskSuperblock := unmountedSb (LastWrite sb) sb.

(** [fs.sb.f = x], seen by the allocator when it has the same superblock. *)
Definition modSb (g : DiskSuperblock -> DiskSuperblock) (f : Filesystem) : Filesystem :=
  match fs_ownSb f with
  | Some sb => with_ownSb (Some (g sb)) f
  | None => with_alloc (with_sb g (fs_alloc f)) f
  end.

Definition Mount (now : Z) : M BlockDevice Filesystem :=
  wrapErr "mount: journal recover: %w" [] (Recover JournalStart JournalBlocks) ;;
  sb ← wrapErr "mount: read superblock: %w" [] ReadSuperblock;
  wrapErr "mount: validate superblock: %w" [] (liftResult (Validate sb)) ;;
  blockBM ← wrapErr "mount: read block bitmap: %w" [] ReadBlockBitmap;
  inodeBM ← wrapErr "mount: read inode bitmap: %w" [] ReadInodeBitmap;
  let sb := mountedSb now sb in
  wrapErr "mount: update superblock: %w" [] (WriteSuperblock sb) ;;
  d ← gets id;
  let m := Some (Metrics.Add Writes 1 zeroMetrics) in
  let alloc := with_emit (Some []) (NewAllocator d sb blockBM inodeBM m) in
  let j := with_jemit (Some []) (NewJournal JournalStart JournalBlocks m) in
  let fs := mkFilesystem alloc None (with_cemit (Some []) (NewBufferCache 256)) (NewInodeCache 512) j []
              false false true in
  mret (sendEvent (mkEvent EventMount EventSourceFS (str "/") [] None) fs).

(** [fs.flusher.Stop()]: the goroutine flushes the buffer cache a last time. *)
Definition stopFlusher : M Filesystem unit :=
  flushing ← gets fs_flushing;
  whenM flushing (onFsBuf flusherTick) ;;
  modify (with_flushing false).

Definition Unmount (now : Z) : M Filesystem unit :=
  closed ← gets fs_closed;
  if closed : bool then mret tt
  else
    modify (with_closed true) ;;
    stopFlusher ;;
    onErr (onFsIstate (IFlushAll (Some flushFn))) (fun err =>
      fsCount CacheFlushErrors 1 ;; throw (Wrapf "unmount: flush inodes: %w" [] err)) ;;
    onErr (onFsBuf FlushAll) (fun err =>
      fsCount CacheFlushErrors 1 ;; throw (Wrapf "unmount: flush blocks: %w" [] err)) ;;
    modify (modSb (unmountedSb now)) ;;
    wrapErr "unmount: write superblock: %w" [] writeFsSb ;;
    EmitTypedEvent EventUmount EventSourceFS (str "/") [] ;;
    onFsDev Sync.

Definition Fsck : M Filesystem unit :=
  sb ← wrapErr "fsck: read superblock: %w" [] (onFsDev ReadSuperblock);
  wrapErr "fsck: invalid superblock: %w" [] (liftResult (Validate sb)) ;;
  root ← wrapErr "fsck: read root inode: %w" [] (onFsDev (ReadInode 1));
  failIf (negb (IsDir root)) (Wrapf "fsck: root inode is not a directory: %w" [] ErrBadFS) ;;
  failIf (Links root <? 2) (Wrapf "fsck: root inode has too few links: %w" [] ErrBadFS).

(** [(total, used, free)] *)
Definition Df (f : Filesystem) : Z * Z * Z :=
  let total := u64 (sb_BlockCount (f_sb f) * BlockSize) in
  let free := u64 (FreeBlocks (f_sb f) * BlockSize) in
  (total, if free <? total then u64 (total - free) else 0, free).

Definition NewFormat (now now' now'' : Z) (rnd : list byte) : M BlockDevice Filesystem :=
  Format now now' rnd ;;
  Mount now''.

(** ** Reformat and crash *)

Definition Reformat (now now' : Z) (rnd : list byte) : M Filesystem unit :=
  stopFlusher ;;
  wrapErr "reformat: %w" [] (onFsDev (Format now now' rnd)) ;;
  sb ← wrapErr "reformat: read sb: %w" [] (onFsDev ReadSuperblock);
  blockBM ← wrapErr "reformat: read block bm: %w" [] (onFsDev ReadBlockBitmap);
  inodeBM ← wrapErr "reformat: read inode bm: %w" [] (onFsDev ReadInodeBitmap);
  onFsBuf (Invalidate SuperblockAddr) ;;
  modify (newAllocator sb blockBM inodeBM) ;;
  modify (fun f => with_journal (with_jemit (Some []) (NewJournal JournalStart JournalBlocks (f_metrics f))) f) ;;
  _ ← tryM (onFsIstate (IFlushAll (Some flushFn)));
  modify (with_closed false) ;;
  modify (with_flushing true).

(** The hook of the recovery: the block counts are added up, then the events
    are sent. *)
Definition recoveredBlocks (log : list event) : Z :=
  foldr (fun (e : event) n =>
    if decide (e.1 = EventJournalRecover) then
      n + foldr (fun (kv : string * Z) m => if decide (kv.1 = "blockCount"%string) then kv.2 else m) 0 e.2
    else n) 0 log.

Definition onFsRecovery {A} (m : M rstate A) : M Filesystem A := fun f =>
  let '(r, s) := m (f_dev f, Some []) in
  let log := default [] s.2 in
  (r, forward EventSourceJournal s.2
        (put_metrics (Metrics.Add RecoveryBlocks (recoveredBlocks log) <$> f_metrics f) (put_dev s.1 f))).

Definition SimulateCrash : M Filesystem unit :=
  fsCount RecoveryRuns 1 ;;
  stopFlusher ;;
  wrapErr "crash reload: %w" [] (onFsDev Reload) ;;
  onErr (onFsRecovery (RecoverWithHook JournalStart JournalBlocks)) (fun err =>
    fsCount RecoveryErrors 1 ;; throw (Wrapf "crash recovery: %w" [] err)) ;;
  wrapErr "crash recovery sync: %w" [] (onFsDev Sync) ;;
  wrapErr "crash reload state: %w" [] reloadFromDevice ;;
  modify (modSb cleanSb) ;;
  writeFsSb ;;
  onFsDev Sync ;;
  modify (with_flushing true).

End with_order.
