(* ===== verification/Namei.v ===== *)
(** * Namei: path resolution, [internal/ops/namei.go]

    A path is a list of bytes.  [resolve] of the code counts the symbolic
    links it has followed in [depth] and stops above [maxSymlinkDepth]: here it
    recurses on the number of links it may still follow plus one, which is
    [maxSymlinkDepth + 1 - depth]. *)

From S2P Require Export Fs Perm.

Definition maxSymlinkDepth : Z := 40.

(** ** Functions of [strings] *)

Definition slash : byte := x2f.

(** [strings.TrimLeft(s, "/")] and [strings.TrimRight(s, "/")]. *)
Fixpoint trimLeft (s : list byte) : list byte :=
  match s with
  | c :: s' => if bool_decide (c = slash) then trimLeft s' else s
  | [] => []
  end.
Definition trimRight (s : list byte) : list byte := rev (trimLeft (rev s)).

(** [strings.LastIndex(s, "/")]; [None] for -1. *)
Fixpoint lastSlash (s : list byte) : option nat :=
  match s with
  | [] => None
  | c :: s =>
      match lastSlash s with
      | Some i => Some (S i)
      | None => if bool_decide (c = slash) then Some 0%nat else None
      end
  end.

(** [strings.Split(s, "/")]: never empty. *)
Fixpoint split (s : list byte) : list (list byte) :=
  match s with
  | [] => [[]]
  | c :: s =>
      match split s with
      | part :: parts => if bool_decide (c = slash) then [] :: part :: parts else (c :: part) :: parts
      | [] => []
      end
  end.

(** [strings.Join(parts, "/")] *)
Fixpoint join (parts : list (list byte)) : list byte :=
  match parts with
  | [] => []
  | [part] => part
  | part :: parts => part ++ slash :: join parts
  end.

Definition startsSlash (path : list byte) : bool := bool_decide (head path = Some slash).

(** ** Resolution *)

(** The directory a relative path starts from. *)
Definition cwdOf (cred : Credential) : Z := if cr_CWD cred =? 0 then 1 else cr_CWD cred.

Definition startingInode (cred : Credential) (path : list byte) : Z :=
  if startsSlash path then 1 else cwdOf cred.

Definition readSymlinkTarget (inum : Z) (di : DiskInode) : M Filesystem (list byte) :=
  let size := SizeOf di in
  failIf ((size <? 0) || (4096 <? size)) ErrBadFS ;;
  if (Blocks512 di =? 0) && (size <? 60) then
    let '(blockAddr, offset) := InodeNumToBlock inum in
    blk ← onFsDev (ReadBlock blockAddr);
    let inodeData := slice offset InodeLen blk in
    mret (slice 40 (Z.to_nat size) inodeData)
  else
    failIf (Direct di !!! 0%nat =? 0) ErrBadFS ;;
    blk ← onFsDev (ReadBlock (Direct di !!! 0%nat));
    mret (take (Z.to_nat (Z.min size (Z.of_nat (length blk)))) blk).

Section with_order.
Context {O : MapOrder}.

Section walk.
(** The recursive call of [resolve] on the rest of a path after a link. *)
Variable rec : Credential -> list byte -> bool -> M Filesystem (Z * DiskInode).

(** The loop of [resolve] over the components. *)
Fixpoint walkParts (cred : Credential) (lstat : bool) (parts : list (list byte)) (curInum : Z)
    : M Filesystem (Z * DiskInode) :=
  match parts with
  | [] =>
      di ← fsReadInode curInum;
      mret (curInum, di)
  | part :: rest =>
      if bool_decide (part = []) || bool_decide (part = dot) then walkParts cred lstat rest curInum
      else
        curDI ← fsReadInode curInum;
        failIf (negb (IsDir curDI)) ErrNotDir ;;
        liftResult (CheckDirAccess curDI cred) ;;
        '(childInum, _) ← onFsDev (LookupEntry curDI part);
        childDI ← fsReadInode childInum;
        let isLast := bool_decide (rest = []) in
        if IsSymlink childDI && negb (lstat && isLast) then
          target ← readSymlinkTarget childInum childDI;
          let remaining :=
            if negb isLast && negb (bool_decide (join rest = [])) then target ++ slash :: join rest else target in
          let symlinkCred :=
            if startsSlash target then cred else mkCredential (cr_UID cred) (cr_GID cred) curInum in
          rec symlinkCred remaining (lstat && isLast)
        else walkParts cred lstat rest childInum
  end.
End walk.

Fixpoint resolveFrom (links : nat) (cred : Credential) (path : list byte) (lstat : bool)
    : M Filesystem (Z * DiskInode) :=
  match links with
  | 0%nat => throw ErrLoop
  | S links =>
      if bool_decide (path = []) then
        let inum := cwdOf cred in
        di ← fsReadInode inum;
        mret (inum, di)
      else
        let '(curInum, path) :=
          if startsSlash path then (1, trimLeft path) else (cwdOf cred, path) in
        if bool_decide (path = []) then
          di ← fsReadInode curInum;
          mret (curInum, di)
        else walkParts (resolveFrom links) cred lstat (split path) curInum
  end.

(** [resolve] at depth 0. *)
Definition resolve : Credential -> list byte -> bool -> M Filesystem (Z * DiskInode) :=
  resolveFrom (Z.to_nat (maxSymlinkDepth + 1)).

Definition Resolve (cred : Credential) (path : list byte) : M Filesystem Z :=
  '(inum, _) ← resolve cred path false;
  mret inum.

Definition ResolveLstat (cred : Credential) (path : list byte) : M Filesystem Z :=
  '(inum, _) ← resolve cred path true;
  mret inum.

(** The parent directory and the last component. *)
Definition ResolveSplit (cred : Credential) (path : list byte) : M Filesystem (Z * list byte) :=
  failIf (bool_decide (path = [])) ErrInvalidArg ;;
  if bool_decide (path = [slash]) then mret (1, [])
  else
    let path := trimRight path in
    let '(dir, base) :=
      match lastSlash path with
      | None => ([], path)
      | Some i => (take i path, drop (i + 1) path)
      end in
    failIf (bool_decide (base = [])) ErrInvalidArg ;;
    failIf (MaxNameLen <? Z.of_nat (length base)) ErrNameTooLong ;;
    if bool_decide (dir = []) || bool_decide (dir = [slash]) then
      mret (if bool_decide (dir = [slash]) || startsSlash path then 1 else cwdOf cred, base)
    else
      '(pInum, _) ← resolve cred dir false;
      mret (pInum, base).

(** [checkPerm] of [perm.go]: a refusal is counted. *)
Definition checkPerm (di : DiskInode) (cred : Credential) (read write exec : bool) : M Filesystem unit :=
  onErr (liftResult (CheckPermission di cred read write exec)) (fun err =>
    fsCount PermDenied 1 ;;
    throw err).

End with_order.
