(* ===== verification/Ops.v ===== *)
(** * Ops: the operations on files and directories, [internal/ops]

    Every operation that changes the file system is a function run by
    [RunMutation]; the variables it assigns for its caller are the result of
    the mutation.  [now] is what the operation reads from the clock, as Unix
    seconds in a [uint32]; one reading stands for the consecutive ones of an
    operation. *)

From S2P Require Export Namei.

(** ** Inodes *)

(** [di.MTime = now; di.CTime = now] *)
Definition touch (now : Z) (di : DiskInode) : DiskInode := with_times (ATime di) now now di.
(** [di.CTime = now] *)
Definition changed (now : Z) (di : DiskInode) : DiskInode := with_times (ATime di) now (MTime di) di.
Definition accessed (now : Z) (di : DiskInode) : DiskInode := with_times now (CTime di) (MTime di) di.
Definition with_owner (uid gid mode : Z) (di : DiskInode) : DiskInode :=
  mkInode mode uid (SizeLo di) (ATime di) (CTime di) (MTime di) (DTime di) gid
    (Links di) (Blocks512 di) (Flags di) (Direct di) (Indirect1 di) (Indirect2 di) (Indirect3 di)
    (Generation di) (SizeHi di).
Definition with_links (n : Z) (di : DiskInode) : DiskInode :=
  mkInode (Mode di) (UID di) (SizeLo di) (ATime di) (CTime di) (MTime di) (DTime di) (GID di)
    n (Blocks512 di) (Flags di) (Direct di) (Indirect1 di) (Indirect2 di) (Indirect3 di)
    (Generation di) (SizeHi di).
Definition with_dtime (n : Z) (di : DiskInode) : DiskInode :=
  mkInode (Mode di) (UID di) (SizeLo di) (ATime di) (CTime di) (MTime di) n (GID di)
    (Links di) (Blocks512 di) (Flags di) (Direct di) (Indirect1 di) (Indirect2 di) (Indirect3 di)
    (Generation di) (SizeHi di).

(** [&DiskInode{Mode: ..., UID: uint16(cred.UID), ...}] of the operations. *)
Definition newInodeOf (mode : Z) (cred : Credential) (links blocks512 now : Z) : DiskInode :=
  mkInode mode (u16 (cr_UID cred)) 0 now now now 0 (u16 (cr_GID cred)) links blocks512 0
    (replicate 12 0) 0 0 0 0 0.

Definition inodeFileType (di : DiskInode) : Z :=
  let t := FileType di in
  if t =? S_IFREG then FT_REG_FILE
  else if t =? S_IFDIR then FT_DIR
  else if t =? S_IFLNK then FT_SYMLINK
  else if t =? S_IFCHR then FT_CHRDEV
  else if t =? S_IFBLK then FT_BLKDEV
  else if t =? S_IFIFO then FT_FIFO
  else if t =? S_IFSOCK then FT_SOCK
  else FT_UNKNOWN.

Section with_order.
Context {O : MapOrder}.

(** [AddEntry] on an inode in memory. *)
Definition fsAddEntry (di : DiskInode) (name : list byte) (inum ft : Z) : M Filesystem DiskInode :=
  '(_, di) ← onFsInode di (AddEntry name inum ft);
  mret di.

(** ** Files: [file_ops.go] *)

(** The loop of [Read]: [n] bytes are still wanted. *)
Fixpoint readLoop (fuel : nat) (di : DiskInode) (offset n : Z) : M Filesystem (list byte) :=
  if n <=? 0 then mret []
  else
    match fuel with
    | 0%nat => panic
    | S fuel =>
        let logicalBlock := u32 (Z.quot offset BlockSize) in
        let blockOff := Z.rem offset BlockSize in
        physBlk ← onFsDev (GetBlockForOffset di logicalBlock);
        blkData ← (if physBlk =? 0 then mret zeroBlock else onFsBuf (GetBlock physBlk));
        let canRead := Z.min (BlockSize - blockOff) n in
        (if blockOff <? 0 then panic else mret tt) ;;
        (if negb (physBlk =? 0) then _ ← tryM (onFsBuf (PutBlock physBlk blkData)); mret tt else mret tt) ;;
        rest ← readLoop fuel di (i64 (offset + canRead)) (n - canRead);
        mret (slice (Z.to_nat blockOff) (Z.to_nat canRead) blkData ++ rest)
    end.

(** The bytes read into a buffer of [len] bytes, whose number is the result of
    the code; the number that goes with an error is left out. *)
Definition Read (now : Z) (cred : Credential) (inum offset len : Z) : M Filesystem (list byte) :=
  fsCount Reads 1 ;;
  di ← fsReadInode inum;
  failIf (IsDir di) ErrIsDir ;;
  checkPerm di cred true false false ;;
  let size := SizeOf di in
  if size <=? offset then mret []
  else
    let n := if size <? i64 (len + offset) then size - offset else len in
    if n =? 0 then mret []
    else
      data ← readLoop (Z.to_nat n) di offset n;
      UpdateInodeCache inum (accessed now di) ;;
      fsCount ReadBytes (Z.of_nat (length data)) ;;
      mret data.

(** The loop of [Write]: the inode and the offset after it. *)
Fixpoint writeLoop (fuel : nat) (di : DiskInode) (curOffset : Z) (writeBuf : list byte)
    : M Filesystem (DiskInode * Z) :=
  if bool_decide (writeBuf = []) then mret (di, curOffset)
  else
    match fuel with
    | 0%nat => panic
    | S fuel =>
        let logicalBlock := u32 (Z.quot curOffset BlockSize) in
        let blockOff := Z.rem curOffset BlockSize in
        '(physBlk, di) ← onFsInode di (AllocBlockForOffset logicalBlock);
        blkData ← onFsBuf (GetBlock physBlk);
        let canWrite := Z.min (BlockSize - blockOff) (Z.of_nat (length writeBuf)) in
        (if blockOff <? 0 then panic else mret tt) ;;
        let blkData := splice (Z.to_nat blockOff) (take (Z.to_nat canWrite) writeBuf) blkData in
        onFsBuf (PutBlock physBlk blkData) ;;
        onFsBuf (MarkDirty physBlk) ;;
        writeLoop fuel di (i64 (curOffset + canWrite)) (drop (Z.to_nat canWrite) writeBuf)
    end.

Definition writeBody (now : Z) (cred : Credential) (inum offset : Z) (buf : list byte) : M Filesystem Z :=
  di ← fsReadInode inum;
  failIf (IsDir di) ErrIsDir ;;
  checkPerm di cred false true false ;;
  if bool_decide (buf = []) then mret 0
  else
    '(di, curOffset) ← writeLoop (length buf) di offset buf;
    let di := if SizeOf di <? curOffset then SetSize curOffset di else di in
    WriteInodeFS now inum (touch now di) ;;
    mret (Z.of_nat (length buf)).

Definition Write (now : Z) (cred : Credential) (inum offset : Z) (buf : list byte) : M Filesystem Z :=
  fsCount Writes 1 ;;
  totalWritten ← RunMutation now (writeBody now cred inum offset buf);
  fsCount WriteBytes totalWritten ;;
  EmitEvent EventWrite [] ;;
  mret totalWritten.

Definition truncateBody (now : Z) (cred : Credential) (inum size : Z) : M Filesystem unit :=
  di ← fsReadInode inum;
  failIf (IsDir di) ErrIsDir ;;
  checkPerm di cred false true false ;;
  let curSize := SizeOf di in
  if size =? curSize then mret tt
  else
    di ← (if size <? curSize then
            let startLogical := u32 (Z.quot (i64 (size + BlockSize - 1)) BlockSize) in
            '(_, di) ← onFsInode di (FreeBlocksFrom startLogical);
            mret di
          else mret di);
    WriteInodeFS now inum (touch now (SetSize size di)).

Definition Truncate (now : Z) (cred : Credential) (inum size : Z) : M Filesystem unit :=
  failIf (size <? 0) ErrInvalidArg ;;
  RunMutation now (truncateBody now cred inum size).

Definition FSync (inum : Z) : M Filesystem unit :=
  fsCount FsyncCalls 1 ;;
  FlushInodeCache inum ;;
  onFsBuf FlushAll ;;
  onFsDev Sync.

(** ** Directories: [dir_ops.go] *)

Definition mkdirBody (now : Z) (cred : Credential) (path : list byte) (mode : Z) : M Filesystem unit :=
  '(parentInum, name) ← ResolveSplit cred path;
  failIf (bool_decide (name = [])) ErrInvalidArg ;;
  failIf (MaxNameLen <? Z.of_nat (length name)) ErrNameTooLong ;;
  parentDI ← fsReadInode parentInum;
  failIf (negb (IsDir parentDI)) ErrNotDir ;;
  checkPerm parentDI cred false true true ;;
  found ← tryM (onFsDev (LookupEntry parentDI name));
  match found with
  | inl _ => throw ErrExists
  | inr _ =>
      newInum ← onFsAlloc AllocInode;
      dirBlk ← onFsAlloc AllocBlock;
      let newDI := SetSize BlockSize (setDirect 0 dirBlk
        (newInodeOf (u16 (Z.lor S_IFDIR (Z.land mode 0x1FF))) cred 2 (BlockSize / 512) now)) in
      WriteInodeFS now newInum newDI ;;
      onFsDev (InitDirBlock newDI newInum parentInum) ;;
      parentDI ← fsAddEntry (incLinks parentDI) name newInum FT_DIR;
      WriteInodeFS now parentInum (touch now parentDI)
  end.

Definition Mkdir (now : Z) (cred : Credential) (path : list byte) (mode : Z) : M Filesystem unit :=
  fsCount MkdirOps 1 ;;
  RunMutation now (mkdirBody now cred path mode) ;;
  EmitEvent EventMkdir path.

Definition rmdirBody (now : Z) (cred : Credential) (path : list byte) : M Filesystem Z :=
  '(parentInum, name) ← ResolveSplit cred path;
  failIf (bool_decide (name = []) || bool_decide (name = dot) || bool_decide (name = dotdot)) ErrInvalidArg ;;
  parentDI ← fsReadInode parentInum;
  failIf (negb (IsDir parentDI)) ErrNotDir ;;
  checkPerm parentDI cred false true true ;;
  '(targetInum, _) ← onFsDev (LookupEntry parentDI name);
  targetDI ← fsReadInode targetInum;
  failIf (negb (IsDir targetDI)) ErrNotDir ;;
  liftResult (CheckStickyDelete parentDI targetDI cred) ;;
  empty ← onFsDev (IsEmptyDir targetDI);
  failIf (negb empty) ErrNotEmpty ;;
  onFsDev (RemoveEntry parentDI name) ;;
  onFsAlloc (FreeInodeBlocks targetDI) ;;
  onFsAlloc (FreeInode targetInum) ;;
  let parentDI := if 0 <? Links parentDI then with_links (Links parentDI - 1) parentDI else parentDI in
  WriteInodeFS now parentInum (touch now parentDI) ;;
  mret targetInum.

Definition Rmdir (now : Z) (cred : Credential) (path : list byte) : M Filesystem unit :=
  fsCount RmdirOps 1 ;;
  targetInum ← RunMutation now (rmdirBody now cred path);
  InvalidateInodeCache targetInum ;;
  EmitEvent EventRmdir path.

(** The entries as [(inode, name, file type)]. *)
Definition ReadDir (cred : Credential) (path : list byte) : M Filesystem (list (Z * list byte * Z)) :=
  inum ← (if bool_decide (path = [slash]) then mret 1 else Resolve cred path);
  di ← fsReadInode inum;
  failIf (negb (IsDir di)) ErrNotDir ;;
  checkPerm di cred true false false ;;
  rawEntries ← onFsDev (ReadAllEntries di);
  mret ((fun e => (de_Inode e, de_Name e, de_FileType e)) <$> rawEntries).

(** The callback of [GetCwd]: the first entry for [cur] that is not a dot entry. *)
Definition findName (cur : Z) (de : DirEntry) (_ : Z) (_ : nat) (myName : list byte) : list byte * bool :=
  if (de_Inode de =? cur) && negb (bool_decide (de_Name de = dot)) && negb (bool_decide (de_Name de = dotdot))
  then (de_Name de, false) else (myName, true).

(** The loop of [GetCwd] up to the root; [None] when [fuel] turns do not reach
    it: the loop has no bound of its own. *)
Fixpoint cwdLoop (fuel : nat) (cur : Z) (parts : list (list byte)) : M Filesystem (option (list (list byte))) :=
  if cur =? 1 then mret (Some parts)
  else
    match fuel with
    | 0%nat => mret None
    | S fuel =>
        di ← fsReadInode cur;
        failIf (negb (IsDir di)) ErrNotDir ;;
        '(parentInum, _) ← onFsDev (LookupEntry di dotdot);
        parentDI ← fsReadInode parentInum;
        myName ← onFsDev (IterDirEntries (findName cur) parentDI []);
        failIf (bool_decide (myName = [])) ErrNotFound ;;
        cwdLoop fuel parentInum (myName :: parts)
    end.

(** [joinPath]: the slash goes before every component but the first. *)
Definition joinPath (parts : list (list byte)) : list byte :=
  foldl (fun r (ip : nat * list byte) => (if Nat.ltb 0 ip.1 then r ++ [slash] else r) ++ ip.2) []
    (zip (seq 0 (length parts)) parts).

Definition GetCwd (fuel : nat) (dirInum : Z) : M Filesystem (option (list byte)) :=
  if dirInum =? 1 then mret (Some [slash])
  else
    parts ← cwdLoop fuel dirInum [];
    mret ((fun parts => slash :: joinPath parts) <$> parts).

(** ** Links: [link_ops.go] *)

Definition createBody (now : Z) (cred : Credential) (path : list byte) (mode : Z) : M Filesystem Z :=
  '(parentInum, name) ← ResolveSplit cred path;
  failIf (bool_decide (name = [])) ErrInvalidArg ;;
  parentDI ← fsReadInode parentInum;
  failIf (negb (IsDir parentDI)) ErrNotDir ;;
  checkPerm parentDI cred false true true ;;
  found ← tryM (onFsDev (LookupEntry parentDI name));
  match found with
  | inl (existInum, _) =>
      existDI ← fsReadInode existInum;
      failIf (IsDir existDI) ErrIsDir ;;
      mret existInum
  | inr _ =>
      newInum ← onFsAlloc AllocInode;
      WriteInodeFS now newInum (newInodeOf (u16 (Z.lor S_IFREG (Z.land mode 0x1FF))) cred 1 0 now) ;;
      parentDI ← fsAddEntry parentDI name newInum FT_REG_FILE;
      WriteInodeFS now parentInum (touch now parentDI) ;;
      mret newInum
  end.

Definition Create (now : Z) (cred : Credential) (path : list byte) (mode : Z) : M Filesystem Z :=
  fsCount Creates 1 ;;
  createdInum ← RunMutation now (createBody now cred path mode);
  EmitEvent EventCreate path ;;
  mret createdInum.

Definition linkBody (now : Z) (cred : Credential) (oldpath newpath : list byte) : M Filesystem unit :=
  targetInum ← Resolve cred oldpath;
  targetDI ← fsReadInode targetInum;
  failIf (IsDir targetDI) ErrIsDir ;;
  '(parentInum, name) ← ResolveSplit cred newpath;
  failIf (bool_decide (name = [])) ErrInvalidArg ;;
  parentDI ← fsReadInode parentInum;
  failIf (negb (IsDir parentDI)) ErrNotDir ;;
  checkPerm parentDI cred false true true ;;
  found ← tryM (onFsDev (LookupEntry parentDI name));
  match found with
  | inl _ => throw ErrExists
  | inr _ =>
      parentDI ← fsAddEntry parentDI name targetInum (inodeFileType targetDI);
      WriteInodeFS now parentInum (touch now parentDI) ;;
      WriteInodeFS now targetInum (changed now (incLinks targetDI))
  end.

Definition Link (now : Z) (cred : Credential) (oldpath newpath : list byte) : M Filesystem unit :=
  fsCount LinkOps 1 ;;
  RunMutation now (linkBody now cred oldpath newpath) ;;
  EmitEvent EventLink newpath.

(** The inode of a new link of [Symlink]: its target inside the inode when it
    is short, in a block of its own else. *)
Definition writeTarget (now newInum : Z) (newDI : DiskInode) (target : list byte) : M Filesystem unit :=
  if Z.of_nat (length target) <? 60 then
    WriteInodeFS now newInum newDI ;;
    let '(blockAddr, offset) := InodeNumToBlock newInum in
    blk ← onFsDev (ReadBlock blockAddr);
    let blk := splice (offset + 40) target blk in
    onFsDev (WriteBlock blockAddr blk) ;;
    UpdateInodeCacheRaw newInum (slice offset InodeLen blk)
  else
    blkAddr ← onFsAlloc AllocBlock;
    onFsDev (WriteBlock blkAddr (copyInto 0 target zeroBlock)) ;;
    WriteInodeFS now newInum
      (set_pointers (<[0%nat := blkAddr]> (Direct newDI)) (Indirect1 newDI) (Indirect2 newDI)
        (Indirect3 newDI) (BlockSize / 512) newDI).

Definition symlinkBody (now : Z) (cred : Credential) (target path : list byte) : M Filesystem unit :=
  '(parentInum, name) ← ResolveSplit cred path;
  failIf (bool_decide (name = [])) ErrInvalidArg ;;
  parentDI ← fsReadInode parentInum;
  failIf (negb (IsDir parentDI)) ErrNotDir ;;
  checkPerm parentDI cred false true true ;;
  found ← tryM (onFsDev (LookupEntry parentDI name));
  match found with
  | inl _ => throw ErrExists
  | inr _ =>
      newInum ← onFsAlloc AllocInode;
      let newDI := SetSize (Z.of_nat (length target)) (newInodeOf (Z.lor S_IFLNK 0x1FF) cred 1 0 now) in
      writeTarget now newInum newDI target ;;
      parentDI ← fsAddEntry parentDI name newInum FT_SYMLINK;
      WriteInodeFS now parentInum (touch now parentDI)
  end.

Definition Symlink (now : Z) (cred : Credential) (target path : list byte) : M Filesystem unit :=
  fsCount SymlinkOps 1 ;;
  failIf (bool_decide (target = [])) ErrInvalidArg ;;
  RunMutation now (symlinkBody now cred target path) ;;
  EmitEvent EventLink path.

Definition ReadLink (cred : Credential) (path : list byte) : M Filesystem (list byte) :=
  inum ← ResolveLstat cred path;
  di ← fsReadInode inum;
  failIf (negb (IsSymlink di)) ErrInvalidArg ;;
  readSymlinkTarget inum di.

Definition unlinkBody (now : Z) (cred : Credential) (path : list byte) : M Filesystem Z :=
  '(parentInum, name) ← ResolveSplit cred path;
  failIf (bool_decide (name = []) || bool_decide (name = dot) || bool_decide (name = dotdot)) ErrInvalidArg ;;
  parentDI ← fsReadInode parentInum;
  failIf (negb (IsDir parentDI)) ErrNotDir ;;
  checkPerm parentDI cred false true true ;;
  '(targetInum, _) ← onFsDev (LookupEntry parentDI name);
  targetDI ← fsReadInode targetInum;
  failIf (IsDir targetDI) ErrIsDir ;;
  liftResult (CheckStickyDelete parentDI targetDI cred) ;;
  onFsDev (RemoveEntry parentDI name) ;;
  WriteInodeFS now parentInum (touch now parentDI) ;;
  let targetDI := if 0 <? Links targetDI then with_links (Links targetDI - 1) targetDI else targetDI in
  let targetDI := changed now targetDI in
  if Links targetDI =? 0 then
    onFsAlloc (FreeInodeBlocks (with_dtime now targetDI)) ;;
    onFsAlloc (FreeInode targetInum) ;;
    mret targetInum
  else
    WriteInodeFS now targetInum targetDI ;;
    UpdateInodeCache targetInum targetDI ;;
    mret targetInum.

Definition Unlink (now : Z) (cred : Credential) (path : list byte) : M Filesystem unit :=
  fsCount UnlinkOps 1 ;;
  targetInum ← RunMutation now (unlinkBody now cred path);
  InvalidateInodeCache targetInum ;;
  EmitEvent EventDelete path.

(** The destination of a [Rename] that exists is replaced: the inode to
    invalidate, 0 for none. *)
Definition replaceDst (srcDI newParentDI : DiskInode) (newName : list byte) (dstInum : Z) : M Filesystem Z :=
  dstDI ← fsReadInode dstInum;
  failIf (IsDir srcDI && negb (IsDir dstDI)) ErrNotDir ;;
  failIf (negb (IsDir srcDI) && IsDir dstDI) ErrIsDir ;;
  (if IsDir dstDI then
     empty ← onFsDev (IsEmptyDir dstDI);
     failIf (negb empty) ErrNotEmpty
   else mret tt) ;;
  onFsDev (RemoveEntry newParentDI newName) ;;
  let dstDI := with_links (u16 (Links dstDI - 1)) dstDI in
  if Links dstDI =? 0 then
    onFsAlloc (FreeInodeBlocks dstDI) ;;
    onFsAlloc (FreeInode dstInum) ;;
    mret dstInum
  else mret 0.

(** The second entry of a moved directory is made to point to its new parent;
    a block that cannot be read is skipped. *)
Definition fixDotDot (srcDI : DiskInode) (newParentInum : Z) : M Filesystem unit :=
  r ← tryM (onFsDev (ReadBlock (Direct srcDI !!! 0%nat)));
  match r with
  | inr _ => mret tt
  | inl blk =>
      match ParseDirEntry blk with
      | Ok (de, consumed) =>
          if bool_decide (de_Name de = dot) && (consumed + 8 <=? BlockSize) then
            onFsDev (WriteBlock (Direct srcDI !!! 0%nat) (LEPutUint32 blk (Z.to_nat consumed) newParentInum))
          else mret tt
      | _ => mret tt
      end
  end.

Definition renameBody (now : Z) (cred : Credential) (oldpath newpath : list byte) : M Filesystem Z :=
  '(oldParentInum, oldName) ← ResolveSplit cred oldpath;
  '(newParentInum, newName) ← ResolveSplit cred newpath;
  failIf (bool_decide (oldName = []) || bool_decide (newName = [])) ErrInvalidArg ;;
  oldParentDI ← fsReadInode oldParentInum;
  checkPerm oldParentDI cred false true true ;;
  newParentDI ← fsReadInode newParentInum;
  checkPerm newParentDI cred false true true ;;
  '(srcInum, srcFT) ← onFsDev (LookupEntry oldParentDI oldName);
  srcDI ← fsReadInode srcInum;
  liftResult (CheckStickyDelete oldParentDI srcDI cred) ;;
  dst ← tryM (onFsDev (LookupEntry newParentDI newName));
  invalidatedDst ← match dst with
                   | inl (dstInum, _) => replaceDst srcDI newParentDI newName dstInum
                   | inr _ => mret 0
                   end;
  newParentDI ← fsAddEntry newParentDI newName srcInum srcFT;
  onFsDev (RemoveEntry oldParentDI oldName) ;;
  WriteInodeFS now oldParentInum (touch now oldParentDI) ;;
  (if negb (newParentInum =? oldParentInum) then WriteInodeFS now newParentInum (touch now newParentDI)
   else mret tt) ;;
  (if IsDir srcDI then fixDotDot srcDI newParentInum else mret tt) ;;
  WriteInodeFS now srcInum (changed now srcDI) ;;
  mret invalidatedDst.

Definition Rename (now : Z) (cred : Credential) (oldpath newpath : list byte) : M Filesystem unit :=
  fsCount RenameOps 1 ;;
  invalidatedDst ← RunMutation now (renameBody now cred oldpath newpath);
  (if negb (invalidatedDst =? 0) then InvalidateInodeCache invalidatedDst else mret tt) ;;
  EmitEvent EventRename newpath.

(** ** Metadata: [stat_ops.go] *)

Record StatInfo : Type := mkStatInfo {
  si_Inode : Z; si_Mode : Z; si_UID : Z; si_GID : Z; si_Size : Z; si_Blocks : Z;
  si_ATime : Z; si_MTime : Z; si_CTime : Z; si_Links : Z;
  si_IsDir : bool; si_IsLink : bool; si_IsFile : bool }.

Definition inodeToStat (inum : Z) (di : DiskInode) : StatInfo :=
  mkStatInfo inum (Mode di) (UID di) (GID di) (SizeOf di) (Blocks512 di) (ATime di) (MTime di) (CTime di)
    (Links di) (IsDir di) (IsSymlink di) (IsRegular di).

Definition Stat (cred : Credential) (path : list byte) : M Filesystem StatInfo :=
  fsCount StatOps 1 ;;
  inum ← Resolve cred path;
  di ← fsReadInode inum;
  mret (inodeToStat inum di).

Definition Lstat (cred : Credential) (path : list byte) : M Filesystem StatInfo :=
  fsCount StatOps 1 ;;
  inum ← ResolveLstat cred path;
  di ← fsReadInode inum;
  mret (inodeToStat inum di).

Definition chmodInode (now mode : Z) (di : DiskInode) : DiskInode :=
  changed now (with_owner (UID di) (GID di) (Z.lor (Z.land (Mode di) S_IFMT) (u16 (Z.land mode 0xFFF))) di).

Definition chmodBody (now : Z) (cred : Credential) (path : list byte) (mode : Z) : M Filesystem unit :=
  inum ← Resolve cred path;
  di ← fsReadInode inum;
  failIf (negb (cr_UID cred =? 0) && negb (cr_UID cred =? UID di)) ErrPermission ;;
  WriteInodeFS now inum (chmodInode now mode di).

Definition Chmod (now : Z) (cred : Credential) (path : list byte) (mode : Z) : M Filesystem unit :=
  fsCount ChmodOps 1 ;;
  RunMutation now (chmodBody now cred path mode).

(** [^uint32(0)]: leave the owner, or the group, as it is. *)
Definition keepId : Z := 2 ^ 32 - 1.
Definition chownInode (now uid gid : Z) (di : DiskInode) : DiskInode :=
  changed now (with_owner
    (if uid =? keepId then UID di else u16 uid) (if gid =? keepId then GID di else u16 gid)
    (Z.ldiff (Mode di) (Z.lor S_ISUID S_ISGID)) di).

Definition chownBody (now : Z) (cred : Credential) (path : list byte) (uid gid : Z) : M Filesystem unit :=
  inum ← Resolve cred path;
  di ← fsReadInode inum;
  failIf (negb (cr_UID cred =? 0)) ErrPermission ;;
  WriteInodeFS now inum (chownInode now uid gid di).

Definition Chown (now : Z) (cred : Credential) (path : list byte) (uid gid : Z) : M Filesystem unit :=
  fsCount ChownOps 1 ;;
  RunMutation now (chownBody now cred path uid gid).

(** [None] is Go's zero time. *)
Definition utimesBody (now : Z) (cred : Credential) (path : list byte) (atime mtime : option Z)
    : M Filesystem unit :=
  inum ← Resolve cred path;
  di ← fsReadInode inum;
  (if negb (cr_UID cred =? 0) && negb (cr_UID cred =? UID di) then
     onErr (liftResult (CheckPermission di cred false true false)) (fun _ => throw ErrPermission)
   else mret tt) ;;
  WriteInodeFS now inum (with_times (u32 (default now atime)) (u32 now) (u32 (default now mtime)) di).

Definition Utimes (now : Z) (cred : Credential) (path : list byte) (atime mtime : option Z) : M Filesystem unit :=
  RunMutation now (utimesBody now cred path atime mtime).

End with_order.
