(* ===== verification/Quiet.v ===== *)
(** * Quiet: only [Sync] writes the backing file

    Every operation of the program ends in reads and writes of the device in
    memory; the file changes in [Sync] only, which the operations reach through
    [Commit] when they are not run by [RunMutation].  A state that holds a
    device is an instance of [HasDevice]; [quiet] relates two states whose
    devices have the same file, and every component keeps it. *)

From S2P Require Export Ops.

(** ** The device of a state *)

Class HasDevice (S : Type) := device : S -> BlockDevice.

#[export] Instance device_self : HasDevice BlockDevice := fun d => d.
#[export] Instance device_alloc : HasDevice Allocator := a_dev.
#[export] Instance device_inode : HasDevice inode_state := fun s => a_dev s.1.
#[export] Instance device_buf : HasDevice cstate := fst.
#[export] Instance device_icache : HasDevice istate := fst.

(** The device evolves by writes in memory, in any block. *)
Definition unsynced : BlockDevice -> BlockDevice -> Prop := dev_only (fun _ => True).

Lemma unsynced_intro d d' : dev_evol d d' -> dev_file d' = dev_file d -> unsynced d d'.
Proof. intros. by split. Qed.

Lemma unsynced_only P d d' : dev_only P d d' -> unsynced d d'.
Proof. intros []. by split. Qed.

Definition quiet {S} `{HasDevice S} (s s' : S) : Prop := unsynced (device s) (device s').

#[export] Instance quiet_preorder {S} `{HasDevice S} : PreOrder quiet.
Proof. split; [intros s; red; reflexivity|]. intros a b c; rewrite /quiet; apply transitivity. Qed.

(** Walks through the code of a computation; the calls are solved by the
    lemmas of [quiet]. *)
Create HintDb quiet discriminated.
#[export] Hint Constants Opaque : quiet.
#[export] Hint Variables Opaque : quiet.

Ltac head_of m := lazymatch m with ?f _ => head_of f | _ => m end.
(** [H] is about calls of the function that [m] calls. *)
Ltac call_of H m :=
  let g := head_of m in
  lazymatch type of H with context [g] => idtac end.
Ltac quiet_step :=
  match goal with
  | |- PreOrder _ => apply _
  | |- forall _, _ => intros
  | |- keeps _ (mbind _ _) => apply keeps_bind
  | |- keeps _ (onErr _ _) => apply keeps_onErr
  | |- keeps _ (wrapErr _ _ _) => apply keeps_wrapErr
  | |- keeps _ (tryM _) => apply keeps_tryM
  | |- keeps _ (forEach _ _) => apply keeps_forEach
  | |- keeps _ (whenM _ _) => apply keeps_whenM
  | |- keeps _ (failIf _ _) => apply keeps_failIf
  | |- keeps _ (gets _) => apply keeps_gets
  | |- keeps _ (mret _) => apply keeps_ret
  | |- keeps _ (throw _) => apply keeps_throw
  | |- keeps _ panic => apply keeps_panic
  | |- keeps _ (liftResult _) => apply keeps_liftResult
  | |- keeps _ (match ?x with _ => _ end) => destruct x
  | H : _ |- keeps _ ?m => call_of H m; apply H
  | |- keeps _ _ => solve [repeat match goal with H : context [keeps _ _] |- _ => clear H end; eauto with quiet]
  end.
Ltac quiet_solve := repeat quiet_step.

(** ** The device *)

Lemma quiet_only P {A} (m : M BlockDevice A) : keeps (dev_only P) m -> keeps quiet m.
Proof. intros H. eapply keeps_weaken; [exact H|]. apply unsynced_only. Qed.

Lemma tick_quiet (d : BlockDevice) : quiet d (with_tick d).
Proof. apply tick_only. Qed.

Lemma checkFault_quiet op : keeps quiet (checkFault op).
Proof. apply checkFault_keeps; [apply _|apply tick_quiet]. Qed.
Lemma osCall_quiet c : keeps quiet (osCall c).
Proof. apply osCall_keeps; [apply _|apply tick_quiet]. Qed.
#[export] Hint Resolve checkFault_quiet osCall_quiet : quiet.

Lemma ReadBlock_quiet a : keeps quiet (ReadBlock a).
Proof. apply (quiet_only (fun _ => False)), ReadBlock_keeps. Qed.

Lemma with_data_unsynced x d :
  length x = length (dev_data d) -> (wf_dev d -> Forall (fun b => length b = BlockLen) x) ->
  unsynced d (with_data x d).
Proof.
  intros Hl HF. apply unsynced_intro; [|done]. split; [done|done|].
  intros Hw. pose proof (HF Hw) as Hx. destruct Hw as [(n & Hn & Hs & [H1 H2] & H3)].
  constructor. exists n. by rewrite /wf_image /= Hl.
Qed.

Lemma with_dirty_unsynced b d : unsynced d (with_dirty b d).
Proof. apply unsynced_intro; [|done]. split; [done|done|]. by intros [(n & ?)]; constructor; exists n. Qed.

Lemma wf_blocks d : wf_dev d -> Forall (fun b => length b = BlockLen) (dev_data d).
Proof. by intros [(n & _ & _ & [_ H] & _)]. Qed.

Lemma WriteBlock_quiet a b : keeps quiet (WriteBlock a b).
Proof.
  rewrite /WriteBlock. apply keeps_bind; [apply _|eauto with quiet|]. intros _ d. rewrite bind_gets /failIf /mbind /M_bind /modify.
  destruct (BlockCount d <=? a); [reflexivity|].
  destruct (Z.of_nat (length b) =? blockSize) eqn:E; [|reflexivity]. simpl_bool. simpl.
  apply unsynced_intro; [|done]. apply poke_evol. rewrite /blockSize in E. change BlockLen with 4096%nat. lia.
Qed.

#[export] Hint Resolve ReadBlock_quiet WriteBlock_quiet : quiet.

Lemma Reload_quiet : keeps quiet Reload.
Proof.
  rewrite /Reload. apply keeps_bind; [apply _|eauto with quiet|].
  intros [[e k]|]; [apply keeps_throw, _|].
  apply keeps_bind; [apply _|eauto with quiet|].
  intros [[e k]|]; [apply keeps_throw, _|]. intros d. simpl.
  change (unsynced d (with_dirty false (with_data (dev_file d) d))).
  apply unsynced_intro; [|done]. split; [done|done|].
  intros [(n & Hn & Hs & Hd & Hf)]. constructor. by exists n.
Qed.

Lemma restoreOne_quiet snapshot addr :
  Forall (fun b => length b = BlockLen) snapshot -> keeps quiet (restoreOne snapshot addr).
Proof.
  intros HF. rewrite /restoreOne. quiet_solve. apply keeps_modify; [apply _|].
  intros d. apply with_data_unsynced; [by rewrite length_insert|].
  intros Hw. apply Forall_insert; [by apply wf_blocks|].
  destruct (snapshot !! Z.to_nat addr) as [x|] eqn:E; [|apply length_zeroBlock].
  by apply (Forall_lookup_1 _ _ _ _ HF E).
Qed.
Lemma dirty_quiet b : keeps quiet (modify (with_dirty b)).
Proof. apply keeps_modify; [apply _|]. apply with_dirty_unsynced. Qed.

#[export] Hint Resolve restoreOne_quiet dirty_quiet : quiet.

Lemma RestoreBlocks_quiet snapshot addrs :
  Forall (fun b => length b = BlockLen) snapshot -> keeps quiet (RestoreBlocks snapshot addrs).
Proof. intros HF. rewrite /RestoreBlocks. quiet_solve. Qed.

Lemma ChangedBlocks_quiet snapshot : keeps quiet (ChangedBlocks snapshot).
Proof. intros d. rewrite /ChangedBlocks. destruct (negb _); reflexivity. Qed.

Lemma readBlocks_quiet addrs : keeps quiet (readBlocks addrs).
Proof. induction addrs; simpl; quiet_solve. Qed.

(** ** Tables on the device *)

Lemma ReadSuperblock_quiet : keeps quiet ReadSuperblock.
Proof. rewrite /ReadSuperblock. quiet_solve. Qed.
Lemma WriteSuperblock_quiet sb : keeps quiet (WriteSuperblock sb).
Proof. apply WriteBlock_quiet. Qed.
Lemma ReadBlockBitmap_quiet : keeps quiet ReadBlockBitmap.
Proof. rewrite /ReadBlockBitmap. quiet_solve. Qed.
Lemma WriteBlockBitmap_quiet bm : keeps quiet (WriteBlockBitmap bm).
Proof. apply WriteBlock_quiet. Qed.
Lemma ReadInodeBitmap_quiet : keeps quiet ReadInodeBitmap.
Proof. rewrite /ReadInodeBitmap. quiet_solve. Qed.
Lemma WriteInodeBitmap_quiet bm : keeps quiet (WriteInodeBitmap bm).
Proof. apply WriteBlock_quiet. Qed.
Lemma ReadInode_quiet num : keeps quiet (ReadInode num).
Proof. rewrite /ReadInode. destruct (InodeNumToBlock num). quiet_solve. Qed.
Lemma WriteInode_quiet num di : keeps quiet (WriteInode num di).
Proof. rewrite /WriteInode. destruct (InodeNumToBlock num). quiet_solve. Qed.
Lemma flushFn_quiet num data : keeps quiet (flushFn num data).
Proof. rewrite /flushFn. destruct (InodeNumToBlock num). quiet_solve. Qed.

#[export] Hint Resolve Reload_quiet ChangedBlocks_quiet readBlocks_quiet ReadSuperblock_quiet
  WriteSuperblock_quiet ReadBlockBitmap_quiet WriteBlockBitmap_quiet ReadInodeBitmap_quiet
  WriteInodeBitmap_quiet ReadInode_quiet WriteInode_quiet flushFn_quiet : quiet.

(** ** The allocator and the block maps *)

Lemma onDev_quiet {A} (m : M BlockDevice A) : keeps quiet m -> keeps quiet (onDev m).
Proof. intros H. apply (keeps_zoom _ quiet a_dev with_dev m H). by intros s t h. Qed.
Lemma modAlloc_quiet f : (forall a, a_dev (f a) = a_dev a) -> keeps quiet (modify (S := Allocator) f).
Proof. intros H. apply keeps_modify; [apply _|]. intros a. red. rewrite /device /device_alloc H. reflexivity. Qed.
Lemma count_quiet c n : keeps quiet (count c n).
Proof. by apply modAlloc_quiet. Qed.
Lemma emitEvent_quiet ty fields : keeps quiet (emitEvent ty fields).
Proof. by apply modAlloc_quiet. Qed.

#[export] Hint Resolve onDev_quiet count_quiet emitEvent_quiet : quiet.
#[export] Hint Extern 1 (keeps quiet (modify _)) => by apply modAlloc_quiet : quiet.

Lemma AllocBlock_quiet : keeps quiet AllocBlock.
Proof. rewrite /AllocBlock. quiet_solve. Qed.
Lemma FreeBlock_quiet addr : keeps quiet (FreeBlock addr).
Proof. rewrite /FreeBlock. quiet_solve. Qed.
Lemma AllocInode_quiet : keeps quiet AllocInode.
Proof. rewrite /AllocInode. quiet_solve. Qed.
Lemma FreeInode_quiet inum : keeps quiet (FreeInode inum).
Proof. rewrite /FreeInode. quiet_solve. Qed.

#[export] Hint Resolve AllocBlock_quiet FreeBlock_quiet AllocInode_quiet FreeInode_quiet : quiet.

Lemma freePointers_quiet free p : (forall p, keeps quiet (free p)) -> keeps quiet (freePointers free p).
Proof. intros H. rewrite /freePointers. quiet_solve. Qed.
Lemma freeIndirect1_quiet p : keeps quiet (freeIndirect1 p).
Proof. apply freePointers_quiet, FreeBlock_quiet. Qed.
Lemma freeIndirect2_quiet p : keeps quiet (freeIndirect2 p).
Proof. apply freePointers_quiet, freeIndirect1_quiet. Qed.
Lemma freeIndirect3_quiet p : keeps quiet (freeIndirect3 p).
Proof. apply freePointers_quiet, freeIndirect2_quiet. Qed.

#[export] Hint Resolve freeIndirect1_quiet freeIndirect2_quiet freeIndirect3_quiet : quiet.

Lemma FreeInodeBlocks_quiet di : keeps quiet (FreeInodeBlocks di).
Proof. rewrite /FreeInodeBlocks. quiet_solve. Qed.
#[export] Hint Resolve FreeInodeBlocks_quiet : quiet.

Lemma onAlloc_quiet {A} (m : M Allocator A) : keeps quiet m -> keeps quiet (onAlloc m).
Proof. intros H. apply (keeps_zoom _ quiet fst _ m H). by intros s t h. Qed.
Lemma onBlk_quiet {A} (m : M BlockDevice A) : keeps quiet m -> keeps quiet (onBlk m).
Proof. intros H. by apply onAlloc_quiet, onDev_quiet. Qed.
Lemma modInode_quiet f : keeps quiet (modInode f).
Proof. apply keeps_modify; [apply _|]. intros s. red. reflexivity. Qed.

#[export] Hint Resolve onAlloc_quiet onBlk_quiet modInode_quiet : quiet.

Lemma GetBlockForOffset_quiet di lb : keeps quiet (GetBlockForOffset di lb).
Proof. rewrite /GetBlockForOffset. quiet_solve. Qed.
Lemma ensureRoot_quiet root setRoot : keeps quiet (ensureRoot root setRoot).
Proof. rewrite /ensureRoot. quiet_solve. Qed.
Lemma ensureChild_quiet parent blk idx : keeps quiet (ensureChild parent blk idx).
Proof. rewrite /ensureChild. quiet_solve. Qed.
Lemma placeLeaf_quiet parent blk idx : keeps quiet (placeLeaf parent blk idx).
Proof. rewrite /placeLeaf. quiet_solve. Qed.

#[export] Hint Resolve GetBlockForOffset_quiet ensureRoot_quiet ensureChild_quiet placeLeaf_quiet : quiet.

Lemma AllocBlockForOffset_quiet lb : keeps quiet (AllocBlockForOffset lb).
Proof. rewrite /AllocBlockForOffset. quiet_solve. Qed.
Lemma clearPointerAt_quiet lb : keeps quiet (clearPointerAt lb).
Proof. rewrite /clearPointerAt. quiet_solve. Qed.
Lemma pruneIndirectBlocks_quiet n : keeps quiet (pruneIndirectBlocks n).
Proof. rewrite /pruneIndirectBlocks. quiet_solve. Qed.

#[export] Hint Resolve AllocBlockForOffset_quiet clearPointerAt_quiet pruneIndirectBlocks_quiet : quiet.

Lemma freeOne_quiet lb : keeps quiet (freeOne lb).
Proof. rewrite /freeOne. quiet_solve. Qed.
#[export] Hint Resolve freeOne_quiet : quiet.
Lemma FreeBlocksFrom_quiet n : keeps quiet (FreeBlocksFrom n).
Proof. rewrite /FreeBlocksFrom. quiet_solve. Qed.

(** ** Directories *)

Lemma iterBlocks_quiet {V} (fn : DirEntry -> Z -> nat -> V -> V * bool) di bs v :
  keeps quiet (iterBlocks fn di bs v).
Proof. revert v. induction bs as [|b bs IH]; intros v; cbn [iterBlocks]; quiet_solve. Qed.
Lemma addBlocks_quiet di needed name inum ft bs : keeps quiet (addBlocks di needed name inum ft bs).
Proof. induction bs; cbn [addBlocks]; quiet_solve. Qed.
Lemma removeBlocks_quiet di name bs : keeps quiet (removeBlocks di name bs).
Proof. induction bs; cbn [removeBlocks]; quiet_solve. Qed.

#[export] Hint Resolve FreeBlocksFrom_quiet iterBlocks_quiet addBlocks_quiet removeBlocks_quiet : quiet.

Lemma IterDirEntries_quiet {V} (fn : DirEntry -> Z -> nat -> V -> V * bool) di v :
  keeps quiet (IterDirEntries fn di v).
Proof. rewrite /IterDirEntries. quiet_solve. Qed.
#[export] Hint Resolve IterDirEntries_quiet : quiet.

Lemma LookupEntry_quiet di name : keeps quiet (LookupEntry di name).
Proof. rewrite /LookupEntry. quiet_solve. Qed.
Lemma IsEmptyDir_quiet di : keeps quiet (IsEmptyDir di).
Proof. rewrite /IsEmptyDir. quiet_solve. Qed.
Lemma ReadAllEntries_quiet di : keeps quiet (ReadAllEntries di).
Proof. rewrite /ReadAllEntries. quiet_solve. Qed.
Lemma setBlockForOffset_quiet lb p : keeps quiet (setBlockForOffset lb p).
Proof. rewrite /setBlockForOffset. quiet_solve. Qed.
Lemma RemoveEntry_quiet di name : keeps quiet (RemoveEntry di name).
Proof. rewrite /RemoveEntry. quiet_solve. Qed.
Lemma InitDirBlock_quiet di dirInum parentInum : keeps quiet (InitDirBlock di dirInum parentInum).
Proof. rewrite /InitDirBlock. quiet_solve. Qed.

#[export] Hint Resolve LookupEntry_quiet IsEmptyDir_quiet ReadAllEntries_quiet setBlockForOffset_quiet
  RemoveEntry_quiet InitDirBlock_quiet : quiet.

Lemma AddEntry_quiet name inum ft : keeps quiet (AddEntry name inum ft).
Proof. rewrite /AddEntry. quiet_solve. Qed.
#[export] Hint Resolve AddEntry_quiet : quiet.

(** ** The caches *)

Lemma onCDev_quiet {A} (m : M BlockDevice A) : keeps quiet m -> keeps quiet (onCDev m).
Proof. intros H. apply (keeps_zoom _ quiet fst _ m H). by intros s t h. Qed.
Lemma modCache_quiet f : keeps quiet (modCache f).
Proof. apply keeps_modify; [apply _|]. intros s. red. reflexivity. Qed.
#[export] Hint Resolve onCDev_quiet modCache_quiet : quiet.

Lemma emitCache_quiet ty addr dirty : keeps quiet (emitCache ty addr dirty).
Proof. rewrite /emitCache. quiet_solve. Qed.
Lemma setEntry_quiet addr f : keeps quiet (setEntry addr f).
Proof. rewrite /setEntry. quiet_solve. Qed.
#[export] Hint Resolve emitCache_quiet setEntry_quiet : quiet.
Lemma dropEntry_quiet addr dirty : keeps quiet (dropEntry addr dirty).
Proof. rewrite /dropEntry. quiet_solve. Qed.
#[export] Hint Resolve dropEntry_quiet : quiet.
Lemma evictWalk_quiet rest : keeps quiet (evictWalk rest).
Proof. induction rest; cbn [evictWalk]; quiet_solve. Qed.
#[export] Hint Resolve evictWalk_quiet : quiet.
Lemma evictLoop_quiet fuel : keeps quiet (evictLoop fuel).
Proof. induction fuel; cbn [evictLoop]; quiet_solve. Qed.
#[export] Hint Resolve evictLoop_quiet : quiet.
Lemma evictIfNeeded_quiet : keeps quiet evictIfNeeded.
Proof. rewrite /evictIfNeeded. quiet_solve. Qed.
Lemma insertEntry_quiet addr e : keeps quiet (insertEntry addr e).
Proof. rewrite /insertEntry. quiet_solve. Qed.
Lemma pinEntry_quiet addr : keeps quiet (pinEntry addr).
Proof. rewrite /pinEntry. quiet_solve. Qed.
#[export] Hint Resolve evictIfNeeded_quiet insertEntry_quiet pinEntry_quiet : quiet.

Lemma GetBlock_quiet addr : keeps quiet (GetBlock addr).
Proof. rewrite /GetBlock. quiet_solve. Qed.
Lemma PutBlock_quiet addr data : keeps quiet (PutBlock addr data).
Proof. rewrite /PutBlock. quiet_solve. Qed.
Lemma MarkDirty_quiet addr : keeps quiet (MarkDirty addr).
Proof. rewrite /MarkDirty. quiet_solve. Qed.
Lemma FlushBlock_quiet addr : keeps quiet (FlushBlock addr).
Proof. rewrite /FlushBlock. quiet_solve. Qed.
#[export] Hint Resolve GetBlock_quiet PutBlock_quiet MarkDirty_quiet FlushBlock_quiet : quiet.
Lemma FlushAll_quiet `{MapOrder} : keeps quiet FlushAll.
Proof. rewrite /FlushAll. quiet_solve. Qed.
Lemma InvalidateAll_quiet : keeps quiet InvalidateAll.
Proof. rewrite /InvalidateAll. quiet_solve. Qed.
#[export] Hint Resolve FlushAll_quiet InvalidateAll_quiet : quiet.

Lemma onIDev_quiet {A} (m : M BlockDevice A) : keeps quiet m -> keeps quiet (onIDev m).
Proof. intros H. apply (keeps_zoom _ quiet fst _ m H). by intros s t h. Qed.
Lemma onIcache_quiet {A} (m : M InodeCache A) : keeps quiet (onIcache m).
Proof. intros s. red. rewrite /device /device_icache /onIcache /zoom. by destruct (m s.2). Qed.
#[export] Hint Resolve onIDev_quiet onIcache_quiet : quiet.
Lemma FlushInode_quiet inum : keeps quiet (FlushInode (Some flushFn) inum).
Proof. rewrite /FlushInode. quiet_solve. Qed.
#[export] Hint Resolve FlushInode_quiet : quiet.
Lemma IFlushAll_quiet `{MapOrder} : keeps quiet (IFlushAll (Some flushFn)).
Proof. rewrite /IFlushAll. quiet_solve. Qed.
#[export] Hint Resolve IFlushAll_quiet : quiet.

(** ** The file system *)

(** Where the next transaction goes. *)
Definition jpos (j : Journal) : Z * Z * Z := (j_start j, j_length j, j_head j).

(** No block is synchronised and no transaction is written. *)
Record calm (f f' : Filesystem) : Prop := {
  cm_dev : unsynced (f_dev f) (f_dev f');
  cm_journal : jpos (fs_journal f') = jpos (fs_journal f);
  cm_mutating : fs_mutating f' = fs_mutating f;
}.

#[export] Instance calm_preorder : PreOrder calm.
Proof.
  split; [by split|]. intros a b c [D1 ? ?] [D2 ? ?].
  split; [exact (transitivity D1 D2)|congruence|congruence].
Qed.

(** The same inside a mutation. *)
Definition mutstep (f f' : Filesystem) : Prop := fs_mutating f = true -> calm f f'.

#[export] Instance mutstep_preorder : PreOrder mutstep.
Proof.
  split; [by intros f _|]. intros a b c H1 H2 Ha. specialize (H1 Ha). etrans; [exact H1|].
  apply H2. by rewrite (cm_mutating _ _ H1).
Qed.

Lemma calm_mutstep {A} (m : M Filesystem A) : keeps calm m -> keeps mutstep m.
Proof. intros H f _. apply H. Qed.
#[export] Hint Resolve calm_mutstep : quiet.

Lemma calm_intro f f' :
  quiet (f_dev f) (f_dev f') -> jpos (fs_journal f') = jpos (fs_journal f) ->
  fs_mutating f' = fs_mutating f -> calm f f'.
Proof. by split. Qed.

(** A change of a part without the device, the journal and the flag. *)
Definition same_core (f f' : Filesystem) : Prop :=
  f_dev f' = f_dev f /\ jpos (fs_journal f') = jpos (fs_journal f) /\ fs_mutating f' = fs_mutating f.
Lemma same_core_calm f f' : same_core f f' -> calm f f'.
Proof. intros (E & H1 & H2). split; [|done|done]. rewrite E. reflexivity. Qed.

Lemma same_core_forward src log f : same_core f (forward src log f).
Proof.
  rewrite /forward. generalize (rev (default [] log)). intros l. revert f.
  induction l as [|e l IH]; intros f; simpl; [done|]. destruct (IH (sendEvent (mkEvent e.1 src [] e.2 None) f)) as (E1 & E2 & E3).
  by split_and!; [rewrite E1|rewrite E2|rewrite E3].
Qed.

Lemma calm_then_forward f f' src log : calm f f' -> calm f (forward src log f').
Proof. intros H. etrans; [exact H|]. apply same_core_calm, same_core_forward. Qed.

Lemma onFsDev_calm {A} (m : M BlockDevice A) : keeps quiet m -> keeps calm (onFsDev m).
Proof. intros H. apply (keeps_zoom _ quiet f_dev put_dev m H). intros f d Hd. by split. Qed.
Lemma onFsAlloc_calm {A} (m : M Allocator A) : keeps quiet m -> keeps calm (onFsAlloc m).
Proof.
  intros H f. rewrite /onFsAlloc. set (a0 := with_emit _ _). specialize (H a0).
  destruct (m a0) as [r a]. apply calm_then_forward. by split.
Qed.
Lemma onFsInode_calm {A} di (m : M inode_state A) : keeps quiet m -> keeps calm (onFsInode di m).
Proof.
  intros H. apply onFsAlloc_calm. intros a. specialize (H (a, di)).
  destruct (m (a, di)) as [[x|e|] [a' di']]; exact H.
Qed.
Lemma onFsBuf_calm {A} (m : M cstate A) : keeps quiet m -> keeps calm (onFsBuf m).
Proof.
  intros H f. rewrite /onFsBuf. set (c0 := with_cemit _ _). specialize (H (f_dev f, c0)).
  destruct (m (f_dev f, c0)) as [r s]. apply calm_then_forward. by split.
Qed.
Lemma onFsInodes_calm {A} (m : M InodeCache A) : keeps calm (onFsInodes m).
Proof. intros f. rewrite /onFsInodes /zoom. destruct (m (fs_inodes f)) as [r s]. by apply same_core_calm. Qed.
Lemma onFsIstate_calm {A} (m : M istate A) : keeps quiet m -> keeps calm (onFsIstate m).
Proof. intros H. apply (keeps_zoom _ quiet (fun f => (f_dev f, fs_inodes f)) _ m H). intros f s Hs. by split. Qed.
Lemma modify_calm g : (forall f, same_core f (g f)) -> keeps calm (modify g).
Proof. intros H. apply keeps_modify; [apply _|]. intros f. apply same_core_calm, H. Qed.
Lemma fsCount_calm c n : keeps calm (fsCount c n).
Proof. by apply modify_calm. Qed.
Lemma EmitTypedEvent_calm ty src path data : keeps calm (EmitTypedEvent ty src path data).
Proof. by apply modify_calm. Qed.

#[export] Hint Resolve onFsDev_calm onFsAlloc_calm onFsInode_calm onFsBuf_calm onFsInodes_calm onFsIstate_calm
  fsCount_calm EmitTypedEvent_calm : quiet.

(** ** The operations of [internal/ops] *)

Section with_order.
Context {O : MapOrder}.

Lemma fsReadInode_calm inum : keeps calm (fsReadInode inum).
Proof. rewrite /fsReadInode. quiet_solve. Qed.
Lemma UpdateInodeCache_calm inum di : keeps calm (UpdateInodeCache inum di).
Proof. rewrite /UpdateInodeCache. quiet_solve. Qed.
Lemma UpdateInodeCacheRaw_calm inum raw : keeps calm (UpdateInodeCacheRaw inum raw).
Proof. rewrite /UpdateInodeCacheRaw. quiet_solve. Qed.
Lemma checkPerm_calm di cred r w x : keeps calm (checkPerm di cred r w x).
Proof. rewrite /checkPerm. quiet_solve. Qed.
Lemma readSymlinkTarget_calm inum di : keeps calm (readSymlinkTarget inum di).
Proof. rewrite /readSymlinkTarget. quiet_solve. Qed.
#[local] Hint Resolve fsReadInode_calm UpdateInodeCache_calm UpdateInodeCacheRaw_calm checkPerm_calm
  readSymlinkTarget_calm : quiet.

Lemma walkParts_calm rec cred lstat parts cur :
  (forall c p l, keeps calm (rec c p l)) -> keeps calm (walkParts rec cred lstat parts cur).
Proof.
  intros Hrec. revert cur. induction parts as [|part rest IH]; intros cur; cbn [walkParts]; quiet_solve.
Qed.
Lemma resolveFrom_calm links cred path lstat : keeps calm (resolveFrom links cred path lstat).
Proof.
  revert cred path lstat. induction links as [|links IH]; intros cred path lstat; cbn [resolveFrom]; quiet_solve.
  all: by apply walkParts_calm.
Qed.
#[local] Hint Resolve resolveFrom_calm : quiet.
Lemma resolve_calm cred path lstat : keeps calm (resolve cred path lstat).
Proof. rewrite /resolve. quiet_solve. Qed.
#[local] Hint Resolve resolve_calm : quiet.
Lemma Resolve_calm cred path : keeps calm (Resolve cred path).
Proof. rewrite /Resolve. quiet_solve. Qed.
Lemma ResolveSplit_calm cred path : keeps calm (ResolveSplit cred path).
Proof. rewrite /ResolveSplit. quiet_solve. Qed.
Lemma fsAddEntry_calm di name inum ft : keeps calm (fsAddEntry di name inum ft).
Proof. rewrite /fsAddEntry. quiet_solve. Qed.
#[local] Hint Resolve Resolve_calm ResolveSplit_calm fsAddEntry_calm : quiet.

(** Inside a mutation [WriteInodeFS] writes to the device. *)
Lemma mutating_mutstep {A} (k : bool -> M Filesystem A) :
  keeps mutstep (k true) -> keeps mutstep (b ← gets fs_mutating; k b).
Proof. intros H f Hf. rewrite bind_gets Hf. by apply H. Qed.

Lemma WriteInodeFS_mutstep now inum di : keeps mutstep (WriteInodeFS now inum di).
Proof.
  rewrite /WriteInodeFS. destruct (InodeNumToBlock inum) as [a off]. quiet_step; [quiet_solve..|].
  intros _. apply (mutating_mutstep (fun b => _)). quiet_solve.
Qed.
#[local] Hint Resolve WriteInodeFS_mutstep : quiet.

Lemma writeLoop_mutstep fuel di off buf : keeps mutstep (writeLoop fuel di off buf).
Proof. revert di off buf. induction fuel as [|fuel IH]; intros di off buf; cbn [writeLoop]; quiet_solve. Qed.
Lemma writeTarget_mutstep now inum di target : keeps mutstep (writeTarget now inum di target).
Proof. rewrite /writeTarget. quiet_solve. Qed.
Lemma replaceDst_mutstep src parent name dst : keeps mutstep (replaceDst src parent name dst).
Proof. rewrite /replaceDst. quiet_solve. Qed.
Lemma fixDotDot_mutstep di inum : keeps mutstep (fixDotDot di inum).
Proof. rewrite /fixDotDot. quiet_solve. Qed.
#[local] Hint Resolve writeLoop_mutstep writeTarget_mutstep replaceDst_mutstep fixDotDot_mutstep : quiet.

(** The functions [RunMutation] is called with. *)
Inductive mutation : forall A, M Filesystem A -> Prop :=
  | m_write now cred inum offset buf : mutation _ (writeBody now cred inum offset buf)
  | m_truncate now cred inum size : mutation _ (truncateBody now cred inum size)
  | m_mkdir now cred path mode : mutation _ (mkdirBody now cred path mode)
  | m_rmdir now cred path : mutation _ (rmdirBody now cred path)
  | m_create now cred path mode : mutation _ (createBody now cred path mode)
  | m_link now cred oldpath newpath : mutation _ (linkBody now cred oldpath newpath)
  | m_symlink now cred target path : mutation _ (symlinkBody now cred target path)
  | m_unlink now cred path : mutation _ (unlinkBody now cred path)
  | m_rename now cred oldpath newpath : mutation _ (renameBody now cred oldpath newpath)
  | m_chmod now cred path mode : mutation _ (chmodBody now cred path mode)
  | m_chown now cred path uid gid : mutation _ (chownBody now cred path uid gid)
  | m_utimes now cred path atime mtime : mutation _ (utimesBody now cred path atime mtime).

Lemma mutation_mutstep A (m : M Filesystem A) : mutation A m -> keeps mutstep m.
Proof.
  intros H. destruct H.
  - rewrite /writeBody. quiet_solve.
  - rewrite /truncateBody. quiet_solve.
  - rewrite /mkdirBody. quiet_solve.
  - rewrite /rmdirBody. quiet_solve.
  - rewrite /createBody. quiet_solve.
  - rewrite /linkBody. quiet_solve.
  - rewrite /symlinkBody. quiet_solve.
  - rewrite /unlinkBody. quiet_solve.
  - rewrite /renameBody. quiet_solve.
  - rewrite /chmodBody. quiet_solve.
  - rewrite /chownBody. quiet_solve.
  - rewrite /utimesBody. quiet_solve.
Qed.

End with_order.
