(* ===== verification/Still.v ===== *)
(** * Still: reading a device that does not fail

    Every function that only reads leaves a healthy device as it is and does
    not panic, so that what it returns is a function of the device: [value]. *)

From S2P Require Export Quiet.

(** The computation leaves a healthy device as it is, and does not panic. *)
Definition still (d d' : BlockDevice) : Prop := healthy d -> d' = d.

#[export] Instance still_preorder : PreOrder still.
Proof. split; [by intros d _|]. intros a b c H1 H2 H. specialize (H1 H) as ->. by apply H2. Qed.

Lemma checkFault_still op : keeps still (checkFault op).
Proof. intros d Hh. by rewrite checkFault_healthy. Qed.
#[export] Hint Resolve checkFault_still : quiet.
Lemma ReadBlock_still a : keeps still (ReadBlock a).
Proof. rewrite /ReadBlock. quiet_solve. Qed.
#[export] Hint Resolve ReadBlock_still : quiet.
Lemma ReadInode_still num : keeps still (ReadInode num).
Proof. rewrite /ReadInode. destruct (InodeNumToBlock num). quiet_solve. Qed.
Lemma ReadSuperblock_still : keeps still ReadSuperblock.
Proof. rewrite /ReadSuperblock. quiet_solve. Qed.
Lemma ReadBlockBitmap_still : keeps still ReadBlockBitmap.
Proof. rewrite /ReadBlockBitmap. quiet_solve. Qed.
Lemma ReadInodeBitmap_still : keeps still ReadInodeBitmap.
Proof. rewrite /ReadInodeBitmap. quiet_solve. Qed.
Lemma GetBlockForOffset_still di lb : keeps still (GetBlockForOffset di lb).
Proof. rewrite /GetBlockForOffset. quiet_solve. Qed.
#[export] Hint Resolve ReadInode_still ReadSuperblock_still ReadBlockBitmap_still ReadInodeBitmap_still
  GetBlockForOffset_still : quiet.
Lemma iterBlocks_still {V} (fn : DirEntry -> Z -> nat -> V -> V * bool) di bs v : keeps still (iterBlocks fn di bs v).
Proof. revert v. induction bs as [|b bs IH]; intros v; cbn [iterBlocks]; quiet_solve. Qed.
#[export] Hint Resolve iterBlocks_still : quiet.
Lemma IterDirEntries_still {V} (fn : DirEntry -> Z -> nat -> V -> V * bool) di v : keeps still (IterDirEntries fn di v).
Proof. rewrite /IterDirEntries. quiet_solve. Qed.
#[export] Hint Resolve IterDirEntries_still : quiet.
Lemma LookupEntry_still di name : keeps still (LookupEntry di name).
Proof. rewrite /LookupEntry. quiet_solve. Qed.
Lemma ReadAllEntries_still di : keeps still (ReadAllEntries di).
Proof. rewrite /ReadAllEntries. quiet_solve. Qed.
Lemma blockListLoop_still di lbs l : keeps still (blockListLoop di lbs l).
Proof. revert l. induction lbs as [|lb lbs IH]; intros l; cbn [blockListLoop]; quiet_solve. Qed.
#[export] Hint Resolve LookupEntry_still ReadAllEntries_still blockListLoop_still : quiet.
Lemma BlockList_still di : keeps still (BlockList di).
Proof. rewrite /BlockList. quiet_solve. Qed.
#[export] Hint Resolve BlockList_still : quiet.

#[export] Hint Resolve ReadBlock_total : total.
Lemma ReadInode_total num : total (ReadInode num).
Proof. rewrite /ReadInode. destruct (InodeNumToBlock num). total_solve. Qed.
#[export] Hint Resolve ReadInode_total : total.
Lemma GetBlockForOffset_total di lb : total (GetBlockForOffset di lb).
Proof. rewrite /GetBlockForOffset. total_solve. Qed.
#[export] Hint Resolve GetBlockForOffset_total : total.
Lemma iterBlocks_total {V} (fn : DirEntry -> Z -> nat -> V -> V * bool) di bs v : total (iterBlocks fn di bs v).
Proof. revert v. induction bs as [|b bs IH]; intros v; cbn [iterBlocks]; total_solve. Qed.
#[export] Hint Resolve iterBlocks_total : total.
Lemma IterDirEntries_total {V} (fn : DirEntry -> Z -> nat -> V -> V * bool) di v : total (IterDirEntries fn di v).
Proof. rewrite /IterDirEntries. total_solve. Qed.
#[export] Hint Resolve IterDirEntries_total : total.
Lemma LookupEntry_total di name : total (LookupEntry di name).
Proof. rewrite /LookupEntry. total_solve. Qed.
Lemma ReadAllEntries_total di : total (ReadAllEntries di).
Proof. rewrite /ReadAllEntries. total_solve. Qed.
Lemma blockListLoop_total di lbs l : total (blockListLoop di lbs l).
Proof. revert l. induction lbs as [|lb lbs IH]; intros l; cbn [blockListLoop]; total_solve. Qed.
#[export] Hint Resolve LookupEntry_total ReadAllEntries_total blockListLoop_total : total.
Lemma BlockList_total di : total (BlockList di).
Proof. rewrite /BlockList. total_solve. Qed.
#[export] Hint Resolve BlockList_total : total.

(** The value read from a healthy device. *)
Definition value {A} (m : M BlockDevice A) (d : BlockDevice) : option A :=
  match (m d).1 with Ok a => Some a | _ => None end.

Lemma value_run d (Hh : healthy d) {A} (m : M BlockDevice A) :
  keeps still m -> total m ->
  exists r, tryM m d = (Ok r, d) /\ value m d = match r with inl a => Some a | inr _ => None end.
Proof.
  intros Hs Ht. specialize (Hs d Hh). specialize (Ht d). rewrite /tryM /value.
  destruct (m d) as [[a|e|] d']; cbn [fst snd] in *; subst; [by exists (inl a)|by exists (inr e)|done].
Qed.

(** The same with its error. *)
Lemma still_run d (Hh : healthy d) {A} (m : M BlockDevice A) :
  keeps still m -> total m -> m d = ((m d).1, d) /\ (m d).1 <> Panic.
Proof. intros Hs Ht. split; [|apply Ht]. rewrite -{3}(Hs d Hh). apply surjective_pairing. Qed.
