(* ===== verification/Mutation.v ===== *)
(** * Mutation: all or nothing, [RunMutation] of [internal/fs/fs.go]

    A mutation runs on the image in memory; what it changed is collected,
    undone, and committed by one transaction.  This file proves that the disk
    has the state before the mutation or the one after it, whatever fails, and
    what a rollback restores. *)

From S2P Require Export Still.

(** ** No step of [RunMutation] panics *)

#[export] Hint Resolve WriteBlock_total WriteInode_total Sync_total Commit_total : total.

Lemma osCall_total c : total (osCall c).
Proof. intros d. rewrite /osCall. by destruct (dev_os d). Qed.
#[export] Hint Resolve osCall_total : total.
Lemma Reload_total : total Reload.
Proof. rewrite /Reload. total_solve. Qed.
Lemma ChangedBlocks_total snapshot : total (ChangedBlocks snapshot).
Proof. intros d. rewrite /ChangedBlocks. by destruct (negb _). Qed.
Lemma RestoreBlocks_total snapshot addrs : total (RestoreBlocks snapshot addrs).
Proof. rewrite /RestoreBlocks /restoreOne. total_solve. Qed.
Lemma readBlocks_total addrs : total (readBlocks addrs).
Proof. induction addrs; cbn [readBlocks]; total_solve. Qed.
Lemma ReadSuperblock_total : total ReadSuperblock.
Proof.
  rewrite /ReadSuperblock. total_solve. intros s. rewrite /decodeSuperblock. by destruct (_ <? _)%nat.
Qed.
Lemma WriteSuperblock_total sb : total (WriteSuperblock sb).
Proof. apply WriteBlock_total. Qed.
Lemma ReadBlockBitmap_total : total ReadBlockBitmap.
Proof. rewrite /ReadBlockBitmap. total_solve. Qed.
Lemma ReadInodeBitmap_total : total ReadInodeBitmap.
Proof. rewrite /ReadInodeBitmap. total_solve. Qed.
Lemma flushFn_total num data : total (flushFn num data).
Proof. rewrite /flushFn. destruct (InodeNumToBlock num). total_solve. Qed.
#[export] Hint Resolve Reload_total ChangedBlocks_total RestoreBlocks_total readBlocks_total ReadSuperblock_total
  WriteSuperblock_total ReadBlockBitmap_total ReadInodeBitmap_total flushFn_total : total.

Lemma FlushBlock_total addr : total (FlushBlock addr).
Proof. rewrite /FlushBlock /setEntry /emitCache /modCache /onCDev. total_solve. by apply total_zoom, WriteBlock_total. Qed.
Lemma FlushInode_total inum : total (FlushInode (Some flushFn) inum).
Proof.
  rewrite /FlushInode /onIDev /onIcache. total_solve.
  - by apply total_zoom, flushFn_total.
  - by apply total_zoom.
Qed.
#[export] Hint Resolve FlushBlock_total FlushInode_total : total.
Lemma FlushAll_total `{MapOrder} : total FlushAll.
Proof. rewrite /FlushAll /modCache. total_solve. Qed.
Lemma IFlushAll_total `{MapOrder} : total (IFlushAll (Some flushFn)).
Proof. rewrite /IFlushAll /onIcache. total_solve. by apply total_zoom. Qed.
#[export] Hint Resolve FlushAll_total IFlushAll_total : total.

Lemma onFsDev_total {A} (m : M BlockDevice A) : total m -> total (onFsDev m).
Proof. apply total_zoom. Qed.
Lemma onFsInodes_total {A} (m : M InodeCache A) : total m -> total (onFsInodes m).
Proof. apply total_zoom. Qed.
Lemma onFsIstate_total {A} (m : M istate A) : total m -> total (onFsIstate m).
Proof. apply total_zoom. Qed.
Lemma onFsBuf_total {A} (m : M cstate A) : total m -> total (onFsBuf m).
Proof.
  intros H f. rewrite /onFsBuf. set (c := with_cemit _ _). specialize (H (f_dev f, c)).
  by destruct (m (f_dev f, c)).
Qed.
Lemma onFsJournal_total {A} (m : M jstate A) : total m -> total (onFsJournal m).
Proof.
  intros H f. rewrite /onFsJournal. set (j := with_jmetrics _ _). specialize (H (f_dev f, j)).
  by destruct (m (f_dev f, j)).
Qed.
Lemma fsCount_total c n : total (fsCount c n).
Proof. done. Qed.
Lemma InvalidateAll_total : total InvalidateAll.
Proof. done. Qed.
Lemma IInvalidateAll_total : total IInvalidateAll.
Proof. done. Qed.
Lemma OpenTransaction_total : total OpenTransaction.
Proof. rewrite /OpenTransaction /modJournal. total_solve. Qed.
#[export] Hint Resolve onFsDev_total onFsInodes_total onFsIstate_total onFsBuf_total onFsJournal_total
  fsCount_total InvalidateAll_total IInvalidateAll_total OpenTransaction_total : total.

Section with_order.
Context {O : MapOrder}.

Lemma writeFsSb_total : total writeFsSb.
Proof. rewrite /writeFsSb. total_solve. Qed.
Lemma resetCaches_total : total resetCaches.
Proof. rewrite /resetCaches. total_solve. Qed.
#[local] Hint Resolve writeFsSb_total resetCaches_total : total.
Lemma reloadFromDevice_total : total reloadFromDevice.
Proof. rewrite /reloadFromDevice. total_solve. Qed.
#[local] Hint Resolve reloadFromDevice_total : total.
Lemma abandon_total : total abandon.
Proof. rewrite /abandon. total_solve. Qed.
#[local] Hint Resolve abandon_total : total.

Lemma logBlocks_total blocks tx : total (S := Filesystem) (liftResult (logBlocks blocks tx)).
Proof.
  intros f. revert tx. induction blocks as [|[a b] blocks IH]; intros tx; [done|]. simpl.
  rewrite /LogBlock. destruct (negb _); [done|apply IH].
Qed.
#[local] Hint Resolve logBlocks_total : total.

Lemma commitMutation_total now snapshot : total (commitMutation now snapshot).
Proof. rewrite /commitMutation. total_solve. Qed.

End with_order.

(** ** What a mutation changed *)

Definition isHome : Z -> Prop := is_home JournalStart JournalBlocks.

Lemma inJournal_home a : 0 <= a -> inJournal a = false <-> isHome a.
Proof.
  intros Ha. rewrite /inJournal /isHome /is_home. rewrite andb_false_iff Z.leb_gt Z.ltb_ge. naive_solver lia.
Qed.

(** The changed blocks outside the journal. *)
Definition homeChanges (d d2 : BlockDevice) : list Z :=
  filter (fun addr => inJournal addr = false) (Disk.changed (dev_data d) (dev_data d2)).

Definition area_same (d d2 : BlockDevice) : Prop :=
  forall off, 0 <= off < JournalBlocks -> peek d2 (JournalStart + off) = peek d (JournalStart + off).

(** The changed blocks fit in the journal after [ts], in one transaction. *)
Record journalable (ts : list JournalTransaction) (d d2 : BlockDevice) : Prop := {
  jl_area : area_same d d2;
  jl_innocent : forall a, a ∈ homeChanges d d2 -> ~ is_commit (peek d2 a);
  jl_fit : let n := Z.of_nat (length (homeChanges d d2)) in
           totalLen ts + (descriptorBlocksFor n + n + 1) <= JournalBlocks;
}.

Lemma homeChanges_spec d d2 a :
  length (dev_data d) = length (dev_data d2) ->
  a ∈ homeChanges d d2 <->
  isHome a /\ a < Z.of_nat (length (dev_data d2)) /\ dev_data d !! Z.to_nat a <> dev_data d2 !! Z.to_nat a.
Proof.
  intros Hl. rewrite /homeChanges list_elem_of_filter (elem_of_changed _ _ _ Hl). split.
  - intros (Hj & Hr & Hne). split_and!; [by apply inJournal_home; [lia|]|lia|done].
  - intros (Hh & Hr & Hne). pose proof (proj1 Hh) as H0. split_and!; [by apply inJournal_home|lia|lia|done].
Qed.

(** Undoing the changes outside the journal undoes them all. *)
Lemma undo_home d d2 :
  length (dev_data d) = length (dev_data d2) -> area_same d d2 ->
  restored (dev_data d) (homeChanges d d2) (dev_data d2) = dev_data d.
Proof.
  intros Hl Ha. apply list_eq. intros i. destruct (decide (i < length (dev_data d2))%nat) as [Hi|Hi].
  2: { rewrite !lookup_ge_None_2 ?length_restored //; lia. }
  rewrite lookup_restored //.
  { apply Forall_forall. intros a H. apply (homeChanges_spec _ _ _ Hl) in H. apply H. }
  destruct (decide (Z.of_nat i ∈ homeChanges d d2)) as [H|H]; [done|].
  destruct (decide (dev_data d !! i = dev_data d2 !! i)) as [|Hne]; [done|].
  destruct (inJournal (Z.of_nat i)) eqn:Ej.
  - unfold inJournal in Ej. apply andb_true_iff in Ej as [E1%Z.leb_le E2%Z.ltb_lt].
    specialize (Ha (Z.of_nat i - JournalStart) ltac:(lia)).
    replace (JournalStart + (Z.of_nat i - JournalStart)) with (Z.of_nat i) in Ha by lia.
    rewrite /peek Nat2Z.id in Ha.
    destruct (lookup_lt_is_Some_2 (dev_data d) i) as [x Hx]; [lia|].
    destruct (lookup_lt_is_Some_2 (dev_data d2) i) as [y Hy]; [lia|].
    rewrite Hx Hy /= in Ha |- *. by f_equal.
  - destruct H. apply homeChanges_spec; [done|]. rewrite Nat2Z.id. split_and!; [|lia|done].
    apply inJournal_home; [lia|done].
Qed.

Lemma unchanged_home d d2 a :
  length (dev_data d) = length (dev_data d2) -> isHome a -> a ∉ homeChanges d d2 -> peek d2 a = peek d a.
Proof.
  intros Hl Ha Hn. rewrite homeChanges_spec // in Hn. rewrite /peek.
  destruct (decide (dev_data d !! Z.to_nat a = dev_data d2 !! Z.to_nat a)) as [->|Hne]; [done|].
  destruct (decide (a < Z.of_nat (length (dev_data d2)))) as [H|H]; [by destruct Hn|].
  rewrite !lookup_ge_None_2 //; lia.
Qed.

(** ** The blocks of the transaction *)

Definition finalOf (d : BlockDevice) (addrs : list Z) : list (Z * block) := (fun a => (a, peek d a)) <$> addrs.
Definition txOf (blocks : list (Z * block)) : list txBlock := (fun p => mkTxBlock p.1 p.2) <$> blocks.

(** Reading leaves the image alone. *)
Definition sameData (d d' : BlockDevice) : Prop := unsynced d d' /\ dev_data d' = dev_data d.

#[export] Instance sameData_preorder : PreOrder sameData.
Proof.
  split; [by intros d|]. intros a b c [U1 E1] [U2 E2]. split; [exact (transitivity U1 U2)|congruence].
Qed.

Lemma ReadBlock_sameData a : keeps sameData (ReadBlock a).
Proof.
  rewrite /ReadBlock. assert (keeps sameData (checkFault (mkOperation "read" a))) as Hc.
  { apply checkFault_keeps; [apply _|]. intros d. split; [apply tick_only|done]. }
  apply keeps_bind; [apply _|exact Hc|]. intros _. apply keeps_bind; [apply _|apply keeps_gets, _|]. intros n.
  apply keeps_bind; [apply _|apply keeps_failIf, _|]. intros _. apply keeps_gets, _.
Qed.

Lemma readBlocks_Ok addrs d :
  match readBlocks addrs d with
  | (Ok l, d') => l = finalOf d addrs /\ sameData d d'
  | (_, d') => sameData d d'
  end.
Proof.
  revert d. induction addrs as [|a addrs IH]; intros d; [done|]. cbn [readBlocks].
  pose proof (ReadBlock_sameData a d) as H1. pose proof (ReadBlock_cases a d) as H2.
  destruct (ReadBlock a d) as [[b|e|] d1] eqn:E; rewrite /mbind /M_bind E; [|done|done].
  destruct H2 as (_ & _ & ->). cbn [snd] in H1. specialize (IH d1).
  destruct (readBlocks addrs d1) as [[l|e|] d2]; cbn [snd] in *; [|exact (transitivity H1 IH)..].
  destruct IH as [-> H3]. split; [|exact (transitivity H1 H3)]. rewrite /finalOf fmap_cons. f_equal.
  apply list_fmap_ext. intros i x _. f_equal. apply peek_same. by destruct H1 as [_ ->].
Qed.

Lemma logBlocks_Ok blocks tx tx' :
  logBlocks blocks tx = Ok tx' ->
  t_sequence tx' = t_sequence tx /\ t_blocks tx' = t_blocks tx ++ txOf blocks.
Proof.
  revert tx. induction blocks as [|[a b] blocks IH]; intros tx; simpl.
  - intros [= ->]. by rewrite app_nil_r.
  - rewrite /LogBlock. destruct (negb _); [done|]. intros [E1 E2]%IH. split; [done|].
    by rewrite E2 /= -app_assoc.
Qed.

Lemma lastWrite_final d addrs a :
  lastWrite (txOf (finalOf d addrs)) a = if decide (a ∈ addrs) then Some (peek d a) else None.
Proof.
  rewrite /txOf /finalOf -list_fmap_compose. induction addrs as [|x addrs IH]; [done|].
  rewrite fmap_cons lastWrite_cons IH /=. destruct (decide (a ∈ addrs)) as [H|H].
  - rewrite decide_True //. set_solver.
  - destruct (decide (x = a)) as [->|Hne]; [rewrite decide_True //; set_solver|rewrite decide_False //; set_solver].
Qed.

(** ** States between mutations *)

(** The file is the image, the journal holds [ts] and nothing else that
    recovery would replay. *)
Record settled (ts : list JournalTransaction) (f : Filesystem) : Prop := {
  st_jinv : jinv ts (f_dev f, fs_journal f);
  st_area : j_start (fs_journal f) = JournalStart /\ j_length (fs_journal f) = JournalBlocks;
  st_mutating : fs_mutating f = false;
}.

(** A crash in [f'] and the recovery at the next mount find the home blocks of
    the device [d]. *)
Definition recovers (f f' : Filesystem) (d : BlockDevice) : Prop :=
  recovers_to (fs_journal f) (crash (f_dev f')) d.

Lemma jinv_ext ts d j d' j' :
  jinv ts (d, j) -> wf_dev d' -> dev_size d' = dev_size d -> dev_data d' = dev_data d -> dev_file d' = dev_file d ->
  jpos j' = jpos j -> jinv ts (d', j').
Proof.
  intros [Hw Hf Hg Ht Ha Hh [R1 R2] Hr] Hw' Hs Hd Hfile [= J1 J2 J3]. cbn [fst snd] in *.
  assert (BlockCount d' = BlockCount d) as HB by by rewrite /BlockCount Hs.
  assert (forall a, peek d' a = peek d a) as Hp by (intros a; by rewrite /peek Hd).
  assert (crash d' = crash d) as Hc by by rewrite /crash Hs Hfile.
  split; cbn [fst snd]; rewrite ?J1 ?J2 ?J3 ?HB ?Hc //; [congruence| | |].
  - apply (holds_same _ _ _ _ Ha). intros i _. apply Hp.
  - split; intros; rewrite Hp; auto.
  - intros a H0. rewrite Hp. by apply Hr.
Qed.

Lemma recovers_crash f f' f'' d :
  unsynced (f_dev f') (f_dev f'') -> recovers f f' d -> recovers f f'' d.
Proof.
  intros [[Hs _ _] Hf _]. rewrite /recovers. by replace (crash (f_dev f'')) with (crash (f_dev f')) by by rewrite /crash Hs Hf.
Qed.

Lemma recovers_old ts f f' :
  settled ts f -> dev_file (f_dev f') = dev_file (f_dev f) -> dev_size (f_dev f') = dev_size (f_dev f) ->
  recovers f f' (f_dev f).
Proof. intros [Hj _ _] Hfile Hs. by apply (crash_unchanged ts). Qed.

Lemma settled_count ts f : settled ts f -> JournalStart + JournalBlocks <= BlockCount (f_dev f) < 2 ^ 31.
Proof. intros [[_ _ [_ _ _ He Hb] _ _ _ _ _] [E1 E2] _]. cbn [fst snd] in *. rewrite E1 E2 in He. split; [exact He|exact Hb]. Qed.

Lemma recovers_target f f' d d' :
  (forall a, is_home (j_start (fs_journal f)) (j_length (fs_journal f)) a -> peek d' a = peek d a) ->
  recovers f f' d -> recovers f f' d'.
Proof.
  intros Hp H h. destruct (H h) as (d2 & h' & E & Hd). exists d2, h'. split; [done|].
  intros a Ha. by rewrite Hd // Hp.
Qed.

Lemma recovers_to_ext j j' d d' : jpos j = jpos j' -> recovers_to j d d' -> recovers_to j' d d'.
Proof. rewrite /recovers_to. by intros [= -> -> _]. Qed.

(** A transaction stays in the area of its journal. *)
Definition jarea (s s' : jstate) : Prop := j_start s'.2 = j_start s.2 /\ j_length s'.2 = j_length s.2.

#[export] Instance jarea_preorder : PreOrder jarea.
Proof. split; [by split|]. intros a b c [? ?] [? ?]. split; congruence. Qed.

Lemma onDisk_area {A} (m : M BlockDevice A) : keeps jarea (onDisk m).
Proof. intros s. rewrite /onDisk /zoom. by destruct (m s.1). Qed.
Lemma modJournal_area f :
  (forall j, j_start (f j) = j_start j /\ j_length (f j) = j_length j) -> keeps jarea (modJournal f).
Proof. intros H. apply keeps_modify; [apply _|]. intros s. apply H. Qed.
#[export] Hint Resolve onDisk_area : quiet.
#[export] Hint Extern 1 (keeps jarea (modJournal _)) => by apply modJournal_area : quiet.

Lemma writeJournalBlock_area off b : keeps jarea (writeJournalBlock off b).
Proof. rewrite /writeJournalBlock. quiet_solve. Qed.
#[export] Hint Resolve writeJournalBlock_area : quiet.
Lemma writeDescriptors_area n i off seq total rest : keeps jarea (writeDescriptors n i off seq total rest).
Proof. revert i rest. induction n as [|n IH]; intros i rest; cbn [writeDescriptors]; quiet_solve. Qed.
Lemma writeData_area i off crc blocks : keeps jarea (writeData i off crc blocks).
Proof. revert i crc. induction blocks as [|b blocks IH]; intros i crc; cbn [writeData]; quiet_solve. Qed.
Lemma allocBlocks_area n : keeps jarea (allocBlocks n).
Proof. rewrite /allocBlocks. quiet_solve. apply modJournal_area. intros j. by destruct (_ <? _). Qed.
#[export] Hint Resolve writeDescriptors_area writeData_area allocBlocks_area : quiet.
Lemma Commit_area now t : keeps jarea (Commit now t).
Proof. rewrite /Commit /logTransaction /writeHome. quiet_solve. Qed.

(** ** Running a component in the file system *)

Lemma put_dev_same f : put_dev (f_dev f) f = f.
Proof. by destruct f as [[] ? ? ? ? ? ? ? ?]. Qed.

Lemma onFsDev_run {A} (m : M BlockDevice A) f : onFsDev m f = ((m (f_dev f)).1, put_dev (m (f_dev f)).2 f).
Proof. rewrite /onFsDev /zoom. by destruct (m (f_dev f)). Qed.

Lemma onFsJournal_run {A} (m : M jstate A) f :
  exists j r s f', jpos j = jpos (fs_journal f) /\ m (f_dev f, j) = (r, s) /\ onFsJournal m f = (r, f') /\
    f_dev f' = s.1 /\ jpos (fs_journal f') = jpos s.2 /\ fs_mutating f' = fs_mutating f.
Proof.
  rewrite /onFsJournal. set (j := with_jmetrics _ _). exists j.
  destruct (m (f_dev f, j)) as [r s]. do 3 eexists. split_and!; [done|done|done|..].
  all: match goal with |- context [forward ?a ?b ?c] => destruct (same_core_forward a b c) as (E1 & E2 & E3) end.
  - by rewrite E1.
  - by rewrite E2.
  - by rewrite E3.
Qed.

(** An operation, and what handles its error. *)
Lemma onErr_run {S A} (m : M S A) h s :
  total m ->
  (exists a, onErr m h s = (Ok a, (m s).2) /\ m s = (Ok a, (m s).2)) \/
  (exists e, onErr m h s = h e (m s).2 /\ m s = (Err e, (m s).2)).
Proof.
  intros Ht. specialize (Ht s). rewrite /onErr. destruct (m s) as [[a|e|] s']; [left|right|done]; eauto.
Qed.

Section commit.
Context {O : MapOrder}.

Lemma abandon_calm : keeps calm abandon.
Proof.
  rewrite /abandon /reloadFromDevice /resetCaches. quiet_solve. apply keeps_modify; [apply _|].
  intros f. by apply same_core_calm.
Qed.
Lemma writeFsSb_calm : keeps calm writeFsSb.
Proof. rewrite /writeFsSb. quiet_solve. Qed.

(** [commitMutation] after the flushes. *)
Definition commitChanges (now : Z) (snapshot : list block) : M Filesystem unit :=
  changed ← onFsDev (ChangedBlocks snapshot);
  let changed := filter (fun addr => inJournal addr = false) changed in
  match changed with
  | [] => onFsDev Sync
  | _ =>
      finalBlocks ← onFsDev (readBlocks changed);
      onFsDev (RestoreBlocks snapshot changed) ;;
      tx ← onFsJournal OpenTransaction;
      tx ← onErr (liftResult (logBlocks finalBlocks tx)) (fun err => abandon ;; throw err);
      onErr (onFsJournal (Commit now tx)) (fun err => abandon ;; throw err)
  end.

(** The flushes of the caches and of the superblock: what the mutation has
    made of the image. *)
Definition flushMutation : M Filesystem unit :=
  onFsIstate (IFlushAll (Some flushFn)) ;;
  onFsBuf FlushAll ;;
  writeFsSb.

(** The outcome of a commit of the changes between [f] and [f2]. *)
Record committed_as (ts : list JournalTransaction) (f f2 f' : Filesystem) : Prop := {
  ca_recovers : recovers f f' (f_dev f2);
  ca_image : forall a, isHome a -> peek (f_dev f') a = peek (f_dev f2) a;
  ca_settled : exists ts', settled ts' f';
}.
Definition aborted (f f2 f' : Filesystem) : Prop := recovers f f' (f_dev f) \/ recovers f f' (f_dev f2).

Section changes.
Context (ts : list JournalTransaction) (f f2 : Filesystem).
Hypothesis (Hf : settled ts f) (Hc : calm f f2) (Hj : journalable ts (f_dev f) (f_dev f2)).

Lemma changes_wf : wf_dev (f_dev f) /\ wf_dev (f_dev f2) /\ dev_size (f_dev f2) = dev_size (f_dev f) /\
  length (dev_data (f_dev f)) = length (dev_data (f_dev f2)) /\ dev_file (f_dev f2) = dev_data (f_dev f).
Proof.
  destruct Hf as [[Hw Hfile _ _ _ _ _ _] _ _], Hc as [[[Hs _ Hw2] Hf2 _] _ _]. cbn [fst snd] in *.
  specialize (Hw2 Hw). split_and!; [done|done|done| |congruence].
  apply Nat2Z.inj. rewrite -!wf_BlockCount //. by rewrite /BlockCount Hs.
Qed.

(** Nothing changed outside the journal. *)
Lemma no_changes :
  homeChanges (f_dev f) (f_dev f2) = [] ->
  match onFsDev Sync f2 with
  | (Ok _, f') => committed_as ts f f2 f'
  | (Err _, f') => aborted f f2 f'
  | (Panic, _) => False
  end.
Proof.
  intros Hn. destruct changes_wf as (Hw & Hw2 & Hs & Hl & Hfile).
  pose proof (undo_home _ _ Hl (jl_area _ _ _ Hj)) as Hu. rewrite Hn /restored /= in Hu.
  rewrite onFsDev_run. pose proof (Sync_cases (f_dev f2)) as HS. pose proof (Sync_evol (f_dev f2)) as [Hs' _ Hw'].
  specialize (Hw' Hw2). pose proof (do_file _ _ _ (cm_dev _ _ Hc)) as Hff.
  destruct (Sync (f_dev f2)) as [[[]|e|] d']; cbn [fst snd] in *; [| |done].
  - destruct HS as (Hd' & _ & Hf'). assert (dev_file d' = dev_file (f_dev f2)) as Hfd.
    { rewrite Hf'. destruct (dev_dirty _); congruence. }
    split.
    + apply (recovers_target _ _ (f_dev f)); [intros a _; by rewrite /peek Hu|].
      apply (recovers_old ts); [done|cbn; congruence|cbn; congruence].
    + intros a _. by rewrite /peek /= Hd'.
    + exists ts. destruct Hf as [H1 H2 H3]. split.
      * apply (jinv_ext _ _ _ _ _ H1); cbn; [done|congruence..|apply Hc].
      * destruct Hc as [_ [= E1 E2 _] _]. cbn. by rewrite E1 E2.
      * destruct Hc as [_ _ E]. cbn. by rewrite E.
  - left. destruct HS as (_ & _ & k & Hk). apply (recovers_old ts); [done| |cbn; congruence].
    cbn. rewrite Hk Hu Hfile take_drop. congruence.
Qed.

(** A state where the changes are undone, before the transaction. *)
Record undone (f4 : Filesystem) : Prop := {
  ud_wf : wf_dev (f_dev f4);
  ud_size : dev_size (f_dev f4) = dev_size (f_dev f);
  ud_data : dev_data (f_dev f4) = dev_data (f_dev f);
  ud_file : dev_file (f_dev f4) = dev_file (f_dev f);
  ud_journal : jpos (fs_journal f4) = jpos (fs_journal f);
  ud_mutating : fs_mutating f4 = false;
}.

Abbreviation addrs := (homeChanges (f_dev f) (f_dev f2)).
Abbreviation blocks := (txOf (finalOf (f_dev f2) addrs)).

Lemma blocks_loggable seq :
  is_u32 seq -> addrs <> [] ->
  loggable JournalStart JournalBlocks (BlockCount (f_dev f)) (mkTransaction seq blocks) /\
  innocent (mkTransaction seq blocks) /\
  totalLen ts + txLen (mkTransaction seq blocks) <= JournalBlocks.
Proof.
  intros Hseq Hne. destruct changes_wf as (Hw & Hw2 & Hs & Hl & _). destruct Hj as [_ Hi Hfit].
  assert (length blocks = length addrs) as HL by by rewrite /txOf /finalOf !length_fmap.
  assert (forall tb, tb ∈ blocks -> exists a, a ∈ addrs /\ tb = mkTxBlock a (peek (f_dev f2) a)) as Hin.
  { intros tb H. rewrite /txOf /finalOf -list_fmap_compose in H. apply list_elem_of_fmap in H as (a & -> & Ha).
    by exists a. }
  assert (0 < Z.of_nat (length addrs)) as Hpos by (destruct addrs; [done|simpl; lia]).
  pose proof (totalLen_nonneg ts). destruct (settled_count ts f Hf) as [HB1 HB2].
  pose proof (wf_BlockCount _ Hw) as HBC.
  assert (Recovery.numBlocks (mkTransaction seq blocks) = Z.of_nat (length addrs)) as HN by by rewrite /Recovery.numBlocks /= HL.
  destruct (numDescs_facts (mkTransaction seq blocks) ltac:(lia)) as [HD _]. cbn zeta in Hfit.
  rewrite /numDescs HN in HD.
  assert (forall a, a ∈ addrs -> isHome a /\ a < BlockCount (f_dev f)) as Hr.
  { intros a Ha. apply (homeChanges_spec _ _ _ Hl) in Ha as (? & ? & _). rewrite HBC Hl. done. }
  split_and!; [split; [split|]| |].
  - done.
  - rewrite HN. unfold JournalBlocks in *. lia.
  - apply Forall_forall. intros tb (a & Ha & ->)%Hin. split; [|by apply wf_peek].
    destruct (Hr a Ha) as [[] ?]. cbn. unfold is_u32. lia.
  - apply Forall_forall. intros tb (a & Ha & ->)%Hin. destruct (Hr a Ha).
    split_and!; [done|done|by apply wf_peek].
  - apply Forall_forall. intros tb (a & Ha & ->)%Hin. by apply Hi.
  - rewrite /txLen /numDescs HN. lia.
Qed.

Lemma commit_transaction seq now f4 :
  undone f4 -> is_u32 seq -> addrs <> [] ->
  match onErr (onFsJournal (Commit now (mkTransaction seq blocks))) (fun err => abandon ;; throw err) f4 with
  | (Ok _, f') => committed_as ts f f2 f'
  | (Err _, f') => aborted f f2 f'
  | (Panic, _) => False
  end.
Proof.
  intros [Uw Us Ud Uf Uj Um] Hseq Hne. destruct changes_wf as (Hw & Hw2 & Hs & Hl & Hfile).
  destruct (blocks_loggable seq Hseq Hne) as (Hlog & Hinn & Hfit). set (t := mkTransaction seq blocks) in *.
  destruct (onFsJournal_run (Commit now t) f4) as (j & r & s & f5 & J1 & E1 & E2 & D & J2 & M2).
  pose proof Hf as [Hji [Hst Hln] Hmut].
  assert (jinv ts (f_dev f4, j)) as Hj4 by (apply (jinv_ext _ _ _ _ _ Hji); congruence).
  assert (jpos j = jpos (fs_journal f)) as [= P1 P2 P3] by congruence.
  assert (BlockCount (f_dev f4) = BlockCount (f_dev f)) as HB by by rewrite /BlockCount Us.
  pose proof (Commit_phases ts t now (f_dev f4, j) Hj4) as HP. rewrite E1 /= P1 P2 Hst Hln HB in HP.
  specialize (HP Hlog Hinn Hfit).
  assert (forall a, isHome a -> peek (applyBlocks (t_blocks t) (f_dev f4)) a = peek (f_dev f2) a) as Htarget.
  { intros a Ha. pose proof (proj2 Hlog) as Hb. rewrite -HB in Hb.
    rewrite (peek_applyBlocks JournalStart JournalBlocks _ _ _ Uw Hb (proj1 Ha)) /t /= lastWrite_final.
    destruct (decide (a ∈ addrs)) as [H|H]; [done|]. cbn [default].
    rewrite (unchanged_home _ _ _ Hl Ha H). by apply peek_same; rewrite Ud. }
  assert (forall d, recovers_to j (crash s.1) d -> recovers f f5 d) as Hrec.
  { intros d H. rewrite /recovers D. apply (recovers_to_ext j); [congruence|done]. }
  assert (recovers f f5 (applyBlocks (t_blocks t) (f_dev f4)) -> recovers f f5 (f_dev f2)) as Hnew.
  { apply recovers_target. intros a Ha. rewrite Hst Hln in Ha. by rewrite Htarget. }
  rewrite /onErr E2. destruct r as [[]|e|]; [| |done].
  - destruct HP as (HR%Hrec & Hnext & Himg). split; [by apply Hnew| |].
    + intros a Ha. rewrite -Htarget // D. apply Himg. by rewrite P1 P2 Hst Hln.
    + exists (ts ++ [t]). destruct s as [ds js]. cbn [fst snd] in *. split.
      * apply (jinv_ext _ ds js); [done|rewrite D; apply Hnext|congruence..].
      * pose proof (Commit_area now t (f_dev f4, j)) as [A1 A2]. rewrite E1 /= in A1 A2.
        injection J2 as -> -> _. by rewrite A1 A2 P1 P2.
      * congruence.
  - assert (aborted f f2 f5) as HA.
    { destruct HP as [HP%Hrec|HP%Hrec]; [left|right; by apply Hnew].
      revert HP. apply recovers_target. intros a _. by apply peek_same; rewrite Ud. }
    rewrite /mbind /M_bind. pose proof (abandon_calm f5) as [HU _ _]. pose proof (abandon_total f5) as HT.
    destruct (abandon f5) as [[[]|e'|] f6]; [| |done]; cbn [snd] in HU.
    + destruct HA; [left|right]; by apply (recovers_crash f f5).
    + destruct HA; [left|right]; by apply (recovers_crash f f5).
Qed.

(** The changes are collected, undone and committed. *)
Lemma some_changes now :
  addrs <> [] ->
  match
    (finalBlocks ← onFsDev (readBlocks addrs);
     onFsDev (RestoreBlocks (dev_data (f_dev f)) addrs) ;;
     tx ← onFsJournal OpenTransaction;
     tx ← onErr (liftResult (logBlocks finalBlocks tx)) (fun err => abandon ;; throw err);
     onErr (onFsJournal (Commit now tx)) (fun err => abandon ;; throw err)) f2
  with
  | (Ok _, f') => committed_as ts f f2 f'
  | (Err _, f') => aborted f f2 f'
  | (Panic, _) => False
  end.
Proof.
  intros Hne. destruct changes_wf as (Hw & Hw2 & Hs & Hl & Hfile).
  assert (dev_file (f_dev f2) = dev_file (f_dev f)) as Hff by apply Hc.
  pose proof (readBlocks_Ok addrs (f_dev f2)) as HR. pose proof (readBlocks_total addrs (f_dev f2)) as HT.
  rewrite {1}/mbind {1}/M_bind onFsDev_run.
  destruct (readBlocks addrs (f_dev f2)) as [[l|e|] d2] eqn:ER; cbn [fst snd] in *; [| |done].
  2: { destruct HR as [[[Hs2 _ _] Hf2 _] _]. left. apply (recovers_old ts); [done|cbn; congruence..]. }
  destruct HR as [-> [[[Hs2 _ Hwf2] Hf2 _] Hd2]]. specialize (Hwf2 Hw2).
  rewrite {1}/mbind {1}/M_bind onFsDev_run. change (f_dev (put_dev d2 f2)) with d2.
  assert (Forall (fun a => a < BlockCount d2) addrs) as Hlt.
  { apply Forall_forall. intros a Ha. apply (homeChanges_spec _ _ _ Hl) in Ha as (_ & ? & _).
    by rewrite wf_BlockCount // Hd2. }
  assert (length (dev_data (f_dev f)) = length (dev_data d2)) as Hl2 by congruence.
  rewrite (RestoreBlocks_ok _ _ _ Hl2 Hlt) Hd2 (undo_home _ _ Hl (jl_area _ _ _ Hj)).
  cbn [fst snd]. set (f3 := put_dev _ _).
  rewrite {1}/mbind {1}/M_bind.
  destruct (onFsJournal_run OpenTransaction f3) as (j & r & s & f4 & J1 & E1 & E2 & D & J2 & M2). rewrite E2.
  injection E1 as <- <-. cbn [fst snd] in D, J2.
  assert (undone f4) as Hu.
  { destruct Hc as [_ Jc Mc]. split; rewrite ?D; cbn; try congruence; [|by rewrite J2 -Jc -J1|].
    - destruct Hwf2 as [(n & Hn & Hsz & Hi1 & Hi2)]. constructor. exists n. cbn.
      do 2 (split; [done|]). split; [split; [|by apply wf_blocks]|done]. rewrite Hl2. apply Hi1.
    - rewrite M2 /= Mc. apply Hf. }
  set (t0 := mkTransaction (j_sequence (with_sequence (u32 (j_sequence j + 1)) j)) []).
  rewrite /mbind /M_bind.
  destruct (onErr_run (liftResult (logBlocks (finalOf (f_dev f2) addrs) t0)) (fun err => abandon ;; throw err) f4
    ltac:(apply logBlocks_total)) as [(t & E3 & E4)|(e & E3 & E4)]; rewrite E3.
  - destruct (logBlocks_Ok _ _ _ (f_equal fst E4)) as [Ht1 Ht2].
    replace t with (mkTransaction (t_sequence t0) blocks) by (destruct t; cbn in *; congruence).
    apply commit_transaction; [exact Hu| |done]. cbn. unfold is_u32. apply u32_range.
  - cbn [snd liftResult]. pose proof (abandon_calm f4) as [HU _ _]. pose proof (abandon_total f4) as HTa.
    destruct Hu as [_ Us _ Uf _ _]. destruct HU as [[Hs6 _ _] Hf6 _].
    rewrite /mbind /M_bind. destruct (abandon f4) as [[[]|e'|] f6]; cbn [snd fst] in *; [| |done].
    all: left; apply (recovers_old ts); [done|congruence..].
Qed.

End changes.
(** A flush, whose error ends the mutation. *)
Lemma flush_step (m : M Filesystem unit) h (k : M Filesystem unit) f g :
  total m -> keeps calm m -> (forall e, keeps calm (h e)) ->
  (forall e g, exists e', (h e g).1 = Err (A := unit) e') -> calm f g ->
  (exists g', m g = (Ok tt, g') /\ calm f g' /\ (onErr m h ;; k) g = k g') \/
  (exists e g', (onErr m h ;; k) g = (Err e, g') /\ calm f g').
Proof.
  intros Ht Hm Hh Hthrow Hc. specialize (Hm g).
  destruct (onErr_run m h g Ht) as [([] & E1 & E2)|(e & E1 & E2)]; rewrite /mbind /M_bind E1.
  - left. exists (m g).2. split_and!; [done|exact (transitivity Hc Hm)|done].
  - right. destruct (Hthrow e (m g).2) as [e' Ee]. pose proof (Hh e (m g).2) as H2.
    destruct (h e (m g).2) as [r g']. cbn [fst snd] in *. subst r. exists e', g'. split; [done|].
    exact (transitivity Hc (transitivity Hm H2)).
Qed.

Lemma abandon_throws err g : exists e, ((abandon ;; throw (A := unit) err) g).1 = Err e.
Proof. rewrite /mbind /M_bind. pose proof (abandon_total g). destruct (abandon g) as [[[]|e|] g']; [by exists err|by exists e|done]. Qed.

Lemma abandon_throw_calm err : keeps calm (abandon ;; throw (A := unit) err).
Proof. apply keeps_bind; [apply _|apply abandon_calm|]. intros _. apply keeps_throw, _. Qed.

(** What the three flushes do, one after the other. *)
Definition flushed (m k : M Filesystem unit) (f g : Filesystem) (o : result unit * Filesystem) : Prop :=
  (exists g', m g = (Ok tt, g') /\ calm f g' /\ o = k g') \/ (exists e g', o = (Err e, g') /\ calm f g').

Lemma flush_counted m k f g :
  total m -> keeps calm m -> calm f g ->
  flushed m k f g ((onErr m (fun err => fsCount CacheFlushErrors 1 ;; abandon ;; throw err) ;; k) g).
Proof.
  intros Ht Hm Hc. apply flush_step; [done|done| | |done].
  - intros e. apply keeps_bind; [apply _|apply fsCount_calm|]. intros _. apply abandon_throw_calm.
  - intros e g'. apply abandon_throws.
Qed.
Lemma flush_sb k f g :
  calm f g -> flushed writeFsSb k f g ((onErr writeFsSb (fun err => abandon ;; throw err) ;; k) g).
Proof.
  intros Hc. apply flush_step; [apply writeFsSb_total|apply writeFsSb_calm| | |done].
  - intros e. apply abandon_throw_calm.
  - intros e g'. apply abandon_throws.
Qed.

Lemma commitMutation_spec ts f f1 now :
  settled ts f -> calm f f1 ->
  (forall f2, flushMutation f1 = (Ok tt, f2) -> journalable ts (f_dev f) (f_dev f2)) ->
  match commitMutation now (dev_data (f_dev f)) f1 with
  | (Ok _, f') => exists f2, flushMutation f1 = (Ok tt, f2) /\ committed_as ts f f2 f'
  | (Err _, f') => recovers f f' (f_dev f) \/ exists f2, flushMutation f1 = (Ok tt, f2) /\ recovers f f' (f_dev f2)
  | (Panic, _) => False
  end.
Proof.
  intros Hf Hc1 Hj.
  assert (forall g, calm f g -> recovers f g (f_dev f)) as Hold.
  { intros g [[[Hs _ _] Hfile _] _ _]. by apply (recovers_old ts). }
  set (k3 := onErr writeFsSb (fun err => abandon ;; throw err) ;; commitChanges now (dev_data (f_dev f))).
  set (k2 := onErr (onFsBuf FlushAll) (fun err => fsCount CacheFlushErrors 1 ;; abandon ;; throw err) ;; k3).
  change (commitMutation now (dev_data (f_dev f)) f1) with ((onErr (onFsIstate (IFlushAll (Some flushFn)))
    (fun err => fsCount CacheFlushErrors 1 ;; abandon ;; throw err) ;; k2) f1).
  destruct (flush_counted (onFsIstate (IFlushAll (Some flushFn))) k2 f f1)
    as [(g1 & E1 & C1 & ->)|(e & g1 & -> & C1)];
    [apply onFsIstate_total, IFlushAll_total|apply onFsIstate_calm, IFlushAll_quiet|done| |left; by apply Hold].
  rewrite /k2. destruct (flush_counted (onFsBuf FlushAll) k3 f g1) as [(g2 & E2 & C2 & ->)|(e & g2 & -> & C2)];
    [apply onFsBuf_total, FlushAll_total|apply onFsBuf_calm, FlushAll_quiet|done| |left; by apply Hold].
  rewrite /k3. destruct (flush_sb (commitChanges now (dev_data (f_dev f))) f g2 C2)
    as [(f2 & E3 & C3 & ->)|(e & g3 & -> & C3)]; [|left; by apply Hold].
  assert (flushMutation f1 = (Ok tt, f2)) as Hfl.
  { by rewrite /flushMutation (bind_ok _ _ _ _ _ E1) (bind_ok _ _ _ _ _ E2). }
  specialize (Hj f2 Hfl).
  assert (match commitChanges now (dev_data (f_dev f)) f2 with
          | (Ok _, f') => committed_as ts f f2 f' | (Err _, f') => aborted f f2 f' | (Panic, _) => False end) as HC.
  { destruct (changes_wf ts f f2 Hf C3 Hj) as (_ & _ & _ & Hl & _).
    rewrite /commitChanges /mbind /M_bind onFsDev_run ChangedBlocks_ok // put_dev_same. cbn [fst snd].
    fold (homeChanges (f_dev f) (f_dev f2)). destruct (homeChanges (f_dev f) (f_dev f2)) as [|a l] eqn:En.
    - by apply no_changes.
    - rewrite -En. apply some_changes; [done..|]. by rewrite En. }
  destruct (commitChanges _ _ f2) as [[[]|e|] f']; [by exists f2| |done].
  destruct HC as [HC|HC]; [by left|right]. by exists f2.
Qed.

(** ** [RunMutation] *)

(** A function run by [RunMutation], from a file system that is not mutating. *)
Lemma run_calm {A} (fn : M Filesystem A) f :
  keeps mutstep fn -> fs_mutating f = false -> calm f (with_mutating false (fn (with_mutating true f)).2).
Proof.
  intros Hfn Hm. destruct (Hfn (with_mutating true f) eq_refl) as [HD HJ _].
  split; [exact HD|exact HJ|]. by rewrite Hm.
Qed.

Lemma tryM_run {S A} (m : M S A) s :
  tryM m s = (match (m s).1 with Ok a => Ok (inl a) | Err e => Ok (inr e) | Panic => Panic end, (m s).2).
Proof. rewrite /tryM. by destruct (m s) as [[]]. Qed.

Lemma rollback_calm {A} sb err : keeps calm (rollback (A := A) sb err).
Proof.
  rewrite /rollback /reloadFromDevice /resetCaches. quiet_solve; (apply keeps_modify; [apply _|]; intros f; by apply same_core_calm).
Qed.

(** The restoration of the last synchronised state. *)
Definition restore (sb : DiskSuperblock) : M Filesystem unit :=
  onFsDev Reload ;; modify (with_ownSb (Some sb)) ;; reloadFromDevice.

Lemma restore_total sb : total (restore sb).
Proof.
  rewrite /restore. apply total_bind; [apply onFsDev_total, Reload_total|]. intros _.
  apply total_bind; [done|]. intros _. apply reloadFromDevice_total.
Qed.

(** The state in which [rollback] restores. *)
Definition noted_failure (err : error) (f : Filesystem) : Filesystem :=
  sendEvent (mkEvent EventMutationRollback EventSourceFS [] [] (Some err))
    (put_metrics (Metrics.Add MutationRollbacks 1 <$> f_metrics f) f).

Lemma rollback_run {A} sb err f :
  rollback (A := A) sb err f =
  (match (restore sb (noted_failure err f)).1 with
   | Ok _ => Err err
   | Err e => Err (Wrapf "mutation failed (%v); rollback failed: %w" [] e)
   | Panic => Panic
   end, (restore sb (noted_failure err f)).2).
Proof.
  rewrite /rollback /fsCount !bind_modify -/(restore sb) -/(noted_failure err f).
  rewrite {1}/mbind {1}/M_bind tryM_run. by destruct (restore sb _) as [[]].
Qed.

Lemma rollback_throws {A} sb err f : exists e, (rollback (A := A) sb err f).1 = Err e.
Proof.
  rewrite rollback_run. pose proof (restore_total sb (noted_failure err f)).
  destruct (restore _ _) as [[]]; [by eexists|by eexists|done].
Qed.

(** The mutation succeeded with [a]; its changes are those of [f2]. *)
Definition outcome {A} (fn : M Filesystem A) (f : Filesystem) (a : A) (f2 : Filesystem) : Prop :=
  exists f1, fn (with_mutating true f) = (Ok a, f1) /\ flushMutation (with_mutating false f1) = (Ok tt, f2).

Lemma RunMutation_spec {A} ts now (fn : M Filesystem A) f :
  settled ts f -> keeps mutstep fn ->
  (forall a f2, outcome fn f a f2 -> journalable ts (f_dev f) (f_dev f2)) ->
  match RunMutation now fn f with
  | (Ok a, f') => exists f2, outcome fn f a f2 /\ committed_as ts f f2 f'
  | (Err _, f') => recovers f f' (f_dev f) \/ exists a f2, outcome fn f a f2 /\ recovers f f' (f_dev f2)
  | (Panic, _) => (fn (with_mutating true f)).1 = Panic
  end.
Proof.
  intros Hf Hfn Hj. pose proof (run_calm fn f Hfn (st_mutating _ _ Hf)) as HC.
  rewrite /RunMutation !bind_gets bind_modify. rewrite {1}/mbind {1}/M_bind tryM_run.
  destruct (fn (with_mutating true f)) as [[a|err|] f1] eqn:E; cbn [fst snd] in *; [| |done]; rewrite bind_modify.
  - pose proof (commitMutation_spec ts f (with_mutating false f1) now Hf HC
      (fun f2 H => Hj a f2 (ex_intro _ f1 (conj E H)))) as HM.
    rewrite /Snapshot /mbind /M_bind. destruct (commitMutation _ _ _) as [[[]|e|] f'].
    + destruct HM as (f2 & H1 & H2). exists f2. split; [by exists f1|done].
    + destruct HM as [HM|(f2 & H1 & H2)]; [by left|right]. exists a, f2. split; [by exists f1|done].
    + done.
  - pose proof (rollback_calm (A := A) (f_sb f) err (with_mutating false f1)) as HR.
    pose proof (rollback_throws (A := A) (f_sb f) err (with_mutating false f1)) as [e Er].
    destruct (rollback _ _ _) as [r f']. cbn [fst snd] in *. subst r. left.
    pose proof (transitivity HC HR) as [[[Hs _ _] Hfile _] _ _]. by apply (recovers_old ts).
Qed.

End commit.

(** ** Rollback on a device that does not fail *)

Lemma Reload_ok d : healthy d -> Reload d = (Ok tt, with_dirty false (with_data (dev_file d) d)).
Proof. intros H. rewrite /Reload. do 2 rewrite (bind_ok _ _ _ _ _ (osCall_healthy _ _ H)). done. Qed.

Lemma decodeSuperblock_ok b : length b = BlockLen -> exists sb, decodeSuperblock b = Ok sb.
Proof. intros H. rewrite /decodeSuperblock H Nat.ltb_irrefl. by eexists. Qed.

(** The state is the one the file gives, and the caches are empty. *)
Record rolled_back (f f' : Filesystem) : Prop := {
  rb_image : dev_data (f_dev f') = dev_file (f_dev f);
  rb_file : dev_file (f_dev f') = dev_file (f_dev f);
  rb_clean : dev_dirty (f_dev f') = false;
  rb_sb : decodeSuperblock (peek (f_dev f') SuperblockAddr) = Ok (f_sb f');
  rb_blockBM : a_blockBM (fs_alloc f') = NewBitmapFromBytes (peek (f_dev f') BlockBitmapAddr) TotalBlocks;
  rb_inodeBM : a_inodeBM (fs_alloc f') = NewBitmapFromBytes (peek (f_dev f') InodeBitmapAddr) InodeCount;
  rb_buf : c_cache (fs_buf f') = ∅ /\ c_lru (fs_buf f') = [];
  rb_inodes : ic_cache (fs_inodes f') = ∅;
  rb_mutating : fs_mutating f' = false;
}.

Section rollback.
Context {O : MapOrder}.

Lemma resetCaches_run f :
  exists f', resetCaches f = (Ok tt, f') /\ f_dev f' = f_dev f /\ f_sb f' = f_sb f /\
    a_blockBM (fs_alloc f') = a_blockBM (fs_alloc f) /\ a_inodeBM (fs_alloc f') = a_inodeBM (fs_alloc f) /\
    (c_cache (fs_buf f') = ∅ /\ c_lru (fs_buf f') = []) /\ ic_cache (fs_inodes f') = ∅ /\
    fs_mutating f' = fs_mutating f.
Proof.
  eexists. split; [reflexivity|]. rewrite /forward /=. by destruct (c_emit (fs_buf f)) as [l|].
Qed.

Lemma reloadFromDevice_run f :
  wf_dev (f_dev f) -> healthy (f_dev f) -> DataStart <= BlockCount (f_dev f) ->
  exists f' sb, reloadFromDevice f = (Ok tt, f') /\ f_dev f' = f_dev f /\
    decodeSuperblock (peek (f_dev f) SuperblockAddr) = Ok sb /\ f_sb f' = sb /\
    a_blockBM (fs_alloc f') = NewBitmapFromBytes (peek (f_dev f) BlockBitmapAddr) TotalBlocks /\
    a_inodeBM (fs_alloc f') = NewBitmapFromBytes (peek (f_dev f) InodeBitmapAddr) InodeCount /\
    (c_cache (fs_buf f') = ∅ /\ c_lru (fs_buf f') = []) /\ ic_cache (fs_inodes f') = ∅ /\
    fs_mutating f' = fs_mutating f.
Proof.
  intros Hw Hh Hn. set (d := f_dev f) in *. unfold DataStart in Hn.
  destruct (decodeSuperblock_ok (peek d SuperblockAddr)) as [sb Esb]; [by apply wf_peek|].
  assert (forall A (m : M BlockDevice A) a, m d = (Ok a, d) -> onFsDev m f = (Ok a, f)) as Hrun.
  { intros A m a E. rewrite onFsDev_run -/d E. cbn [fst snd]. by rewrite put_dev_same. }
  assert (ReadSuperblock d = (Ok sb, d)) as E1.
  { rewrite /ReadSuperblock (bind_ok _ _ _ (peek d SuperblockAddr) d).
    - apply wrapErr_ok, ReadBlock_ok; [done|unfold SuperblockAddr; lia].
    - by rewrite /liftResult Esb. }
  assert (ReadBlockBitmap d = (Ok (NewBitmapFromBytes (peek d BlockBitmapAddr) TotalBlocks), d)) as E2.
  { rewrite /ReadBlockBitmap (bind_ok _ _ _ (peek d BlockBitmapAddr) d) //.
    apply wrapErr_ok, ReadBlock_ok; [done|unfold BlockBitmapAddr; lia]. }
  assert (ReadInodeBitmap d = (Ok (NewBitmapFromBytes (peek d InodeBitmapAddr) InodeCount), d)) as E3.
  { rewrite /ReadInodeBitmap (bind_ok _ _ _ (peek d InodeBitmapAddr) d) //.
    apply wrapErr_ok, ReadBlock_ok; [done|unfold InodeBitmapAddr; lia]. }
  rewrite /reloadFromDevice (bind_ok _ _ _ _ _ (Hrun _ _ _ E1)) (bind_ok _ _ _ _ _ (Hrun _ _ _ E2))
    (bind_ok _ _ _ _ _ (Hrun _ _ _ E3)) bind_modify.
  destruct (resetCaches_run (newAllocator sb (NewBitmapFromBytes (peek d BlockBitmapAddr) TotalBlocks)
    (NewBitmapFromBytes (peek d InodeBitmapAddr) InodeCount) f)) as (f' & E & D & S & B1 & B2 & C & I & Mu).
  exists f', sb. split_and!; try done; by apply C.
Qed.

Lemma rollback_ok {A} sb err f :
  wf_dev (f_dev f) -> healthy (f_dev f) -> DataStart <= BlockCount (f_dev f) -> fs_mutating f = false ->
  exists f', rollback (A := A) sb err f = (Err err, f') /\ rolled_back f f'.
Proof.
  intros Hw Hh Hn Hm. rewrite rollback_run /restore.
  set (g := noted_failure err f). assert (f_dev g = f_dev f) as Hg by done.
  assert (onFsDev Reload g = (Ok tt, put_dev (with_dirty false (with_data (dev_file (f_dev f)) (f_dev f))) g)) as E1.
  { rewrite onFsDev_run Hg Reload_ok //. }
  rewrite (bind_ok _ _ _ _ _ E1) bind_modify. set (g1 := with_ownSb _ _).
  assert (wf_dev (f_dev g1)) as Hw1.
  { destruct Hw as [(n & ? & ? & ? & ?)]. constructor. by exists n. }
  destruct (reloadFromDevice_run g1 Hw1 Hh Hn) as (f' & sb' & E & D & S & S' & B1 & B2 & C & I & Mu).
  exists f'. rewrite E. split; [done|]. rewrite -D in S B1 B2. split; try done; try (by rewrite D).
  - by rewrite S'.
  - by rewrite Mu.
Qed.


Lemma RunMutation_rolls_back {A} now (fn : M Filesystem A) f e f1 :
  wf_dev (f_dev f) -> healthy (f_dev f) -> DataStart <= BlockCount (f_dev f) -> fs_mutating f = false ->
  keeps mutstep fn -> fn (with_mutating true f) = (Err e, f1) ->
  exists f', RunMutation now fn f = (Err e, f') /\ rolled_back f f'.
Proof.
  intros Hw Hh Hn Hm Hfn E. pose proof (run_calm fn f Hfn Hm) as [[[Hs Hh1 Hw1] Hfile _] _ _].
  rewrite /RunMutation !bind_gets bind_modify. rewrite {1}/mbind {1}/M_bind tryM_run E. cbn [fst snd].
  rewrite E in Hs, Hh1, Hw1, Hfile. rewrite bind_modify.
  destruct (rollback_ok (A := A) (f_sb f) e (with_mutating false f1) (Hw1 Hw) (Hh1 Hh)) as (f' & -> & [R1 R2 R3 R4 R5 R6 R7 R8 R9]).
  - by rewrite /BlockCount Hs.
  - done.
  - exists f'. split; [done|]. cbn [snd] in *. split; try done; congruence.
Qed.

(** C21: an operation that fails is rolled back.  On a device that does not
    fail itself, [RunMutation] returns the very error of the operation, and the
    file system is the one of the backing file: the image, the superblock and
    both bitmaps are read back and the caches are empty.  Whatever was not
    synchronised before the operation is lost as well. *)
Theorem RunMutation_rollback {A} now (fn : M Filesystem A) f e f1 :
  wf_dev (f_dev f) -> healthy (f_dev f) -> DataStart <= BlockCount (f_dev f) -> fs_mutating f = false ->
  mutation A fn -> fn (with_mutating true f) = (Err e, f1) ->
  exists f', RunMutation now fn f = (Err e, f') /\ rolled_back f f'.
Proof. intros Hw Hh Hn Hm Hfn%mutation_mutstep. by apply RunMutation_rolls_back. Qed.

End rollback.

(** ** Witnesses *)

Lemma homeChanges_bound d d2 l :
  length (dev_data d) = length (dev_data d2) ->
  (forall a, 0 <= a -> a ∉ l -> dev_data d !! Z.to_nat a = dev_data d2 !! Z.to_nat a) ->
  (length (homeChanges d d2) <= length l)%nat /\ (forall a, a ∈ homeChanges d d2 -> a ∈ l).
Proof.
  intros Hl Hd. assert (forall a, a ∈ homeChanges d d2 -> a ∈ l) as Hin.
  { intros a Ha. apply (homeChanges_spec _ _ _ Hl) in Ha as ([H0 _] & _ & Hne).
    destruct (decide (a ∈ l)) as [|Hn]; [done|]. by destruct Hne; apply Hd. }
  split; [|done]. apply submseteq_length, NoDup_submseteq; [|done].
  apply NoDup_filter. rewrite /Disk.changed. apply NoDup_fmap; [intros x y; lia|].
  apply NoDup_filter, NoDup_seq.
Qed.

Definition demoSb : DiskSuperblock :=
  mountedSb 5 (mkSuperblock 0 0 0 InodeCount TotalBlocks 0 0 0 0 0 0 0 0 0 0 0 0 0 0 0 0 0 (zeros 16) (zeros 16)).

Lemma demoSb_wf : wf_superblock demoSb.
Proof. split; [|split; [|done]]; repeat (apply Forall_cons; split; [done|]); by apply Forall_nil. Qed.

Lemma lookup_poke_ne a b d x :
  0 <= a -> 0 <= x -> x <> a -> dev_data (poke a b d) !! Z.to_nat x = dev_data d !! Z.to_nat x.
Proof. intros. rewrite /poke /= list_lookup_insert_ne //. lia. Qed.

(** A file system on the device [d], just mounted. *)
Definition demoFs (d : BlockDevice) : Filesystem :=
  mkFilesystem (NewAllocator d demoSb (NewBitmap TotalBlocks) (NewBitmap InodeCount) None) None
    (NewBufferCache 256) (NewInodeCache 512) (NewJournal JournalStart JournalBlocks None) [] false false true.

Definition demoDisk : BlockDevice := blank (Z.to_nat TotalBlocks).
Lemma demoDisk_count : BlockCount demoDisk = TotalBlocks.
Proof. rewrite /demoDisk BlockCount_blank; rewrite Z2Nat.id; done. Qed.
Lemma demoDisk_wf : wf_dev demoDisk.
Proof. apply wf_blank. by rewrite Z2Nat.id. Qed.
Lemma demoDisk_table : has_table demoDisk.
Proof. by rewrite /has_table demoDisk_count. Qed.

#[local] Opaque demoDisk.

Lemma demo_settled : settled [] (demoFs demoDisk).
Proof.
  destruct zero_not_journal as [H1 H2].
  assert (clean_from demoDisk JournalStart JournalBlocks 0) as Hc.
  { split; intros; by rewrite peek_blank. }
  assert (geometry JournalStart JournalBlocks (crash demoDisk)) as Hg.
  { split; [done|done|done| |]; change (BlockCount (crash demoDisk)) with (BlockCount demoDisk);
      by rewrite demoDisk_count. }
  split; [|done|done]. split; try done. apply demoDisk_wf.
Qed.

(** The root inode of an empty disk is no directory: writing nothing to it
    succeeds, and the mutation writes the superblock. *)
Definition demoWrite : M Filesystem Z := @writeBody inOrder 0 RootCredential 1 0 [].
Lemma demoWrite_run b :
  demoWrite (with_mutating b (demoFs demoDisk)) =
  (Ok 0, with_inodes (@IPut inOrder 1 (encodeInode (inode_at demoDisk 1) zeroInodeData) (NewInodeCache 512)).2
           (with_mutating b (demoFs demoDisk))).
Proof.
  rewrite /demoWrite /writeBody. set (f := with_mutating b _).
  assert (inode_at demoDisk 1 = decodeInode (slice 0 InodeLen zeroBlock)) as Hi.
  { rewrite /inode_at. change (InodeNumToBlock 1) with (4, 0%nat). cbn iota beta. by rewrite peek_blank. }
  rewrite (bind_ok _ _ _ (inode_at demoDisk 1)
    (with_inodes (@IPut inOrder 1 (encodeInode (inode_at demoDisk 1) zeroInodeData) (NewInodeCache 512)).2 f)).
  - rewrite /fsReadInode (bind_ok _ _ _ None f) //.
  - rewrite bind_failIf_false; [by rewrite Hi|done].
Qed.

Lemma forward_sb src log f : f_sb (forward src log f) = f_sb f.
Proof.
  rewrite /forward. generalize (rev (default [] log)). intros l. revert f.
  induction l as [|e l IH]; intros f; simpl; [done|]. by rewrite IH.
Qed.

Lemma flush_nothing `{MapOrder} f :
  dirtyAddrs (fs_buf f) = [] ->
  exists h, onFsBuf FlushAll f = (Ok tt, h) /\ f_dev h = f_dev f /\ f_sb h = f_sb f.
Proof.
  intros Hd. rewrite /onFsBuf /FlushAll bind_gets.
  change (dirtyAddrs (f_dev f, ?c).2) with (dirtyAddrs (fs_buf f)). rewrite Hd bind_modify /=.
  eexists. split_and!; [reflexivity| |by rewrite forward_sb].
  match goal with |- f_dev (forward ?a ?b ?c) = _ => by destruct (same_core_forward a b c) as (-> & _) end.
Qed.

Lemma demo_flush a f2 :
  @outcome inOrder Z demoWrite (demoFs demoDisk) a f2 ->
  f_dev f2 = poke SuperblockAddr (encodeSuperblock demoSb zeroBlock) demoDisk.
Proof.
  intros (f1 & E1 & E2). rewrite demoWrite_run in E1. injection E1 as _ <-.
  revert E2. rewrite /flushMutation. set (f := with_mutating false _).
  assert (@dirtyInums inOrder (fs_inodes f) = []) as Hd by done.
  assert (@dirtyAddrs inOrder (fs_buf f) = []) as Hb by done.
  rewrite (bind_ok _ _ _ tt (put_dev demoDisk (with_inodes (iNextRange (fs_inodes f)) f))).
  { rewrite /onFsIstate /zoom /IFlushAll bind_gets. cbn [snd]. by rewrite Hd. }
  set (g := put_dev _ _). assert (f_dev g = demoDisk) as Hg by done.
  destruct (@flush_nothing inOrder g Hb) as (h & Eb & Hh & Hs). rewrite Hg in Hh.
  rewrite (bind_ok _ _ _ _ _ Eb) /writeFsSb bind_gets onFsDev_run Hh Hs. change (f_sb g) with demoSb.
  assert (SuperblockAddr < BlockCount demoDisk) as HB by by rewrite demoDisk_count.
  rewrite (WriteSuperblock_ok demoSb demoDisk (conj eq_refl eq_refl) HB (wf_superblock_names _ demoSb_wf)).
  by intros [_ <-]%pair_equal_spec.
Qed.

Lemma demo_journalable a f2 :
  @outcome inOrder Z demoWrite (demoFs demoDisk) a f2 -> journalable [] demoDisk (f_dev f2).
Proof.
  intros ->%demo_flush. set (d2 := poke _ _ _).
  assert (length (dev_data demoDisk) = length (dev_data d2)) as Hl by by rewrite length_poke.
  destruct (homeChanges_bound demoDisk d2 [SuperblockAddr] Hl) as [Hn Hin].
  { intros x Hx Hne. symmetry. apply lookup_poke_ne; [done|done|]. intros ->. by apply Hne, list_elem_of_singleton. }
  split.
  - intros off Hoff. apply peek_poke_ne; unfold SuperblockAddr, JournalStart in *; lia.
  - intros x Hx%Hin. apply list_elem_of_singleton in Hx as ->. rewrite /d2 peek_poke_eq.
    + apply (wf_in_range _ _ demoDisk_wf). rewrite demoDisk_count. unfold SuperblockAddr, TotalBlocks. lia.
    + intros [H _]. vm_compute in H. discriminate H.
  - cbn zeta. change (length [SuperblockAddr]) with 1%nat in Hn. revert Hn. generalize (length (homeChanges demoDisk d2)).
    intros [|[|n]] Hn; [done|done|lia].
Qed.


(** Truncating inode 5000 fails: there is no such inode. *)
Lemma RunMutation_rollback_witness :
  exists f', @RunMutation inOrder unit 0 (@truncateBody inOrder 0 RootCredential 5000 7) (demoFs demoDisk)
             = (Err (Errorf "inode: invalid inode number %d" [5000]), f') /\ rolled_back (demoFs demoDisk) f'.
Proof.
  apply (@RunMutation_rollback inOrder unit 0 (@truncateBody inOrder 0 RootCredential 5000 7) (demoFs demoDisk)
    (Errorf "inode: invalid inode number %d" [5000]) (with_mutating true (demoFs demoDisk))).
  - apply demoDisk_wf.
  - exact (conj eq_refl eq_refl).
  - change (f_dev (demoFs demoDisk)) with demoDisk. rewrite demoDisk_count. unfold DataStart, TotalBlocks. lia.
  - reflexivity.
  - apply m_truncate.
  - rewrite /truncateBody /fsReadInode. reflexivity.
Defined.
