(* ===== verification/Progress.v ===== *)
(** * Progress: what succeeds on a device that does not fail

    [Recovery] and [Mutation] say what the disk has after a commit, however it
    ends.  Here it is shown to end well: the journal takes every transaction
    that fits in it, and [RunMutation] returns what its function returned. *)
From S2P Require Export Mutation.

(** [m] succeeds where [P] holds, and keeps it. *)
Definition prospers {S A} (P : S -> Prop) (m : M S A) : Prop := forall s, P s -> exists a s', m s = (Ok a, s') /\ P s'.

Lemma prospers_unit {S} (P : S -> Prop) (m : M S unit) s : prospers P m -> P s -> exists s', m s = (Ok tt, s') /\ P s'.
Proof. intros Hm Hs. destruct (Hm s Hs) as ([] & s' & H). by exists s'. Qed.

Section prospers.
Context {S : Type} (P : S -> Prop).

Lemma prospers_ret {A} (a : A) : prospers P (mret a).
Proof. intros s Hs. by exists a, s. Qed.
Lemma prospers_gets {A} (g : S -> A) : prospers P (gets g).
Proof. intros s Hs. by exists (g s), s. Qed.
Lemma prospers_modify g : (forall s, P s -> P (g s)) -> prospers P (modify g).
Proof. intros H s Hs. exists tt, (g s). auto. Qed.
Lemma prospers_bind {A B} (m : M S A) (k : A -> M S B) :
  prospers P m -> (forall a, prospers P (k a)) -> prospers P (m ≫= k).
Proof. intros Hm Hk s Hs. destruct (Hm s Hs) as (a & s1 & E & H1). rewrite (bind_ok _ _ _ _ _ E). by apply Hk. Qed.
Lemma prospers_bind_gets {A B} (g : S -> A) (k : A -> M S B) :
  (forall s, P s -> exists b s', k (g s) s = (Ok b, s') /\ P s') -> prospers P (gets g ≫= k).
Proof. intros H s Hs. rewrite bind_gets. by apply H. Qed.
Lemma prospers_failIf e : prospers P (failIf false e).
Proof. apply prospers_ret. Qed.
Lemma prospers_wrapErr {A} fmt args (m : M S A) : prospers P m -> prospers P (wrapErr fmt args m).
Proof. intros H s Hs. destruct (H s Hs) as (a & s' & E & H'). exists a, s'. by rewrite (wrapErr_ok _ _ _ _ _ _ E). Qed.
Lemma prospers_forEach {A} (body : A -> M S unit) l :
  Forall (fun x => prospers P (body x)) l -> prospers P (forEach body l).
Proof.
  induction 1 as [|x l Hx _ IH]; [apply prospers_ret|]. apply prospers_bind; [exact Hx|]. by intros [].
Qed.
End prospers.

(** ** The journal *)

(** The journal of [len] blocks from [start] on, on a device of [count]. *)
Record ready (start len count : Z) (s : jstate) : Prop := {
  rd_healthy : healthy s.1;
  rd_wf : wf_dev s.1;
  rd_count : BlockCount s.1 = count;
  rd_area : j_start s.2 = start /\ j_length s.2 = len;
}.

Section journal.
Context (start len count : Z).
Hypothesis (Hstart : 0 <= start) (Hend : start + len <= count) (Hcount : count < 2 ^ 31).
Abbreviation P := (ready start len count).

Lemma onDisk_write a b : 0 <= a < count -> length b = BlockLen -> prospers P (onDisk (WriteBlock a b)).
Proof.
  intros Ha Hb s [Hh Hw HB HA]. exists tt, (poke a b s.1, s.2). split.
  - rewrite /onDisk /zoom WriteBlock_ok //. lia.
  - split; [done|by apply poke_wf|done|done].
Qed.

Lemma onDisk_sync : prospers P (onDisk Sync).
Proof.
  intros s [Hh Hw HB HA]. rewrite /onDisk /zoom. pose proof (Sync_evol s.1) as [Hs _ Hw2]. rewrite Sync_ok // in Hs Hw2 |- *.
  do 2 eexists. split; [reflexivity|]. cbn [fst snd] in *. specialize (Hw2 Hw).
  split; [by destruct (dev_dirty s.1)|done|cbn [fst]; by rewrite /BlockCount Hs|done].
Qed.

Lemma modJournal_prospers g :
  (forall j, j_start (g j) = j_start j /\ j_length (g j) = j_length j) -> prospers P (modJournal g).
Proof.
  intros H. apply prospers_modify. intros s [Hh Hw HB [A1 A2]]. destruct (H s.2) as [E1 E2].
  split; [done|done|done|]. cbn [snd]. by rewrite E1 E2.
Qed.

Lemma writeJournalBlock_prospers off b :
  0 <= off < len -> length b = BlockLen -> prospers P (writeJournalBlock off b).
Proof.
  intros Ho Hb s Hs. pose proof (rd_area _ _ _ _ Hs) as [A1 _]. rewrite /writeJournalBlock bind_gets A1 u32_small; [lia|].
  apply onDisk_write; [lia|done|done].
Qed.

Lemma writeDescriptors_prospers n i off seq total tbs :
  0 <= off -> 0 <= i -> off + i + Z.of_nat n <= len -> prospers P (writeDescriptors n i off seq total tbs).
Proof.
  revert i tbs. induction n as [|n IH]; intros i tbs Ho Hi Hn; cbn [writeDescriptors]; [apply prospers_ret|].
  apply prospers_bind; [|intros _; apply IH; lia]. apply prospers_wrapErr. rewrite u32_small; [lia|].
  apply writeJournalBlock_prospers; [lia|]. apply length_makeDescriptor. pose proof (capacity_range i).
  rewrite length_fmap length_take. unfold capacityOf in *. destruct (i =? 0); lia.
Qed.

Lemma writeData_prospers i off crc tbs :
  0 <= off -> 0 <= i -> off + i + Z.of_nat (length tbs) <= len ->
  Forall (fun tb => length (tb_data tb) = BlockLen) tbs -> prospers P (writeData i off crc tbs).
Proof.
  intros Ho Hi Hn H. revert i crc Hi Hn. induction H as [|tb tbs Htb _ IH]; intros i crc Hi Hn; cbn [writeData]; [apply prospers_ret|].
  cbn [length] in Hn. apply prospers_bind; [|intros _; apply IH; lia]. apply prospers_wrapErr. rewrite u32_small; [lia|].
  apply writeJournalBlock_prospers; [lia|done].
Qed.

(** The place of a transaction: after the last one, or at the start when it
    does not fit there. *)
Lemma allocBlocks_run n s :
  P s -> 0 <= n <= len -> 0 <= j_head s.2 <= len ->
  exists off s', allocBlocks n s = (Ok off, s') /\ P s' /\ 0 <= off /\ off + n <= len.
Proof.
  intros [Hh Hw HB [A1 A2]] Hn H0. rewrite /allocBlocks bind_gets bind_failIf_false; [apply Z.ltb_ge; lia|].
  rewrite /modJournal !bind_modify. cbn [fst snd]. rewrite A2 u32_small; [lia|].
  destruct (Z.ltb_spec len (j_head s.2 + n)) as [H|H].
  - eexists 0, _. split; [reflexivity|]. split; [done|lia].
  - eexists (j_head s.2), _. split; [reflexivity|]. split; [done|lia].
Qed.

Lemma logTransaction_run t s :
  P s -> wf_tx t -> txLen t <= len -> 0 <= j_head s.2 <= len -> exists s', logTransaction t s = (Ok tt, s') /\ P s'.
Proof.
  intros Hs [Hseq Hn Hb] Hlen H0. destruct (numDescs_facts t ltac:(lia)) as (Hd1 & _ & _).
  rewrite /logTransaction. change (Z.of_nat (length (t_blocks t))) with (Recovery.numBlocks t).
  change (descriptorBlocksFor (Recovery.numBlocks t)) with (numDescs t). unfold txLen in Hlen.
  destruct (allocBlocks_run (numDescs t + Recovery.numBlocks t + 1) s Hs ltac:(lia) H0) as (off & s1 & E & Hs1 & Ho & Hle).
  rewrite u32_small; [lia|]. rewrite (bind_ok _ _ _ _ _ E) !u32_small; [lia..|].
  assert (Forall (fun tb => length (tb_data tb) = BlockLen) (t_blocks t)) as Hl by (eapply Forall_impl; [exact Hb|]; naive_solver).
  apply prospers_unit; [|exact Hs1]. apply prospers_bind; [apply writeDescriptors_prospers; lia|]. intros _.
  apply prospers_bind; [apply writeData_prospers; [lia..|unfold Recovery.numBlocks in *; lia|done]|]. intros crc.
  apply prospers_wrapErr, writeJournalBlock_prospers; [lia|apply length_makeCommit].
Qed.

Lemma writeHome_prospers tbs : home_blocks start len count tbs -> prospers P (writeHome tbs).
Proof.
  intros H. apply prospers_forEach. eapply Forall_impl; [exact H|]. intros tb ([H0 _] & H1 & H2).
  by apply prospers_wrapErr, onDisk_write.
Qed.

Lemma Commit_run now t s :
  P s -> loggable start len count t -> txLen t <= len -> 0 <= j_head s.2 <= len ->
  exists s', Commit now t s = (Ok tt, s') /\ P s'.
Proof.
  intros Hs [Hwf Hhome] Hlen H0. rewrite /Commit. destruct (t_blocks t) as [|tb tbs] eqn:Et; [by exists s|]. rewrite -Et in Hhome |- *.
  destruct (logTransaction_run t s Hs Hwf Hlen H0) as (s1 & E & Hs1). rewrite (bind_ok _ _ _ _ _ E).
  apply prospers_unit; [|exact Hs1]. apply prospers_bind; [apply prospers_wrapErr, onDisk_sync|]. intros _.
  apply prospers_bind; [by apply writeHome_prospers|]. intros _.
  apply prospers_bind; [apply prospers_wrapErr, onDisk_sync|]. intros _.
  repeat (apply prospers_bind; [by apply modJournal_prospers|]; intros _). by apply modJournal_prospers.
Qed.

End journal.

(** ** A mutation *)

Lemma readBlocks_run addrs d :
  healthy d -> Forall (fun a => a < BlockCount d) addrs -> readBlocks addrs d = (Ok (finalOf d addrs), d).
Proof.
  intros Hh. induction 1 as [|a addrs Ha _ IH]; [done|]. cbn [readBlocks].
  by rewrite (bind_ok _ _ _ _ _ (ReadBlock_ok d a Hh Ha)) (bind_ok _ _ _ _ _ IH).
Qed.

Lemma logBlocks_run l tx :
  Forall (fun b : Z * block => length b.2 = BlockLen) l ->
  logBlocks l tx = Ok (mkTransaction (t_sequence tx) (t_blocks tx ++ txOf l)).
Proof.
  intros H. revert tx. induction H as [|[a b] l Hb _ IH]; intros tx; cbn [logBlocks].
  - rewrite app_nil_r. by destruct tx.
  - cbn [snd] in Hb. rewrite /LogBlock Hb. change (negb (Z.of_nat BlockLen =? BlockSize)) with false. cbn iota. rewrite IH. cbn. by rewrite -app_assoc.
Qed.

Lemma onErr_ok {S A} (m : M S A) h s a s' : m s = (Ok a, s') -> onErr m h s = (Ok a, s').
Proof. rewrite /onErr. by intros ->. Qed.

Section mutation.
Context {O : MapOrder}.

Lemma commitChanges_run ts now f f2 :
  settled ts f -> calm f f2 -> journalable ts (f_dev f) (f_dev f2) -> healthy (f_dev f2) ->
  exists f', commitChanges now (dev_data (f_dev f)) f2 = (Ok tt, f').
Proof.
  intros Hf Hc Hj Hh. destruct (changes_wf ts f f2 Hf Hc Hj) as (Hw & Hw2 & Hs & Hl & Hfile).
  destruct (settled_count ts f Hf) as [HB1 HB2]. pose proof Hf as [[_ _ _ _ _ [Hhd Hhl] _ _] [Hst Hln] _]. cbn [snd] in *.
  pose proof (totalLen_nonneg ts). rewrite Hln in Hhl.
  assert (BlockCount (f_dev f2) = BlockCount (f_dev f)) as HB by by rewrite /BlockCount Hs.
  rewrite /commitChanges /mbind /M_bind onFsDev_run ChangedBlocks_ok // put_dev_same. cbn [fst snd].
  fold (homeChanges (f_dev f) (f_dev f2)). destruct (homeChanges (f_dev f) (f_dev f2)) as [|a0 l0] eqn:En.
  { rewrite onFsDev_run Sync_ok //. by eexists. }
  rewrite -En. set (addrs := homeChanges (f_dev f) (f_dev f2)) in *. assert (addrs <> []) as Hne by by rewrite En.
  assert (Forall (fun a => a < BlockCount (f_dev f2)) addrs) as Hlt.
  { apply Forall_forall. intros a Ha. apply (homeChanges_spec _ _ _ Hl) in Ha as (_ & ? & _). by rewrite wf_BlockCount // -Hl. }
  rewrite onFsDev_run readBlocks_run //. cbn [fst snd]. rewrite put_dev_same onFsDev_run RestoreBlocks_ok //. cbn [fst snd].
  match goal with |- context [onFsJournal OpenTransaction ?g] => set (f3 := g) end.
  destruct (onFsJournal_run OpenTransaction f3) as (j & r & s & f4 & J1 & E1 & E2 & D & J2 & M2). rewrite E2.
  injection E1 as <- <-. cbn [fst snd] in D, J2.
  assert (Forall (fun b : Z * block => length b.2 = BlockLen) (finalOf (f_dev f2) addrs)) as Hlen.
  { apply Forall_fmap, Forall_forall. intros a _. by apply wf_peek. }
  rewrite (onErr_ok _ _ _ _ _ (f_equal (fun r => (r, f4)) (logBlocks_run _ _ Hlen))). cbn [t_sequence t_blocks app].
  match goal with |- context [mkTransaction ?q _] => set (seq := q) end.
  destruct (blocks_loggable ts f f2 Hf Hc Hj seq (u32_range _) Hne) as (Hlog & _ & Hfit). fold addrs in Hlog, Hfit.
  match goal with |- context [Commit now ?x] => set (t := x) in * end.
  destruct (onFsJournal_run (Commit now t) f4) as (j' & r & s & f5 & J3 & E1 & E3 & _).
  injection J2 as P1 P2 P3. injection J1 as Q1 Q2 Q3. injection J3 as R1 R2 R3.
  destruct Hc as [_ [= S1 S2 S3] _].
  destruct (Commit_run JournalStart JournalBlocks (BlockCount (f_dev f)) ltac:(done) HB1 HB2 now t (f_dev f4, j')) as (s' & E & _);
    [|done|lia|cbn [snd]; lia|].
  - pose proof (RestoreBlocks_quiet (dev_data (f_dev f)) addrs (wf_blocks _ Hw) (f_dev f2)) as [[_ _ Hwq] _ _].
    rewrite RestoreBlocks_ok // in Hwq. split; cbn [fst snd]; rewrite ?D; [done|by apply Hwq|done|split; congruence].
  - rewrite E in E1. injection E1 as <- <-. eexists. exact (onErr_ok _ _ _ _ _ E3).
Qed.

(** What the flushes of a mutation write back fits on the device. *)
Record flushable (f : Filesystem) : Prop := {
  fb_table : table_dev (f_dev f);
  fb_inodes : entries_ok (fs_inodes f);
  fb_cache : cache_ok (f_dev f, fs_buf f);
  fb_data : forall x, is_Some (c_cache (fs_buf f) !! x) -> DataStart <= x;
  fb_names : wf_names (f_sb f);
}.

Lemma flush_inodes_run f :
  flushable f -> exists f', onFsIstate (IFlushAll (Some flushFn)) f = (Ok tt, f') /\ flushable f'.
Proof.
  intros [Ht He Hc Hd Hn]. destruct (IFlushAll_ok _ _ Ht He) as (d' & ic' & E & Ho & He' & _).
  rewrite /onFsIstate /zoom E. eexists. split; [reflexivity|]. pose proof (do_evol _ _ _ Ho) as Hev.
  split; [exact (table_dev_evol _ _ Hev Ht)|done| |exact Hd|exact Hn].
  destruct Hc as [Hw Hl Hent Hs Hcap]. split; cbn [fst snd] in *; [by apply Hev|done| |done|done].
  intros a e Ha. destruct (Hent a e Ha) as (H1 & H2 & H3 & H4). rewrite (evol_BlockCount _ _ Hev).
  split; [done|]. do 2 (split; [done|]).
  intros Hcl. rewrite (H4 Hcl). symmetry. pose proof (Hd a (mk_is_Some _ _ Ha)) as Hge.
    apply (do_frame _ _ _ Ho); unfold table_block, DataStart, InodeTableStart, InodeTableBlocks in *; lia.
Qed.

Lemma flush_buffers_run f :
  flushable f -> exists f', onFsBuf FlushAll f = (Ok tt, f') /\ table_dev (f_dev f') /\ f_sb f' = f_sb f.
Proof.
  intros [Ht _ Hc _ _]. rewrite /onFsBuf. set (s := (f_dev f, with_cemit _ _)).
  assert (cache_ok s) as Hs by by destruct Hc. pose proof (FlushAll_spec s Hs) as HF.
  destruct (FlushAll s) as [[[]|e|] s']; [|by destruct HF as [_ []]; destruct Ht|done]. destruct HF as [Hk _].
  eexists. split; [reflexivity|]. match goal with |- context [forward ?x ?y ?z] => destruct (same_core_forward x y z) as (-> & _) end.
  rewrite forward_sb. split; [exact (table_dev_evol _ _ (kp_evol _ _ Hk) Ht)|done].
Qed.

Lemma flushMutation_run f : flushable f -> exists f', flushMutation f = (Ok tt, f') /\ healthy (f_dev f').
Proof.
  intros Hf. destruct (flush_inodes_run f Hf) as (f1 & E1 & Hf1). destruct (flush_buffers_run f1 Hf1) as (f2 & E2 & [Hh Hw Ht] & Hs).
  rewrite /flushMutation (bind_ok _ _ _ _ _ E1) (bind_ok _ _ _ _ _ E2) /writeFsSb bind_gets onFsDev_run WriteSuperblock_ok //.
  - unfold has_table, InodeTableStart, InodeTableBlocks, SuperblockAddr in *. lia.
  - rewrite Hs. apply Hf1.
  - by eexists.
Qed.

Lemma flushMutation_calm : keeps calm flushMutation.
Proof.
  rewrite /flushMutation. apply keeps_bind; [apply _|apply onFsIstate_calm, IFlushAll_quiet|]. intros _.
  apply keeps_bind; [apply _|apply onFsBuf_calm, FlushAll_quiet|]. intros _. apply writeFsSb_calm.
Qed.

(** On a device that does not fail a mutation returns what its function
    returned. *)
Lemma RunMutation_run {A} ts now (fn : M Filesystem A) f a f1 :
  settled ts f -> keeps mutstep fn -> fn (with_mutating true f) = (Ok a, f1) -> flushable (with_mutating false f1) ->
  (forall f2, flushMutation (with_mutating false f1) = (Ok tt, f2) -> journalable ts (f_dev f) (f_dev f2)) ->
  exists f', RunMutation now fn f = (Ok a, f').
Proof.
  intros Hf Hfn E Hfl Hj. pose proof (run_calm fn f Hfn (st_mutating _ _ Hf)) as HC. rewrite E in HC. cbn [snd] in HC.
  destruct (flushMutation_run _ Hfl) as (f2 & EF & Hh). specialize (Hj f2 EF).
  pose proof (flushMutation_calm (with_mutating false f1)) as HC2. rewrite EF in HC2. cbn [snd] in HC2.
  destruct (commitChanges_run ts now f f2 Hf (transitivity HC HC2) Hj Hh) as (f' & EC). exists f'.
  rewrite /RunMutation !bind_gets bind_modify. rewrite {1}/mbind {1}/M_bind tryM_run E. cbn [fst snd].
  rewrite bind_modify. assert (commitMutation now (Snapshot (f_dev f)) (with_mutating false f1) = (Ok tt, f')) as EM; [|by rewrite (bind_ok _ _ _ _ _ EM)].
  revert EF. rewrite /flushMutation. intros ([] & g1 & E1 & H)%bind_ok_inv. apply bind_ok_inv in H as ([] & g2 & E2 & E3).
  rewrite /commitMutation (bind_ok _ _ _ _ _ (onErr_ok _ _ _ _ _ E1)) (bind_ok _ _ _ _ _ (onErr_ok _ _ _ _ _ E2))
    (bind_ok _ _ _ _ _ (onErr_ok _ _ _ _ _ E3)). exact EC.
Qed.

(** A mutation that fails is rolled back. *)
Lemma RunMutation_Err {A} ts now (fn : M Filesystem A) f e f1 :
  settled ts f -> healthy (f_dev f) -> keeps mutstep fn -> fn (with_mutating true f) = (Err e, f1) ->
  exists f', RunMutation now fn f = (Err e, f') /\ rolled_back f f'.
Proof.
  intros Hf Hh Hfn E. destruct (settled_count ts f Hf) as [HB _]. apply (RunMutation_rolls_back now fn f e f1); try done.
  - apply Hf.
  - apply Hf.
Qed.

End mutation.

(** ** The names of the superblock

    The two arrays of the superblock keep their length, which the encoding
    relies on. *)
Definition named_alloc (a : Allocator) : Prop := wf_names (a_sb a).
Definition named_inode (s : inode_state) : Prop := named_alloc s.1.
Definition named (f : Filesystem) : Prop := wf_names (f_sb f).

Lemma onDev_named {A} (m : M BlockDevice A) : preserves named_alloc (onDev m).
Proof. intros a. rewrite /onDev /zoom. by destruct (m (a_dev a)). Qed.
Lemma modify_named g : (forall a, named_alloc a -> named_alloc (g a)) -> preserves named_alloc (modify g).
Proof. intros H. apply keeps_modify; [apply _|exact H]. Qed.
#[export] Hint Resolve onDev_named : quiet.
#[export] Hint Extern 1 (keeps (impl_rel named_alloc) (modify _)) =>
  apply modify_named; intros ? [? ?]; split; cbn; repeat case_match; done : quiet.

Lemma AllocBlock_named : preserves named_alloc AllocBlock.
Proof. rewrite /AllocBlock /count /emitEvent. quiet_solve. Qed.

Lemma onAlloc_named {A} (m : M Allocator A) : preserves named_alloc m -> preserves named_inode (onAlloc m).
Proof. intros H. apply (keeps_zoom _ (impl_rel named_alloc) fst _ m H). by intros s a' Ha. Qed.
Lemma onBlk_named {A} (m : M BlockDevice A) : preserves named_inode (onBlk m).
Proof. apply onAlloc_named, onDev_named. Qed.
Lemma modInode_named g : preserves named_inode (modInode g).
Proof. apply keeps_modify; [apply _|]. by intros s. Qed.
Lemma allocBlock_named : preserves named_inode (onAlloc AllocBlock).
Proof. apply onAlloc_named, AllocBlock_named. Qed.
#[export] Hint Resolve onBlk_named modInode_named allocBlock_named : quiet.

Lemma ensureRoot_named root setRoot : preserves named_inode (ensureRoot root setRoot).
Proof. rewrite /ensureRoot. quiet_solve. Qed.
Lemma ensureChild_named parent blk idx : preserves named_inode (ensureChild parent blk idx).
Proof. rewrite /ensureChild. quiet_solve. Qed.
Lemma placeLeaf_named parent blk idx : preserves named_inode (placeLeaf parent blk idx).
Proof. rewrite /placeLeaf. quiet_solve. Qed.
#[export] Hint Resolve ensureRoot_named ensureChild_named placeLeaf_named : quiet.
Lemma AllocBlockForOffset_named lb : preserves named_inode (AllocBlockForOffset lb).
Proof. rewrite /AllocBlockForOffset. quiet_solve. Qed.

Lemma named_same f f' : f_sb f' = f_sb f -> impl_rel named f f'.
Proof. by rewrite /impl_rel /named => ->. Qed.
Lemma onFsInode_named {A} di (m : M inode_state A) : preserves named_inode m -> preserves named (onFsInode di m).
Proof.
  intros H f. rewrite /onFsInode /onFsAlloc. set (a0 := with_emit _ _). specialize (H (a0, di)).
  destruct (m (a0, di)) as [r [a di']]. assert (forall log src, named f -> named (forward src log (with_alloc (with_emit (noLog (a_emit a)) a) f))) as Hn.
  { intros log src. rewrite /named forward_sb /f_sb. cbn. destruct (fs_ownSb f); [done|exact H]. }
  destruct r as [x|e|]; exact (Hn _ _).
Qed.
Lemma onFsBuf_named {A} (m : M cstate A) : preserves named (onFsBuf m).
Proof.
  intros f. rewrite /onFsBuf. destruct (m _) as [r s]. apply named_same. by rewrite forward_sb.
Qed.
Lemma onFsDev_named {A} (m : M BlockDevice A) : preserves named (onFsDev m).
Proof. intros f. rewrite /onFsDev /zoom. by destruct (m (f_dev f)). Qed.
Lemma onFsInodes_named {A} (m : M InodeCache A) : preserves named (onFsInodes m).
Proof. intros f. rewrite /onFsInodes /zoom. by destruct (m (fs_inodes f)). Qed.
Lemma onFsJournal_named {A} (m : M jstate A) : preserves named (onFsJournal m).
Proof. intros f. rewrite /onFsJournal. destruct (m _) as [r s]. apply named_same. by rewrite forward_sb. Qed.
Lemma fsCount_named c n : preserves named (fsCount c n).
Proof. apply keeps_modify; [apply _|]. by intros f. Qed.
#[export] Hint Resolve onFsInode_named onFsBuf_named onFsDev_named onFsInodes_named onFsJournal_named fsCount_named
  AllocBlockForOffset_named : quiet.

Section writing.
Context {O : MapOrder}.

Lemma writeLoop_named fuel di off buf : preserves named (writeLoop fuel di off buf).
Proof. revert di off buf. induction fuel as [|fuel IH]; intros di off buf; cbn [writeLoop]; quiet_solve. Qed.
#[local] Hint Resolve writeLoop_named : quiet.
Lemma writeBody_named now cred inum off buf : preserves named (writeBody now cred inum off buf).
Proof. rewrite /writeBody /fsReadInode /checkPerm /WriteInodeFS. quiet_solve. Qed.

End writing.

(** ** What comes back *)

(** A transaction that fits in the journal at all is committed: there is
    always a place for it, at the head or at the start of the area. *)
Theorem Commit_succeeds now t s :
  wf_dev s.1 -> healthy s.1 -> geometry (j_start s.2) (j_length s.2) s.1 ->
  loggable (j_start s.2) (j_length s.2) (BlockCount s.1) t -> txLen t <= j_length s.2 -> 0 <= j_head s.2 <= j_length s.2 ->
  exists s', Commit now t s = (Ok tt, s') /\ healthy s'.1 /\ wf_dev s'.1.
Proof.
  intros Hw Hh [_ Hs _ He Hc] Ht Hl H0.
  destruct (Commit_run _ _ _ Hs He Hc now t s) as (s' & E & [? ? _ _]); [by split|done..|]. by exists s'.
Qed.

(** C20: an operation run by [RunMutation] on a device that does not fail ends
    as it would end alone, with its value, its error or its panic: neither the
    flushes nor the commit nor a rollback fail, as long as what it leaves in
    the caches has a place on the disk and its changes have one in the
    journal. *)
Theorem RunMutation_returns `{O : MapOrder} {A} ts now (fn : M Filesystem A) f :
  settled ts f -> healthy (f_dev f) -> mutation A fn ->
  (forall a f1, fn (with_mutating true f) = (Ok a, f1) -> flushable (with_mutating false f1) /\
     forall f2, flushMutation (with_mutating false f1) = (Ok tt, f2) -> journalable ts (f_dev f) (f_dev f2)) ->
  (RunMutation now fn f).1 = (fn (with_mutating true f)).1.
Proof.
  intros Hf Hh Hfn%mutation_mutstep Hok. destruct (fn (with_mutating true f)) as [[a|e|] f1] eqn:E; cbn [fst].
  - destruct (Hok a f1 eq_refl) as [Hfl Hj]. by destruct (RunMutation_run ts now fn f a f1 Hf Hfn E Hfl Hj) as (f' & ->).
  - by destruct (RunMutation_Err ts now fn f e f1 Hf Hh Hfn E) as (f' & -> & _).
  - by rewrite /RunMutation !bind_gets bind_modify {1}/mbind {1}/M_bind tryM_run E.
Qed.

(** ** Witnesses *)

Lemma demo_flushable a f1 : demoWrite (with_mutating true (demoFs demoDisk)) = (Ok a, f1) -> flushable (with_mutating false f1).
Proof.
  rewrite demoWrite_run. intros [= <- <-]. split.
  - split; [done|exact demoDisk_wf|exact demoDisk_table].
  - intros k e. change (ic_cache _) with (<[1 := mkInodeEntry (encodeInode (inode_at demoDisk 1) zeroInodeData) false 0]> (∅ : gmap Z inodeEntry)).
    rewrite lookup_insert_Some. intros [[<- <-]|[_ H]]; [|done].
    split_and!; [done|by apply length_encodeInode|done].
  - split; [exact demoDisk_wf|done|done|done|done].
  - by intros x [e He].
  - by split.
Qed.

Lemma RunMutation_returns_witness : (@RunMutation inOrder Z 0 demoWrite (demoFs demoDisk)).1 = Ok 0.
Proof.
  rewrite (@RunMutation_returns inOrder Z [] 0 demoWrite (demoFs demoDisk) demo_settled (conj eq_refl eq_refl) (m_write _ _ _ _ _)).
  - intros a f1 E. split; [exact (demo_flushable a f1 E)|]. intros f2 E2. apply (demo_journalable a f2). by exists f1.
  - by rewrite demoWrite_run.
Defined.
