(* ===== verification/Fsck.v ===== *)
(** * Fsck: the consistency check, [FsckFull] of [internal/fs/fs.go]

    Ten checks over the image, each of which reports issues and goes on.  The
    specification is a predicate on the image, [consistent]; the theorem is
    that the check finds nothing exactly when it holds. *)

From S2P Require Export Still Mutation.

(** The messages of the check, with their operands. *)
Inductive Issue : Type :=
  | CannotReadSuperblock (err : error)
  | SuperblockInvalid (err : error)
  | CannotReadRoot
  | RootNotDirectory
  | RootDotWrong
  | RootDotDotWrong
  | CannotReadBlockBitmap
  | FreeBlocksMismatch (inSuperblock inBitmap : Z)
  | CannotReadInodeBitmap
  | FreeInodesMismatch (inSuperblock inBitmap : Z)
  | InodeUnreadable (inum : Z) (err : error)
  | InvalidFileType (inum ft : Z)
  | EntryUnallocated (inum : Z) (name : list byte) (target : Z)
  | BlockNotMarked (inum blk : Z)
  | BlockDoublyReferenced (blk prev inum : Z)
  | CircularDirectory (target : Z) (name : list byte) (dir : Z)
  | Orphan (inum : Z).

Record FsckResult : Type := mkFsckResult { Clean : bool; Issues : list Issue; Fixed : list string }.

(** [result.Clean = false; result.Issues = append(result.Issues, i)] *)
Definition report (i : Issue) (r : FsckResult) : FsckResult := mkFsckResult false (Issues r ++ [i]) (Fixed r).
Definition reportIf (b : bool) (i : Issue) (r : FsckResult) : FsckResult := if b then report i r else r.

(** A loop that updates local variables. *)
Fixpoint foldEach {S A B} (body : A -> B -> M S B) (l : list A) (v : B) : M S B :=
  match l with
  | [] => mret v
  | x :: l => v ← body x v; foldEach body l v
  end.

(** [e.Name == "." || e.Name == ".." || e.Inode == 0] *)
Definition skipped (e : DirEntry) : bool :=
  bool_decide (de_Name e = dot) || bool_decide (de_Name e = dotdot) || (de_Inode e =? 0).

(** [for inum := uint32(1); inum <= InodeCount; inum++] *)
Definition inums : list Z := seqZ 1 InodeCount.

Lemma elem_of_inums i : i ∈ inums <-> 1 <= i <= InodeCount.
Proof. rewrite elem_of_seqZ. unfold InodeCount. lia. Qed.
#[global] Opaque inums.

(** Check 3. *)
Definition checkDot (root : DiskInode) (name : list byte) (i : Issue) (r : FsckResult) : M BlockDevice FsckResult :=
  found ← tryM (LookupEntry root name);
  mret (reportIf (match found with inl (inum, _) => negb (inum =? 1) | inr _ => true end) i r).

(** Checks 4 and 5. *)
Definition checkCount (bm : Bitmap + error) (total free : Z) (unreadable : Issue) (mismatch : Z -> Z -> Issue)
    (r : FsckResult) : FsckResult :=
  match bm with
  | inr _ => report unreadable r
  | inl bm =>
      let expected := u32 (total - Count bm) in
      reportIf (negb (expected =? free)) (mismatch free expected) r
  end.

(** Check 6. *)
Definition checkType (inodeBM : Bitmap) (inum : Z) (r : FsckResult) : M BlockDevice FsckResult :=
  if negb (IsSet inodeBM (inum - 1)) then mret r
  else
    di ← tryM (ReadInode inum);
    match di with
    | inr err => mret (report (InodeUnreadable inum err) r)
    | inl di =>
        let ft := Z.land (Mode di) 0xF000 in
        mret (reportIf (negb (ft =? 0x8000) && negb (ft =? 0x4000) && negb (ft =? 0xA000)) (InvalidFileType inum ft) r)
    end.

(** The entries of an inode, none when it is unreadable or no directory. *)
Definition entriesOf (inum : Z) : M BlockDevice (list DirEntry) :=
  di ← tryM (ReadInode inum);
  match di with
  | inr _ => mret []
  | inl di =>
      if negb (IsDir di) then mret []
      else
        entries ← tryM (ReadAllEntries di);
        mret (match entries with inl entries => entries | inr _ => [] end)
  end.

(** Check 7. *)
Definition checkEntries (inodeBM : Bitmap) (inum : Z) (r : FsckResult) : M BlockDevice FsckResult :=
  if negb (IsSet inodeBM (inum - 1)) then mret r
  else
    entries ← entriesOf inum;
    mret (foldl (fun r e =>
      if skipped e then r
      else reportIf (negb (IsSet inodeBM (u32 (de_Inode e - 1)))) (EntryUnallocated inum (de_Name e) (de_Inode e)) r)
      r entries).

(** The blocks of an inode, none when they are unreadable. *)
Definition blocksOf (inum : Z) : M BlockDevice (list Z) :=
  di ← tryM (ReadInode inum);
  match di with
  | inr _ => mret []
  | inl di =>
      blks ← tryM (BlockList di);
      mret (match blks with inl blks => blks | inr _ => [] end)
  end.

(** Check 8, with the map from blocks to the first inode that has them. *)
Definition checkBlock (blockBM : Bitmap) (inum : Z) (s : FsckResult * gmap Z Z) (blk : Z) : FsckResult * gmap Z Z :=
  let '(r, refBlocks) := s in
  if blk =? 0 then s
  else
    let r := reportIf (negb (IsSet blockBM blk)) (BlockNotMarked inum blk) r in
    match refBlocks !! blk with
    | Some prev => (report (BlockDoublyReferenced blk prev inum) r, refBlocks)
    | None => (r, <[blk := inum]> refBlocks)
    end.
Definition checkBlocks (blockBM inodeBM : Bitmap) (inum : Z) (s : FsckResult * gmap Z Z)
    : M BlockDevice (FsckResult * gmap Z Z) :=
  if negb (IsSet inodeBM (inum - 1)) then mret s
  else
    blks ← blocksOf inum;
    mret (foldl (checkBlock blockBM inum) s blks).

(** Check 9: one entry of the directory [cur], met by the search. *)
Definition visitEntry (cur : Z) (e : DirEntry) (s : FsckResult * gset Z * list Z)
    : M BlockDevice (FsckResult * gset Z * list Z) :=
  let '(r, visited, queue) := s in
  if skipped e then mret s
  else if decide (de_Inode e ∈ visited) then
    child ← tryM (ReadInode (de_Inode e));
    mret (reportIf (match child with inl child => IsDir child | inr _ => false end)
            (CircularDirectory (de_Inode e) (de_Name e) cur) r, visited, queue)
  else mret (r, {[de_Inode e]} ∪ visited, queue ++ [de_Inode e]).

(** The search from the root; [None] when [fuel] turns do not empty the queue. *)
Fixpoint search (fuel : nat) (queue : list Z) (visited : gset Z) (r : FsckResult)
    : M BlockDevice (option (FsckResult * gset Z)) :=
  match queue with
  | [] => mret (Some (r, visited))
  | cur :: queue =>
      match fuel with
      | O => mret None
      | S fuel =>
          entries ← entriesOf cur;
          '(r, visited, queue) ← foldEach (visitEntry cur) entries (r, visited, queue);
          search fuel queue visited r
      end
  end.

(** Check 10. *)
Definition checkOrphans (inodeBM : Bitmap) (visited : gset Z) (r : FsckResult) : FsckResult :=
  foldl (fun r inum => reportIf (IsSet inodeBM (inum - 1) && negb (bool_decide (inum ∈ visited))) (Orphan inum) r) r inums.

(** Checks 6 to 10, on the bitmaps that could be read. *)
Definition checkInodes (fuel : nat) (blockBM inodeBM : Bitmap + error) (r : FsckResult)
    : M BlockDevice (option FsckResult) :=
  match inodeBM with
  | inr _ => mret (Some r)
  | inl inodeBM =>
      r ← foldEach (checkType inodeBM) inums r;
      r ← foldEach (checkEntries inodeBM) inums r;
      r ← (match blockBM with
           | inr _ => mret r
           | inl blockBM =>
               '(r, _) ← foldEach (checkBlocks blockBM inodeBM) inums (r, ∅);
               mret r
           end);
      found ← search fuel [1] {[1]} r;
      mret ((fun rv : FsckResult * gset Z => checkOrphans inodeBM rv.2 rv.1) <$> found)
  end.

Definition FsckFull (fuel : nat) : M BlockDevice (option FsckResult) :=
  let r := mkFsckResult true [] [] in
  sb ← tryM ReadSuperblock;
  match sb with
  | inr err => mret (Some (report (CannotReadSuperblock err) r))
  | inl sb =>
      let r := match Validate sb with Err err => report (SuperblockInvalid err) r | _ => r end in
      root ← tryM (ReadInode 1);
      match root with
      | inr _ => mret (Some (report CannotReadRoot r))
      | inl root =>
          let r := reportIf (negb (IsDir root)) RootNotDirectory r in
          r ← checkDot root dot RootDotWrong r;
          r ← checkDot root dotdot RootDotDotWrong r;
          blockBM ← tryM ReadBlockBitmap;
          let r := checkCount blockBM TotalBlocks (FreeBlocks sb) CannotReadBlockBitmap FreeBlocksMismatch r in
          inodeBM ← tryM ReadInodeBitmap;
          let r := checkCount inodeBM InodeCount (FreeInodes sb) CannotReadInodeBitmap FreeInodesMismatch r in
          checkInodes fuel blockBM inodeBM r
      end
  end.

(** ** Inode numbers of entries are 32-bit *)

Lemma iterBlock_pred {V} (fn : DirEntry -> Z -> nat -> V -> V * bool) (Q : V -> Prop) fuel blk b off v :
  (forall de b off v, is_u32 (de_Inode de) -> Q v -> Q (fn de b off v).1) ->
  Q v -> Q (iterBlock fn fuel blk b off v).1.
Proof.
  intros Hf. revert off v. induction fuel as [|fuel IH]; intros off v Hv; [done|]. cbn [iterBlock].
  destruct (moreEntries off); [|done]. destruct (ParseDirEntry (drop off blk)) as [[de n]|e|] eqn:E; [|done..].
  apply ParseDirEntry_bounds in E as (_ & _ & _ & _ & Hu & _).
  destruct (n =? 0); [done|]. destruct (negb _); [|by apply IH].
  specialize (Hf de b off v Hu Hv). destruct (fn de b off v) as [v' []]; cbn [negb]; [by apply IH|done].
Qed.

Lemma iterBlocks_pred {V} (fn : DirEntry -> Z -> nat -> V -> V * bool) (Q : V -> Prop) di bs v d v' d' :
  (forall de b off v, is_u32 (de_Inode de) -> Q v -> Q (fn de b off v).1) ->
  Q v -> iterBlocks fn di bs v d = (Ok v', d') -> Q v'.
Proof.
  intros Hf. revert v d. induction bs as [|b bs IH]; intros v d Hv; cbn [iterBlocks]; [by intros [= <- _]|].
  intros (p & d1 & _ & E)%bind_ok_inv. destruct (p =? 0); [by apply (IH v d1)|].
  apply bind_ok_inv in E as (blk & d2 & _ & E).
  pose proof (iterBlock_pred fn Q turns blk b 0 v Hf Hv) as HQ. destruct (iterBlock fn turns blk b 0 v) as [v1 []].
  - by apply (IH v1 d2).
  - by injection E as <- _.
Qed.

Lemma ReadAllEntries_u32 di d es d' :
  ReadAllEntries di d = (Ok es, d') -> Forall (fun e => is_u32 (de_Inode e)) es.
Proof.
  rewrite /ReadAllEntries /IterDirEntries. destruct (SizeOf di =? 0); [by intros [= <- _]|].
  apply (iterBlocks_pred _ (Forall (fun e => is_u32 (de_Inode e)))); [|done].
  intros de b off l Hu Hl. cbn [fst]. apply Forall_app. by rewrite Forall_singleton.
Qed.

(** ** Reading the image *)

Lemma entriesOf_still inum : keeps still (entriesOf inum).
Proof. rewrite /entriesOf. quiet_solve. Qed.
Lemma blocksOf_still inum : keeps still (blocksOf inum).
Proof. rewrite /blocksOf. quiet_solve. Qed.
Lemma entriesOf_total inum : total (entriesOf inum).
Proof. rewrite /entriesOf. total_solve. Qed.
Lemma blocksOf_total inum : total (blocksOf inum).
Proof. rewrite /blocksOf. total_solve. Qed.

(** ** What the image holds *)

Definition entries (d : BlockDevice) (inum : Z) : list DirEntry := default [] (value (entriesOf inum) d).
(** The inodes the entries of a directory name, but for the dot entries. *)
Definition kids (d : BlockDevice) (inum : Z) : list Z :=
  de_Inode <$> filter (fun e => skipped e = false) (entries d inum).
Definition is_dir (d : BlockDevice) (inum : Z) : bool :=
  match value (ReadInode inum) d with Some di => IsDir di | None => false end.
Definition blocks (d : BlockDevice) (inum : Z) : list Z :=
  filter (fun b => b <> 0) (default [] (value (blocksOf inum) d)).

Definition reachable (d : BlockDevice) (inum : Z) : Prop := rtc (fun p c => c ∈ kids d p) 1 inum.
Definition allocated (inodeBM : Bitmap) (inum : Z) : Prop :=
  1 <= inum <= InodeCount /\ IsSet inodeBM (inum - 1) = true.
Definition allocatedInums (inodeBM : Bitmap) : list Z := filter (fun i => IsSet inodeBM (i - 1) = true) inums.

(** Every directory occurs once: as the root, or as one entry of one
    directory that can be reached. *)
Definition tree_shaped (d : BlockDevice) : Prop :=
  exists order, NoDup order /\ (forall x, x ∈ order <-> reachable d x) /\
    NoDup (filter (fun c => is_dir d c = true) (1 :: (order ≫= kids d))).

Record consistent_with (d : BlockDevice) (sb : DiskSuperblock) (root : DiskInode) (blockBM inodeBM : Bitmap) : Prop := {
  co_magic : Validate sb = Ok tt;
  co_root : IsDir root = true;
  co_dot : exists ft, value (LookupEntry root dot) d = Some (1, ft);
  co_dotdot : exists ft, value (LookupEntry root dotdot) d = Some (1, ft);
  co_freeBlocks : u32 (TotalBlocks - Count blockBM) = FreeBlocks sb;
  co_freeInodes : u32 (InodeCount - Count inodeBM) = FreeInodes sb;
  co_types : forall i, allocated inodeBM i -> exists di, value (ReadInode i) d = Some di /\
               (FileType di = S_IFREG \/ FileType di = S_IFDIR \/ FileType di = S_IFLNK);
  co_entries : forall i c, allocated inodeBM i -> c ∈ kids d i -> allocated inodeBM c;
  co_marked : forall i b, allocated inodeBM i -> b ∈ blocks d i -> IsSet blockBM b = true;
  co_once : NoDup (allocatedInums inodeBM ≫= blocks d);
  co_tree : tree_shaped d;
  co_reach : forall i, allocated inodeBM i -> reachable d i;
}.

Definition consistent (d : BlockDevice) : Prop :=
  exists sb root blockBM inodeBM,
    value ReadSuperblock d = Some sb /\ value (ReadInode 1) d = Some root /\
    value ReadBlockBitmap d = Some blockBM /\ value ReadInodeBitmap d = Some inodeBM /\
    consistent_with d sb root blockBM inodeBM.

(** ** Results that say what they should *)

(** The result has an issue exactly when it is not clean, and is clean exactly
    when [P] holds. *)
Definition sound (r : FsckResult) (P : Prop) : Prop :=
  (Clean r = true <-> Issues r = []) /\ (Clean r = true <-> P).

Lemma sound_iff r P Q : sound r P -> (P <-> Q) -> sound r Q.
Proof. rewrite /sound. naive_solver. Qed.

Lemma sound_report r P Q i : sound r P -> ~ Q -> sound (report i r) Q.
Proof. intros _ HQ. split; simpl; split; try done. by destruct (Issues r). Qed.

Lemma sound_reportIf r P b i : sound r P -> sound (reportIf b i r) (P /\ b = false).
Proof.
  intros H. destruct b; simpl; [by apply (sound_report _ _ _ _ H); intros []|].
  apply (sound_iff _ _ _ H). naive_solver.
Qed.

Lemma foldl_sound {A} (f : FsckResult -> A -> FsckResult) (ok : A -> Prop) l r P :
  (forall x r P, sound r P -> sound (f r x) (P /\ ok x)) -> sound r P -> sound (foldl f r l) (P /\ Forall ok l).
Proof.
  intros Hf. revert r P. induction l as [|x l IH]; intros r P H; simpl.
  - apply (sound_iff _ _ _ H). rewrite Forall_nil. naive_solver.
  - apply (sound_iff _ _ _ (IH _ _ (Hf x r P H))). rewrite Forall_cons. naive_solver.
Qed.

(** ** Blocks with one owner *)

Definition fresh (seen bs : list Z) : Prop := NoDup bs /\ forall b, b ∈ bs -> b ∉ seen.

Lemma fresh_app seen l1 l2 : fresh seen (l1 ++ l2) <-> fresh seen l1 /\ fresh (seen ++ l1) l2.
Proof.
  rewrite /fresh NoDup_app. setoid_rewrite elem_of_app. naive_solver.
Qed.
Lemma fresh_one seen b : fresh seen [b] <-> b ∉ seen.
Proof.
  rewrite /fresh. setoid_rewrite list_elem_of_singleton. split; [naive_solver|].
  intros H. split; [apply NoDup_singleton|by intros ? ->].
Qed.

Section owners.
Context (blockBM : Bitmap).

(** The blocks met so far are the keys of the map. *)
Definition refs_ok (seen : list Z) (s : FsckResult * gmap Z Z) (P : Prop) : Prop :=
  sound s.1 P /\ dom s.2 = list_to_set (C := gset Z) seen.

Lemma checkBlock_ok inum seen s P b :
  refs_ok seen s P ->
  refs_ok (seen ++ filter (fun b => b <> 0) [b]) (checkBlock blockBM inum s b)
    (P /\ Forall (fun b => IsSet blockBM b = true) (filter (fun b => b <> 0) [b]) /\
     fresh seen (filter (fun b => b <> 0) [b])).
Proof.
  intros [H Hd]. destruct s as [r refs]. cbn [fst snd] in *. rewrite /checkBlock.
  destruct (Z.eqb_spec b 0) as [->|Hb].
  { rewrite filter_cons_False; [naive_solver|]. rewrite filter_nil app_nil_r. split; [|done].
    apply (sound_iff _ _ _ H). rewrite /fresh Forall_nil. split; [|naive_solver].
    intros. split_and!; [done|done|apply NoDup_nil_2|set_solver]. }
  rewrite filter_cons_True // filter_nil.
  pose proof (sound_reportIf r P (negb (IsSet blockBM b)) (BlockNotMarked inum b) H) as H1.
  assert (is_Some (refs !! b) <-> b ∈ seen) as Hin.
  { rewrite -elem_of_dom Hd. apply elem_of_list_to_set. }
  destruct (refs !! b) as [prev|] eqn:E.
  - split; cbn [fst snd].
    + apply (sound_report _ _ _ _ H1). rewrite fresh_one. intros (_ & _ & Hn). apply Hn, Hin. by eexists.
    + rewrite Hd list_to_set_app_L. assert (b ∈ seen) by (apply Hin; by eexists). set_solver.
  - assert (b ∉ seen) as Hn by (intros [? ?]%Hin; done). split; cbn [fst snd].
    + apply (sound_iff _ _ _ H1). rewrite negb_false_iff Forall_singleton fresh_one. naive_solver.
    + rewrite dom_insert_L Hd list_to_set_app_L. set_solver.
Qed.

Lemma checkBlock_list inum bs seen s P :
  refs_ok seen s P ->
  refs_ok (seen ++ filter (fun b => b <> 0) bs) (foldl (checkBlock blockBM inum) s bs)
    (P /\ Forall (fun b => IsSet blockBM b = true) (filter (fun b => b <> 0) bs) /\
     fresh seen (filter (fun b => b <> 0) bs)).
Proof.
  revert seen s P. induction bs as [|b bs IH]; intros seen s P H.
  - rewrite filter_nil app_nil_r. destruct H as [H Hd]. split; [|done]. apply (sound_iff _ _ _ H).
    rewrite /fresh Forall_nil. split; [|naive_solver]. intros. split_and!; [done|done|apply NoDup_nil_2|set_solver].
  - pose proof (IH _ _ _ (checkBlock_ok inum seen s P b H)) as [H2 D2].
    change (b :: bs) with ([b] ++ bs). rewrite filter_app. split.
    + apply (sound_iff _ _ _ H2). rewrite fresh_app Forall_app. tauto.
    + by rewrite app_assoc.
Qed.

End owners.

(** ** The search, on lists *)

(** The first occurrences in [cs] of what is not in [K]. *)
Fixpoint news (K cs : list Z) : list Z :=
  match cs with
  | [] => []
  | c :: cs => if decide (c ∈ K) then news (K ++ [c]) cs else c :: news (K ++ [c]) cs
  end.

Lemma elem_of_news K cs x : x ∈ news K cs <-> x ∈ cs /\ x ∉ K.
Proof.
  revert K. induction cs as [|c cs IH]; intros K; cbn [news]; [set_solver|].
  destruct (decide (c ∈ K)); rewrite ?elem_of_cons IH not_elem_of_app list_elem_of_singleton; [set_solver|].
  destruct (decide (x = c)) as [->|]; set_solver.
Qed.

Lemma NoDup_news K cs : NoDup (news K cs).
Proof.
  revert K. induction cs as [|c cs IH]; intros K; cbn [news]; [apply NoDup_nil_2|].
  destruct (decide (c ∈ K)); [done|]. apply NoDup_cons. split; [|done]. rewrite elem_of_news. set_solver.
Qed.

Section image.
Context (d : BlockDevice).

Definition dirs (l : list Z) : list Z := filter (fun c => is_dir d c = true) l.

Lemma dirs_snoc K c : NoDup (dirs (K ++ [c])) <-> NoDup (dirs K) /\ (c ∈ K -> is_dir d c = false).
Proof.
  rewrite /dirs filter_app NoDup_app filter_cons filter_nil. setoid_rewrite list_elem_of_filter.
  destruct (decide (is_dir d c = true)) as [H|H].
  - setoid_rewrite list_elem_of_singleton. split.
    + intros (H1 & H2 & _). split; [done|]. intros Hc. exfalso. by apply (H2 c).
    + intros [H1 H2]. split_and!; [done| |apply NoDup_singleton]. intros x [Hx HK] ->.
      by rewrite H2 in Hx.
  - apply not_true_is_false in H. split; [naive_solver|]. intros [H1 _]. split_and!; [done|set_solver|apply NoDup_nil_2].
Qed.

(** After the directories [done], with [queue] still to visit. *)
Definition met (done : list Z) : list Z := 1 :: (done ≫= kids d).

Record searching (done queue : list Z) : Prop := {
  se_nodup : NoDup (done ++ queue);
  se_met : forall x, x ∈ done ++ queue <-> x ∈ met done;
  se_reach : forall x, x ∈ met done -> reachable d x;
}.

Lemma met_snoc done cur : met (done ++ [cur]) = met done ++ kids d cur.
Proof. by rewrite /met bind_app bind_singleton. Qed.

Lemma searching_step done cur queue :
  searching done (cur :: queue) -> searching (done ++ [cur]) (queue ++ news (met done) (kids d cur)).
Proof.
  intros [H1 H2 H3]. assert (reachable d cur) as Hcur by (apply H3, H2; set_solver).
  replace ((done ++ [cur]) ++ queue ++ news (met done) (kids d cur))
    with ((done ++ cur :: queue) ++ news (met done) (kids d cur)) in * by by rewrite -!app_assoc.
  split; rewrite ?met_snoc.
  - rewrite -!app_assoc. cbn [app]. change (cur :: queue ++ ?l) with ((cur :: queue) ++ l). rewrite app_assoc.
    apply NoDup_app. split_and!; [done| |apply NoDup_news]. intros x Hx. rewrite elem_of_news -H2. naive_solver.
  - intros x. rewrite -!app_assoc. cbn [app]. change (cur :: queue ++ ?l) with ((cur :: queue) ++ l). rewrite app_assoc.
    rewrite !(elem_of_app _ (news _ _)) elem_of_news H2 elem_of_app. destruct (decide (x ∈ met done)); naive_solver.
  - intros x. rewrite elem_of_app. intros [Hx|Hx]; [auto|]. exact (rtc_r 1 cur x Hcur Hx).
Qed.

Lemma searching_end done : searching done [] -> forall x, x ∈ done <-> reachable d x.
Proof.
  intros [_ H2 H3] x. rewrite app_nil_r in H2. split; [intros Hx; by apply H3, H2|].
  revert x. apply rtc_ind_r; [apply H2; left|]. intros y z _ Hz IH. apply H2. right.
  apply list_elem_of_bind. by exists y.
Qed.

End image.

Section healthy.
Context (d : BlockDevice) (Hh : healthy d).

(** A computation that returns a value on every path. *)
Lemma listed_run {A} (m : M BlockDevice (list A)) :
  keeps still m -> total m -> (forall e, (m d).1 <> Err e) -> m d = (Ok (default [] (value m d)), d).
Proof.
  intros Hs Ht He. specialize (Hs d Hh). specialize (Ht d). rewrite /value.
  destruct (m d) as [[a|e|] d']; cbn [fst snd] in *; subst; [done|by destruct (He e)|done].
Qed.

Lemma entriesOf_run inum : entriesOf inum d = (Ok (entries d inum), d).
Proof.
  apply listed_run; [apply entriesOf_still|apply entriesOf_total|]. intros e. rewrite /entriesOf.
  destruct (value_run d Hh _ (ReadInode_still inum) (ReadInode_total inum)) as ([di|e'] & E & _);
    rewrite (bind_ok _ _ _ _ _ E); [|done]. destruct (negb (IsDir di)); [done|].
  destruct (value_run d Hh _ (ReadAllEntries_still di) (ReadAllEntries_total di)) as (r & E2 & _).
  by rewrite (bind_ok _ _ _ _ _ E2).
Qed.

Lemma blocksOf_run inum : blocksOf inum d = (Ok (default [] (value (blocksOf inum) d)), d).
Proof.
  apply listed_run; [apply blocksOf_still|apply blocksOf_total|]. intros e. rewrite /blocksOf.
  destruct (value_run d Hh _ (ReadInode_still inum) (ReadInode_total inum)) as ([di|e'] & E & _);
    rewrite (bind_ok _ _ _ _ _ E); [|done].
  destruct (value_run d Hh _ (BlockList_still di) (BlockList_total di)) as (r & E2 & _).
  by rewrite (bind_ok _ _ _ _ _ E2).
Qed.

(** A loop of checks. *)
Lemma foldEach_sound {A} (body : A -> FsckResult -> M BlockDevice FsckResult) (ok : A -> Prop) l r P :
  (forall x r P, sound r P -> exists r', body x r d = (Ok r', d) /\ sound r' (P /\ ok x)) ->
  sound r P -> exists r', foldEach body l r d = (Ok r', d) /\ sound r' (P /\ Forall ok l).
Proof.
  intros Hf. revert r P. induction l as [|x l IH]; intros r P H; cbn [foldEach].
  - exists r. split; [done|]. apply (sound_iff _ _ _ H). rewrite Forall_nil. naive_solver.
  - destruct (Hf x r P H) as (r1 & E1 & H1). rewrite (bind_ok _ _ _ _ _ E1).
    destruct (IH r1 _ H1) as (r2 & E2 & H2). exists r2. split; [done|].
    apply (sound_iff _ _ _ H2). rewrite Forall_cons. naive_solver.
Qed.

(** ** The checks one by one *)

Lemma checkDot_sound root name i r P :
  sound r P ->
  exists r', checkDot root name i r d = (Ok r', d) /\
    sound r' (P /\ exists ft, value (LookupEntry root name) d = Some (1, ft)).
Proof.
  intros H. rewrite /checkDot.
  destruct (value_run d Hh _ (LookupEntry_still root name) (LookupEntry_total root name)) as (v & E & Ev).
  rewrite (bind_ok _ _ _ _ _ E). eexists. split; [done|]. rewrite Ev.
  apply (sound_iff _ _ _ (sound_reportIf _ _ _ _ H)). destruct v as [[inum ft]|e]; cbn.
  - destruct (inum =? 1) eqn:Ei; simpl_bool; naive_solver.
  - naive_solver.
Qed.

Lemma checkCount_sound bm total free i mm r P :
  sound r P ->
  sound (checkCount bm total free i mm r)
    (P /\ match bm with inl bm => u32 (total - Count bm) = free | inr _ => False end).
Proof.
  intros H. rewrite /checkCount. destruct bm as [bm|e].
  - apply (sound_iff _ _ _ (sound_reportIf _ _ _ _ H)).
    destruct (u32 (total - Count bm) =? free) eqn:E; simpl_bool; naive_solver.
  - apply (sound_report _ _ _ _ H). naive_solver.
Qed.

Section bitmaps.
Context (inodeBM : Bitmap).

Definition type_ok (inum : Z) : Prop :=
  IsSet inodeBM (inum - 1) = true ->
  exists di, value (ReadInode inum) d = Some di /\
    (FileType di = S_IFREG \/ FileType di = S_IFDIR \/ FileType di = S_IFLNK).

Lemma checkType_sound inum r P :
  sound r P -> exists r', checkType inodeBM inum r d = (Ok r', d) /\ sound r' (P /\ type_ok inum).
Proof.
  intros H. rewrite /checkType /type_ok. destruct (IsSet inodeBM (inum - 1)); cbn [negb].
  2: { exists r. split; [done|]. apply (sound_iff _ _ _ H). naive_solver. }
  destruct (value_run d Hh _ (ReadInode_still inum) (ReadInode_total inum)) as ([di|e] & E & Ev);
    rewrite (bind_ok _ _ _ _ _ E) Ev; (eexists; split; [done|]).
  - apply (sound_iff _ _ _ (sound_reportIf _ _ _ _ H)).
    change (Z.land (Mode di) 0xF000) with (FileType di).
    rewrite !andb_false_iff !negb_false_iff !Z.eqb_eq. change 0x8000 with S_IFREG. change 0x4000 with S_IFDIR.
    change 0xA000 with S_IFLNK. naive_solver.
  - apply (sound_report _ _ _ _ H). intros [_ (di & ? & _)]; done.
Qed.

Definition kids_ok (inum : Z) : Prop :=
  IsSet inodeBM (inum - 1) = true -> forall c, c ∈ kids d inum -> IsSet inodeBM (u32 (c - 1)) = true.

Lemma elem_of_kids inum c : c ∈ kids d inum <-> exists e, e ∈ entries d inum /\ skipped e = false /\ c = de_Inode e.
Proof. rewrite /kids list_elem_of_fmap. setoid_rewrite list_elem_of_filter. naive_solver. Qed.

Lemma checkEntries_sound inum r P :
  sound r P -> exists r', checkEntries inodeBM inum r d = (Ok r', d) /\ sound r' (P /\ kids_ok inum).
Proof.
  intros H. rewrite /checkEntries /kids_ok. destruct (IsSet inodeBM (inum - 1)); cbn [negb].
  2: { exists r. split; [done|]. apply (sound_iff _ _ _ H). naive_solver. }
  rewrite (bind_ok _ _ _ _ _ (entriesOf_run inum)). eexists. split; [done|].
  eapply sound_iff; [apply (foldl_sound _
    (fun e => skipped e = false -> IsSet inodeBM (u32 (de_Inode e - 1)) = true) _ _ _) with (2 := H)|].
  - intros e r0 P0 H0. destruct (skipped e); [apply (sound_iff _ _ _ H0); naive_solver|].
    apply (sound_iff _ _ _ (sound_reportIf _ _ _ _ H0)). rewrite negb_false_iff. naive_solver.
  - rewrite Forall_forall. setoid_rewrite elem_of_kids. naive_solver.
Qed.

Context (blockBM : Bitmap).

Lemma checkBlocks_run l seen s P :
  refs_ok seen s P ->
  exists s', foldEach (checkBlocks blockBM inodeBM) l s d = (Ok s', d) /\
    sound s'.1 (P /\ Forall (fun b => IsSet blockBM b = true) (filter (fun i => IsSet inodeBM (i - 1) = true) l ≫= blocks d) /\
                fresh seen (filter (fun i => IsSet inodeBM (i - 1) = true) l ≫= blocks d)).
Proof.
  revert seen s P. induction l as [|i l IH]; intros seen s P H; cbn [foldEach].
  - exists s. split; [done|]. rewrite filter_nil. cbn [mbind list_bind]. apply (sound_iff _ _ _ (proj1 H)).
    rewrite /fresh Forall_nil. split; [|naive_solver]. intros. split_and!; [done|done|apply NoDup_nil_2|set_solver].
  - rewrite filter_cons. assert (checkBlocks blockBM inodeBM i s d =
      (Ok (if IsSet inodeBM (i - 1) then foldl (checkBlock blockBM i) s (default [] (value (blocksOf i) d)) else s), d)) as E.
    { rewrite /checkBlocks. destruct (IsSet inodeBM (i - 1)); cbn [negb]; [|done].
      by rewrite (bind_ok _ _ _ _ _ (blocksOf_run i)). }
    rewrite (bind_ok _ _ _ _ _ E). destruct (IsSet inodeBM (i - 1)).
    + destruct (decide (true = true)); [|done]. destruct (IH _ _ _ (checkBlock_list blockBM i (default [] (value (blocksOf i) d)) seen s P H)) as (s' & E' & H').
      exists s'. split; [done|]. apply (sound_iff _ _ _ H'). rewrite bind_cons Forall_app fresh_app. tauto.
    + destruct (decide (false = true)); [done|]. by apply (IH seen).
Qed.

End bitmaps.

(** ** The search from the root *)

Definition visits (K : list Z) (P : Prop) (q : list Z) (s : FsckResult * gset Z * list Z) : Prop :=
  sound s.1.1 (P /\ NoDup (dirs d K)) /\ s.1.2 = list_to_set K /\ s.2 = q.

Lemma visitEntry_ok cur e K P q s :
  visits K P q s ->
  exists s', visitEntry cur e s d = (Ok s', d) /\
    if skipped e then s' = s
    else visits (K ++ [de_Inode e]) P (q ++ if decide (de_Inode e ∈ K) then [] else [de_Inode e]) s'.
Proof.
  destruct s as [[r visited] q']. intros (H & Hv & Hq). cbn [fst snd] in *. subst visited q'.
  rewrite /visitEntry. destruct (skipped e); [by eexists|]. set (c := de_Inode e).
  destruct (decide (c ∈ list_to_set (C := gset Z) K)) as [Hc|Hc]; rewrite elem_of_list_to_set in Hc.
  - rewrite (decide_True _ _ Hc).
    destruct (value_run d Hh _ (ReadInode_still c) (ReadInode_total c)) as (v & E & Ev). rewrite (bind_ok _ _ _ _ _ E).
    eexists. split; [done|]. split_and!; cbn [fst snd]; [|rewrite list_to_set_app_L; set_solver|by rewrite app_nil_r].
    apply (sound_iff _ _ _ (sound_reportIf _ _ _ _ H)). rewrite dirs_snoc /is_dir Ev. destruct v; naive_solver.
  - rewrite (decide_False _ _ Hc). eexists. split; [done|]. split_and!; cbn [fst snd]; [|rewrite list_to_set_app_L; set_solver|done].
    apply (sound_iff _ _ _ H). rewrite dirs_snoc. naive_solver.
Qed.

Lemma visitEntries_ok cur es K P q s :
  visits K P q s ->
  exists s', foldEach (visitEntry cur) es s d = (Ok s', d) /\
    let cs := de_Inode <$> filter (fun e => skipped e = false) es in
    visits (K ++ cs) P (q ++ news K cs) s'.
Proof.
  revert K q s. induction es as [|e es IH]; intros K q s H; cbn [foldEach].
  - exists s. split; [done|]. by rewrite filter_nil /= !app_nil_r.
  - destruct (visitEntry_ok cur e K P q s H) as (s1 & E & H1). rewrite (bind_ok _ _ _ _ _ E).
    rewrite filter_cons. destruct (skipped e) eqn:Es.
    + subst s1. destruct (decide (true = false)); [done|]. by apply IH.
    + destruct (decide (false = false)); [|done]. destruct (IH _ _ _ H1) as (s2 & E2 & H2).
      exists s2. split; [done|]. cbn zeta in H2 |- *. rewrite fmap_cons.
      cbn [news]. rewrite -!app_assoc in H2. destruct (decide (de_Inode e ∈ K)); exact H2.
Qed.

Lemma kids_u32 inum c : c ∈ kids d inum -> is_u32 c.
Proof.
  intros (e & He & _ & ->)%elem_of_kids. revert He. rewrite /entries /value /entriesOf.
  destruct (value_run d Hh _ (ReadInode_still inum) (ReadInode_total inum)) as ([di|e'] & E & _);
    rewrite (bind_ok _ _ _ _ _ E); [|by intros ?%elem_of_nil]. destruct (negb (IsDir di)); [by intros ?%elem_of_nil|].
  rewrite /tryM /mbind /M_bind. destruct (ReadAllEntries di d) as [[es|e'|] d'] eqn:E2; cbn; try by intros ?%elem_of_nil.
  apply ReadAllEntries_u32 in E2. rewrite Forall_forall in E2. apply E2.
Qed.

Lemma reachable_u32 x : reachable d x -> is_u32 x.
Proof. revert x. apply rtc_ind_r; [done|]. intros y z _ Hz _. by apply (kids_u32 y). Qed.

Lemma searching_length done queue : searching d done queue -> Z.of_nat (length (done ++ queue)) <= 2 ^ 32.
Proof.
  intros [H1 H2 H3]. assert (length (done ++ queue) <= length (seqZ 0 (2 ^ 32)))%nat as H.
  - apply submseteq_length, NoDup_submseteq; [done|]. intros x Hx. apply elem_of_seqZ.
    apply H2, H3, reachable_u32 in Hx. unfold is_u32 in Hx. lia.
  - rewrite length_seqZ in H. lia.
Qed.

Lemma search_ok fuel done queue P r visited :
  searching d done queue -> visits (met d done) P queue (r, visited, queue) ->
  2 ^ 32 <= Z.of_nat (length done) + Z.of_nat fuel ->
  exists r' done', search fuel queue visited r d = (Ok (Some (r', list_to_set (met d done'))), d) /\
    sound r' (P /\ NoDup (dirs d (met d done'))) /\ searching d done' [].
Proof.
  revert done queue r visited. induction fuel as [|fuel IH]; intros done [|cur queue] r visited Hs Hv Hn.
  1, 3: destruct Hv as (H & Hv & _); cbn [fst snd] in *; subst visited; by exists r, done.
  - apply searching_length in Hs. rewrite length_app /= in Hs. lia.
  - cbn [search]. rewrite (bind_ok _ _ _ _ _ (entriesOf_run cur)).
    assert (visits (met d done) P queue (r, visited, queue)) as Hv' by (destruct Hv as (? & ? & _); by split_and!).
    destruct (visitEntries_ok cur (entries d cur) _ _ _ _ Hv') as ([[r1 v1] q1] & E & H1).
    rewrite (bind_ok _ _ _ _ _ E). cbn zeta in H1. fold (kids d cur) in H1. rewrite -met_snoc in H1.
    pose proof H1 as (_ & _ & Hq). cbn [snd] in Hq. subst q1.
    apply (IH (done ++ [cur])); [by apply searching_step|done|].
    rewrite length_app /=. lia.
Qed.

Lemma tree_shaped_iff done : searching d done [] -> NoDup (dirs d (met d done)) <-> tree_shaped d.
Proof.
  intros Hs. pose proof (searching_end d done Hs) as Hr. pose proof (se_nodup _ _ _ Hs) as Hn. rewrite app_nil_r in Hn.
  split; [by exists done|]. intros (order & Ho & Hor & H).
  assert (done ≡ₚ order) as Hp.
  { apply NoDup_Permutation; [done|done|]. intros x. by rewrite Hr Hor. }
  rewrite /dirs /met. by rewrite Hp.
Qed.

Lemma checkOrphans_sound inodeBM visited r P :
  sound r P ->
  sound (checkOrphans inodeBM visited r)
    (P /\ Forall (fun i => IsSet inodeBM (i - 1) = true -> i ∈ visited) inums).
Proof.
  intros H. rewrite /checkOrphans. apply foldl_sound; [|done]. intros i r0 P0 H0. apply (sound_iff _ _ _ (sound_reportIf _ _ _ _ H0)).
  rewrite andb_false_iff negb_false_iff bool_decide_eq_true. destruct (IsSet inodeBM (i - 1)); naive_solver.
Qed.

(** ** The whole check *)

Definition owned (inodeBM : Bitmap) (blockBM : Bitmap + error) : Prop :=
  match blockBM with
  | inl blockBM => Forall (fun b => IsSet blockBM b = true) (allocatedInums inodeBM ≫= blocks d) /\
                   NoDup (allocatedInums inodeBM ≫= blocks d)
  | inr _ => True
  end.

Lemma checkOwners_sound inodeBM blockBM r P :
  sound r P ->
  exists r', (match blockBM with
              | inr _ => mret r
              | inl blockBM => '(r, _) ← foldEach (checkBlocks blockBM inodeBM) inums (r, ∅); mret r
              end) d = (Ok r', d) /\ sound r' (P /\ owned inodeBM blockBM).
Proof.
  intros H. destruct blockBM as [blockBM|e].
  - destruct (checkBlocks_run inodeBM blockBM inums [] (r, ∅) P (conj H dom_empty_L)) as ([r1 refs] & E & H1).
    exists r1. split; [by rewrite (bind_ok _ _ _ _ _ E)|]. apply (sound_iff _ _ _ H1).
    rewrite /owned /fresh /allocatedInums. set_solver.
  - exists r. split; [done|]. apply (sound_iff _ _ _ H). rewrite /owned. tauto.
Qed.

Lemma checkInodes_sound fuel blockBM inodeBM r P :
  2 ^ 32 <= Z.of_nat fuel -> sound r P ->
  exists r', checkInodes fuel blockBM (inl inodeBM) r d = (Ok (Some r'), d) /\
    sound r' (P /\ Forall (type_ok inodeBM) inums /\ Forall (kids_ok inodeBM) inums /\
      owned inodeBM blockBM /\ tree_shaped d /\
      Forall (fun i => IsSet inodeBM (i - 1) = true -> reachable d i) inums).
Proof.
  intros Hfuel H. rewrite /checkInodes.
  destruct (foldEach_sound _ _ inums r P (checkType_sound inodeBM) H) as (r1 & E1 & H1).
  rewrite (bind_ok _ _ _ _ _ E1).
  destruct (foldEach_sound _ _ inums r1 _ (checkEntries_sound inodeBM) H1) as (r2 & E2 & H2).
  rewrite (bind_ok _ _ _ _ _ E2).
  destruct (checkOwners_sound inodeBM blockBM r2 _ H2) as (r3 & E3 & H3). rewrite (bind_ok _ _ _ _ _ E3).
  match type of H3 with sound _ ?Q => assert (visits (met d []) Q [1] (r3, {[1]}, [1])) as Hv end.
  { split_and!; cbn [fst snd]; [|by rewrite /met /=; set_solver|done].
    apply (sound_iff _ _ _ H3). split; [|by intros [? _]]. intros HP. split; [exact HP|].
    rewrite /dirs /met. apply NoDup_filter. cbn. apply NoDup_singleton. }
  assert (searching d [] [1]) as Hs.
  { split; [apply NoDup_singleton|done|]. intros x Hx. apply list_elem_of_singleton in Hx as ->. apply rtc_refl. }
  destruct (search_ok fuel [] [1] _ r3 {[1]} Hs Hv) as (r4 & done' & E4 & H4 & Hs4); [simpl; lia|].
  rewrite (bind_ok _ _ _ _ _ E4). eexists. split; [done|]. cbn [fst snd].
  apply (sound_iff _ _ _ (checkOrphans_sound inodeBM (list_to_set (met d done')) _ _ H4)).
  rewrite (tree_shaped_iff _ Hs4). pose proof (searching_end d done' Hs4) as Hr.
  assert (forall i, i ∈ list_to_set (C := gset Z) (met d done') <-> reachable d i) as Hm.
  { intros i. rewrite elem_of_list_to_set -Hr. rewrite -(se_met _ _ _ Hs4) app_nil_r. done. }
  rewrite !Forall_forall. setoid_rewrite Hm. tauto.
Qed.

Lemma elem_of_allocatedInums inodeBM i : i ∈ allocatedInums inodeBM <-> allocated inodeBM i.
Proof. rewrite /allocatedInums /allocated list_elem_of_filter elem_of_inums. tauto. Qed.

Lemma forall_inums inodeBM (Q : Z -> Prop) :
  Forall (fun i => IsSet inodeBM (i - 1) = true -> Q i) inums <-> (forall i, allocated inodeBM i -> Q i).
Proof.
  rewrite Forall_forall /allocated. setoid_rewrite elem_of_inums. naive_solver.
Qed.

(** An entry's inode number is never 0, so that its bit decides. *)
Lemma kids_allocated inodeBM i c :
  Bitmap.size inodeBM = InodeCount -> c ∈ kids d i ->
  IsSet inodeBM (u32 (c - 1)) = true <-> allocated inodeBM c.
Proof.
  intros Hsz Hc. pose proof (kids_u32 i c Hc) as Hu. apply elem_of_kids in Hc as (e & _ & Hs & ->).
  revert Hs. rewrite /skipped !orb_false_iff. intros [_ H0%Z.eqb_neq]. unfold is_u32 in Hu.
  rewrite u32_small; [lia|]. rewrite /allocated. split; [|by intros [_ ?]].
  intros H. split; [|done]. revert H. rewrite /IsSet Hsz. destruct (InodeCount <=? de_Inode e - 1) eqn:E; [done|].
  simpl_bool. lia.
Qed.

Lemma consistent_iff sb root blockBM inodeBM :
  Bitmap.size inodeBM = InodeCount ->
  consistent_with d sb root blockBM inodeBM <->
  Validate sb = Ok tt /\ IsDir root = true /\
  (exists ft, value (LookupEntry root dot) d = Some (1, ft)) /\
  (exists ft, value (LookupEntry root dotdot) d = Some (1, ft)) /\
  u32 (TotalBlocks - Count blockBM) = FreeBlocks sb /\ u32 (InodeCount - Count inodeBM) = FreeInodes sb /\
  Forall (type_ok inodeBM) inums /\ Forall (kids_ok inodeBM) inums /\ owned inodeBM (inl blockBM) /\
  tree_shaped d /\ Forall (fun i => IsSet inodeBM (i - 1) = true -> reachable d i) inums.
Proof.
  intros Hsz. rewrite /type_ok /kids_ok !forall_inums /owned Forall_forall.
  assert ((forall i, allocated inodeBM i -> forall c, c ∈ kids d i -> IsSet inodeBM (u32 (c - 1)) = true) <->
          (forall i c, allocated inodeBM i -> c ∈ kids d i -> allocated inodeBM c)) as ->.
  { split; intros H i; [intros c Hi Hc|intros Hi c Hc]; apply (kids_allocated inodeBM i c Hsz Hc); eauto. }
  assert ((forall b, b ∈ allocatedInums inodeBM ≫= blocks d -> IsSet blockBM b = true) <->
          (forall i b, allocated inodeBM i -> b ∈ blocks d i -> IsSet blockBM b = true)) as ->.
  { setoid_rewrite list_elem_of_bind. setoid_rewrite elem_of_allocatedInums. naive_solver. }
  split; [intros []; by split_and!|intros (?&?&?&?&?&?&?&?&(?&?)&?&?); by split].
Qed.

End healthy.

Lemma Validate_total sb : Validate sb <> Panic.
Proof. rewrite /Validate. by repeat case_if. Qed.

Lemma sound_False r : sound r False -> Clean r = true <-> False.
Proof. by intros [_ H]. Qed.

Lemma ReadInodeBitmap_size d bm : value ReadInodeBitmap d = Some bm -> Bitmap.size bm = InodeCount.
Proof.
  rewrite /value /ReadInodeBitmap /mbind /M_bind. destruct (wrapErr _ _ _ d) as [[b|e|] d']; cbn; [|done..].
  by intros [= <-].
Qed.

(** The order of the checks, as the order of the clauses of [consistent_iff]. *)
Lemma regroup (V R D1 D2 C1 C2 T K O S X : Prop) :
  ((((((V /\ R) /\ D1) /\ D2) /\ C1) /\ C2) /\ T /\ K /\ O /\ S /\ X) <->
  (V /\ R /\ D1 /\ D2 /\ C1 /\ C2 /\ T /\ K /\ O /\ S /\ X).
Proof. by rewrite -!assoc. Qed.

Lemma not_consistent d :
  value ReadSuperblock d = None \/ value (ReadInode 1) d = None \/ value ReadBlockBitmap d = None \/
  value ReadInodeBitmap d = None -> ~ consistent d.
Proof. intros H (sb & root & b1 & b2 & H1 & H2 & H3 & H4 & _). rewrite H1 H2 H3 H4 in H. naive_solver. Qed.

(** C4: the check decides consistency.  On a device that does not fail,
    [FsckFull] ends (2^32 turns of its search are always enough, as it visits
    an inode number once), leaves the device as it is, and is clean, without
    an issue, exactly when the image is consistent: the superblock is valid and
    its counts are those of the bitmaps, the root is a directory with both dot
    entries, the allocated inodes have a valid type and are reachable, the
    entries of directories name allocated inodes, every block of an inode is
    marked and has one owner, and every directory occurs once in the tree. *)
Theorem FsckFull_correct d fuel :
  healthy d -> 2 ^ 32 <= Z.of_nat fuel ->
  exists r, FsckFull fuel d = (Ok (Some r), d) /\
    (Clean r = true <-> consistent d) /\ (Clean r = true <-> Issues r = []).
Proof.
  intros Hh Hfuel.
  assert (forall r P, sound r P -> (P <-> consistent d) ->
    (Clean r = true <-> consistent d) /\ (Clean r = true <-> Issues r = [])) as Hend.
  { intros r P [H1 H2] HP. by rewrite -HP. }
  assert (sound (mkFsckResult true [] []) True) as H0 by done.
  rewrite /FsckFull.
  destruct (value_run d Hh _ ReadSuperblock_still ReadSuperblock_total) as ([sb|e] & E & Vsb);
    rewrite (bind_ok _ _ _ _ _ E); cycle 1.
  { eexists. split; [done|]. apply (Hend _ False); [by apply (sound_report _ True)|].
    split; [done|]. by apply not_consistent; left. }
  assert (sound (match Validate sb with Err err => report (SuperblockInvalid err) (mkFsckResult true [] [])
                 | _ => mkFsckResult true [] [] end) (Validate sb = Ok tt)) as H1.
  { pose proof (Validate_total sb). destruct (Validate sb) as [[]|e|]; [done| |done]. by apply (sound_report _ True). }
  destruct (value_run d Hh _ (ReadInode_still 1) (ReadInode_total 1)) as ([root|e] & E2 & Vroot);
    rewrite (bind_ok _ _ _ _ _ E2); cycle 1.
  { eexists. split; [done|]. apply (Hend _ False); [by apply (sound_report _ _ _ _ H1)|].
    split; [done|]. by apply not_consistent; right; left. }
  pose proof (sound_reportIf _ _ (negb (IsDir root)) RootNotDirectory H1) as H2.
  destruct (checkDot_sound d Hh root dot RootDotWrong _ _ H2) as (r3 & E3 & H3). rewrite (bind_ok _ _ _ _ _ E3).
  destruct (checkDot_sound d Hh root dotdot RootDotDotWrong _ _ H3) as (r4 & E4 & H4). rewrite (bind_ok _ _ _ _ _ E4).
  destruct (value_run d Hh _ ReadBlockBitmap_still ReadBlockBitmap_total) as (bb & E5 & Vbb).
  rewrite (bind_ok _ _ _ _ _ E5).
  pose proof (checkCount_sound bb TotalBlocks (FreeBlocks sb) CannotReadBlockBitmap FreeBlocksMismatch _ _ H4) as H5.
  destruct (value_run d Hh _ ReadInodeBitmap_still ReadInodeBitmap_total) as (ib & E6 & Vib).
  rewrite (bind_ok _ _ _ _ _ E6).
  pose proof (checkCount_sound ib InodeCount (FreeInodes sb) CannotReadInodeBitmap FreeInodesMismatch _ _ H5) as H6.
  destruct ib as [ib|e].
  2: { eexists. split; [done|]. apply (Hend _ _ H6). split; [by intros [_ []]|].
       intros H. destruct (not_consistent d); [by do 3 right|done]. }
  destruct (checkInodes_sound d Hh fuel bb ib _ _ Hfuel H6) as (r7 & E7 & H7). exists r7. split; [exact E7|].
  apply (Hend _ _ H7). destruct bb as [bb|e].
  2: { split; [by intros [[[_ []] _] _]|]. intros H. destruct (not_consistent d); [by do 2 right; left|done]. }
  pose proof (consistent_iff d Hh sb root bb ib (ReadInodeBitmap_size d ib Vib)) as Hiff.
  rewrite negb_false_iff. etransitivity; [apply regroup|]. etransitivity; [symmetry; exact Hiff|]. split.
  - intros H. by exists sb, root, bb, ib.
  - intros (sb' & root' & bb' & ib' & V1 & V2 & V3 & V4 & Hc).
    assert (sb' = sb /\ root' = root /\ bb' = bb /\ ib' = ib) as (-> & -> & -> & ->) by (split_and!; congruence).
    exact Hc.
Qed.

Lemma FsckFull_correct_witness :
  exists r, FsckFull (Z.to_nat (2 ^ 32)) demoDisk = (Ok (Some r), demoDisk) /\
    (Clean r = true <-> consistent demoDisk) /\ (Clean r = true <-> Issues r = []).
Proof. apply (FsckFull_correct demoDisk (Z.to_nat (2 ^ 32))); [exact (conj eq_refl eq_refl)|]. rewrite Z2Nat.id; done. Defined.
