(* ===== verification/Walk.v ===== *)
(** * Walk: what path resolution means, for [internal/ops/namei.go]

    The code walks on strings: it splits a path, and for a symbolic link joins
    the rest of the path to the target and starts again.  It reads inodes
    through the inode cache.  The specification is a relation on a device and
    on lists of components, without strings, caches or fuel: [walk]. *)

From S2P Require Export Mutation.

(** ** Inodes up to their access time

    [Read] changes the access time in the inode cache only. *)
Definition noatime (di : DiskInode) : DiskInode := with_times 0 (CTime di) (MTime di) di.

Lemma iterBlocks_noatime {V} (fn : DirEntry -> Z -> nat -> V -> V * bool) di bs v d :
  iterBlocks fn (noatime di) bs v d = iterBlocks fn di bs v d.
Proof.
  revert v d. induction bs as [|b bs IH]; intros v d; [done|]. cbn [iterBlocks].
  change (GetBlockForOffset (noatime di) b) with (GetBlockForOffset di b). rewrite /mbind /M_bind.
  destruct (wrapErr _ _ _ d) as [[p|e|] d1]; [|done..]. destruct (p =? 0); [apply IH|].
  destruct (wrapErr _ _ _ d1) as [[blk|e|] d2]; [|done..].
  destruct (iterBlock _ _ _ _ _ _) as [v1 []]; [apply IH|done].
Qed.

Lemma LookupEntry_noatime di name d : LookupEntry (noatime di) name d = LookupEntry di name d.
Proof.
  rewrite /LookupEntry /IterDirEntries /numBlocks. change (IsDir (noatime di)) with (IsDir di).
  change (SizeOf (noatime di)) with (SizeOf di).
  destruct (IsDir di); [|done]. cbn [negb]. rewrite !bind_failIf_false //. destruct (SizeOf di =? 0); [done|].
  by rewrite /mbind /M_bind iterBlocks_noatime.
Qed.

Section noatime.
Context (di di' : DiskInode) (H : noatime di = noatime di').

Lemma noatime_dir : IsDir di = IsDir di'.
Proof. exact (f_equal IsDir H). Qed.
Lemma noatime_symlink : IsSymlink di = IsSymlink di'.
Proof. exact (f_equal IsSymlink H). Qed.
Lemma noatime_size : SizeOf di = SizeOf di'.
Proof. exact (f_equal SizeOf H). Qed.
Lemma noatime_lookup name d : LookupEntry di name d = LookupEntry di' name d.
Proof. by rewrite -(LookupEntry_noatime di) H LookupEntry_noatime. Qed.
Lemma noatime_access cred : CheckDirAccess di cred = CheckDirAccess di' cred.
Proof. exact (f_equal (fun x => CheckDirAccess x cred) H). Qed.
Lemma noatime_target inum : readSymlinkTarget inum di = readSymlinkTarget inum di'.
Proof. exact (f_equal (readSymlinkTarget inum) H). Qed.
End noatime.

(** ** The specification *)

(** The target of a symbolic link: in the inode, or in its first block. *)
Definition linkText (inum : Z) (di : DiskInode) : M BlockDevice (list byte) :=
  let size := SizeOf di in
  failIf ((size <? 0) || (4096 <? size)) ErrBadFS ;;
  if (Blocks512 di =? 0) && (size <? 60) then
    gets (fun d => slice 40 (Z.to_nat size) (raw_at d inum))
  else
    failIf (Direct di !!! 0%nat =? 0) ErrBadFS ;;
    blk ← ReadBlock (Direct di !!! 0%nat);
    mret (take (Z.to_nat size) blk).

(** One name in the directory [cur]: the inode it names, or the target of the
    symbolic link it names when links are followed. *)
Definition look (cred : Credential) (cur : Z) (name : list byte) (follow : bool)
    : M BlockDevice (Z + list byte) :=
  di ← ReadInode cur;
  failIf (negb (IsDir di)) ErrNotDir ;;
  liftResult (CheckDirAccess di cred) ;;
  '(child, _) ← LookupEntry di name;
  childDI ← ReadInode child;
  if IsSymlink childDI && follow then
    target ← linkText child childDI;
    mret (inr target)
  else mret (inl child).

Definition follows (lstat : bool) (rest : list (list byte)) : bool := negb (lstat && bool_decide (rest = [])).

(** [walk d cred lstat cur parts n r]: from [cur] the components [parts] lead
    to [r], over [n] symbolic links.  The last component is not followed when
    [lstat] is set, unless a link was followed before it. *)
Inductive walk (d : BlockDevice) (cred : Credential)
    : bool -> Z -> list (list byte) -> nat -> result Z -> Prop :=
  | walk_end lstat cur di :
      (ReadInode cur d).1 = Ok di ->
      walk d cred lstat cur [] 0 (Ok cur)
  | walk_lost lstat cur e :
      (ReadInode cur d).1 = Err e ->
      walk d cred lstat cur [] 0 (Err e)
  | walk_skip lstat cur part rest n r :
      part = [] \/ part = dot ->
      walk d cred lstat cur rest n r ->
      walk d cred lstat cur (part :: rest) n r
  | walk_stop lstat cur part rest e :
      part <> [] -> part <> dot ->
      (look cred cur part (follows lstat rest) d).1 = Err e ->
      walk d cred lstat cur (part :: rest) 0 (Err e)
  | walk_into lstat cur part rest child n r :
      part <> [] -> part <> dot ->
      (look cred cur part (follows lstat rest) d).1 = Ok (inl child) ->
      walk d cred lstat child rest n r ->
      walk d cred lstat cur (part :: rest) n r
  | walk_link lstat cur part rest target n r :
      part <> [] -> part <> dot ->
      (look cred cur part (follows lstat rest) d).1 = Ok (inr target) ->
      walk d cred false (if startsSlash target then 1 else cur) (split target ++ rest) n r ->
      walk d cred lstat cur (part :: rest) (S n) r.

(** Where a path starts. *)
Definition startOf (cred : Credential) (path : list byte) : Z :=
  if startsSlash path then 1 else cwdOf cred.

(** A walk has one end and one number of links. *)
Lemma walk_det d cred lstat cur parts n r :
  walk d cred lstat cur parts n r -> forall n' r', walk d cred lstat cur parts n' r' -> n' = n /\ r' = r.
Proof.
  induction 1; intros n' r' W; inversion W; subst; try (exfalso; intuition congruence).
  - done.
  - by split; congruence.
  - by apply IHwalk.
  - by split; congruence.
  - apply IHwalk. congruence.
  - assert (target0 = target) as -> by congruence. by match goal with W : walk _ _ false _ _ _ _ |- _ => apply IHwalk in W as [-> ->] end.
Qed.

(** ** Paths as lists of components *)

Lemma split_ne s : split s <> [].
Proof. induction s as [|c s IH]; [done|]. cbn. destruct (split s); [done|]. by destruct (bool_decide _). Qed.

Lemma split_slash s : split (slash :: s) = [] :: split s.
Proof. cbn. pose proof (split_ne s). by destruct (split s). Qed.

Lemma split_app s t : split (s ++ slash :: t) = split s ++ split t.
Proof.
  induction s as [|c s IH]; [apply split_slash|]. cbn. rewrite IH.
  pose proof (split_ne s). destruct (split s) as [|p ps]; [done|]. cbn. by destruct (bool_decide _).
Qed.

(** A component has no slash. *)
Definition component (s : list byte) : Prop := slash ∉ s.

Lemma split_components s : Forall component (split s).
Proof.
  induction s as [|c s IH]; [by repeat constructor; rewrite /component; set_solver|]. cbn.
  destruct (split s) as [|p ps]; [done|]. apply Forall_cons in IH as [Hp Hps]. rewrite /component in Hp |- *.
  case_bool_decide; repeat constructor; [..|done]; set_solver.
Qed.

Lemma split_component s : component s -> split s = [s].
Proof.
  rewrite /component. induction s as [|c s IH]; [done|]. intros [Hc Hs]%not_elem_of_cons. cbn.
  rewrite (IH Hs) bool_decide_false //. congruence.
Qed.

Lemma split_join parts : parts <> [] -> Forall component parts -> split (join parts) = parts.
Proof.
  induction parts as [|p parts IH]; [done|]. intros _ [Hp Hps]%Forall_cons.
  destruct parts as [|q parts]; [by apply split_component|].
  change (join (p :: q :: parts)) with (p ++ slash :: join (q :: parts)).
  by rewrite split_app split_component // IH.
Qed.

(** Walking over empty components. *)
Lemma walk_skip_iff d cred lstat cur part rest n r :
  part = [] \/ part = dot ->
  walk d cred lstat cur (part :: rest) n r <-> walk d cred lstat cur rest n r.
Proof.
  intros H. split; [|by apply walk_skip]. intros W. inversion W; subst; [done|intuition congruence..].
Qed.

Lemma walk_trim d cred lstat cur s n r :
  walk d cred lstat cur (split (trimLeft s)) n r <-> walk d cred lstat cur (split s) n r.
Proof.
  induction s as [|c s IH]; [done|]. cbn [trimLeft]. case_bool_decide as Hc; [|done]. subst c.
  rewrite split_slash walk_skip_iff; [by left|]. exact IH.
Qed.

(** An empty last component changes nothing once links are followed. *)
Lemma walk_trail d cred cur parts n r :
  walk d cred false cur parts n r <-> walk d cred false cur (parts ++ [[]]) n r.
Proof.
  split.
  - remember false as l eqn:El. intros W. revert El. induction W; intros ->; cbn [app].
    + apply walk_skip; [by left|]. exact (walk_end d cred false cur di H).
    + apply walk_skip; [by left|]. exact (walk_lost d cred false cur e H).
    + apply walk_skip; [done|]. by apply IHW.
    + by apply walk_stop.
    + eapply walk_into; eauto.
    + eapply walk_link; eauto. rewrite app_assoc. by apply IHW.
  - remember (parts ++ [[]]) as qs eqn:Eq. remember false as l eqn:El. intros W. revert parts Eq El.
    induction W; intros parts Eq ->; destruct parts as [|p parts]; try done; cbn [app] in Eq; simplify_eq.
    + done.
    + apply walk_skip; [done|]. by apply IHW.
    + by apply walk_stop.
    + eapply walk_into; eauto.
    + eapply walk_link; eauto. apply IHW; [|done]. by rewrite app_assoc.
Qed.

(** ** States of the file system whose inode cache agrees with the device *)

(** A cached inode is the one of the device, but for its access time. *)
Record sees (d : BlockDevice) (f : Filesystem) : Prop := {
  sees_dev : f_dev f = d;
  sees_inodes : forall i data, cached (fs_inodes f) i = Some data ->
    exists di, (ReadInode i d).1 = Ok di /\ noatime (decodeInode data) = noatime di;
}.

Lemma wf_decodeInode buf : wf_inode (decodeInode buf).
Proof.
  rewrite /wf_inode /decodeInode. cbn [Mode UID GID Links SizeLo ATime CTime MTime DTime Blocks512 Flags
    Indirect1 Indirect2 Indirect3 Generation SizeHi Direct].
  split_and!; [repeat (constructor; [apply LEUint16_range|]); constructor
              |repeat (constructor; [apply LEUint32_range|]); constructor
              |by rewrite length_fmap length_seq|].
  rewrite Forall_fmap. apply Forall_true. intros x. apply LEUint32_range.
Qed.

(** What an inode that can be read is. *)
Lemma ReadInode_inv i d di :
  healthy d -> (ReadInode i d).1 = Ok di ->
  wf_inode di /\ di = decodeInode (raw_at d i) /\
  exists a o b, InodeNumToBlock i = (a, o) /\ ReadBlock a d = (Ok b, d) /\ slice o InodeLen b = raw_at d i.
Proof.
  intros Hh. rewrite /ReadInode /failIf /raw_at. destruct (_ || _); [done|]. rewrite {1}/mbind /M_bind.
  destruct (InodeNumToBlock i) as [a o]. rewrite /mbind /M_bind /wrapErr. pose proof (ReadBlock_cases a d) as H.
  destruct (still_run d Hh (ReadBlock a) (ReadBlock_still a) (ReadBlock_total a)) as [E _].
  destruct (ReadBlock a d) as [[b|e|] d'] eqn:ER; try done. intros [= <-]. split; [apply wf_decodeInode|].
  destruct H as (_ & _ & ->). split; [done|]. exists a, o, (peek d a). by rewrite ER E.
Qed.

Section reads.
Context {O : MapOrder} (d : BlockDevice) (Hh : healthy d).

(** [mirrors R m p]: on every state that sees the device [d], [m] ends as [p]
    does on [d], with a value related by [R] or with the same error, and the
    state still sees [d]. *)
Definition mirrors {A B} (R : A -> B -> Prop) (m : M Filesystem A) (p : M BlockDevice B) : Prop :=
  forall f, sees d f -> exists f', sees d f' /\
    match (p d).1 with
    | Ok b => exists a, m f = (Ok a, f') /\ R a b
    | Err e => m f = (Err e, f')
    | Panic => False
    end.

Lemma mirrors_bind {A B C D} (R : A -> B -> Prop) (Q : C -> D -> Prop) m p f g :
  mirrors R m p -> keeps still p -> (forall a b, (p d).1 = Ok b -> R a b -> mirrors Q (f a) (g b)) ->
  mirrors Q (m ≫= f) (p ≫= g).
Proof.
  intros Hm Hp Hf s Hs. destruct (Hm s Hs) as (s1 & Hs1 & H). specialize (Hp d Hh). rewrite {1}/mbind /M_bind.
  destruct (p d) as [[b|e|] d1]; cbn [fst snd] in *; [subst d1|by exists s1; rewrite (bind_err _ _ _ _ _ H)|done].
  destruct H as (a & E & HR). rewrite (bind_ok _ _ _ _ _ E). by apply (Hf a b).
Qed.

Lemma mirrors_ret {A B} (R : A -> B -> Prop) a b : R a b -> mirrors R (mret a) (mret b).
Proof. intros H f Hf. exists f. split; [done|]. by exists a. Qed.

Lemma mirrors_liftResult {A} (r : result A) : r <> Panic -> mirrors eq (liftResult r) (liftResult r).
Proof. intros Hr f Hf. exists f. split; [done|]. destruct r as [a|e|]; cbn; [by exists a|done|done]. Qed.

Lemma mirrors_failIf b e : mirrors eq (failIf b e) (failIf b e).
Proof. intros f Hf. exists f. split; [done|]. rewrite /failIf. destruct b; cbn; [done|]. by exists tt. Qed.

Lemma mirrors_ext {A B} (R : A -> B -> Prop) m p q : p d = q d -> mirrors R m p -> mirrors R m q.
Proof. intros H Hm f Hf. rewrite -H. by apply Hm. Qed.

Lemma onFsDev_value {A} (m : M BlockDevice A) f :
  f_dev f = d -> keeps still m -> total m -> onFsDev m f = ((m d).1, f) /\ (m d).1 <> Panic.
Proof.
  intros Hf Hs Ht. destruct (still_run d Hh m Hs Ht) as [E Hp]. split; [|done].
  rewrite /onFsDev /zoom Hf E -Hf. by destruct f as [[] ? ? ? ? ? ? ? ?].
Qed.

Lemma mirrors_dev {A} (m : M BlockDevice A) : keeps still m -> total m -> mirrors eq (onFsDev m) m.
Proof.
  intros Hs Ht f Hf. exists f. split; [done|]. destruct (onFsDev_value m f (sees_dev _ _ Hf) Hs Ht) as [E Hp].
  rewrite E. destruct (m d).1; [by eexists|done|done].
Qed.

(** The inode cache. *)
Definition agrees (ic : gmap Z inodeEntry) : Prop := forall i e, ic !! i = Some e ->
  exists di, (ReadInode i d).1 = Ok di /\ noatime (decodeInode (ie_data e)) = noatime di.

Lemma sees_agrees f : sees d f <-> f_dev f = d /\ agrees (ic_cache (fs_inodes f)).
Proof.
  rewrite /agrees. split.
  - intros [H1 H2]. split; [done|]. intros i e He. apply (H2 i). by rewrite /cached He.
  - intros [H1 H2]. split; [done|]. intros i data (e & He & ->)%fmap_Some. by apply (H2 i e).
Qed.

Lemma IPut_agrees ic i di :
  agrees (ic_cache ic) -> ic_cache ic !! i = None -> (ReadInode i d).1 = Ok di ->
  exists ic', IPut i (encodeInode di zeroInodeData) ic = (Ok tt, ic') /\ agrees (ic_cache ic').
Proof.
  intros Hc Hn Hi. destruct (ReadInode_inv i d di Hh Hi) as [Hwf _].
  destruct (makeRoom_spec ic) as (ic1 & E & Hic1). rewrite /IPut bind_gets Hn (bind_ok _ _ _ _ _ E).
  eexists. split; [reflexivity|]. intros j e. cbn [with_icache ic_cache]. rewrite lookup_insert_Some. intros [[<- <-]|[_ He]].
  - exists di. split; [done|]. cbn [ie_data]. by rewrite decode_encode_inode // /zeroInodeData /zeros length_replicate.
  - apply (Hc j). destruct Hic1 as [<-|(k & ek & _ & _ & Ek & _)]; [done|].
    rewrite Ek lookup_delete_Some in He. by destruct He.
Qed.

Lemma fsReadInode_mirrors i : mirrors (fun di di' => noatime di = noatime di') (fsReadInode i) (ReadInode i).
Proof.
  intros f [Hd Hc]%sees_agrees. rewrite /fsReadInode.
  destruct (ic_cache (fs_inodes f) !! i) as [e|] eqn:He.
  - destruct (Hc i e He) as (di & E & Ha). rewrite E.
    set (f1 := with_inodes (with_icache (alter ie_ref i) (fs_inodes f)) f).
    exists f1. split.
    + apply sees_agrees. split; [done|]. intros j ej. cbn. destruct (decide (j = i)) as [->|Hj].
      * rewrite lookup_alter_eq He /=. intros [= <-]. by apply (Hc i e).
      * rewrite lookup_alter_ne; [congruence|]. by apply Hc.
    + exists (decodeInode (ie_data e)). split; [|done]. rewrite (bind_ok _ _ _ (Some (ie_data e)) f1) //.
      by rewrite /onFsInodes /zoom /IGet bind_gets He.
  - rewrite (bind_ok _ _ _ None f).
    { rewrite /onFsInodes /zoom /IGet bind_gets He. by destruct f. }
    destruct (onFsDev_value (ReadInode i) f Hd (ReadInode_still i) (ReadInode_total i)) as [E Hp].
    destruct (ReadInode i d).1 as [di|e|] eqn:Hi; [| |done].
    2: { exists f. split; [by apply sees_agrees|]. by rewrite (bind_err _ _ _ _ _ E). }
    destruct (IPut_agrees _ i di Hc He Hi) as (ic' & EP & Ha).
    exists (with_inodes ic' f). split; [by apply sees_agrees|]. exists di. split; [|done].
    by rewrite (bind_ok _ _ _ _ _ E) (bind_ok _ _ _ tt (with_inodes ic' f)) // /onFsInodes /zoom EP.
Qed.

Lemma readSymlinkTarget_mirrors i di :
  (ReadInode i d).1 = Ok di -> mirrors eq (readSymlinkTarget i di) (linkText i di).
Proof.
  intros Hi. destruct (ReadInode_inv i d di Hh Hi) as (_ & _ & a & o & b & Ea & Eb & Eraw).
  rewrite /readSymlinkTarget /linkText. apply (mirrors_bind eq); [apply mirrors_failIf|quiet_solve|]. intros _ _ _ _.
  destruct (_ && _).
  - rewrite Ea. intros f Hf. exists f. split; [done|]. cbn [fst gets].
    exists (slice 40 (Z.to_nat (SizeOf di)) (raw_at d i)). split; [|done].
    destruct (onFsDev_value (ReadBlock a) f (sees_dev _ _ Hf) (ReadBlock_still a) (ReadBlock_total a)) as [E _].
    rewrite Eb in E. by rewrite (bind_ok _ _ _ _ _ E) -Eraw.
  - apply (mirrors_bind eq); [apply mirrors_failIf|quiet_solve|]. intros _ _ _ _.
    apply (mirrors_bind eq); [apply mirrors_dev; eauto with quiet total|eauto with quiet|]. intros blk _ _ <-.
    apply mirrors_ret. destruct (Z.min_spec (SizeOf di) (Z.of_nat (length blk))) as [[_ ->]|[Hle ->]]; [done|].
    rewrite Nat2Z.id !take_ge //. lia.
Qed.

(** ** The code, one component at a time *)

(** What the loop of [resolve] reads for one component. *)
Definition lookFs (cred : Credential) (cur : Z) (name : list byte) (follow : bool) : M Filesystem (Z + list byte) :=
  curDI ← fsReadInode cur;
  failIf (negb (IsDir curDI)) ErrNotDir ;;
  liftResult (CheckDirAccess curDI cred) ;;
  '(childInum, _) ← onFsDev (LookupEntry curDI name);
  childDI ← fsReadInode childInum;
  if IsSymlink childDI && follow then
    target ← readSymlinkTarget childInum childDI;
    mret (inr target)
  else mret (inl childInum).

Lemma CheckDirAccess_total di cred : CheckDirAccess di cred <> Panic.
Proof. rewrite /CheckDirAccess /CheckPermission. by repeat case_match. Qed.

Lemma lookFs_mirrors cred cur name follow :
  mirrors eq (lookFs cred cur name follow) (look cred cur name follow).
Proof.
  rewrite /lookFs /look. apply (mirrors_bind _ _ _ _ _ _ (fsReadInode_mirrors cur)); [eauto with quiet|].
  intros di di' _ Hdi. rewrite (noatime_dir _ _ Hdi) (noatime_access _ _ Hdi).
  apply (mirrors_bind eq); [apply mirrors_failIf|quiet_solve|]. intros _ _ _ _.
  apply (mirrors_bind eq); [apply mirrors_liftResult, CheckDirAccess_total|quiet_solve|]. intros _ _ _ _.
  apply (mirrors_bind eq); [|eauto with quiet|].
  { apply (mirrors_ext _ _ (LookupEntry di name)); [by apply noatime_lookup|].
    apply mirrors_dev; eauto with quiet total. }
  intros [child ft] _ _ <-.
  apply (mirrors_bind _ _ _ _ _ _ (fsReadInode_mirrors child)); [eauto with quiet|].
  intros cdi cdi' Hc Hcdi. rewrite (noatime_symlink _ _ Hcdi). destruct (_ && _); [|by apply mirrors_ret].
  apply (mirrors_bind eq).
  - rewrite (noatime_target _ _ Hcdi). by apply readSymlinkTarget_mirrors.
  - rewrite /linkText. quiet_solve.
  - intros target _ _ <-. by apply mirrors_ret.
Qed.

Lemma walkParts_step rec cred lstat part rest cur f :
  part <> [] -> part <> dot ->
  walkParts rec cred lstat (part :: rest) cur f =
  (lookFs cred cur part (follows lstat rest) ≫= fun s =>
     match s with
     | inl child => walkParts rec cred lstat rest child
     | inr target =>
         rec (if startsSlash target then cred else mkCredential (cr_UID cred) (cr_GID cred) cur)
           (if negb (bool_decide (rest = [])) && negb (bool_decide (join rest = []))
            then target ++ slash :: join rest else target)
           (lstat && bool_decide (rest = []))
     end) f.
Proof.
  intros Hp Hd. cbn [walkParts]. rewrite (bool_decide_false (part = [])) // (bool_decide_false (part = dot)) //.
  cbn [orb]. rewrite /lookFs /follows /mbind /M_bind.
  destruct (fsReadInode cur f) as [[di|e|] f1]; [|done..]. destruct (failIf _ _ f1) as [[[]|e|] f2]; [|done..].
  destruct (liftResult _ f2) as [[[]|e|] f3]; [|done..].
  destruct (onFsDev _ f3) as [[[child ft]|e|] f4]; [|done..].
  destruct (fsReadInode child f4) as [[cdi|e|] f5]; [|done..]. destruct (_ && _); [|done].
  by destruct (readSymlinkTarget child cdi f5) as [[target|e|] f6].
Qed.

(** ** The whole walk *)

(** Symbolic links have a target, as [Symlink] sees to. *)
Definition links_named : Prop := forall i di,
  (ReadInode i d).1 = Ok di -> IsSymlink di = true -> (linkText i di d).1 <> Ok [].

Lemma look_inv cred cur name follow s :
  links_named -> (look cred cur name follow d).1 = Ok s ->
  match s with inl child => child <> 0 | inr target => follow = true /\ target <> [] end.
Proof.
  intros Hn. rewrite /look /mbind /M_bind.
  destruct (ReadInode cur d) as [[di|e|] d1] eqn:E1; [|done..].
  destruct (failIf _ _ d1) as [[[]|e|] d2] eqn:E2; [|done..].
  destruct (liftResult _ d2) as [[[]|e|] d3] eqn:E3; [|done..].
  assert (d3 = d) as ->.
  { rewrite /liftResult in E3. injection E3 as _ <-. revert E2. rewrite /failIf. case_match; [done|]. intros [= <-].
    pose proof (ReadInode_still cur d Hh) as HS. by rewrite E1 in HS. }
  destruct (still_run d Hh _ (LookupEntry_still di name) (LookupEntry_total di name)) as [EL _].
  destruct (LookupEntry di name d) as [[[child ft]|e|] d4] eqn:E4; [|done..]. injection EL as ->.
  destruct (still_run d Hh _ (ReadInode_still child) (ReadInode_total child)) as [EC _].
  destruct (ReadInode child d) as [[cdi|e|] d5] eqn:E5; [|done..]. injection EC as ->.
  destruct (IsSymlink cdi && follow) eqn:Es.
  - apply andb_true_iff in Es as [Es ->]. pose proof (Hn child cdi) as Ht. rewrite E5 in Ht. specialize (Ht eq_refl Es).
    destruct (linkText child cdi d) as [[t|e|] d6]; [|done..]. intros [= <-]. split; [done|]. cbn in Ht. congruence.
  - intros [= <-]. revert E4. rewrite /LookupEntry. intros (? & ? & _ & (found & ? & _ & E)%bind_ok_inv)%bind_ok_inv.
    revert E. destruct (found.1 =? 0) eqn:E0; [done|]. intros [= -> _]. simpl_bool. done.
Qed.

(** A walk uses the user of the credential only. *)
Lemma walk_cred cred cred' lstat cur parts n r :
  cr_UID cred' = cr_UID cred -> cr_GID cred' = cr_GID cred ->
  walk d cred lstat cur parts n r -> walk d cred' lstat cur parts n r.
Proof.
  intros Hu Hg. destruct cred, cred'; cbn in Hu, Hg; subst.
  induction 1; [eapply walk_end|eapply walk_lost|apply walk_skip|apply walk_stop|eapply walk_into|eapply walk_link]; eassumption.
Qed.

(** The result of the code for the end of a walk; the inode that goes with it
    is the one of the device, but for its access time. *)
Definition arrived (q : result Z) (r : result (Z * DiskInode)) : Prop :=
  match q with
  | Ok i => exists di di', r = Ok (i, di) /\ (ReadInode i d).1 = Ok di' /\ noatime di = noatime di'
  | Err e => r = Err e
  | Panic => False
  end.

(** [r] is the end of the walk, or the walk has [links] links or more. *)
Definition ends (links : nat) cred lstat cur parts (r : result (Z * DiskInode)) : Prop :=
  (exists n q, (n < links)%nat /\ walk d cred lstat cur parts n q /\ arrived q r) \/
  (r = Err ErrLoop /\ forall n q, walk d cred lstat cur parts n q -> (links <= n)%nat).

Lemma ends_iff links cred lstat cur parts lstat' cur' parts' r :
  (forall n q, walk d cred lstat cur parts n q <-> walk d cred lstat' cur' parts' n q) ->
  ends links cred lstat cur parts r <-> ends links cred lstat' cur' parts' r.
Proof. intros H. rewrite /ends. by setoid_rewrite H. Qed.

Lemma ends_cred links cred cred' lstat cur parts r :
  cr_UID cred' = cr_UID cred -> cr_GID cred' = cr_GID cred ->
  ends links cred lstat cur parts r -> ends links cred' lstat cur parts r.
Proof.
  intros Hu Hg [(n & q & Hn & W & Ha)|[-> H]].
  - left. exists n, q. split_and!; [done|by apply (walk_cred cred)|done].
  - right. split; [done|]. intros n q W. apply (H n q). by apply (walk_cred cred').
Qed.

Lemma ends_into links cred lstat cur part rest child r :
  part <> [] -> part <> dot -> (look cred cur part (follows lstat rest) d).1 = Ok (inl child) ->
  ends links cred lstat child rest r -> ends links cred lstat cur (part :: rest) r.
Proof.
  intros Hp Hd E. apply ends_iff. intros n q. split; [|eapply walk_into; eassumption].
  intros W. inversion W; subst; [intuition congruence|congruence| |congruence].
  assert (child0 = child) as -> by congruence. done.
Qed.

Lemma ends_link links cred lstat cur part rest target r :
  part <> [] -> part <> dot -> (look cred cur part (follows lstat rest) d).1 = Ok (inr target) ->
  ends links cred false (if startsSlash target then 1 else cur) (split target ++ rest) r ->
  ends (S links) cred lstat cur (part :: rest) r.
Proof.
  intros Hp Hd E [(n & q & Hn & W & Ha)|[-> H]].
  - left. exists (S n), q. split_and!; [lia|eapply walk_link; eassumption|done].
  - right. split; [done|]. intros n q W. inversion W; subst; [intuition congruence|congruence|congruence|].
    assert (target0 = target) as -> by congruence. apply le_n_S. eapply H. eassumption.
Qed.

(** The path that is left after a link. *)
Definition restOf (target : list byte) (rest : list (list byte)) : list byte :=
  if negb (bool_decide (rest = [])) && negb (bool_decide (join rest = [])) then target ++ slash :: join rest else target.

Lemma walk_restOf cred cur target rest n r :
  Forall component rest ->
  walk d cred false cur (split target ++ rest) n r <-> walk d cred false cur (split (restOf target rest)) n r.
Proof.
  intros Hr. rewrite /restOf. destruct (decide (rest = [])) as [->|Hne]; [by rewrite app_nil_r|].
  rewrite (bool_decide_false (rest = [])) //. pose proof (split_join rest Hne Hr) as Hs. case_bool_decide as Hj; cbn [negb andb].
  - rewrite Hj in Hs. rewrite -Hs. symmetry. apply walk_trail.
  - by rewrite split_app Hs.
Qed.

Lemma startsSlash_restOf target rest : target <> [] -> startsSlash (restOf target rest) = startsSlash target.
Proof. rewrite /restOf. destruct target; [done|]. by destruct (_ && _). Qed.

Lemma walkParts_ends links rec cred lstat parts cur f :
  links_named -> Forall component parts -> cur <> 0 -> sees d f ->
  (forall cred' path f, cr_UID cred' = cr_UID cred -> cr_GID cred' = cr_GID cred -> sees d f ->
     exists r f', rec cred' path false f = (r, f') /\ sees d f' /\
       ends links cred' false (startOf cred' path) (split path) r) ->
  exists r f', walkParts rec cred lstat parts cur f = (r, f') /\ sees d f' /\ ends (S links) cred lstat cur parts r.
Proof.
  intros Hn Hc Hcur Hs Hrec. revert cur Hcur f Hs. induction parts as [|part rest IH]; intros cur Hcur f Hs.
  - cbn [walkParts]. destruct (fsReadInode_mirrors cur f Hs) as (f' & Hf' & H).
    destruct (ReadInode cur d).1 as [di|e|] eqn:E; [| |done].
    + destruct H as (di' & H & Hdi). rewrite (bind_ok _ _ _ _ _ H). eexists _, f'. split; [done|]. split; [done|].
      left. exists 0%nat, (Ok cur). split_and!; [lia|eapply walk_end; eassumption|by exists di', di].
    + rewrite (bind_err _ _ _ _ _ H). eexists _, f'. split; [done|]. split; [done|].
      left. exists 0%nat, (Err e). split_and!; [lia|eapply walk_lost; eassumption|done].
  - apply Forall_cons in Hc as [_ Hc]. specialize (IH Hc).
    destruct (decide (part = [] \/ part = dot)) as [Hp|Hp].
    + destruct (IH cur Hcur f Hs) as (r & f' & E & Hf' & He). exists r, f'. split_and!; [|done|].
      * cbn [walkParts]. by destruct Hp as [->| ->].
      * revert He. apply ends_iff. intros n q. by apply walk_skip_iff.
    + assert (part <> [] /\ part <> dot) as [Hp1 Hp2] by tauto. rewrite walkParts_step //.
      destruct (lookFs_mirrors cred cur part (follows lstat rest) f Hs) as (f1 & Hf1 & H).
      destruct (look cred cur part (follows lstat rest) d).1 as [s|e|] eqn:E; [| |done].
      * destruct H as (s' & H & ->). rewrite (bind_ok _ _ _ _ _ H). pose proof (look_inv _ _ _ _ _ Hn E) as Hv.
        destruct s as [child|target].
        -- destruct (IH child Hv f1 Hf1) as (r & f' & E' & Hf' & He). exists r, f'. split_and!; [done|done|].
           exact (ends_into _ _ _ _ _ _ _ _ Hp1 Hp2 E He).
        -- destruct Hv as [Hfl Ht]. rewrite -/(restOf target rest).
           replace (lstat && bool_decide (rest = [])) with false by (symmetry; by apply negb_true_iff).
           set (cred' := if startsSlash target then cred else _).
           destruct (Hrec cred' (restOf target rest) f1) as (r & f' & E' & Hf' & He);
             [by rewrite /cred'; destruct (startsSlash _)|by rewrite /cred'; destruct (startsSlash _)|done|].
           exists r, f'. split_and!; [done|done|]. eapply ends_link; [done|done|exact E|].
           apply (ends_cred _ cred'); [by rewrite /cred'; destruct (startsSlash _)|by rewrite /cred'; destruct (startsSlash _)|].
           revert He. rewrite /startOf startsSlash_restOf // /cred' /cwdOf.
           destruct (startsSlash target); cbn [cr_CWD].
           ++ apply ends_iff. intros n q. by apply walk_restOf.
           ++ rewrite (proj2 (Z.eqb_neq cur 0)) //. apply ends_iff. intros n q. by apply walk_restOf.
      * rewrite (bind_err _ _ _ _ _ H). eexists _, f1. split_and!; [done|done|].
        left. exists 0%nat, (Err e). split_and!; [lia|by apply walk_stop|done].
Qed.

(** One level of [resolve] is a walk from where the path starts. *)
Lemma resolveFrom_parts links cred path lstat f :
  resolveFrom (S links) cred path lstat f =
  walkParts (resolveFrom links) cred lstat (split (if startsSlash path then trimLeft path else path)) (startOf cred path) f.
Proof.
  cbn [resolveFrom]. rewrite /startOf. case_bool_decide as Hp; [by rewrite Hp|].
  destruct (startsSlash path); case_bool_decide as Ht; rewrite ?Ht; done.
Qed.

Lemma cwdOf_ne cred : cwdOf cred <> 0.
Proof. rewrite /cwdOf. destruct (cr_CWD cred =? 0) eqn:E; simpl_bool; done. Qed.

Lemma startOf_ne cred path : startOf cred path <> 0.
Proof. rewrite /startOf. destruct (startsSlash path); [done|apply cwdOf_ne]. Qed.

Lemma resolveFrom_ends links cred path lstat f :
  links_named -> sees d f ->
  exists r f', resolveFrom links cred path lstat f = (r, f') /\ sees d f' /\
    ends links cred lstat (startOf cred path) (split path) r.
Proof.
  intros Hn. revert cred path lstat f. induction links as [|links IH]; intros cred path lstat f Hs.
  - exists (Err ErrLoop), f. split_and!; [done|done|]. right. split; [done|]. intros; lia.
  - rewrite resolveFrom_parts.
    destruct (walkParts_ends links (resolveFrom links) cred lstat
      (split (if startsSlash path then trimLeft path else path)) (startOf cred path) f) as (r & f' & E & Hs' & He);
      [done|apply split_components|apply startOf_ne|done|by intros; apply IH|].
    exists r, f'. split_and!; [done|done|]. revert He. apply ends_iff. intros n q.
    destruct (startsSlash path); [by rewrite walk_trim|done].
Qed.

End reads.

(** C5: path resolution.  On a device that does not fail, with an inode cache
    that agrees with it up to access times, [resolve] ends as the walk over the
    components of the path does, with its inode number or its error, when the
    walk follows at most 40 symbolic links; it ends with [ErrLoop] when the
    walk follows more, and when there is no walk, which is when links lead in a
    circle.  It changes nothing but what the inode cache holds, which still
    agrees with the device. *)
Theorem resolve_walks {O : MapOrder} d cred path lstat f :
  healthy d -> links_named d -> sees d f ->
  exists r f', resolve cred path lstat f = (r, f') /\ sees d f' /\
    (forall n q, walk d cred lstat (startOf cred path) (split path) n q ->
       ((n <= 40)%nat -> arrived d q r) /\ ((40 < n)%nat -> r = Err ErrLoop)) /\
    ((forall n q, ~ walk d cred lstat (startOf cred path) (split path) n q) -> r = Err ErrLoop).
Proof.
  intros Hh Hn Hs. destruct (resolveFrom_ends d Hh 41 cred path lstat f Hn Hs) as (r & f' & E & Hs' & He).
  exists r, f'. split; [exact E|]. split; [done|]. destruct He as [(n & q & Hle & W & Ha)|[-> H]].
  - split; [|by intros Hno; destruct (Hno n q)]. intros n' q' W'. destruct (walk_det _ _ _ _ _ _ _ W n' q' W') as [-> ->].
    split; [done|lia].
  - split; [|done]. intros n q W. specialize (H n q W). split; [lia|done].
Qed.

(** ** A file system on an empty disk *)

Lemma decodeInode_zeros n : Mode (decodeInode (replicate n x00)) = 0.
Proof. by destruct n as [|[|n]]. Qed.

Lemma raw_at_blank n i : exists k, raw_at (blank n) i = replicate k x00.
Proof.
  rewrite /raw_at. destruct (InodeNumToBlock i) as [a o]. rewrite peek_blank /slice /zeroBlock /zeros.
  rewrite drop_replicate take_replicate. by eexists.
Qed.

Lemma links_named_blank n : links_named (blank n).
Proof.
  intros i di Hi. destruct (ReadInode_inv i (blank n) di (conj eq_refl eq_refl) Hi) as (_ & -> & _).
  destruct (raw_at_blank n i) as [k ->]. by rewrite /IsSymlink /FileType decodeInode_zeros.
Qed.

Definition emptyFs : Filesystem := demoFs (blank 132).

Lemma resolve_walks_witness :
  exists di f', resolve (O := inOrder) (mkCredential 0 0 0) (str "/.") false emptyFs = (Ok (1, di), f').
Proof.
  destruct (resolve_walks (O := inOrder) (blank 132) (mkCredential 0 0 0) (str "/.") false emptyFs)
    as (r & f' & E & _ & H & _); [by split|apply links_named_blank|by split|].
  destruct (H 0%nat (Ok 1)) as [Ha _].
  - change (split (str "/.")) with [[]; dot]. change (startOf _ _) with 1.
    apply walk_skip; [by left|]. apply walk_skip; [by right|]. eapply walk_end.
    rewrite ReadInode_ok; [by split|done|done|reflexivity].
  - destruct (Ha ltac:(lia)) as (di & _ & -> & _). by exists di, f'.
Defined.
