(* ===== verification/FileBytes.v ===== *)
(** * FileBytes: the blocks and bytes of a file in the layers of the program

    A file is reached through the block map of its inode, the buffer cache and
    the device.  Its bytes are a function of the state, [fileByte]; here are
    the steps of the loops of [internal/ops/file_ops.go] on them: a block is
    fetched, given back, changed and allocated, next to other files. *)

From S2P Require Export Walk.

(** ** One user of the buffer cache *)

(** No entry appears, and none is pinned more often. *)
Definition fewer (s s' : cstate) : Prop := forall a e', c_cache s'.2 !! a = Some e' ->
  exists e, c_cache s.2 !! a = Some e /\ be_pinCount e' = be_pinCount e.

#[export] Instance fewer_preorder : PreOrder fewer.
Proof.
  split; [by intros s a e' H; exists e'|]. intros s1 s2 s3 H1 H2 a e' H.
  destruct (H2 a e' H) as (e & He & ->). by apply H1.
Qed.

Lemma modCache_fewer f :
  (forall c a e', c_cache (f c) !! a = Some e' -> exists e, c_cache c !! a = Some e /\ be_pinCount e' = be_pinCount e) ->
  keeps fewer (modCache f).
Proof. intros H. apply keeps_modify; [apply _|]. intros s a e'. apply H. Qed.

Lemma onCDev_fewer {A} (m : M BlockDevice A) : keeps fewer (onCDev m).
Proof. intros s a e'. rewrite /onCDev /zoom. destruct (m s.1). intros H. by exists e'. Qed.

Lemma clean_fewer addr : keeps fewer (setEntry addr (with_bdirty false)).
Proof.
  apply modCache_fewer. intros c a e'. cbn. rewrite lookup_alter_Some.
  intros [(-> & e & He & ->)|[_ He]]; eauto.
Qed.

Lemma dropEntry_fewer addr dirty : keeps fewer (dropEntry addr dirty).
Proof.
  intros s a e'. destruct (dropEntry_run addr dirty s) as (c & -> & Hc & _). cbn [snd]. rewrite Hc lookup_delete_Some.
  intros [_ H]. by exists e'.
Qed.
#[export] Hint Resolve onCDev_fewer clean_fewer dropEntry_fewer : quiet.

Lemma evictWalk_fewer rest : keeps fewer (evictWalk rest).
Proof. induction rest; cbn [evictWalk]; quiet_solve. Qed.
#[export] Hint Resolve evictWalk_fewer : quiet.
Lemma evictLoop_fewer fuel : keeps fewer (evictLoop fuel).
Proof. induction fuel; cbn [evictLoop]; quiet_solve. Qed.
#[export] Hint Resolve evictLoop_fewer : quiet.
Lemma evictIfNeeded_fewer : keeps fewer evictIfNeeded.
Proof. rewrite /evictIfNeeded. quiet_solve. Qed.

(** Nobody uses a block, but for the block [a], which has one user. *)
Definition idle (s : cstate) : Prop := forall x e, c_cache s.2 !! x = Some e -> be_pinCount e = 0.
Definition held (a : Z) (s : cstate) : Prop :=
  is_Some (c_cache s.2 !! a) /\
  forall x e, c_cache s.2 !! x = Some e -> be_pinCount e = if decide (x = a) then 1 else 0.
(** Only [a] may have come into the cache. *)
Definition grown (a : Z) (s s' : cstate) : Prop :=
  forall x, is_Some (c_cache s'.2 !! x) -> x = a \/ is_Some (c_cache s.2 !! x).

Lemma idle_not_full s : cache_ok s -> idle s -> ~ all_pinned s.
Proof.
  intros Hs Hi [Hn Hp]. destruct (map_choose (c_cache s.2)) as (a & e & He).
  - intros E. pose proof (po_capacity _ _ _ _ Hs) as Hc. rewrite E /mapLen map_size_empty in Hn. lia.
  - specialize (Hp a e He). rewrite (Hi a e He) in Hp. lia.
Qed.

Lemma get_hit s a e :
  cache_ok s -> idle s -> 0 <= a -> c_cache s.2 !! a = Some e ->
  exists s', GetBlock a s = (Ok (be_data e), s') /\ held a s' /\ grown a s s'.
Proof.
  intros Hs Hi Ha E. rewrite /GetBlock bind_gets E bind_modify. eexists. split; [reflexivity|]. split; [split|].
  - cbn. by rewrite lookup_alter_eq E.
  - intros x ex. cbn. rewrite lookup_alter_Some. intros [(-> & e' & He & ->)|[Hne He]].
    + rewrite decide_True //=. by rewrite (Hi _ _ He).
    + rewrite decide_False; [by apply not_eq_sym|]. by apply (Hi x).
  - intros x. cbn. rewrite lookup_alter_is_Some. by right.
Qed.

Lemma get_miss s a :
  c_cache s.2 !! a = None -> idle s ->
  match GetBlock a s with
  | (Ok _, s') => held a s' /\ grown a s s'
  | _ => True
  end.
Proof.
  intros E Hi. rewrite /GetBlock bind_gets E bind_modify. set (s1 := (s.1, with_stats (countStats 0 1 0) s.2)).
  rewrite /mbind /M_bind /wrapErr /onCDev /zoom. destruct (ReadBlock a s1.1) as [[b|er|] d']; [|done..].
  rewrite /gets. cbn [snd s1]. rewrite E. pose proof (evictIfNeeded_fewer (d', with_stats (countStats 0 1 0) s.2)) as Hf.
  destruct (evictIfNeeded _) as [[[]|er|] s3]; [|done..]. cbn [snd] in Hf.
  destruct (insertEntry_run a (mkBufEntry b false 1) s3) as (c & -> & Hc & _). split; [split|].
  - cbn [snd]. rewrite Hc lookup_insert_eq. by eexists.
  - intros x e. cbn [snd]. rewrite Hc lookup_insert_Some. intros [[<- <-]|[Hne He]]; [by rewrite decide_True|].
    rewrite decide_False; [by apply not_eq_sym|]. destruct (Hf x e He) as (e0 & He0 & ->). by apply (Hi x).
  - intros x. cbn [snd]. rewrite Hc. intros [e [[<- <-]|[Hne He]]%lookup_insert_Some]; [by left|right].
    destruct (Hf x e He) as (e0 & He0 & _). by exists e0.
Qed.

(** On a device that does not fail, the block is read and held. *)
Lemma GetBlock_idle s a :
  cache_ok s -> idle s -> healthy s.1 -> 0 <= a < BlockCount s.1 ->
  exists s', GetBlock a s = (Ok (view s a), s') /\ kept s s' /\ held a s' /\ grown a s s'.
Proof.
  intros Hs Hi Hh Ha. pose proof (GetBlock_spec s a Hs ltac:(lia)) as HG.
  destruct (c_cache s.2 !! a) as [e|] eqn:E.
  - destruct (get_hit s a e Hs Hi ltac:(lia) E) as (s' & EG & H). rewrite EG in HG. destruct HG as [<- Hk].
    by exists s'.
  - pose proof (get_miss s a E Hi) as HM. destruct (GetBlock a s) as [[b|er|] s']; [| |done].
    + destruct HG as [-> Hk]. by exists s'.
    + destruct HG as [_ Hp]. destruct (idle_not_full s Hs Hi). apply Hp; [done|lia].
Qed.

(** The block is given back, with any data. *)
Definition unpinned (data : block) (e : bufEntry) : bufEntry :=
  with_pin (be_pinCount e - 1) (with_bdata data e).

(** The states of the cache after [PutBlock] and after [MarkDirty]. *)
Definition given_back (a : Z) (data : block) (s : cstate) : cstate :=
  (s.1, with_lru (moveToFront a) (with_cache (alter (unpinned data) a) s.2)).
Definition marked (a : Z) (s : cstate) : cstate := (s.1, with_cache (alter (with_bdirty true) a) s.2).

Lemma PutBlock_held s a data :
  held a s -> length data = BlockLen ->
  PutBlock a data s = (Ok tt, given_back a data s).
Proof.
  intros [[e E] Hp] Hl. rewrite /PutBlock bind_failIf_false; [by rewrite Hl|]. rewrite bind_gets E.
  rewrite /given_back /setEntry /modCache !bind_modify /modify. f_equal. f_equal. f_equal. rewrite /with_cache /=. f_equal.
  rewrite alter_alter_eq. apply alter_ext. intros x Hx. rewrite E in Hx. injection Hx as <-.
  specialize (Hp a e E). rewrite decide_True // in Hp. cbn. by rewrite /unpinned Hp.
Qed.

Lemma idle_alter a s s' g :
  held a s -> c_cache s'.2 = alter g a (c_cache s.2) -> (forall e, be_pinCount (g e) = be_pinCount e - 1) ->
  idle s' /\ grown a s s'.
Proof.
  intros [_ Hp] E Hg. split.
  - intros x e. rewrite E lookup_alter_Some. intros [(-> & e0 & He & ->)|[Hne He]].
    + rewrite Hg (Hp _ _ He) decide_True //.
    + rewrite (Hp _ _ He) decide_False //. by apply not_eq_sym.
  - intros x. rewrite E lookup_alter_is_Some. by right.
Qed.

Lemma PutBlock_back s a :
  cache_ok s -> 0 <= a -> held a s ->
  exists s', PutBlock a (view s a) s = (Ok tt, s') /\ kept s s' /\ idle s' /\ grown a s s'.
Proof.
  intros Hs Ha Hp. destruct (proj1 Hp) as [e E]. destruct (po_entry _ _ _ _ Hs _ _ E) as (_ & Hl & H0 & Hc).
  pose proof (proj2 Hp a e E) as H1. rewrite decide_True // in H1.
  assert (view s a = be_data e) as Hv by by rewrite /view E. rewrite Hv.
  rewrite PutBlock_held //. eexists. split; [reflexivity|]. split; [|by eapply idle_alter].
  set (s1 := (s.1, with_cache (alter (unpinned (be_data e)) a) s.2)).
  assert (kept s s1) as Hk.
  { apply (updated_kept a); [done|]. rewrite Hv.
    apply (updated_entry s a e); [done|done|done|done|cbn; lia|]. cbn. exact Hc. }
  exact (kept_trans _ _ _ Hk (kept_moveToFront a s1 (kp_ok _ _ Hk))).
Qed.

Lemma PutDirty_held s a data :
  cache_ok s -> 0 <= a < BlockCount s.1 -> held a s -> length data = BlockLen ->
  let s' := marked a (given_back a data s) in updated a data s s' /\ idle s' /\ grown a s s'.
Proof.
  intros Hs Ha Hp Hl. pose proof (PutDirty_spec s a data Hs Ha Hl) as HW. revert HW.
  rewrite (bind_ok _ _ _ _ _ (PutBlock_held s a data Hp Hl)). intros HW. split; [exact HW|].
  apply (idle_alter a s _ (with_bdirty true ∘ unpinned data)); [done| |done]. cbn. by rewrite alter_alter_eq.
Qed.

(** ** Block maps on a changed device *)

Definition same_pointers (di di' : DiskInode) : Prop := Direct di' = Direct di /\ forall r, root di' r = root di r.

Lemma node_ext s s' :
  same_pointers s.2 s'.2 ->
  (forall q, is_ptr q -> node s q <> 0 -> peek (a_dev s'.1) (node s q) = peek (a_dev s.1) (node s q)) ->
  forall q, valid_pos q -> node s' q = node s q.
Proof.
  intros [Hd Hr] Hp [r l] Hv. destruct r as [|r]; [by destruct l as [|i []]; rewrite /= ?Hd|].
  assert (1 <= S r)%nat as H1 by lia. revert Hv. induction l as [|j l IH] using rev_ind; intros Hv.
  - rewrite !node_tree //. apply Hr.
  - destruct (valid_snoc _ _ _ H1 Hv) as [Hq Hj]. rewrite !node_snoc // (IH (proj1 Hq)).
    destruct (node s (S r, l) =? 0) eqn:E; [done|]. simpl_bool. by rewrite Hp.
Qed.

Lemma state_ok_ext s s' :
  state_ok s -> alloc_ok s'.1 -> length (Direct s'.2) = 12%nat ->
  (forall x, 0 <= x -> IsSet (a_blockBM s.1) x = true -> IsSet (a_blockBM s'.1) x = true) ->
  (forall q, valid_pos q -> node s' q = node s q) -> state_ok s'.
Proof.
  intros [_ [_ Hu Hi]] Ha Hd Hb Hn. split; [done|]. split; [done| |].
  - intros q Hq. rewrite Hn // => H. destruct (Hu q Hq H) as [H1 H2]. split; [done|]. apply Hb; [|done].
    destruct H1. unfold DataStart in *. lia.
  - intros p q Hp Hq. rewrite !Hn //. by apply Hi.
Qed.

(** ** The bytes of a file *)

Definition file (f : Filesystem) (di : DiskInode) : inode_state := (fs_alloc f, di).
Definition bufs (f : Filesystem) : cstate := (f_dev f, fs_buf f).

(** The blocks and the bytes of the file with the inode [di]: those of the
    block map, as the cache has them, and zeros where nothing is mapped. *)
Definition fileBlock (f : Filesystem) (di : DiskInode) (lb : Z) : block :=
  match mapped (file f di) lb with
  | Ok p => if p =? 0 then zeroBlock else view (bufs f) p
  | _ => zeroBlock
  end.
Definition fileByte (f : Filesystem) (di : DiskInode) (o : Z) : byte :=
  nth (Z.to_nat (o mod BlockSize)) (fileBlock f di (o / BlockSize)) x00.

(** The map of the file is well formed, and the cache holds blocks of data in
    use only. *)
Record file_ok (f : Filesystem) (di : DiskInode) : Prop := {
  fo_map : state_ok (file f di);
  fo_cache : cache_ok (bufs f);
  fo_cached : forall x, is_Some (c_cache (fs_buf f) !! x) ->
    data_addr x /\ IsSet (a_blockBM (fs_alloc f)) x = true /\ forall q, is_ptr q -> node (file f di) q <> x;
}.

(** The parts that the buffer cache does not have. *)
Definition rest (f : Filesystem) :=
  (a_blockBM (fs_alloc f), a_inodeBM (fs_alloc f), a_sb (fs_alloc f), fs_ownSb f, fs_inodes f, fs_journal f, fs_mutating f).

Lemma forward_events src log f : exists g, forward src log f = with_Events g f.
Proof.
  rewrite /forward. generalize (rev (default [] log)). intros l. revert f.
  induction l as [|e l IH]; intros f; cbn [foldl]; [exists id; by destruct f|].
  destruct (IH (sendEvent (mkEvent e.1 src [] e.2 None) f)) as [g ->]. by eexists (g ∘ _).
Qed.

(** The block [p] has got the data, and nothing else has changed but what the
    cache holds. *)
Record stored (p : Z) (data : block) (f f' : Filesystem) : Prop := {
  st_rest : rest f' = rest f;
  st_updated : updated p data (bufs f) (bufs f');
  st_grown : grown p (bufs f) (bufs f');
}.

(** A computation on the buffer cache: its own events aside. *)
Definition bufs0 (f : Filesystem) : cstate := (f_dev f, with_cemit (noLog (c_emit (fs_buf f))) (fs_buf f)).

Lemma onFsBuf_run {A} (m : M cstate A) f :
  exists f' e, onFsBuf m f = ((m (bufs0 f)).1, f') /\ rest f' = rest f /\
    f_dev f' = (m (bufs0 f)).2.1 /\ fs_buf f' = with_cemit e (m (bufs0 f)).2.2.
Proof.
  rewrite /onFsBuf -/(bufs0 f). destruct (m (bufs0 f)) as [r s]. cbn [fst snd].
  match goal with |- context [forward ?src ?log ?g] => destruct (forward_events src log g) as [h ->] end.
  by eexists _, _.
Qed.

Lemma updated_emit p data s s' e e' :
  updated p data (s.1, with_cemit e s.2) s' -> updated p data s (s'.1, with_cemit e' s'.2).
Proof. intros [H1 H2 H3 H4]. by split. Qed.

(** A computation on the cache as a step of the file system. *)
Lemma onFsBuf_stored {A} (m : M cstate A) f p data r s' :
  m (bufs0 f) = (r, s') -> updated p data (bufs0 f) s' -> grown p (bufs0 f) s' ->
  exists f' e, onFsBuf m f = (r, f') /\ stored p data f f' /\ bufs f' = (s'.1, with_cemit e s'.2).
Proof.
  intros E Hu Hg. destruct (onFsBuf_run m f) as (f' & e & E' & Hr & Hd & Hb). rewrite E in E', Hd, Hb.
  exists f', e. assert (bufs f' = (s'.1, with_cemit e s'.2)) as Hf by by rewrite /bufs Hd Hb.
  split_and!; [done| |done]. split; [done|..]; rewrite Hf; [exact (updated_emit p data (bufs f) s' _ e Hu)|exact Hg].
Qed.

Lemma kept_updated p s s' : kept s s' -> updated p (view s p) s s'.
Proof. intros [H1 H2 H3 H4]. split; [done| |done|done]. intros a Ha. rewrite H2 //. by case_decide; subst. Qed.

Section one_file.
Context (f : Filesystem) (p : Z).
Hypothesis (Hc : cache_ok (bufs f)) (Hh : healthy (f_dev f)) (Hp : 0 <= p < BlockCount (f_dev f)).

Lemma get_stored :
  idle (bufs f) ->
  exists f', onFsBuf (GetBlock p) f = (Ok (view (bufs f) p), f') /\
    stored p (view (bufs f) p) f f' /\ held p (bufs f').
Proof using Hc Hh Hp.
  intros Hi. destruct (GetBlock_idle (bufs0 f) p Hc Hi Hh Hp) as (s' & E & Hk & Hhe & Hg).
  destruct (onFsBuf_stored _ f p _ _ s' E (kept_updated p _ _ Hk) Hg) as (f' & e & E' & Hst & Hb).
  exists f'. split_and!; [done|done|]. by rewrite Hb.
Qed.

Lemma back_stored :
  held p (bufs f) ->
  exists f', onFsBuf (PutBlock p (view (bufs f) p)) f = (Ok tt, f') /\
    stored p (view (bufs f) p) f f' /\ idle (bufs f').
Proof using Hc Hp.
  intros Hhe. destruct (PutBlock_back (bufs0 f) p Hc (proj1 Hp) Hhe) as (s' & E & Hk & Hi & Hg).
  destruct (onFsBuf_stored _ f p _ _ s' E (kept_updated p _ _ Hk) Hg) as (f' & e & E' & Hst & Hb).
  exists f'. split_and!; [done|done|]. by rewrite Hb.
Qed.

Lemma put_stored data :
  held p (bufs f) -> length data = BlockLen ->
  exists f1 f', onFsBuf (PutBlock p data) f = (Ok tt, f1) /\ onFsBuf (MarkDirty p) f1 = (Ok tt, f') /\
    stored p data f f' /\ idle (bufs f').
Proof using Hc Hp.
  intros Hhe Hl. destruct (onFsBuf_run (PutBlock p data) f) as (f1 & e1 & E1 & R1 & D1 & B1).
  rewrite (PutBlock_held (bufs0 f) p data Hhe Hl) in E1, D1, B1.
  destruct (onFsBuf_run (MarkDirty p) f1) as (f2 & e2 & E2 & R2 & D2 & B2).
  change (MarkDirty p (bufs0 f1)) with (Ok tt, marked p (bufs0 f1)) in E2, D2, B2.
  destruct (PutDirty_held (bufs0 f) p data Hc Hp Hhe Hl) as (Hu & Hi & Hg).
  assert (bufs f2 = (f_dev f, with_cemit e2 (marked p (f_dev f, with_cemit (noLog (c_emit (fs_buf f1)))
    (with_cemit e1 (given_back p data (bufs0 f)).2))).2)) as Hb.
  { rewrite /bufs D2 B2 /bufs0 B1. cbn [fst snd marked]. by rewrite D1. }
  exists f1, f2. split_and!; [done|done|split; [congruence|..]|]; rewrite Hb.
  - destruct Hu as [H1 H2 H3 H4]. by split.
  - exact Hg.
  - exact Hi.
Qed.

End one_file.

(** ** What a step on the cache means for a file

    A step on blocks of which [P] holds: it may bring them into the cache and
    change them; every other block reads as before. *)
Record touches (P : Z -> Prop) (f f' : Filesystem) : Prop := {
  tc_rest : rest f' = rest f;
  tc_cache : cache_ok (bufs f');
  tc_evol : dev_evol (f_dev f) (f_dev f');
  tc_view : forall x, 0 <= x -> ~ P x -> view (bufs f') x = view (bufs f) x;
  tc_grown : forall x, is_Some (c_cache (fs_buf f') !! x) -> P x \/ is_Some (c_cache (fs_buf f) !! x);
}.

Section touched.
Context (P : Z -> Prop) (f f' : Filesystem) (di : DiskInode).
Hypothesis (Ht : touches P f f') (Hok : file_ok f di).
Hypothesis (HP : forall x, P x ->
  data_addr x /\ IsSet (a_blockBM (fs_alloc f)) x = true /\ forall q, is_ptr q -> node (file f di) q <> x).

Lemma touched_parts :
  a_blockBM (fs_alloc f') = a_blockBM (fs_alloc f) /\ a_inodeBM (fs_alloc f') = a_inodeBM (fs_alloc f) /\
  a_sb (fs_alloc f') = a_sb (fs_alloc f) /\ fs_inodes f' = fs_inodes f /\ fs_mutating f' = fs_mutating f.
Proof using Ht. by pose proof (tc_rest _ _ _ Ht) as [= ? ? ? ? ? ? ?]. Qed.

(** A block that is not cached stays as it is on the device. *)
Lemma touched_peek x :
  0 <= x -> ~ P x -> ~ is_Some (c_cache (fs_buf f) !! x) -> peek (f_dev f') x = peek (f_dev f) x.
Proof using Ht.
  intros Hx Hne Hnc. assert (~ is_Some (c_cache (fs_buf f') !! x)) as Hnc'.
  { intros H. by destruct (tc_grown _ _ _ Ht x H). }
  pose proof (tc_view _ _ _ Ht x Hx Hne) as H. revert H.
  rewrite /view. cbn [fst snd bufs]. apply eq_None_not_Some in Hnc as ->. by apply eq_None_not_Some in Hnc' as ->.
Qed.

Lemma touched_node q : valid_pos q -> node (file f' di) q = node (file f di) q.
Proof using Ht Hok HP.
  apply (node_ext (file f di) (file f' di)); [by split|]. clear q. intros q Hq Hn.
  destruct (node_used _ q (so_map _ (fo_map _ _ Hok)) (proj1 Hq) Hn) as [H0 _].
  apply touched_peek; [done| |].
  - intros Hx. destruct (HP _ Hx) as (_ & _ & H). by apply (H q).
  - intros Hx%(fo_cached _ _ Hok). destruct Hx as (_ & _ & Hx). by apply (Hx q).
Qed.

Lemma touched_alloc_ok : alloc_ok (fs_alloc f').
Proof using Ht Hok.
  destruct touched_parts as (B & I & S & _). destruct (tc_evol _ _ _ Ht) as [E1 E2 E3].
  destruct (so_alloc _ (fo_map _ _ Hok)) as [[A1 A2 A3 A4] A5 A6 A7]. split; [split| | |].
  - by rewrite B.
  - by rewrite I.
  - by rewrite S B.
  - by rewrite S I.
  - by apply E2.
  - by apply E3.
  - rewrite -A7 /BlockCount. by rewrite -/(f_dev f') E1.
Qed.

Lemma touched_ok : file_ok f' di.
Proof using Ht Hok HP.
  destruct touched_parts as (B & _). split.
  - apply (state_ok_ext (file f di)); [apply Hok|exact touched_alloc_ok|apply Hok| |exact touched_node].
    intros x _. cbn [file fst]. by rewrite B.
  - apply (tc_cache _ _ _ Ht).
  - intros x Hx. rewrite B.
    assert (data_addr x /\ IsSet (a_blockBM (fs_alloc f)) x = true /\ forall q, is_ptr q -> node (file f di) q <> x)
      as (H1 & H2 & H3) by (destruct (tc_grown _ _ _ Ht x Hx); [by apply HP|by apply (fo_cached _ _ Hok)]).
    split_and!; [done|done|]. intros q Hq. rewrite touched_node; [apply Hq|]. by apply H3.
Qed.

(** The blocks of the file that the step does not change. *)
Lemma touched_mapped lb : 0 <= lb -> mapped (file f' di) lb = mapped (file f di) lb.
Proof using Ht Hok HP.
  intros H0. destruct (leafpos lb) as [q|] eqn:Eq.
  - rewrite (mapped_node _ lb q (fo_map _ _ touched_ok) H0 Eq) (mapped_node _ lb q (fo_map _ _ Hok) H0 Eq).
    f_equal. apply touched_node. by apply (leafpos_leaf _ _ H0 Eq).
  - apply leafpos_None in Eq. by rewrite /mapped !GetBlockForOffset_big.
Qed.

End touched.

Lemma stored_touches p data f f' : stored p data f f' -> touches (eq p) f f'.
Proof.
  intros [Hr [U1 U2 U3 U4] Hg]. split; [done|done|done| |].
  - intros x Hx Hne. rewrite U2 // decide_False //. by apply not_eq_sym.
  - intros x [->|Hx]%Hg; [by left|by right].
Qed.

(** The block by its position. *)
Lemma mapped_pos s lb :
  state_ok s -> 0 <= lb ->
  match leafpos lb with Some q => mapped s lb = Ok (node s q) | None => exists e, mapped s lb = Err e end.
Proof.
  intros Hs H0. destruct (leafpos lb) as [q|] eqn:E; [by apply mapped_node|]. apply leafpos_None in E.
  rewrite /mapped GetBlockForOffset_big //. by eexists.
Qed.

Lemma mapped_inj s lb lb' b :
  state_ok s -> 0 <= lb -> 0 <= lb' -> b <> 0 -> mapped s lb = Ok b -> mapped s lb' = Ok b -> lb = lb'.
Proof.
  intros Hs H0 H0' Hb. pose proof (mapped_pos s lb Hs H0) as H1. pose proof (mapped_pos s lb' Hs H0') as H2.
  destruct (leafpos lb) as [q|] eqn:Eq; [|by destruct H1 as [e ->]].
  destruct (leafpos lb') as [q'|] eqn:Eq'; [|by destruct H2 as [e ->]]. rewrite H1 H2. intros [= <-] [= E].
  destruct (leafpos_leaf _ _ H0 Eq) as [Hv _], (leafpos_leaf _ _ H0' Eq') as [Hv' _].
  assert (q = q') as -> by by apply (wm_inj _ (so_map _ Hs)). by apply (leafpos_inj _ _ q').
Qed.

(** A mapped block is data in use and no pointer block. *)
Lemma mapped_data s lb b :
  state_ok s -> 0 <= lb -> b <> 0 -> mapped s lb = Ok b ->
  data_addr b /\ IsSet (a_blockBM s.1) b = true /\ forall q, is_ptr q -> node s q <> b.
Proof.
  intros Hs H0 Hb Hm. pose proof (mapped_pos s lb Hs H0) as H1.
  destruct (leafpos lb) as [q|] eqn:Eq; [|destruct H1 as [e H1]; congruence]. rewrite H1 in Hm. injection Hm as <-.
  destruct (leafpos_leaf _ _ H0 Eq) as [Hv Hl]. destruct (wm_used _ (so_map _ Hs) q Hv Hb) as [Hd Hu].
  split_and!; [done|done|]. intros q' Hq' E.
  assert (q = q') as -> by by apply (wm_inj _ (so_map _ Hs)); [apply Hv|apply Hq'| |].
  destruct Hq' as [_ ?]. lia.
Qed.

Definition maps_to (s : inode_state) (lb p : Z) : bool :=
  match mapped s lb with Ok b => b =? p | _ => false end.

Lemma stored_block p data f f' di lb :
  stored p data f f' -> file_ok f di -> data_addr p -> IsSet (a_blockBM (fs_alloc f)) p = true ->
  (forall q, is_ptr q -> node (file f di) q <> p) -> 0 <= lb ->
  mapped (file f' di) lb = mapped (file f di) lb /\
  fileBlock f' di lb = if maps_to (file f di) lb p then data else fileBlock f di lb.
Proof.
  intros Hst Hok Hda Hset Hptr H0. pose proof (stored_touches _ _ _ _ Hst) as Ht.
  assert (mapped (file f' di) lb = mapped (file f di) lb) as Hm.
  { apply (touched_mapped _ _ _ _ Ht Hok); [|done]. by intros ? <-. }
  split; [done|]. rewrite /fileBlock /maps_to Hm.
  destruct (mapped (file f di) lb) as [b|e|] eqn:Eb; [|done..]. destruct (b =? 0) eqn:Eb0; simpl_bool.
  - subst b. destruct (0 =? p) eqn:E; [|done]. simpl_bool. unfold data_addr, DataStart in Hda. lia.
  - destruct (mapped_data _ _ _ (fo_map _ _ Hok) H0 Eb0 Eb) as ([Hd _] & _).
    rewrite (up_view _ _ _ _ (st_updated _ _ _ _ Hst)); [unfold DataStart in Hd; lia|].
    case_decide as E; [by rewrite E Z.eqb_refl|]. by apply Z.eqb_neq in E as ->.
Qed.

Lemma stored_trans p data data' f f1 f2 : stored p data f f1 -> stored p data' f1 f2 -> stored p data' f f2.
Proof.
  intros [R1 [O1 V1 E1 F1] G1] [R2 [O2 V2 E2 F2] G2]. split; [congruence|split|].
  - done.
  - intros x Hx. rewrite V2 // V1 //. by case_decide.
  - exact (transitivity E1 E2).
  - congruence.
  - intros x [->|Hx]%G2; [by left|by apply G1].
Qed.

(** ** Steps on a file among others *)

Definition apart (f : Filesystem) (di di2 : DiskInode) : Prop :=
  forall q q', valid_pos q -> valid_pos q' -> node (file f di) q <> 0 -> node (file f di) q <> node (file f di2) q'.

(** What an inode says of its file, but for the block map. *)
Definition stat_of (di : DiskInode) :=
  (Mode di, UID di, GID di, SizeLo di, SizeHi di, (ATime di, CTime di, MTime di, DTime di), Links di, Flags di, Generation di).

Definition same_stat (di di' : DiskInode) : Prop :=
  stat_of di' = stat_of di /\ (is_u32 (Blocks512 di) -> is_u32 (Blocks512 di')).
#[export] Instance same_stat_preorder : PreOrder same_stat.
Proof. split; [done|]. intros a b c [H1 H2] [H3 H4]. split; [congruence|auto]. Qed.

(** The file [di] has become [di'] with the blocks [g]; other files are as they
    were, and so are the inode table and the inode cache. *)
Record becomes (f : Filesystem) (di : DiskInode) (f' : Filesystem) (di' : DiskInode) (g : Z -> block) : Prop := {
  bc_ok : file_ok f' di';
  bc_idle : idle (bufs f');
  bc_block : forall lb, 0 <= lb -> fileBlock f' di' lb = g lb;
  bc_stat : same_stat di di';
  bc_others : forall di2, file_ok f di2 -> apart f di di2 ->
    file_ok f' di2 /\ apart f' di' di2 /\ forall lb, 0 <= lb -> fileBlock f' di2 lb = fileBlock f di2 lb;
  bc_meta : forall x, 0 <= x < DataStart -> x <> BlockBitmapAddr -> peek (f_dev f') x = peek (f_dev f) x;
  bc_inodes : fs_inodes f' = fs_inodes f;
  bc_mutating : fs_mutating f' = fs_mutating f;
}.

Lemma becomes_refl f di : file_ok f di -> idle (bufs f) -> becomes f di f di (fileBlock f di).
Proof. by split. Qed.

Lemma becomes_trans f di f1 di1 f2 di2 g1 g2 :
  becomes f di f1 di1 g1 -> becomes f1 di1 f2 di2 g2 -> becomes f di f2 di2 g2.
Proof.
  intros [A1 A2 A3 A4 A5 A6 A7 A8] [B1 B2 B3 B4 B5 B6 B7 B8]. split; try done; try congruence; [exact (transitivity A4 B4)| |].
  - intros d H1 H2. destruct (A5 d H1 H2) as (H3 & H4 & H5). destruct (B5 d H3 H4) as (H6 & H7 & H8).
    split_and!; [done|done|]. intros lb Hlb. by rewrite H8 // H5.
  - intros x Hx Hne. by rewrite B6 // A6.
Qed.

Lemma becomes_ext f di f' di' g g' :
  (forall lb, 0 <= lb -> g lb = g' lb) -> becomes f di f' di' g -> becomes f di f' di' g'.
Proof. intros He [A1 A2 A3 A4 A5 A6 A7 A8]. split; try done. intros lb Hlb. rewrite -He //. by apply A3. Qed.

Lemma stored_becomes p data f f' di lb :
  stored p data f f' -> file_ok f di -> idle (bufs f') -> 0 <= lb -> p <> 0 -> mapped (file f di) lb = Ok p ->
  becomes f di f' di (fun x => if x =? lb then data else fileBlock f di x).
Proof.
  intros Hst Hok Hi Hlb Hp Hm. destruct (mapped_data _ _ _ (fo_map _ _ Hok) Hlb Hp Hm) as (Hd & Hu & Hq).
  pose proof (stored_touches _ _ _ _ Hst) as Ht. destruct (touched_parts _ _ _ Ht) as (_ & _ & _ & HI & HM).
  pose proof (touched_ok _ f f' di Ht Hok ltac:(by intros ? <-)) as Hok'. split; [done|done| |done| | |done|done].
  - intros x Hx. destruct (stored_block p data f f' di x Hst Hok Hd Hu Hq Hx) as [_ ->].
    rewrite /maps_to. destruct (x =? lb) eqn:E; simpl_bool; [subst x; by rewrite Hm Z.eqb_refl|].
    destruct (mapped (file f di) x) as [b|e|] eqn:Eb; [|done..]. destruct (b =? p) eqn:Ep; [|done]. simpl_bool. subst b.
    by rewrite (mapped_inj _ x lb p (fo_map _ _ Hok)) in E.
  - intros d Hd2 Ha.
    assert (forall q, valid_pos q -> node (file f d) q <> p) as Hne.
    { pose proof (mapped_pos _ lb (fo_map _ _ Hok) Hlb) as H1. destruct (leafpos lb) as [q'|] eqn:Eq.
      - rewrite Hm in H1. injection H1 as ->. intros q Hv. apply not_eq_sym, Ha; [|done|done]. by apply (leafpos_leaf _ _ Hlb Eq).
      - destruct H1 as [e H1]. congruence. }
    assert (forall q, is_ptr q -> node (file f d) q <> p) as Hne' by (intros q Hq'; apply Hne, Hq').
    split_and!.
    + apply (touched_ok _ f f' d Ht Hd2). by intros ? <-.
    + intros q q' Hv Hv'. rewrite (touched_node _ f f' di Ht Hok ltac:(by intros ? <-) q Hv)
        (touched_node _ f f' d Ht Hd2 ltac:(by intros ? <-) q' Hv'). by apply Ha.
    + intros x Hx. destruct (stored_block p data f f' d x Hst Hd2 Hd Hu Hne' Hx) as [_ ->].
      rewrite /maps_to. pose proof (mapped_pos _ x (fo_map _ _ Hd2) Hx) as H1.
      destruct (leafpos x) as [q|] eqn:Eq; [|by destruct H1 as [e ->]]. rewrite H1.
      destruct (leafpos_leaf _ _ Hx Eq) as [Hv _]. specialize (Hne q Hv). by apply Z.eqb_neq in Hne as ->.
  - intros x Hx _. apply (touched_peek _ f f' Ht); [lia|destruct Hd; lia|].
    intros [[Hx1 _] _]%(fo_cached _ _ Hok). lia.
Qed.

(** ** Allocation *)

Lemma state_ok_emit e a di : state_ok (a, di) -> state_ok (with_emit e a, di).
Proof. intros [[[? ? ? ?] ? ? ?] [? ? ?]]. by split; [split|split]. Qed.
Lemma state_ok_unemit e a di : state_ok (with_emit e a, di) -> state_ok (a, di).
Proof. intros [[[? ? ? ?] ? ? ?] [? ? ?]]. by split; [split|split]. Qed.

Lemma ext_grow_emit Q e e' a di s' :
  ext_grow Q (with_emit e a, di) s' -> ext_grow Q (a, di) (with_emit e' s'.1, s'.2).
Proof.
  destruct s' as [a' di']. intros [H1 H2 H3 H4 H5 H6 H7 H8]. split; try done.
  intros H. by apply state_ok_emit, H1, state_ok_emit.
Qed.

Lemma onFsInode_run {A} di (m : M inode_state A) f :
  let o := m (with_emit (noLog (a_emit (fs_alloc f))) (fs_alloc f), di) in
  exists f' e, onFsInode di m f =
      (match o.1 with Ok x => Ok (x, o.2.2) | Err e => Err e | Panic => Panic end, f') /\
    fs_alloc f' = with_emit e o.2.1 /\ fs_buf f' = fs_buf f /\ fs_inodes f' = fs_inodes f /\
    fs_mutating f' = fs_mutating f.
Proof.
  rewrite /onFsInode /onFsAlloc. set (o := m _). cbn zeta.
  destruct o as [[x|e|] [a' di']]; cbn [fst snd];
    match goal with |- context [forward ?src ?log ?g] => destruct (forward_events src log g) as [h ->] end;
    by eexists _, _.
Qed.

Section grown_map.
Context (f f' : Filesystem) (di di' : DiskInode) (Q : pos -> Prop).
Hypothesis (Hg : ext_grow Q (file f di) (file f' di')) (Hok : file_ok f di).
Hypothesis (Hbuf : fs_buf f' = fs_buf f).

(** A block in use that is no pointer block of the file is left alone. *)
Lemma grown_peek x :
  data_addr x -> IsSet (a_blockBM (fs_alloc f)) x = true -> (forall q, is_ptr q -> node (file f di) q <> x) ->
  peek (f_dev f') x = peek (f_dev f) x.
Proof using Hg.
  intros [Hx _] Hu Hn. unfold DataStart in Hx.
  apply (eg_peek _ _ _ Hg); [lia|unfold BlockBitmapAddr; lia|by right|auto].
Qed.

Lemma grown_view x :
  data_addr x -> IsSet (a_blockBM (fs_alloc f)) x = true -> (forall q, is_ptr q -> node (file f di) q <> x) ->
  view (bufs f') x = view (bufs f) x.
Proof using Hg Hbuf.
  intros Hx Hu Hn. rewrite /view. cbn [bufs fst snd]. rewrite Hbuf. destruct (c_cache (fs_buf f) !! x); [done|].
  by apply grown_peek.
Qed.

Lemma grown_ok : state_ok (file f' di').
Proof using Hg Hok. apply (eg_ok _ _ _ Hg), Hok. Qed.

Lemma grown_cache : cache_ok (bufs f').
Proof using Hg Hok Hbuf.
  destruct (fo_cache _ _ Hok) as [Hd Hl He Hs Hc]. pose proof (so_alloc _ grown_ok) as [_ Hh Hw Hn].
  rewrite /cache_ok /=. rewrite Hbuf. split; [done|done| |done|done]. intros x e Hx.
  destruct (He x e Hx) as (H1 & H2 & H3 & H4).
  destruct (fo_cached _ _ Hok x (mk_is_Some _ _ Hx)) as (H5 & H6 & H7). split; [|split_and!; [done|done|]].
  - change (BlockCount (f_dev f') = TotalBlocks) in Hn. rewrite Hn. destruct H5. unfold DataStart in *. lia.
  - intros Hdirty. rewrite (H4 Hdirty). symmetry. by apply grown_peek.
Qed.

(** The block of a position is fresh or the one it was. *)
Lemma grown_node q :
  valid_pos q -> node (file f' di') q <> 0 ->
  node (file f' di') q = node (file f di) q \/
  (node (file f di) q = 0 /\ IsSet (a_blockBM (fs_alloc f)) (node (file f' di') q) = false).
Proof using Hg.
  intros Hv Hn. destruct (decide (node (file f di) q = 0)) as [E|E].
  - right. split; [done|]. by apply (eg_fresh _ _ _ Hg).
  - left. by apply (eg_old _ _ _ Hg).
Qed.

Lemma grown_file : file_ok f' di'.
Proof using Hg Hok Hbuf.
  split; [exact grown_ok|exact grown_cache|]. intros x. rewrite Hbuf. intros Hx.
  destruct (fo_cached _ _ Hok x Hx) as (H1 & H2 & H3). split_and!; [done| |].
  - apply (eg_mono _ _ _ Hg); [|done]. destruct H1. unfold DataStart in *. lia.
  - intros q Hq E. destruct (grown_node q (proj1 Hq)) as [E'|[_ E']].
    + rewrite E. destruct H1. unfold DataStart in *. lia.
    + apply (H3 q Hq). congruence.
    + rewrite E in E'. cbn [file fst] in *. congruence.
Qed.

Lemma grown_block lb : 0 <= lb -> fileBlock f' di' lb = fileBlock f di lb.
Proof using Hg Hok Hbuf.
  intros H0. rewrite /fileBlock. pose proof (mapped_pos _ lb grown_ok H0) as H1.
  pose proof (mapped_pos _ lb (fo_map _ _ Hok) H0) as H2.
  destruct (leafpos lb) as [q|] eqn:Eq; [|destruct H1 as [e ->], H2 as [e' ->]; done]. rewrite H1 H2.
  pose proof (leafpos_leaf _ _ H0 Eq) as Hl. destruct (node (file f di) q =? 0) eqn:E; simpl_bool.
  - destruct (node (file f' di') q =? 0) eqn:E'; [done|]. simpl_bool.
    pose proof (eg_fresh _ _ _ Hg q (proj1 Hl) E E') as Hu. rewrite /view. cbn [bufs fst snd]. rewrite Hbuf.
    destruct (c_cache (fs_buf f) !! node (file f' di') q) as [e|] eqn:Ec.
    + destruct (fo_cached _ _ Hok _ (mk_is_Some _ _ Ec)) as (_ & H & _). cbn [file fst] in *. congruence.
    + by apply (eg_zero _ _ _ Hg).
  - destruct (mapped_data _ lb _ (fo_map _ _ Hok) H0 E H2) as (Hd & Hu & Hp).
    rewrite (eg_old _ _ _ Hg q (proj1 Hl) E). apply Z.eqb_neq in E as ->. by apply grown_view.
Qed.

(** Another file. *)
Section other.
Context (d : DiskInode).
Hypothesis (Hd : file_ok f d) (Ha : apart f di d).

Lemma other_used q :
  valid_pos q -> node (file f d) q <> 0 ->
  data_addr (node (file f d) q) /\ IsSet (a_blockBM (fs_alloc f)) (node (file f d) q) = true /\
  forall q', is_ptr q' -> node (file f di) q' <> node (file f d) q.
Proof using Hd Ha.
  intros Hv Hn. destruct (wm_used _ (so_map _ (fo_map _ _ Hd)) q Hv Hn) as [H1 H2]. split_and!; [done|done|].
  intros q' Hq' E. destruct (Ha q' q); [apply Hq'|done|congruence|done].
Qed.

Lemma other_node q : valid_pos q -> node (file f' d) q = node (file f d) q.
Proof using Hg Hd Ha.
  apply (node_ext (file f d) (file f' d)); [by split|]. intros q' Hq Hn.
  destruct (other_used q' (proj1 Hq) Hn) as (H1 & H2 & H3). by apply grown_peek.
Qed.

Lemma other_file : file_ok f' d.
Proof using Hg Hok Hbuf Hd Ha.
  split; [|exact grown_cache|].
  - apply (state_ok_ext (file f d)); [apply Hd|apply grown_ok|apply Hd|apply (eg_mono _ _ _ Hg)|exact other_node].
  - intros x. rewrite Hbuf. intros Hx. destruct (fo_cached _ _ Hd x Hx) as (H1 & H2 & H3). split_and!; [done| |].
    + apply (eg_mono _ _ _ Hg); [|done]. destruct H1. unfold DataStart in *. lia.
    + intros q Hq. rewrite other_node; [apply Hq|by apply H3].
Qed.

Lemma other_apart : apart f' di' d.
Proof using Hg Hd Ha.
  intros q q' Hv Hv' Hn. rewrite other_node //. destruct (grown_node q Hv Hn) as [E|[_ E]].
  - rewrite E. apply Ha; [done|done|congruence].
  - intros E'. destruct (decide (node (file f d) q' = 0)) as [E0|E0]; [congruence|].
    destruct (other_used q' Hv' E0) as (_ & H & _). congruence.
Qed.

Lemma other_block lb : 0 <= lb -> fileBlock f' d lb = fileBlock f d lb.
Proof using Hg Hok Hbuf Hd Ha.
  intros H0. rewrite /fileBlock. pose proof (mapped_pos _ lb (fo_map _ _ other_file) H0) as H1.
  pose proof (mapped_pos _ lb (fo_map _ _ Hd) H0) as H2.
  destruct (leafpos lb) as [q|] eqn:Eq; [|destruct H1 as [e ->], H2 as [e' ->]; done]. rewrite H1 H2.
  pose proof (proj1 (leafpos_leaf _ _ H0 Eq)) as Hv. rewrite other_node //.
  destruct (node (file f d) q =? 0) eqn:E; [done|]. simpl_bool.
  destruct (other_used q Hv E) as (H3 & H4 & H5). by apply grown_view.
Qed.

End other.
End grown_map.

(** Only the block map and the number of blocks of the inode change. *)
Definition same_stats (s s' : inode_state) : Prop := same_stat s.2 s'.2.
#[export] Instance same_stats_preorder : PreOrder same_stats.
Proof. split; [intros s; red; reflexivity|]. intros a b c; rewrite /same_stats; apply transitivity. Qed.

Lemma onAlloc_stat {A} (m : M Allocator A) : keeps same_stats (onAlloc m).
Proof. intros s. rewrite /onAlloc /zoom. destruct (m s.1). red. reflexivity. Qed.
Lemma onBlk_stat {A} (m : M BlockDevice A) : keeps same_stats (onBlk m).
Proof. apply onAlloc_stat. Qed.
Lemma modInode_stat g : (forall di, same_stat di (g di)) -> keeps same_stats (modInode g).
Proof. intros H. apply keeps_modify; [apply _|]. intros s. apply H. Qed.
Lemma addBlocks512_stat di : same_stat di (addBlocks512 di).
Proof. split; [done|]. intros _. apply u32_range. Qed.
#[export] Hint Resolve onAlloc_stat onBlk_stat addBlocks512_stat : quiet.
#[export] Hint Extern 1 (keeps same_stats (modInode _)) => solve [apply modInode_stat; first [apply addBlocks512_stat|by split|auto]] : quiet.

Lemma ensureRoot_stat root setRoot : (forall p di, same_stat di (setRoot p di)) -> keeps same_stats (ensureRoot root setRoot).
Proof. intros H. rewrite /ensureRoot. quiet_solve. Qed.
Lemma ensureChild_stat parent blk idx : keeps same_stats (ensureChild parent blk idx).
Proof. rewrite /ensureChild. quiet_solve. Qed.
Lemma placeLeaf_stat parent blk idx : keeps same_stats (placeLeaf parent blk idx).
Proof. rewrite /placeLeaf. quiet_solve. Qed.
#[export] Hint Resolve ensureChild_stat placeLeaf_stat : quiet.
#[export] Hint Extern 1 (keeps same_stats (ensureRoot _ _)) => solve [apply ensureRoot_stat; by split] : quiet.
Lemma AllocBlockForOffset_stat lb : keeps same_stats (AllocBlockForOffset lb).
Proof. rewrite /AllocBlockForOffset. quiet_solve. Qed.

Lemma alloc_becomes f di lb :
  file_ok f di -> idle (bufs f) -> 0 <= lb < maxBlocks ->
  (exists f' di' b, onFsInode di (AllocBlockForOffset lb) f = (Ok (b, di'), f') /\
     becomes f di f' di' (fileBlock f di) /\ mapped (file f' di') lb = Ok b /\ b <> 0) \/
  (exists f', onFsInode di (AllocBlockForOffset lb) f = (Err ErrNoSpace, f')).
Proof.
  intros Hok Hi [H0 Hlt]. destruct (leafpos lb) as [p|] eqn:Ep; [|apply leafpos_None in Ep; lia].
  destruct (onFsInode_run di (AllocBlockForOffset lb) f) as (f' & e & E & Hal & Hbuf & Hin & Hmu).
  set (s0 := (with_emit (noLog (a_emit (fs_alloc f))) (fs_alloc f), di)) in *.
  assert (state_ok s0) as Hs0 by (apply state_ok_emit, Hok).
  pose proof (AllocBlockForOffset_stat lb s0) as Hst. cbn zeta in E.
  destruct (AllocBlockForOffset_run s0 lb p Hs0 H0 Ep) as [(s' & EA & Hg & Hn)|(s' & EA & _)]; rewrite EA in E, Hal, Hst.
  2: { right. by exists f'. }
  left. cbn [fst snd] in *. assert (ext_grow (above_eq p) (file f di) (file f' s'.2)) as Hg'.
  { rewrite /file Hal. exact (ext_grow_emit _ _ e _ _ _ Hg). }
  assert (node (file f' s'.2) p = node s' p) as Hnode.
  { rewrite /file Hal. by destruct s'. }
  assert (mapped (file f' s'.2) lb = Ok (node s' p)) as Hm.
  { rewrite -Hnode. apply mapped_node; [exact (grown_ok _ _ _ _ _ Hg' Hok)|done|done]. }
  exists f', s'.2, (node s' p). split; [exact E|]. split; [|by split].
  split; [exact (grown_file _ _ _ _ _ Hg' Hok Hbuf)| |exact (grown_block _ _ _ _ _ Hg' Hok Hbuf)|exact Hst| | |done|done].
  - intros x ex. cbn [bufs snd]. rewrite Hbuf. apply Hi.
  - intros d Hd Ha. split; [exact (other_file _ _ _ _ _ Hg' Hok Hbuf d Hd Ha)|].
    split; [exact (other_apart _ _ _ _ _ Hg' d Hd Ha)|exact (other_block _ _ _ _ _ Hg' Hok Hbuf d Hd Ha)].
  - intros x Hx Hne. apply (eg_peek _ _ _ Hg'); [lia|done|left; lia|].
    intros q Hq Hqn E'. destruct (wm_used _ (so_map _ (fo_map _ _ Hok)) q (proj1 Hq) Hqn) as [[? _] _]. lia.
Qed.

(** ** The loops of [Read] and [Write] *)

Definition maxBytes : Z := maxBlocks * BlockSize.

(** The bytes [g] with [buf] at [off]. *)
Definition overwrite (off : Z) (buf : list byte) (g : Z -> byte) (o : Z) : byte :=
  if (off <=? o) && (o <? off + Z.of_nat (length buf)) then nth (Z.to_nat (o - off)) buf x00 else g o.

Lemma fileByte_same f di g lb o :
  (forall x, 0 <= x -> fileBlock f di x = g x) -> 0 <= o -> lb = o / BlockSize ->
  fileByte f di o = nth (Z.to_nat (o mod BlockSize)) (g lb) x00.
Proof. intros H Ho ->. rewrite /fileByte H //. by apply Z.div_pos. Qed.

Lemma becomes_bytes f di f' di' o :
  becomes f di f' di' (fileBlock f di) -> 0 <= o -> fileByte f' di' o = fileByte f di o.
Proof. intros H Ho. by rewrite (fileByte_same f' di' (fileBlock f di) (o / BlockSize)); [apply H| | |]. Qed.

Lemma length_view s a : cache_ok s -> length (view s a) = BlockLen.
Proof.
  intros Hs. rewrite /view. destruct (c_cache s.2 !! a) as [e|] eqn:E; [by apply (po_entry _ _ _ _ Hs a)|].
  apply wf_peek, Hs.
Qed.

Lemma length_fileBlock f di lb : file_ok f di -> length (fileBlock f di lb) = BlockLen.
Proof.
  intros Hok. rewrite /fileBlock. destruct (mapped _ _); [|by rewrite length_replicate..].
  case_match; [by rewrite length_replicate|]. apply length_view, Hok.
Qed.

Lemma block_bytes f di lb off n :
  file_ok f di -> 0 <= off -> 0 <= n -> off + n <= BlockSize ->
  slice (Z.to_nat off) (Z.to_nat n) (fileBlock f di lb) = fileByte f di <$> seqZ (lb * BlockSize + off) n.
Proof.
  intros Hok H0 Hn Hle. pose proof (length_fileBlock f di lb Hok) as Hl. change BlockSize with 4096 in *.
  apply list_eq. intros i. rewrite list_lookup_fmap. destruct (decide (i < Z.to_nat n)%nat) as [Hi|Hi].
  - rewrite lookup_slice // lookup_seqZ_lt /=; [lia|]. rewrite /fileByte. change BlockSize with 4096.
    set (k := off + Z.of_nat i). replace (lb * 4096 + off + Z.of_nat i) with (k + lb * 4096) by lia.
    rewrite Z.div_add // Z.mod_add // (Z.div_small k) ?(Z.mod_small k); [unfold k; lia..|].
    rewrite Z.add_0_l. destruct (lookup_lt_is_Some_2 (fileBlock f di lb) (Z.to_nat off + i)) as [x Hx]; [lia|].
    rewrite Hx. symmetry. f_equal. apply nth_lookup_Some. by replace (Z.to_nat k) with (Z.to_nat off + i)%nat by lia.
  - rewrite (lookup_ge_None_2 (slice _ _ _)); [rewrite length_slice; lia|].
    by rewrite (lookup_ge_None_2 (seqZ _ _)); [rewrite length_seqZ; lia|].
Qed.

Lemma onFsDev_mapped f di lb :
  file_ok f di -> onFsDev (GetBlockForOffset di lb) f = (mapped (file f di) lb, f).
Proof.
  intros Hok. pose proof (ok_healthy _ (so_alloc _ (fo_map _ _ Hok))) as Hh.
  by apply (onFsDev_value _ Hh (GetBlockForOffset di lb) f eq_refl (GetBlockForOffset_still di lb) (GetBlockForOffset_total di lb)).
Qed.

(** The numbers of the loops. *)
Lemma offset_parts off n :
  0 <= off -> off + n <= 2 ^ 44 -> 0 < n ->
  u32 (Z.quot off BlockSize) = off / BlockSize /\ Z.rem off BlockSize = off mod BlockSize /\
  0 <= off mod BlockSize < BlockSize /\ off / BlockSize * BlockSize + off mod BlockSize = off /\ 0 <= off / BlockSize.
Proof.
  intros H0 Hle Hn. change BlockSize with 4096. rewrite Z.quot_div_nonneg // Z.rem_mod_nonneg //.
  pose proof (Z.div_mod off 4096). pose proof (Z.mod_pos_bound off 4096).
  assert (0 <= off / 4096 < 2 ^ 32) as Hd by (split; [by apply Z.div_pos|apply Z.div_lt_upper_bound; lia]).
  split; [by apply u32_small|]. split; [done|]. lia.
Qed.

(** A block that is mapped is fetched. *)
Lemma get_mapped f di lb p :
  file_ok f di -> idle (bufs f) -> 0 <= lb -> mapped (file f di) lb = Ok p -> p <> 0 ->
  exists f1, onFsBuf (GetBlock p) f = (Ok (fileBlock f di lb), f1) /\ stored p (fileBlock f di lb) f f1 /\
    cache_ok (bufs f1) /\ 0 <= p < BlockCount (f_dev f1) /\ held p (bufs f1) /\ view (bufs f1) p = fileBlock f di lb.
Proof.
  intros Hok Hi Hlb Hm Hp. assert (fileBlock f di lb = view (bufs f) p) as ->.
  { rewrite /fileBlock Hm. by apply Z.eqb_neq in Hp as ->. }
  destruct (mapped_data _ _ _ (fo_map _ _ Hok) Hlb Hp Hm) as ([Hd1 Hd2] & _).
  destruct (so_alloc _ (fo_map _ _ Hok)) as [_ Hh _ Hn]. change (BlockCount (f_dev f) = TotalBlocks) in Hn.
  assert (0 <= p < BlockCount (f_dev f)) as Hr by (unfold DataStart in Hd1; lia).
  destruct (get_stored f p (fo_cache _ _ Hok) Hh Hr Hi) as (f1 & E1 & S1 & Hhe).
  pose proof (st_updated _ _ _ _ S1) as [U1 U2 U3 _]. exists f1. split_and!; [done|done|done|lia| |done|].
  - change (f_dev f1) with (bufs f1).1. by rewrite (evol_BlockCount _ _ U3); apply Hr.
  - rewrite U2; [lia|by rewrite decide_True].
Qed.

(** One turn of [Read]. *)
Lemma read_block f di lb p :
  file_ok f di -> idle (bufs f) -> 0 <= lb -> mapped (file f di) lb = Ok p -> p <> 0 ->
  exists f1 f2, onFsBuf (GetBlock p) f = (Ok (fileBlock f di lb), f1) /\
    onFsBuf (PutBlock p (fileBlock f di lb)) f1 = (Ok tt, f2) /\ becomes f di f2 di (fileBlock f di).
Proof.
  intros Hok Hi Hlb Hm Hp. destruct (get_mapped f di lb p Hok Hi Hlb Hm Hp) as (f1 & E1 & S1 & U1 & Hr1 & Hhe & Hv).
  destruct (back_stored f1 p U1 Hr1 Hhe) as (f2 & E2 & S2 & Hi2).
  rewrite Hv in E2, S2. exists f1, f2. split; [done|]. split; [done|].
  eapply becomes_ext; [|exact (stored_becomes p _ f f2 di lb (stored_trans _ _ _ _ _ _ S1 S2) Hok Hi2 Hlb Hp Hm)].
  intros x _. cbn beta. destruct (x =? lb) eqn:E; [|done]. simpl_bool. by subst x.
Qed.

(** One turn of [Write] after the allocation. *)
Lemma write_block f di lb p :
  file_ok f di -> idle (bufs f) -> 0 <= lb -> mapped (file f di) lb = Ok p -> p <> 0 ->
  exists f1, onFsBuf (GetBlock p) f = (Ok (fileBlock f di lb), f1) /\
    forall data, length data = BlockLen ->
    exists f2 f3, onFsBuf (PutBlock p data) f1 = (Ok tt, f2) /\ onFsBuf (MarkDirty p) f2 = (Ok tt, f3) /\
      becomes f di f3 di (fun x => if x =? lb then data else fileBlock f di x).
Proof.
  intros Hok Hi Hlb Hm Hp. destruct (get_mapped f di lb p Hok Hi Hlb Hm Hp) as (f1 & E1 & S1 & U1 & Hr1 & Hhe & _).
  exists f1. split; [done|]. intros data Hl. destruct (put_stored f1 p U1 Hr1 data Hhe Hl) as (f2 & f3 & E2 & E3 & S2 & Hi3).
  exists f2, f3. split; [done|]. split; [done|].
  exact (stored_becomes p _ f f3 di lb (stored_trans _ _ _ _ _ _ S1 S2) Hok Hi3 Hlb Hp Hm).
Qed.

(** The bytes after it. *)
Lemma patch_bytes f di f' di' lb o buf x :
  becomes f di f' di' (fun y => if y =? lb then splice (Z.to_nat o) buf (fileBlock f di lb) else fileBlock f di y) ->
  file_ok f di -> 0 <= o -> o + Z.of_nat (length buf) <= BlockSize -> 0 <= lb -> 0 <= x ->
  fileByte f' di' x = overwrite (lb * BlockSize + o) buf (fileByte f di) x.
Proof.
  intros Hb Hok Ho Hle Hlb Hx. pose proof (length_fileBlock f di lb Hok) as Hl. change BlockSize with 4096 in *.
  rewrite /overwrite /fileByte (bc_block _ _ _ _ _ Hb); [by apply Z.div_pos|]. change BlockSize with 4096.
  pose proof (Z.div_mod x 4096 ltac:(done)) as Hdm. pose proof (Z.mod_pos_bound x 4096 ltac:(done)) as Hm.
  set (q := x / 4096) in *. set (r := x mod 4096) in *. destruct (q =? lb) eqn:E; simpl_bool.
  - subst lb. destruct (Z.leb_spec (q * 4096 + o) x), (Z.ltb_spec x (q * 4096 + o + Z.of_nat (length buf))); cbn [andb];
      rewrite !nth_lookup; f_equal;
      [rewrite lookup_splice_in; [lia..|]; f_equal; lia|apply lookup_splice_out; lia..].
  - destruct (Z.leb_spec (lb * 4096 + o) x), (Z.ltb_spec x (lb * 4096 + o + Z.of_nat (length buf))); cbn [andb]; [lia|done..].
Qed.

Lemma overwrite_app off k buf g x :
  (k <= length buf)%nat ->
  overwrite (off + Z.of_nat k) (drop k buf) (overwrite off (take k buf) g) x = overwrite off buf g x.
Proof.
  intros Hk. rewrite /overwrite length_take length_drop !nth_lookup.
  repeat match goal with |- context [(?a <=? ?b)] => destruct (Z.leb_spec a b)
    | |- context [(?a <? ?b)] => destruct (Z.ltb_spec a b) end; cbn [andb]; try lia; try done;
    f_equal; first [rewrite lookup_drop; f_equal; lia|by rewrite lookup_take_lt; [lia|]].
Qed.

Section loops.
Context {O : MapOrder}.

Lemma readLoop_ok fuel di offset n f :
  file_ok f di -> idle (bufs f) -> 0 <= offset -> 0 <= n -> (Z.to_nat n <= fuel)%nat -> offset + n <= maxBytes ->
  exists f', readLoop fuel di offset n f = (Ok (fileByte f di <$> seqZ offset n), f') /\
    becomes f di f' di (fileBlock f di).
Proof.
  revert offset n f. induction fuel as [|fuel IH]; intros offset n f Hok Hi Ho Hn Hf Hle.
  { assert (n = 0) as -> by lia. exists f. by split; [|apply becomes_refl]. }
  cbn [readLoop]. destruct (Z.leb_spec n 0) as [Hn0|Hn0].
  { assert (n = 0) as -> by lia. exists f. by split; [|apply becomes_refl]. }
  assert (offset + n <= 2 ^ 44) as Hle44 by (unfold maxBytes, maxBlocks, ptrs, PointersPerBlock, BlockSize in Hle; lia).
  destruct (offset_parts offset n Ho Hle44 Hn0) as (-> & -> & Hr & Hdm & Hq).
  set (lb := offset / BlockSize) in *. set (o := offset mod BlockSize) in *.
  set (k := Z.min (BlockSize - o) n). assert (0 < k <= n) as Hk by (subst k; lia).
  assert (lb < maxBlocks) as Hlb.
  { apply Z.div_lt_upper_bound; [done|]. unfold maxBytes in Hle. lia. }
  rewrite {1}/mbind {1}/M_bind onFsDev_mapped //.
  destruct (leafpos lb) as [q|] eqn:Eq; [|apply leafpos_None in Eq; lia].
  pose proof (mapped_node _ lb q (fo_map _ _ Hok) Hq Eq) as Hm. set (p := node (file f di) q) in *. rewrite Hm.
  assert (exists f2, becomes f di f2 di (fileBlock f di) /\
    forall (K : block -> M Filesystem (list byte)),
      (blk ← (if p =? 0 then mret zeroBlock else onFsBuf (GetBlock p));
       (if o <? 0 then panic else mret tt) ;;
       (if negb (p =? 0) then _ ← tryM (onFsBuf (PutBlock p blk)); mret tt else mret tt) ;;
       K blk) f = K (fileBlock f di lb) f2) as (f2 & Hb2 & EK).
  { replace (o <? 0) with false by (symmetry; apply Z.ltb_ge; lia). destruct (p =? 0) eqn:Ep; simpl_bool.
    - exists f. split; [by apply becomes_refl|]. intros K. by rewrite /fileBlock Hm Ep.
    - destruct (read_block f di lb p Hok Hi Hq Hm Ep) as (f1 & f2 & E1 & E2 & Hb). exists f2. split; [done|]. intros K.
      rewrite (bind_ok _ _ _ _ _ E1). rewrite /mbind /M_bind /tryM /mret /M_ret. cbn beta iota delta [negb]. by rewrite E2. }
  rewrite EK. destruct (IH (offset + k) (n - k) f2) as (f' & E' & Hb'); [apply Hb2|apply Hb2|lia..|].
  rewrite i64_small; [lia|]. rewrite (bind_ok _ _ _ _ _ E'). exists f'. split.
  - unfold mret, M_ret. f_equal. f_equal. rewrite block_bytes //; [subst k; lia..|]. fold lb o. rewrite Hdm.
    replace (seqZ offset n) with (seqZ offset k ++ seqZ (offset + k) (n - k)).
    + rewrite fmap_app. f_equal. apply list_fmap_ext. intros i x Hx. apply lookup_seqZ in Hx as [-> _].
      eapply becomes_bytes; [exact Hb2|lia].
    + rewrite -seqZ_app; [lia..|]. f_equal. lia.
  - eapply becomes_ext; [|exact (becomes_trans _ _ _ _ _ _ _ _ Hb2 Hb')]. intros x Hx. by apply Hb2.
Qed.

(** What a write has done to the file [di]. *)
Definition written (f : Filesystem) (di : DiskInode) (off : Z) (buf : list byte) (f' : Filesystem) (di' : DiskInode) : Prop :=
  exists g, becomes f di f' di' g /\ forall o, 0 <= o -> fileByte f' di' o = overwrite off buf (fileByte f di) o.

Lemma written_trans f di off buf k f1 di1 f2 di2 :
  (k <= length buf)%nat -> written f di off (take k buf) f1 di1 ->
  written f1 di1 (off + Z.of_nat k) (drop k buf) f2 di2 -> written f di off buf f2 di2.
Proof.
  intros Hk (g1 & B1 & H1) (g2 & B2 & H2). exists g2. split; [exact (becomes_trans _ _ _ _ _ _ _ _ B1 B2)|].
  intros o Ho. rewrite H2 // -(overwrite_app off k) // /overwrite. by rewrite H1.
Qed.

Lemma written_nil f di off : file_ok f di -> idle (bufs f) -> written f di off [] f di.
Proof.
  intros Hok Hi. exists (fileBlock f di). split; [by apply becomes_refl|]. intros x _.
  rewrite /overwrite Z.add_0_r. by destruct (Z.leb_spec off x), (Z.ltb_spec x off); [lia|..].
Qed.

(** One turn of the loop of [Write]. *)
Definition writeTurn (lb o : Z) (buf : list byte) (K : DiskInode -> M Filesystem (DiskInode * Z)) (di : DiskInode) :=
  '(physBlk, di) ← onFsInode di (AllocBlockForOffset lb);
  blkData ← onFsBuf (GetBlock physBlk);
  (if o <? 0 then panic else mret tt) ;;
  onFsBuf (PutBlock physBlk (splice (Z.to_nat o) buf blkData)) ;;
  onFsBuf (MarkDirty physBlk) ;;
  K di.

Lemma write_turn f di lb o buf (K : DiskInode -> M Filesystem (DiskInode * Z)) :
  file_ok f di -> idle (bufs f) -> 0 <= lb < maxBlocks -> 0 <= o -> o + Z.of_nat (length buf) <= BlockSize ->
  (exists f' di', writeTurn lb o buf K di f = K di' f' /\ written f di (lb * BlockSize + o) buf f' di') \/
  (exists f', writeTurn lb o buf K di f = (Err ErrNoSpace, f')).
Proof.
  intros Hok Hi Hlb Ho Hle. rewrite /writeTurn.
  destruct (alloc_becomes f di lb Hok Hi Hlb) as [(f1 & di1 & b & E1 & B1 & Hm & Hb)|(f1 & E1)].
  2: { right. exists f1. by rewrite (bind_err _ _ _ _ _ E1). }
  left. rewrite (bind_ok _ _ _ _ _ E1). replace (o <? 0) with false by (symmetry; apply Z.ltb_ge; lia).
  destruct (write_block f1 di1 lb b (bc_ok _ _ _ _ _ B1) (bc_idle _ _ _ _ _ B1) ltac:(lia) Hm Hb) as (f2 & E2 & HW).
  destruct (HW (splice (Z.to_nat o) buf (fileBlock f1 di1 lb))) as (f3 & f4 & E3 & E4 & B4).
  { pose proof (length_fileBlock f1 di1 lb (bc_ok _ _ _ _ _ B1)) as Hl. change BlockSize with 4096 in Hle.
    rewrite length_splice; [lia|done]. }
  exists f4, di1. rewrite (bind_ok _ _ _ _ _ E2). change (mret tt ;; ?m) with m.
  rewrite (bind_ok _ _ _ _ _ E3) (bind_ok _ _ _ _ _ E4). split; [done|].
  eexists. split; [exact (becomes_trans _ _ _ _ _ _ _ _ B1 B4)|]. intros x Hx.
  rewrite (patch_bytes _ _ _ _ _ _ _ _ B4 (bc_ok _ _ _ _ _ B1) Ho Hle ltac:(lia) Hx) /overwrite.
  by rewrite (becomes_bytes _ _ _ _ _ B1 Hx).
Qed.

Lemma writeLoop_ok fuel di off buf f :
  file_ok f di -> idle (bufs f) -> 0 <= off -> (length buf <= fuel)%nat -> off + Z.of_nat (length buf) <= 2 ^ 44 ->
  (exists f' di', writeLoop fuel di off buf f = (Ok (di', off + Z.of_nat (length buf)), f') /\
     written f di off buf f' di' /\ (buf <> [] -> off + Z.of_nat (length buf) <= maxBytes)) \/
  (exists e f', writeLoop fuel di off buf f = (Err e, f') /\
     (e = ErrNoSpace \/ e = ErrTooBig /\ maxBytes < off + Z.of_nat (length buf))).
Proof.
  revert di off buf f. induction fuel as [|fuel IH]; intros di off buf f Hok Hi Ho Hf Hle.
  { destruct buf; [|cbn in Hf; lia]. left. exists f, di. rewrite Z.add_0_r. split_and!; [done|by apply written_nil|done]. }
  cbn [writeLoop]. case_bool_decide as Hnil.
  { subst buf. left. exists f, di. rewrite Z.add_0_r. split_and!; [done|by apply written_nil|done]. }
  assert (0 < length buf)%nat as Hlen by (destruct buf; [done|cbn; lia]).
  destruct (offset_parts off (Z.of_nat (length buf)) Ho Hle ltac:(lia)) as (-> & -> & Hr & Hdm & Hq).
  set (lb := off / BlockSize) in *. set (o := off mod BlockSize) in *.
  set (k := Z.to_nat (Z.min (BlockSize - o) (Z.of_nat (length buf)))).
  assert (0 < k <= length buf)%nat as Hk by (subst k; lia).
  destruct (Z.ltb_spec lb maxBlocks) as [Hlb|Hlb].
  2: { right. exists ErrTooBig. destruct (onFsInode_run di (AllocBlockForOffset lb) f) as (f' & e & E & _).
    rewrite AllocBlockForOffset_big // in E. exists f'. rewrite (bind_err _ _ _ _ _ E). split; [done|]. right.
    split; [done|]. unfold maxBytes. change BlockSize with 4096 in *. lia. }
  assert (Z.of_nat (length (take k buf)) = Z.of_nat k) as Hlk by (rewrite length_take; lia).
  assert (o + Z.of_nat (length (take k buf)) <= BlockSize) as Hfit by (rewrite Hlk; subst k; lia).
  set (K := fun di => writeLoop fuel di (i64 (off + Z.of_nat k)) (drop k buf)).
  pose proof (write_turn f di lb o (take k buf) K Hok Hi ltac:(lia) ltac:(lia) Hfit) as HT. rewrite Hdm in HT.
  assert (Z.min (BlockSize - o) (Z.of_nat (length buf)) = Z.of_nat k) as -> by (subst k; lia).
  match goal with |- context [(onFsInode _ _ ≫= ?c) f] =>
    change ((onFsInode di (AllocBlockForOffset lb) ≫= c) f) with (writeTurn lb o (take k buf) K di f) end.
  destruct HT as [(f1 & di1 & -> & HW)|(f1 & ->)]; [|right; exists ErrNoSpace, f1; by split; [|left]].
  unfold K. rewrite i64_small; [lia|]. pose proof HW as (g & B & _).
  assert (off + Z.of_nat k + Z.of_nat (length (drop k buf)) = off + Z.of_nat (length buf)) as Hsum by (rewrite length_drop; lia).
  destruct (IH di1 (off + Z.of_nat k) (drop k buf) f1) as [(f2 & di2 & -> & HW2 & Hmax)|(e & f2 & -> & He)];
    [apply B|apply B|lia|rewrite length_drop; lia|lia| |].
  - rewrite Hsum. left. exists f2, di2. split_and!; [done|exact (written_trans _ _ _ _ k _ _ _ _ (proj2 Hk) HW HW2)|]. intros _.
    destruct (decide (drop k buf = [])) as [E|E]; [|by rewrite -Hsum; apply Hmax].
    apply (f_equal length) in E. rewrite length_drop /= in E. unfold maxBytes. change BlockSize with 4096 in *. lia.
  - right. exists e, f2. split; [done|]. by rewrite -Hsum.
Qed.

End loops.
