(* ===== verification/ReadWrite.v ===== *)
(** * ReadWrite: a file is an array of bytes

    [Read] returns the bytes of a file, and [Write] changes those it is given
    and is durable when it returns. *)

From S2P Require Export FileBytes Progress.

(** ** Steps outside the files *)

(** What files depend on in the allocator: the bitmaps and the counters. *)
Definition alloc_parts (a : Allocator) := (a_blockBM a, a_inodeBM a, FreeBlocks (a_sb a), FreeInodes (a_sb a)).

(** Only what lies before the data blocks, and what no file depends on, has
    changed. *)
Record same_data (f f' : Filesystem) : Prop := {
  sd_parts : alloc_parts (fs_alloc f') = alloc_parts (fs_alloc f);
  sd_cache : (c_cache (fs_buf f'), c_lru (fs_buf f'), c_capacity (fs_buf f')) =
             (c_cache (fs_buf f), c_lru (fs_buf f), c_capacity (fs_buf f));
  sd_evol : dev_evol (f_dev f) (f_dev f');
  sd_peek : forall x, DataStart <= x -> peek (f_dev f') x = peek (f_dev f) x;
}.

#[export] Instance same_data_preorder : PreOrder same_data.
Proof.
  split; [by split|]. intros a b c [P1 C1 E1 K1] [P2 C2 E2 K2]. split; [congruence|congruence|exact (transitivity E1 E2)|].
  intros x Hx. by rewrite K2 // K1.
Qed.

Section same.
Context (f f' : Filesystem) (di di' : DiskInode).
Hypothesis (Hs : same_data f f') (Hp : same_pointers di di') (Hok : file_ok f di).

Lemma same_node q : valid_pos q -> node (file f' di') q = node (file f di) q.
Proof using Hs Hp Hok.
  apply (node_ext (file f di) (file f' di')); [done|]. intros q' Hq Hn. apply (sd_peek _ _ Hs).
  by destruct (wm_used _ (so_map _ (fo_map _ _ Hok)) q' (proj1 Hq) Hn) as [[H _] _].
Qed.

Lemma same_alloc_ok : alloc_ok (fs_alloc f').
Proof using Hs Hok.
  destruct Hs as [[= B I S1 S2] _ [E1 E2 E3] _]. destruct (so_alloc _ (fo_map _ _ Hok)) as [[A1 A2 A3 A4] A5 A6 A7].
  split; [split| | |].
  - by rewrite B.
  - by rewrite I.
  - by rewrite S1 B.
  - by rewrite S2 I.
  - by apply E2.
  - by apply E3.
  - rewrite -A7 /BlockCount. by rewrite -/(f_dev f') E1.
Qed.

Lemma same_view x : DataStart <= x -> view (bufs f') x = view (bufs f) x.
Proof using Hs.
  intros Hx. rewrite /view. cbn [bufs fst snd].
  pose proof (sd_cache _ _ Hs) as [= E _ _]. rewrite E. destruct (c_cache (fs_buf f) !! x); [done|]. by apply (sd_peek _ _ Hs).
Qed.

Lemma same_file : file_ok f' di'.
Proof using Hs Hp Hok.
  pose proof (sd_cache _ _ Hs) as [= C L N]. pose proof (sd_parts _ _ Hs) as [= B _ _ _]. split.
  - apply (state_ok_ext (file f di)); [apply Hok|exact same_alloc_ok| | |exact same_node].
    + cbn [file snd]. rewrite (proj1 Hp). apply Hok.
    + intros x _. cbn [file fst]. by rewrite B.
  - destruct (fo_cache _ _ Hok) as [Hd Hl He Hsz Hc]. rewrite /cache_ok. cbn [bufs fst snd] in *. rewrite C L N.
    split; [by apply (sd_evol _ _ Hs)|done| |done|done]. intros x e Hx. destruct (He x e Hx) as (H1 & H2 & H3 & H4).
    rewrite (evol_BlockCount _ _ (sd_evol _ _ Hs)). split; [lia|]. split_and!; [done|done|]. intros Hdirty. rewrite (H4 Hdirty).
    symmetry. apply (sd_peek _ _ Hs). destruct (fo_cached _ _ Hok x (mk_is_Some _ _ Hx)) as ([H5 _] & _). done.
  - intros x. rewrite C. intros Hx. destruct (fo_cached _ _ Hok x Hx) as (H1 & H2 & H3). rewrite B. split_and!; [done|done|].
    intros q Hq. rewrite same_node; [apply Hq|by apply H3].
Qed.

Lemma same_block lb : 0 <= lb -> fileBlock f' di' lb = fileBlock f di lb.
Proof using Hs Hp Hok.
  intros H0. rewrite /fileBlock. pose proof (mapped_pos _ lb (fo_map _ _ same_file) H0) as H1.
  pose proof (mapped_pos _ lb (fo_map _ _ Hok) H0) as H2.
  destruct (leafpos lb) as [q|] eqn:Eq; [|destruct H1 as [e ->], H2 as [e' ->]; done]. rewrite H1 H2.
  pose proof (proj1 (leafpos_leaf _ _ H0 Eq)) as Hv. rewrite same_node //.
  destruct (node (file f di) q =? 0) eqn:E; [done|]. simpl_bool. apply same_view.
  by destruct (wm_used _ (so_map _ (fo_map _ _ Hok)) q Hv E) as [[H _] _].
Qed.

Lemma same_bytes o : 0 <= o -> fileByte f' di' o = fileByte f di o.
Proof using Hs Hp Hok. intros Ho. rewrite /fileByte same_block //. by apply Z.div_pos. Qed.

Lemma same_idle : idle (bufs f) -> idle (bufs f').
Proof using Hs. pose proof (sd_cache _ _ Hs) as [= C _ _]. intros H x e. cbn [bufs snd]. rewrite C. apply H. Qed.

End same.

(** ** Inodes *)

(** The inode [inum] as [fsReadInode] finds it. *)
Definition inodeOf (f : Filesystem) (inum : Z) : result DiskInode :=
  match cached (fs_inodes f) inum with
  | Some data => Ok (decodeInode data)
  | None => (ReadInode inum (f_dev f)).1
  end.

Lemma inodeOf_wf f inum di : healthy (f_dev f) -> inodeOf f inum = Ok di -> wf_inode di.
Proof.
  intros Hh. rewrite /inodeOf. destruct (cached _ _); [intros [= <-]; apply wf_decodeInode|].
  intros H. by destruct (ReadInode_inv inum (f_dev f) di Hh H).
Qed.

(** It is in the cache. *)
Definition holds_inode (ic : InodeCache) (inum : Z) (di : DiskInode) : Prop :=
  exists data, cached ic inum = Some data /\ decodeInode data = di.

Lemma inodeOf_held f inum di : holds_inode (fs_inodes f) inum di -> inodeOf f inum = Ok di.
Proof. intros (data & E & <-). by rewrite /inodeOf E. Qed.

Section inodes.
Context {O : MapOrder}.

Lemma length_stored di : wf_inode di -> length (encodeInode di zeroInodeData) = InodeLen.
Proof.
  intros Hw. assert (length zeroInodeData = InodeLen) as Hz by by rewrite /zeroInodeData /zeros length_replicate.
  by rewrite length_encodeInode ?Hz; [apply Hw| |].
Qed.

Lemma IUpdate_held ic inum di :
  wf_inode di -> entries_ok ic -> valid_inum inum ->
  exists ic', IUpdate inum (encodeInode di zeroInodeData) ic = (Ok tt, ic') /\ holds_inode ic' inum di /\ entries_ok ic'.
Proof.
  intros Hw Hok Hv. set (data := encodeInode di zeroInodeData). assert (decodeInode data = di) as Hd.
  { by rewrite decode_encode_inode // /zeroInodeData /zeros length_replicate. }
  pose proof (length_stored di Hw : length data = InodeLen) as Hl.
  destruct (IUpdate_spec ic inum data Hok Hv Hl) as (ic' & E & Hok' & Hc & _). exists ic'. split_and!; [done| |done].
  by exists data.
Qed.

Lemma fsReadInode_run f inum di :
  healthy (f_dev f) -> inodeOf f inum = Ok di -> entries_ok (fs_inodes f) -> valid_inum inum ->
  exists ic, fsReadInode inum f = (Ok di, with_inodes ic f) /\ holds_inode ic inum di /\ entries_ok ic.
Proof.
  intros Hh Hi Hok Hv. pose proof (inodeOf_wf _ _ _ Hh Hi) as Hw. revert Hi. rewrite /inodeOf /fsReadInode /cached.
  destruct (ic_cache (fs_inodes f) !! inum) as [e|] eqn:He; cbn [fmap option_fmap option_map].
  - intros [= <-]. exists (with_icache (alter ie_ref inum) (fs_inodes f)).
    rewrite (bind_ok _ _ _ (Some (ie_data e)) (with_inodes (with_icache (alter ie_ref inum) (fs_inodes f)) f)).
    { by rewrite /onFsInodes /zoom /IGet bind_gets He. }
    split; [done|]. split; [exists (ie_data e); split; [by rewrite /cached /= lookup_alter_eq He|done]|].
    intros k x. cbn. rewrite lookup_alter_Some. intros [(-> & x0 & Hx & ->)|[_ Hx]]; [|by apply (Hok k)].
    destruct (Hok _ _ Hx) as (? & ? & ?). cbn. split_and!; [done|done|lia].
  - intros Hi. rewrite (bind_ok _ _ _ None f).
    { rewrite /onFsInodes /zoom /IGet bind_gets He. by destruct f. }
    destruct (onFsDev_value _ Hh (ReadInode inum) f eq_refl (ReadInode_still inum) (ReadInode_total inum)) as [E _].
    rewrite Hi in E. rewrite (bind_ok _ _ _ _ _ E). destruct (makeRoom_spec (fs_inodes f)) as (ic1 & Em & Hic).
    exists (with_icache (<[inum := mkInodeEntry (encodeInode di zeroInodeData) false 0]>) ic1).
    rewrite (bind_ok _ _ _ tt (with_inodes (with_icache (<[inum := mkInodeEntry (encodeInode di zeroInodeData) false 0]>) ic1) f)).
    + by rewrite /onFsInodes /zoom /IPut bind_gets He (bind_ok _ _ _ _ _ Em).
    + split; [done|]. split.
      * exists (encodeInode di zeroInodeData). split; [by rewrite /cached /= lookup_insert_eq|].
        by rewrite decode_encode_inode // /zeroInodeData /zeros length_replicate.
      * intros k x. cbn. rewrite lookup_insert_Some. intros [[<- <-]|[_ Hx]].
        { split_and!; [done|by apply length_stored|done]. }
        destruct Hic as [Hic|(k' & e & _ & _ & Hic & _)]; rewrite Hic in Hx; [by apply (Hok k)|].
        apply lookup_delete_Some in Hx as [_ Hx]. by apply (Hok k).
Qed.

End inodes.

(** Inodes on the device. *)
Lemma inode_at_raw d m : inode_at d m = decodeInode (raw_at d m).
Proof. rewrite /inode_at /raw_at. by destruct (InodeNumToBlock m). Qed.

Lemma raw_at_same d d' m : valid_inum m -> (forall a, table_block a -> peek d' a = peek d a) -> raw_at d' m = raw_at d m.
Proof.
  intros Hm H. rewrite /raw_at. destruct (InodeNumToBlock m) as [a o] eqn:E. destruct (inode_place _ _ _ Hm E) as [Ha _].
  by rewrite H.
Qed.

(** ** [Read] and [Write] *)

(** The inode of the file [inum] is [di], and nobody uses its blocks. *)
Record file_at (f : Filesystem) (inum : Z) (di : DiskInode) : Prop := {
  fa_inum : valid_inum inum;
  fa_entries : entries_ok (fs_inodes f);
  fa_inode : inodeOf f inum = Ok di;
  fa_ok : file_ok f di;
  fa_idle : idle (bufs f);
}.

Lemma fa_healthy f inum di : file_at f inum di -> healthy (f_dev f).
Proof. intros H. apply (ok_healthy _ (so_alloc _ (fo_map _ _ (fa_ok _ _ _ H)))). Qed.

(** A part of the state that no file depends on. *)
Lemma aside_same f f' :
  fs_buf f' = fs_buf f ->
  f_dev f' = f_dev f -> alloc_parts (fs_alloc f') = alloc_parts (fs_alloc f) ->
  same_data f f'.
Proof. intros B D E. by split; rewrite ?B ?D. Qed.

Lemma file_at_same f f' inum di di' :
  same_data f f' -> same_pointers di di' -> inodeOf f' inum = Ok di' -> entries_ok (fs_inodes f') -> file_at f inum di ->
  file_at f' inum di' /\ forall o, 0 <= o -> fileByte f' di' o = fileByte f di o.
Proof.
  intros Hs Hp Hi He [Hv _ _ Hok Hid]. split; [split|].
  - done.
  - done.
  - done.
  - exact (same_file _ _ _ _ Hs Hp Hok).
  - exact (same_idle _ _ Hs Hid).
  - exact (same_bytes _ _ _ _ Hs Hp Hok).
Qed.

Section operations.
Context {O : MapOrder}.

Lemma checkPerm_ok di cred r w x f : CheckPermission di cred r w x = Ok tt -> checkPerm di cred r w x f = (Ok tt, f).
Proof. intros E. by rewrite /checkPerm /onErr /liftResult E. Qed.

(** The head of an operation on a file: count, read the inode, check. *)
Lemma fsReadInode_at f inum di :
  file_at f inum di ->
  exists f', fsReadInode inum f = (Ok di, f') /\ file_at f' inum di /\ same_data f f' /\
    holds_inode (fs_inodes f') inum di /\ fs_mutating f' = fs_mutating f /\ forall o, 0 <= o -> fileByte f' di o = fileByte f di o.
Proof.
  intros H. destruct (fsReadInode_run f inum di (fa_healthy _ _ _ H) (fa_inode _ _ _ H)
    (fa_entries _ _ _ H) (fa_inum _ _ _ H)) as (ic & E & Hh & He).
  pose proof (inodeOf_held (with_inodes ic f) inum di Hh) as Hi. exists (with_inodes ic f). assert (same_data f (with_inodes ic f)) as Hs by by apply aside_same.
  destruct (file_at_same f (with_inodes ic f) inum di di Hs ltac:(by split) Hi He H) as [H1 H2]. by split_and!.
Qed.

Lemma UpdateInodeCache_at f inum di di' :
  file_at f inum di -> same_pointers di di' -> wf_inode di' ->
  exists f', UpdateInodeCache inum di' f = (Ok tt, f') /\ file_at f' inum di' /\
    forall o, 0 <= o -> fileByte f' di' o = fileByte f di o.
Proof.
  intros H Hp Hw. destruct (IUpdate_held (fs_inodes f) inum di' Hw (fa_entries _ _ _ H) (fa_inum _ _ _ H)) as (ic & E & Hc & He).
  exists (with_inodes ic f). split; [by rewrite /UpdateInodeCache /onFsInodes /zoom E|].
  apply (file_at_same f); [by apply aside_same|done|by apply inodeOf_held|done|done].
Qed.

Lemma wf_times a c m di : is_u32 a -> is_u32 c -> is_u32 m -> wf_inode di -> wf_inode (with_times a c m di).
Proof.
  intros Ha Hc Hm (H1 & H2 & H3 & H4). split; [done|]. split; [|done].
  rewrite !Forall_cons in H2. destruct H2 as (? & ? & ? & ? & ?). rewrite /= !Forall_cons. tauto.
Qed.

Lemma Read_returns now cred f inum di offset len :
  file_at f inum di -> IsDir di = false -> CheckPermission di cred true false false = Ok tt ->
  is_u32 now -> 0 <= offset -> 0 <= len -> len + offset < 2 ^ 63 -> SizeOf di <= maxBytes ->
  exists f' di', Read now cred inum offset len f =
      (Ok (fileByte f di <$> seqZ offset (Z.max 0 (Z.min len (SizeOf di - offset)))), f') /\
    file_at f' inum di' /\ noatime di' = noatime di /\ forall o, 0 <= o -> fileByte f' di' o = fileByte f di o.
Proof.
  intros H Hdir Hperm Hnow Ho Hlen Hbig Hsize. rewrite /Read /fsCount bind_modify. set (f0 := put_metrics _ f).
  destruct (file_at_same f f0 inum di di ltac:(by apply aside_same) ltac:(by split) (fa_inode _ _ _ H) (fa_entries _ _ _ H) H) as [H0 B0].
  destruct (fsReadInode_at f0 inum di H0) as (f1 & E1 & H1 & _ & Hheld & _ & B1).
  rewrite (bind_ok _ _ _ _ _ E1) bind_failIf_false // (bind_ok _ _ _ tt f1); [by apply checkPerm_ok|].
  set (n := Z.max 0 (Z.min len (SizeOf di - offset))).
  assert (forall o, 0 <= o -> fileByte f1 di o = fileByte f di o) as HB by (intros o Hox; by rewrite B1 // B0).
  destruct (Z.leb_spec (SizeOf di) offset) as [Hend|Hend].
  { assert (n = 0) as -> by lia. by exists f1, di. }
  rewrite i64_small; [lia|].
  replace (if SizeOf di <? len + offset then SizeOf di - offset else len) with n by (case_match; simpl_bool; lia).
  destruct (n =? 0) eqn:En; simpl_bool. { rewrite En. by exists f1, di. }
  destruct (readLoop_ok (Z.to_nat n) di offset n f1) as (f2 & E2 & B2); [apply H1|apply H1|lia..|].
  rewrite (bind_ok _ _ _ _ _ E2).
  assert (wf_inode (accessed now di)) as Hw.
  { pose proof (inodeOf_wf _ _ _ (fa_healthy _ _ _ H) (fa_inode _ _ _ H)) as Hw. pose proof Hw as (_ & H4 & _).
    rewrite !Forall_cons in H4. apply wf_times; tauto. }
  assert (file_at f2 inum di) as H2.
  { destruct B2 as [? ? ? ? ? ? Hin ?]. split; try done; rewrite ?Hin; [apply H|apply H1|]. apply inodeOf_held. by rewrite Hin. }
  destruct (UpdateInodeCache_at f2 inum di (accessed now di) H2 ltac:(by split) Hw) as (f3 & E3 & H3 & B3).
  rewrite (bind_ok _ _ _ _ _ E3) bind_modify. set (f4 := put_metrics _ f3).
  destruct (file_at_same f3 f4 inum _ (accessed now di) ltac:(by apply aside_same) ltac:(by split) (fa_inode _ _ _ H3) (fa_entries _ _ _ H3) H3) as [H4 B4].
  exists f4, (accessed now di). split_and!; [|done|done|].
  - unfold mret, M_ret. f_equal. f_equal. apply list_fmap_ext. intros i x Hx. apply lookup_seqZ in Hx as [-> _]. apply HB. lia.
  - intros o Hox. by rewrite B4 // B3 // (becomes_bytes _ _ _ _ _ B2 Hox) HB.
Qed.

(** C9: [Read] on a device that does not fail returns the bytes of the file
    from [offset] on, as many as are wanted and as there are before its end;
    zeros where no block is mapped.  The file keeps its bytes, and of its inode
    only the access time may change. *)
Theorem Read_correct now cred f inum di offset len :
  file_at f inum di -> IsDir di = false -> CheckPermission di cred true false false = Ok tt ->
  is_u32 now -> 0 <= offset -> 0 <= len -> len + offset < 2 ^ 63 -> SizeOf di <= maxBytes ->
  exists f' di', Read now cred inum offset len f =
      (Ok (fileByte f di <$> seqZ offset (Z.max 0 (Z.min len (SizeOf di - offset)))), f') /\
    file_at f' inum di' /\ noatime di' = noatime di /\ forall o, 0 <= o -> fileByte f' di' o = fileByte f di o.
Proof. exact (Read_returns now cred f inum di offset len). Qed.

(** The inodes that [Write] stores can be encoded. *)
Lemma wf_pointers s i : state_ok s -> 0 <= i < 12 -> is_u32 (Direct s.2 !!! Z.to_nat i).
Proof.
  intros Hs Hi. destruct (decide (node s (0%nat, [i]) = 0)) as [E|E].
  - cbn in E. by rewrite E.
  - destruct (wm_used _ (so_map _ Hs) (0%nat, [i]) ltac:(by constructor) E) as [[H1 H2] _]. cbn in H1, H2.
    unfold is_u32, DataStart, TotalBlocks in *. lia.
Qed.

Lemma wf_root s r : state_ok s -> (1 <= r <= 3)%nat -> is_u32 (root s.2 r).
Proof.
  intros Hs Hr. assert (node s (r, []) = root s.2 r) as E by (rewrite node_tree; [lia|done]).
  destruct (decide (node s (r, []) = 0)) as [E0|E0]; [by rewrite -E E0|].
  destruct (wm_used _ (so_map _ Hs) (r, []) ltac:(constructor; [done|simpl; lia|done]) E0) as [[H1 H2] _].
  rewrite -E. unfold is_u32, DataStart, TotalBlocks in *. lia.
Qed.

Lemma wf_written f di di' : wf_inode di -> same_stat di di' -> state_ok (file f di') -> wf_inode di'.
Proof.
  intros (H1 & H2 & H3 & H4) [[= E1 E2 E3 E4 E5 E6 E7 E8 E9 E10 E11 E12] Hb] Hs.
  rewrite !Forall_cons in H1, H2. destruct H1 as (? & ? & ? & ? & _), H2 as (? & ? & ? & ? & ? & ? & ? & _ & _ & _ & ? & ? & _).
  pose proof (wf_root _ 1 Hs ltac:(lia)) as R1. pose proof (wf_root _ 2 Hs ltac:(lia)) as R2.
  pose proof (wf_root _ 3 Hs ltac:(lia)) as R3. cbn in R1, R2, R3.
  pose proof (wm_direct _ (so_map _ Hs)) as Hl. cbn [file snd] in Hl. split_and!; [| |done|].
  - rewrite E1 E2 E3 E10 !Forall_cons Forall_nil. tauto.
  - rewrite E4 E5 E6 E7 E8 E9 E11 E12 !Forall_cons Forall_nil. tauto.
  - apply Forall_lookup. intros i x Hx. pose proof (lookup_lt_Some _ _ _ Hx) as Hi.
    pose proof (wf_pointers (file f di') (Z.of_nat i) Hs ltac:(lia)) as Hd. cbn [file snd] in Hd.
    rewrite Nat2Z.id in Hd. by rewrite (list_lookup_total_correct _ _ _ Hx) in Hd.
Qed.

Lemma wf_SetSize size di : wf_inode di -> wf_inode (SetSize size di).
Proof.
  intros (H1 & H2 & H3 & H4). split; [done|]. split; [|done].
  rewrite !Forall_cons in H2. rewrite /= !Forall_cons. pose proof (u32_range (Z.land size 0xFFFFFFFF)).
  pose proof (u32_range (Z.shiftr size 32)). unfold is_u32 in *. tauto.
Qed.

Lemma WriteInodeFS_at now f inum di di' :
  file_ok f di -> idle (bufs f) -> same_pointers di di' -> wf_inode di' -> valid_inum inum -> entries_ok (fs_inodes f) ->
  fs_mutating f = true ->
  exists f', WriteInodeFS now inum di' f = (Ok tt, f') /\ file_at f' inum di' /\ same_data f f' /\
    holds_inode (fs_inodes f') inum di' /\ fs_mutating f' = true.
Proof.
  intros Hok Hi Hp Hw Hv He Hmut. rewrite /WriteInodeFS. destruct (InodeNumToBlock inum) as [a o] eqn:Ea.
  destruct (inode_place _ _ _ Hv Ea) as [Ha Ho].
  destruct (IUpdate_held (fs_inodes f) inum di' Hw He Hv) as (ic & E & Hc & He').
  rewrite (bind_ok _ _ _ tt (with_inodes ic f)); [by rewrite /onFsInodes /zoom E|]. set (f1 := with_inodes ic f).
  rewrite bind_gets. change (fs_mutating f1) with (fs_mutating f). rewrite Hmut.
  destruct (so_alloc _ (fo_map _ _ Hok)) as [_ Hh Hwf Hn]. change (a_dev (file f di).1) with (f_dev f1) in Hh, Hwf, Hn.
  assert (0 <= a < DataStart /\ a < BlockCount (f_dev f1)) as [Hr Hlt].
  { rewrite Hn. unfold InodeTableStart, InodeTableBlocks, DataStart, TotalBlocks in *. lia. }
  rewrite (bind_ok _ _ _ (peek (f_dev f1) a) f1).
  { rewrite /onFsDev /zoom ReadBlock_ok //. by destruct f as [[] ? ? ? ? ? ? ? ?]. }
  set (blk := splice o (encodeInode di' zeroInodeData) (peek (f_dev f1) a)).
  assert (length blk = BlockLen) as Hl.
  { rewrite length_splice; [|by apply wf_peek]. rewrite length_encodeInode; [apply Hw|done|].
    rewrite wf_peek //. }
  assert (onFsDev (WriteBlock a blk) f1 = (Ok tt, put_dev (poke a blk (f_dev f1)) f1)) as ->.
  { by rewrite /onFsDev /zoom WriteBlock_ok. }
  eexists. split; [reflexivity|].
  assert (same_data f (put_dev (poke a blk (f_dev f1)) f1)) as Hs.
  { split; [done|done|by apply poke_evol|]. intros x Hx. apply peek_poke_ne; lia. }
  split; [|by split_and!]. split; [done|done|by apply inodeOf_held|exact (same_file _ _ _ _ Hs Hp Hok)|exact (same_idle _ _ Hs Hi)].
Qed.

(** What a successful write of [buf] at [off] has made of the file. *)
Record wrote_file (f : Filesystem) (inum : Z) (di : DiskInode) (off : Z) (buf : list byte)
    (f' : Filesystem) (di' : DiskInode) : Prop := {
  wr_at : file_at f' inum di';
  wr_held : holds_inode (fs_inodes f') inum di';
  wr_size : SizeOf di' = if bool_decide (buf = []) then SizeOf di else Z.max (SizeOf di) (off + Z.of_nat (length buf));
  wr_bytes : forall o, 0 <= o -> fileByte f' di' o = overwrite off buf (fileByte f di) o;
  wr_attrs : (Mode di', UID di', GID di', Links di') = (Mode di, UID di, GID di, Links di);
  wr_others : forall d, file_ok f d -> apart f di d ->
    file_ok f' d /\ apart f' di' d /\ forall o, 0 <= o -> fileByte f' d o = fileByte f d o;
}.

(** The bytes written, between steps that no file sees. *)
Lemma wrote_intro f f0 inum di off buf f1 di1 f2 di2 :
  same_data f f0 -> file_ok f di -> written f0 di off buf f1 di1 ->
  same_data f1 f2 -> same_pointers di1 di2 -> file_at f2 inum di2 ->
  holds_inode (fs_inodes f2) inum di2 ->
  SizeOf di2 = (if bool_decide (buf = []) then SizeOf di else Z.max (SizeOf di) (off + Z.of_nat (length buf))) ->
  (Mode di2, UID di2, GID di2, Links di2) = (Mode di1, UID di1, GID di1, Links di1) ->
  wrote_file f inum di off buf f2 di2.
Proof.
  intros Hs0 Hf (g & B & HB) Hs1 Hp Hf2 Hheld Hsz Hat. pose proof (bc_ok _ _ _ _ _ B) as Hok1.
  assert (forall d, same_pointers d d) as Hpp by by split. split; [done|done|done| | |].
  - intros o Ho. rewrite (same_bytes _ _ _ _ Hs1 Hp Hok1 o Ho) HB // /overwrite.
    by rewrite (same_bytes _ _ _ _ Hs0 (Hpp di) Hf o Ho).
  - rewrite Hat. by destruct (bc_stat _ _ _ _ _ B) as [[= -> -> -> ? ? ? ? ? ? -> ? ?] _].
  - intros d Hd Ha. pose proof (same_file _ _ d d Hs0 (Hpp d) Hd) as Hd0.
    destruct (bc_others _ _ _ _ _ B d Hd0) as (H1 & H2 & H3).
    { intros q q' Hq Hq'. rewrite (same_node _ _ di di Hs0 (Hpp di) Hf q Hq) (same_node _ _ d d Hs0 (Hpp d) Hd q' Hq').
      by apply Ha. }
    split_and!; [exact (same_file _ _ d d Hs1 (Hpp d) H1)| |].
    + intros q q' Hq Hq'. rewrite (same_node _ _ di1 di2 Hs1 Hp Hok1 q Hq) (same_node _ _ d d Hs1 (Hpp d) H1 q' Hq').
      by apply H2.
    + intros o Ho. rewrite (same_bytes _ _ d d Hs1 (Hpp d) H1 o Ho) -(same_bytes _ _ d d Hs0 (Hpp d) Hd o Ho).
      rewrite /fileByte H3 //. by apply Z.div_pos.
Qed.

(** The inode that [Write] stores. *)
Definition storedInode (now curOffset : Z) (di : DiskInode) : DiskInode :=
  touch now (if SizeOf di <? curOffset then SetSize curOffset di else di).

Lemma SizeOf_stored now c di : - 2 ^ 63 <= c < 2 ^ 63 -> SizeOf (storedInode now c di) = Z.max (SizeOf di) c.
Proof.
  intros Hc. change (SizeOf (storedInode now c di)) with (SizeOf (if SizeOf di <? c then SetSize c di else di)).
  destruct (Z.ltb_spec (SizeOf di) c); [rewrite SizeOf_SetSize //|]; lia.
Qed.

Lemma wf_stored now c di : is_u32 now -> wf_inode di -> wf_inode (storedInode now c di).
Proof.
  intros Hn Hw. rewrite /storedInode /touch. set (d := if _ <? _ then _ else _).
  assert (wf_inode d) as Hd by (subst d; case_match; [by apply wf_SetSize|done]). pose proof Hd as (_ & H2 & _).
  rewrite !Forall_cons in H2. apply wf_times; tauto.
Qed.

Lemma stored_pointers now c di : same_pointers di (storedInode now c di).
Proof. rewrite /storedInode. by case_match. Qed.

Lemma writeBody_effect now cred f inum di off buf :
  file_at f inum di -> fs_mutating f = true -> IsDir di = false ->
  CheckPermission di cred false true false = Ok tt -> is_u32 now ->
  0 <= off -> off + Z.of_nat (length buf) <= 2 ^ 44 ->
  match writeBody now cred inum off buf f with
  | (Ok n, f') => n = Z.of_nat (length buf) /\ exists di', wrote_file f inum di off buf f' di'
  | (Err e, _) => e = ErrNoSpace \/ e = ErrTooBig /\ maxBytes < off + Z.of_nat (length buf)
  | (Panic, _) => False
  end.
Proof.
  intros H Hmut Hdir Hperm Hnow Ho Hle. pose proof (inodeOf_wf _ _ _ (fa_healthy _ _ _ H) (fa_inode _ _ _ H)) as Hw.
  destruct (fsReadInode_at f inum di H) as (f1 & E1 & H1 & Hs1 & Hheld & Hm1 & B1).
  rewrite /writeBody (bind_ok _ _ _ _ _ E1) bind_failIf_false // (bind_ok _ _ _ tt f1); [by apply checkPerm_ok|].
  case_bool_decide as Hnil.
  { subst buf. split; [done|]. exists di. apply (wrote_intro f f1 inum di off [] f1 di f1 di); try done; [apply H|].
    apply written_nil; apply H1. }
  destruct (writeLoop_ok (length buf) di off buf f1) as [(f2 & di2 & E2 & HW & Hmax)|(e & f2 & E2 & He)]; [apply H1|apply H1|done..| |].
  2: { by rewrite (bind_err _ _ _ _ _ E2). }
  rewrite (bind_ok _ _ _ _ _ E2). pose proof HW as (g & B & HB). set (c := off + Z.of_nat (length buf)) in *.
  change (touch now (if SizeOf di2 <? c then SetSize c di2 else di2)) with (storedInode now c di2).
  assert (SizeOf di2 = SizeOf di) as Hsz.
  { destruct (bc_stat _ _ _ _ _ B) as [[= ? ? ? E4 E5 ? ? ? ? ? ? ?] _]. by rewrite /SizeOf E4 E5. }
  destruct (WriteInodeFS_at now f2 inum di2 (storedInode now c di2)) as (f3 & E3 & H3 & Hs3 & Hh3 & _);
    [apply B|apply B|apply stored_pointers| |apply H|by rewrite (bc_inodes _ _ _ _ _ B); apply H1|by rewrite (bc_mutating _ _ _ _ _ B) Hm1|].
  { apply wf_stored; [done|]. exact (wf_written f2 di di2 Hw (bc_stat _ _ _ _ _ B) (fo_map _ _ (bc_ok _ _ _ _ _ B))). }
  rewrite (bind_ok _ _ _ _ _ E3). split; [done|]. exists (storedInode now c di2).
  apply (wrote_intro f f1 inum di off buf f2 di2 f3); try done; [apply H|apply stored_pointers| |].
  - rewrite bool_decide_false // SizeOf_stored ?Hsz //. subst c. lia.
  - rewrite /storedInode. by case_match.
Qed.


End operations.

(** ** From the operation to the disk

    After the body of a mutation the caches are flushed and the changes are
    written as one transaction ([RunMutation]); the files stay what they are,
    and are then on the device. *)


(** [f'] has the files of [f], with the same bytes. *)
Record follows (f f' : Filesystem) : Prop := {
  fl_file : forall d, file_ok f d -> file_ok f' d;
  fl_node : forall d q, file_ok f d -> valid_pos q -> node (file f' d) q = node (file f d) q;
  fl_bytes : forall d o, file_ok f d -> 0 <= o -> fileByte f' d o = fileByte f d o;
  fl_idle : idle (bufs f) -> idle (bufs f');
  fl_held : forall inum d, holds_inode (fs_inodes f) inum d -> holds_inode (fs_inodes f') inum d;
  fl_entries : entries_ok (fs_inodes f) -> entries_ok (fs_inodes f');
}.

#[export] Instance follows_preorder : PreOrder follows.
Proof.
  split; [by split|]. intros a b c [A1 A2 A3 A4 A5 A6] [B1 B2 B3 B4 B5 B6]. split; try (by auto).
  - intros d q Hd Hq. rewrite B2 //; [by apply A1|by apply A2].
  - intros d o Hd Ho. rewrite B3 //; [by apply A1|by apply A3].
Qed.

Lemma same_follows f f' :
  same_data f f' -> (forall inum d, holds_inode (fs_inodes f) inum d -> holds_inode (fs_inodes f') inum d) ->
  (entries_ok (fs_inodes f) -> entries_ok (fs_inodes f')) -> follows f f'.
Proof.
  intros Hs Hh He. split; [| | | |done|done].
  - intros d. exact (same_file _ _ d d Hs ltac:(by split)).
  - intros d q Hd. exact (same_node _ _ d d Hs ltac:(by split) Hd q).
  - intros d o Hd. exact (same_bytes _ _ d d Hs ltac:(by split) Hd o).
  - exact (same_idle _ _ Hs).
Qed.

(** A part of the state that neither files nor inodes depend on. *)
Lemma aside_follows f f' :
  fs_buf f' = fs_buf f -> fs_inodes f' = fs_inodes f ->
  f_dev f' = f_dev f -> alloc_parts (fs_alloc f') = alloc_parts (fs_alloc f) ->
  follows f f'.
Proof. intros B I D E. apply same_follows; [by apply aside_same|by rewrite I..]. Qed.

Lemma touches_follows f f' :
  touches (fun _ => False) f f' -> (idle (bufs f) -> idle (bufs f')) -> follows f f'.
Proof.
  intros Ht Hi. destruct (touched_parts _ _ _ Ht) as (_ & _ & _ & Hin & _). split; [| | |done|by rewrite Hin..].
  - intros d Hd. by apply (touched_ok _ _ _ d Ht Hd).
  - intros d q Hd Hq. by apply (touched_node _ _ _ d Ht Hd).
  - intros d o Hd Ho. rewrite /fileByte. f_equal. rewrite /fileBlock.
    assert (0 <= o / BlockSize) as Hb by by apply Z.div_pos. rewrite (touched_mapped _ _ _ d Ht Hd); [done|done|].
    destruct (mapped (file f d) (o / BlockSize)) as [p|e|] eqn:Em; [|done..]. destruct (p =? 0) eqn:Ep; [done|]. simpl_bool.
    destruct (mapped_data _ _ _ (fo_map _ _ Hd) Hb Ep Em) as ([Hp _] & _).
    apply (tc_view _ _ _ Ht); [unfold DataStart in Hp; lia|tauto].
Qed.

Lemma wrote_follows f inum di off buf f1 f2 di1 :
  wrote_file f inum di off buf f1 di1 -> follows f1 f2 -> wrote_file f inum di off buf f2 di1.
Proof.
  intros [[A1 A2 A3 A4 A5] W1 W2 W3 W4 W5] Hf. pose proof (fl_held _ _ Hf _ _ W1) as Hh. split; [| |done| |done|].
  - split; [done|by apply (fl_entries _ _ Hf)|by apply inodeOf_held|by apply (fl_file _ _ Hf)|by apply (fl_idle _ _ Hf)].
  - done.
  - intros o Ho. rewrite (fl_bytes _ _ Hf) //. by apply W3.
  - intros d Hd Ha. destruct (W5 d Hd Ha) as (H1 & H2 & H3). split_and!; [by apply (fl_file _ _ Hf)| |].
    + intros q q' Hq Hq'. rewrite !(fl_node _ _ Hf) //. by apply H2.
    + intros o Ho. rewrite (fl_bytes _ _ Hf) //. by apply H3.
Qed.

Lemma wrote_before f g inum di off buf f' di' :
  follows f g -> file_ok f di -> wrote_file g inum di off buf f' di' -> wrote_file f inum di off buf f' di'.
Proof.
  intros Hf Hok [W1 W2 W3 W4 W5 W6]. split; [done|done|done| |done|].
  - intros o Ho. rewrite W4 // /overwrite. by rewrite (fl_bytes _ _ Hf).
  - intros d Hd Ha. destruct (W6 d (fl_file _ _ Hf d Hd)) as (H1 & H2 & H3).
    { intros q q' Hq Hq'. rewrite !(fl_node _ _ Hf) //. by apply Ha. }
    split_and!; [done|done|]. intros o Ho. rewrite H3 //. by apply (fl_bytes _ _ Hf).
Qed.

(** The cache has nothing that the device has not. *)
Definition flushed_data (f : Filesystem) : Prop := forall x, DataStart <= x -> view (bufs f) x = peek (f_dev f) x.

Lemma flushed_same f f' : same_data f f' -> flushed_data f -> flushed_data f'.
Proof. intros Hs H x Hx. rewrite (same_view _ _ Hs x Hx) (sd_peek _ _ Hs x Hx). by apply H. Qed.

Section flushing.
Context {O : MapOrder}.

Lemma emitCache_fewer ty addr dirty : keeps fewer (emitCache ty addr dirty).
Proof. apply modCache_fewer. intros c a e' H. by exists e'. Qed.
#[local] Hint Resolve emitCache_fewer : quiet.
Lemma FlushBlock_fewer addr : keeps fewer (FlushBlock addr).
Proof. rewrite /FlushBlock. quiet_solve. Qed.
#[local] Hint Resolve FlushBlock_fewer : quiet.
Lemma FlushAll_fewer : keeps fewer FlushAll.
Proof.
  rewrite /FlushAll. apply keeps_bind; [apply _|quiet_solve|]. intros l.
  apply keeps_bind; [apply _| |quiet_solve]. apply modCache_fewer. intros c a e' H. by exists e'.
Qed.

Lemma flush_buffers_touches f f' :
  cache_ok (bufs f) -> onFsBuf FlushAll f = (Ok tt, f') ->
  touches (fun _ => False) f f' /\ (idle (bufs f) -> idle (bufs f')) /\ forall x, 0 <= x -> peek (f_dev f') x = view (bufs f) x.
Proof.
  intros Hc. destruct (onFsBuf_run FlushAll f) as (f1 & e & E & Hr & Hd & Hb). rewrite E. intros [= Er <-].
  pose proof (FlushAll_spec (bufs0 f) Hc) as HF. pose proof (FlushAll_fewer (bufs0 f)) as Hfew.
  destruct (FlushAll (bufs0 f)) as [[[]|er|] s]; try done. cbn [fst snd] in *. destruct HF as [Hk Hp].
  assert (bufs f1 = (s.1, with_cemit e s.2)) as Hf1 by by rewrite /bufs Hd Hb.
  split_and!.
  - split; [done|rewrite Hf1; apply (kp_ok _ _ Hk)|rewrite Hd; apply (kp_evol _ _ Hk)| |].
    + intros x Hx _. rewrite Hf1. by apply (kp_view _ _ Hk).
    + intros x. rewrite Hb. intros [ex Hx]. right. destruct (Hfew x ex Hx) as (e0 & He0 & _). by exists e0.
  - intros Hi x ex. rewrite Hf1. intros Hx. destruct (Hfew x ex Hx) as (e0 & He0 & ->). by apply (Hi x).
  - intros x Hx. rewrite Hd. by apply Hp.
Qed.

Lemma flush_buffers f f' :
  cache_ok (bufs f) -> onFsBuf FlushAll f = (Ok tt, f') -> follows f f' /\ flushed_data f'.
Proof.
  intros Hc E. destruct (flush_buffers_touches f f' Hc E) as (Ht & Hi & Hp). split; [by apply touches_follows|].
  intros x Hx. unfold DataStart in Hx. rewrite Hp; [lia|]. apply (tc_view _ _ _ Ht); [lia|tauto].
Qed.

Lemma flush_inodes_follows f f' :
  table_dev (f_dev f) -> entries_ok (fs_inodes f) ->
  onFsIstate (IFlushAll (Some flushFn)) f = (Ok tt, f') -> follows f f' /\ fs_buf f' = fs_buf f.
Proof.
  intros Ht He. destruct (IFlushAll_ok _ _ Ht He) as (d' & ic' & E & Hd & He' & Hc & _).
  rewrite /onFsIstate /zoom E. intros [= <-]. split; [|done]. apply same_follows; [split| |done].
  - done.
  - done.
  - apply (do_evol _ _ _ Hd).
  - intros x Hx. apply (do_frame _ _ _ Hd); unfold table_block, DataStart, InodeTableStart, InodeTableBlocks in *; lia.
  - intros inum d (data & Hi & <-). exists data. split; [|done]. cbn. by rewrite (proj1 (Hc inum)).
Qed.

Lemma writeFsSb_same f f' : writeFsSb f = (Ok tt, f') -> same_data f f' /\ fs_inodes f' = fs_inodes f.
Proof.
  rewrite /writeFsSb bind_gets /onFsDev /zoom.
  pose proof (WriteSuperblock_keeps (eq SuperblockAddr) (f_sb f) eq_refl (f_dev f)) as Hk.
  destruct (WriteSuperblock _ _) as [r d']. intros [= -> <-]. cbn [snd] in Hk. split; [|done]. split; [done|done|apply Hk|].
  intros x Hx. apply (do_frame _ _ _ Hk); unfold DataStart, SuperblockAddr in *; lia.
Qed.

(** A step on the device and the journal. *)
Record devstep (f f' : Filesystem) : Prop := {
  ds_parts : alloc_parts (fs_alloc f') = alloc_parts (fs_alloc f);
  ds_buf : fs_buf f' = fs_buf f;
  ds_inodes : fs_inodes f' = fs_inodes f;
  ds_evol : dev_evol (f_dev f) (f_dev f');
}.

#[export] Instance devstep_preorder : PreOrder devstep.
Proof.
  split; [by split|]. intros a b c [A1 A2 A3 A4] [B1 B2 B3 B4]. split; [congruence..|exact (transitivity A4 B4)].
Qed.

(** [m] makes such a step when it succeeds. *)
Definition steps {A} (m : M Filesystem A) : Prop := forall f a f', m f = (Ok a, f') -> devstep f f'.

Lemma steps_bind {A B} (m : M Filesystem A) (k : A -> M Filesystem B) :
  steps m -> (forall a, steps (k a)) -> steps (m ≫= k).
Proof.
  intros Hm Hk f b f'. rewrite /mbind /M_bind. destruct (m f) as [[a|e|] f1] eqn:E; [|done..]. intros E'.
  exact (transitivity (Hm _ _ _ E) (Hk a _ _ _ E')).
Qed.

Lemma steps_onErr {A} (m : M Filesystem A) h : steps m -> (forall e f a f', h e f <> (Ok a, f')) -> steps (onErr m h).
Proof.
  intros Hm Hh f a f'. rewrite /onErr. destruct (m f) as [[x|e|] f1] eqn:E; [|by intros ?%Hh|done]. intros [= -> ->].
  exact (Hm _ _ _ E).
Qed.

Lemma steps_liftResult {A} (r : result A) : steps (liftResult r).
Proof. intros f a f' [= _ <-]. reflexivity. Qed.

Lemma steps_dev {A} (m : M BlockDevice A) : keeps dev_evol m -> steps (onFsDev m).
Proof.
  intros Hm f a f'. specialize (Hm (f_dev f)). rewrite /onFsDev /zoom. destruct (m (f_dev f)) as [r d]. intros [= -> <-].
  by split.
Qed.

Lemma steps_quiet {A} (m : M BlockDevice A) : keeps quiet m -> steps (onFsDev m).
Proof. intros H. apply steps_dev. apply (keeps_weaken quiet); [done|]. intros d d' Hq. apply Hq. Qed.

(** The journal evolves the device. *)
Definition jevol (s s' : jstate) : Prop := dev_evol s.1 s'.1.
#[export] Instance jevol_preorder : PreOrder jevol.
Proof. split; [intros s; red; reflexivity|]. intros a b c; rewrite /jevol; apply transitivity. Qed.

Lemma onDisk_jevol {A} (m : M BlockDevice A) : keeps dev_evol m -> keeps jevol (onDisk m).
Proof. intros H. apply (keeps_zoom _ dev_evol fst _ m H). by intros s t h. Qed.
Lemma modJournal_jevol g : keeps jevol (modJournal g).
Proof. apply keeps_modify; [apply _|]. intros s. red. reflexivity. Qed.
Lemma WriteBlock_evol a b : keeps dev_evol (WriteBlock a b).
Proof. apply (keeps_weaken quiet); [apply WriteBlock_quiet|]. intros d d' H. apply H. Qed.
#[local] Hint Resolve onDisk_jevol modJournal_jevol WriteBlock_evol Sync_evol : quiet.

Lemma writeJournalBlock_jevol off data : keeps jevol (writeJournalBlock off data).
Proof. rewrite /writeJournalBlock. quiet_solve. Qed.
Lemma allocBlocks_jevol n : keeps jevol (allocBlocks n).
Proof. rewrite /allocBlocks. quiet_solve. Qed.
#[local] Hint Resolve writeJournalBlock_jevol allocBlocks_jevol : quiet.
Lemma writeDescriptors_jevol n i off seq total tbs : keeps jevol (writeDescriptors n i off seq total tbs).
Proof. revert i tbs. induction n; intros i tbs; cbn [writeDescriptors]; quiet_solve. Qed.
Lemma writeData_jevol i off crc tbs : keeps jevol (writeData i off crc tbs).
Proof. revert i crc. induction tbs; intros i crc; cbn [writeData]; quiet_solve. Qed.
#[local] Hint Resolve writeDescriptors_jevol writeData_jevol : quiet.
Lemma logTransaction_jevol t : keeps jevol (logTransaction t).
Proof. rewrite /logTransaction. quiet_solve. Qed.
Lemma writeHome_jevol tbs : keeps jevol (writeHome tbs).
Proof. rewrite /writeHome. quiet_solve. Qed.
#[local] Hint Resolve logTransaction_jevol writeHome_jevol : quiet.
Lemma Commit_jevol now t : keeps jevol (Commit now t).
Proof. rewrite /Commit. quiet_solve. Qed.

Lemma steps_journal {A} (m : M jstate A) : keeps jevol m -> steps (onFsJournal m).
Proof.
  intros Hm f a f'. rewrite /onFsJournal. set (j := with_jmetrics _ _). specialize (Hm (f_dev f, j)).
  destruct (m (f_dev f, j)) as [r [d j']]. cbn [fst snd].
  match goal with |- context [forward ?src ?log ?g] => destruct (forward_events src log g) as [h ->] end.
  intros [= -> <-]. by split.
Qed.

Lemma throws_never {A} err f (a : A) f' : (abandon ;; throw err) f <> (Ok a, f').
Proof. rewrite /mbind /M_bind. by destruct (abandon f) as [[]]. Qed.

Lemma commitChanges_steps now snapshot :
  Forall (fun b => length b = BlockLen) snapshot -> steps (commitChanges now snapshot).
Proof.
  intros Hsn. rewrite /commitChanges. apply steps_bind; [apply steps_quiet; quiet_solve|]. intros l. cbn zeta.
  destruct (filter _ l) as [|a addrs]; [apply steps_dev, Sync_evol|].
  apply steps_bind; [apply steps_quiet; quiet_solve|]. intros final.
  apply steps_bind; [by apply steps_quiet, RestoreBlocks_quiet|]. intros _.
  apply steps_bind; [apply steps_journal; rewrite /OpenTransaction; quiet_solve|]. intros t.
  apply steps_bind; [apply steps_onErr; [apply steps_liftResult|intros e; apply throws_never]|]. intros tx.
  apply steps_onErr; [apply steps_journal, Commit_jevol|intros e; apply throws_never].
Qed.

(** What a successful [RunMutation] did. *)
Lemma onErr_Ok {A} (m : M Filesystem unit) h (k : M Filesystem A) f a f' :
  (forall e g, exists e', (h e g).1 = Err (A := unit) e') -> (onErr m h ;; k) f = (Ok a, f') ->
  exists g, m f = (Ok tt, g) /\ k g = (Ok a, f').
Proof.
  intros Hh. rewrite /onErr {1}/mbind {1}/M_bind. destruct (m f) as [[[]|e|] g]; [by exists g| |done].
  destruct (Hh e g) as [e' He]. destruct (h e g) as [r g']. cbn in He. by subst r.
Qed.

Lemma RunMutation_Ok {A} now (fn : M Filesystem A) f a f' :
  RunMutation now fn f = (Ok a, f') ->
  exists f1 f2, fn (with_mutating true f) = (Ok a, f1) /\ flushMutation (with_mutating false f1) = (Ok tt, f2) /\
    commitChanges now (dev_data (f_dev f)) f2 = (Ok tt, f').
Proof.
  rewrite /RunMutation !bind_gets bind_modify. rewrite {1}/mbind {1}/M_bind tryM_run.
  destruct (fn (with_mutating true f)) as [[x|e|] f1] eqn:E; cbn [fst snd]; [| |done]; rewrite bind_modify.
  2: { destruct (rollback_throws (A := A) (f_sb f) e (with_mutating false f1)) as [e' He].
    intros H. by rewrite H in He. }
  rewrite {1}/mbind {1}/M_bind. destruct (commitMutation now _ _) as [[[]|e|] g] eqn:EC; [|done..]. intros [= -> ->].
  change (commitMutation now (Snapshot (f_dev f)) (with_mutating false f1) = (Ok tt, f')) in EC.
  assert (forall e g, exists e', ((fsCount CacheFlushErrors 1 ;; abandon ;; throw (A := unit) e) g).1 = Err e') as Hth.
  { intros e g. apply abandon_throws. }
  apply onErr_Ok in EC as (g1 & E1 & EC); [|done]. apply onErr_Ok in EC as (g2 & E2 & EC); [|done].
  apply onErr_Ok in EC as (g3 & E3 & EC); [|intros; apply abandon_throws].
  exists f1, g3. split; [done|]. split; [|exact EC].
  by rewrite /flushMutation (bind_ok _ _ _ _ _ E1) (bind_ok _ _ _ _ _ E2).
Qed.

(** After the body the files are those of the body, and all of it is on the
    device. *)
Lemma finish_follows now snapshot f1 f2 f' d :
  file_ok f1 d -> entries_ok (fs_inodes f1) -> Forall (fun b => length b = BlockLen) snapshot ->
  flushMutation f1 = (Ok tt, f2) -> commitChanges now snapshot f2 = (Ok tt, f') ->
  (forall a, isHome a -> peek (f_dev f') a = peek (f_dev f2) a) ->
  follows f1 f' /\ flushed_data f'.
Proof.
  intros Hd He Hsn Hfl Hcc Hhome. destruct (so_alloc _ (fo_map _ _ Hd)) as [_ Hh Hw Hn].
  revert Hfl. rewrite /flushMutation {1}/mbind {1}/M_bind. destruct (onFsIstate _ f1) as [[[]|e|] g1] eqn:E1; [|done..].
  destruct (flush_inodes_follows f1 g1) as [F1 _]; [|done|done|].
  { split; [done|done|]. rewrite /has_table. change (BlockCount (f_dev f1) = TotalBlocks) in Hn. by rewrite Hn. }
  rewrite {1}/mbind {1}/M_bind. destruct (onFsBuf _ g1) as [[[]|e|] g2] eqn:E2; [|done..].
  destruct (flush_buffers g1 g2 (fo_cache _ _ (fl_file _ _ F1 d Hd)) E2) as [F2 C2]. intros E3.
  destruct (writeFsSb_same g2 f2 E3) as [S3 I3]. destruct (commitChanges_steps now snapshot Hsn f2 tt f' Hcc) as [P4 B4 I4 E4].
  assert (same_data f2 f') as S4.
  { split; [done|by rewrite B4|done|]. intros x Hx. apply Hhome. unfold isHome, is_home, JournalStart, JournalBlocks, DataStart in *. lia. }
  pose proof (transitivity S3 S4) as S. split; [|exact (flushed_same _ _ S C2)].
  etrans; [exact F1|]. etrans; [exact F2|]. apply same_follows; [done|by rewrite I4 I3..].
Qed.

(** [fs.metrics.c.Add(1)] before an operation. *)
Definition counted (c : counter) (f : Filesystem) : Filesystem := put_metrics (Metrics.Add c 1 <$> f_metrics f) f.

(** The blocks before an operation as [RunMutation] keeps them. *)
Lemma snapshot_blocks ts f : settled ts f -> Forall (fun b => length b = BlockLen) (dev_data (f_dev f)).
Proof. intros [[Hw _ _ _ _ _ _ _] _ _]. by apply wf_blocks. Qed.

(** What a file's user has in the caches has a place on the disk. *)
Lemma file_flushable f inum d : file_at f inum d -> wf_names (f_sb f) -> flushable f.
Proof.
  intros [Hh He _ Hok _] Hn. destruct (so_alloc _ (fo_map _ _ Hok)) as [_ Hd Hw Hc].
  split; [|done|exact (fo_cache _ _ Hok)| |done].
  - split; [done|done|]. rewrite /has_table. change (BlockCount (f_dev f) = TotalBlocks) in Hc. by rewrite Hc.
  - intros x Hx. by destruct (fo_cached _ _ Hok x Hx) as ([H _] & _).
Qed.

Section write.
Context (ts : list JournalTransaction) (now : Z) (cred : Credential) (f : Filesystem) (inum : Z) (di : DiskInode)
  (off : Z) (buf : list byte).
Hypothesis (Hs : settled ts f) (Hat : file_at f inum di) (Hnames : wf_names (f_sb f)) (Hdir : IsDir di = false)
  (Hperm : CheckPermission di cred false true false = Ok tt) (Hnow : is_u32 now) (Ho : 0 <= off)
  (Hle : off + Z.of_nat (length buf) <= 2 ^ 44)
  (Hj : forall n f2, outcome (writeBody now cred inum off buf) (counted Writes f) n f2 -> journalable ts (f_dev f) (f_dev f2)).

(** A write ends well, or there is no room for it. *)
Lemma Write_cases :
  match RunMutation now (writeBody now cred inum off buf) (counted Writes f) with
  | (Ok n, f') => exists f1 di', writeBody now cred inum off buf (with_mutating true (counted Writes f)) = (Ok n, f1) /\
      n = Z.of_nat (length buf) /\ wrote_file f inum di off buf f1 di'
  | (Err e, f') => (e = ErrNoSpace \/ e = ErrTooBig /\ maxBytes < off + Z.of_nat (length buf)) /\ rolled_back f f' /\
      (writeBody now cred inum off buf (with_mutating true (counted Writes f))).1 = Err e
  | (Panic, _) => False
  end.
Proof using Hs Hat Hnames Hdir Hperm Hnow Ho Hle Hj.
  set (f0 := counted Writes f) in *. assert (settled ts f0) as Hs0 by by destruct Hs.
  set (g := with_mutating true f0). assert (follows f g) as Hg by by apply aside_follows.
  assert (file_at g inum di) as Hgat.
  { apply (file_at_same f g inum di di); [by apply aside_same|by split|apply Hat|apply Hat|done]. }
  pose proof (writeBody_effect now cred g inum di off buf Hgat eq_refl Hdir Hperm Hnow Ho Hle) as HW.
  pose proof (mutation_mutstep _ _ (m_write now cred inum off buf)) as Hm.
  pose proof (writeBody_named now cred inum off buf g Hnames) as Hn1.
  destruct (writeBody now cred inum off buf g) as [[n|e|] f1] eqn:EB; [| |done].
  - destruct HW as (-> & di' & HW). apply (wrote_before f) in HW; [|done|apply Hat].
    pose proof (wrote_follows _ _ _ _ _ _ _ _ HW (aside_follows f1 (with_mutating false f1) eq_refl eq_refl eq_refl eq_refl)) as HW1.
    destruct (RunMutation_run ts now _ f0 _ f1 Hs0 Hm EB (file_flushable _ _ _ (wr_at _ _ _ _ _ _ _ HW1) Hn1)) as (f' & ->).
    { intros f2 E2. apply (Hj (Z.of_nat (length buf)) f2). by exists f1. }
    by exists f1, di'.
  - destruct (RunMutation_Err ts now _ f0 e f1 Hs0 (fa_healthy _ _ _ Hat) Hm EB) as (f' & -> & HR). split; [exact HW|].
    split; [by destruct HR|done].
Qed.

Lemma Write_effect :
  match Write now cred inum off buf f with
  | (Ok n, f') => n = Z.of_nat (length buf) /\ (exists ts', settled ts' f') /\ flushed_data f' /\
      recovers f f' (f_dev f') /\ exists di', wrote_file f inum di off buf f' di'
  | (Err e, f') => (e = ErrNoSpace \/ e = ErrTooBig /\ maxBytes < off + Z.of_nat (length buf)) /\
      rolled_back f f' /\ recovers f f' (f_dev f)
  | (Panic, _) => False
  end.
Proof using Hs Hat Hnames Hdir Hperm Hnow Ho Hle Hj.
  rewrite /Write /fsCount bind_modify -/(counted Writes f). pose proof Write_cases as HC. set (f0 := counted Writes f) in *.
  assert (settled ts f0) as Hs0 by by destruct Hs. pose proof (snapshot_blocks ts f0 Hs0) as Hsn.
  pose proof (RunMutation_spec ts now (writeBody now cred inum off buf) f0 Hs0 (mutation_mutstep _ _ (m_write _ _ _ _ _)) Hj) as HM.
  rewrite {1}/mbind {1}/M_bind. destruct (RunMutation now _ f0) as [[n|e|] f3] eqn:ER; [| |done].
  - destruct HC as (f1 & di' & EB & -> & HW). destruct (RunMutation_Ok _ _ _ _ _ ER) as (f1' & f2 & EB1 & EF & EC).
    rewrite EB in EB1. injection EB1 as <-. destruct HM as (f2' & (f1' & EB' & EF') & [HR Himg [ts' Hset]]).
    rewrite EB in EB'. injection EB' as <-. rewrite EF in EF'. injection EF' as <-.
    assert (follows f1 (with_mutating false f1)) as F1 by by apply aside_follows.
    pose proof (wrote_follows _ _ _ _ _ _ _ _ HW F1) as HW1. destruct (finish_follows now _ _ f2 f3 di' (fa_ok _ _ _ (wr_at _ _ _ _ _ _ _ HW1))
      (fa_entries _ _ _ (wr_at _ _ _ _ _ _ _ HW1)) Hsn EF EC Himg) as [F2 HFl].
    rewrite bind_modify. split; [done|]. split; [by exists ts'; destruct Hset|]. split; [exact HFl|]. split.
    + apply (recovers_target f f3 (f_dev f2)); [|exact HR]. intros a Ha. apply Himg.
      destruct (st_area _ _ Hs) as [A1 A2]. by rewrite A1 A2 in Ha.
    + exists di'. apply (wrote_follows _ _ _ _ _ f3); [exact (wrote_follows _ _ _ _ _ _ _ _ HW1 F2)|]. by apply aside_follows.
  - destruct HC as (He & HR & EB). split; [exact He|]. split; [exact HR|].
    destruct HM as [HM|(n & f2 & (f1 & E1 & _) & _)]; [exact HM|by rewrite E1 in EB].
Qed.
(** It returns what its body does. *)
Lemma Write_returns :
  (Write now cred inum off buf f).1 = (writeBody now cred inum off buf (with_mutating true (counted Writes f))).1.
Proof using Hs Hat Hnames Hdir Hperm Hnow Ho Hle Hj.
  rewrite /Write /fsCount bind_modify -/(counted Writes f). pose proof Write_cases as HC. rewrite {1}/mbind {1}/M_bind.
  destruct (RunMutation now _ (counted Writes f)) as [[n|e|] f3]; [|by destruct HC as (_ & _ & ->)|done].
  destruct HC as (f1 & di' & -> & _). by rewrite bind_modify.
Qed.
End write.


(** The checks of a file look at its mode and its owner only. *)
Lemma CheckPermission_attrs di di' cred r w x :
  (Mode di', UID di', GID di', Links di') = (Mode di, UID di, GID di, Links di) ->
  CheckPermission di' cred r w x = CheckPermission di cred r w x /\ IsDir di' = IsDir di.
Proof. intros [= E1 E2 E3 _]. by rewrite /CheckPermission /permShift /IsDir /FileType E1 E2 E3. Qed.

Lemma overwritten off buf g n :
  n = Z.of_nat (length buf) -> overwrite off buf g <$> seqZ off n = buf.
Proof.
  intros ->. apply list_eq. intros i. rewrite list_lookup_fmap. destruct (decide (i < length buf)%nat) as [Hi|Hi].
  - rewrite lookup_seqZ_lt; [lia|]. cbn [fmap option_fmap option_map]. rewrite /overwrite.
    replace (off <=? off + Z.of_nat i) with true by (symmetry; apply Z.leb_le; lia).
    replace (off + Z.of_nat i <? off + Z.of_nat (length buf)) with true by (symmetry; apply Z.ltb_lt; lia). cbn [andb].
    destruct (lookup_lt_is_Some_2 buf i Hi) as [x Hx]. rewrite Hx. f_equal. apply nth_lookup_Some.
    by replace (Z.to_nat (off + Z.of_nat i - off)) with i by lia.
  - rewrite (lookup_ge_None_2 (seqZ _ _)); [rewrite length_seqZ; lia|]. by rewrite lookup_ge_None_2; [lia|].
Qed.

(** C2: what is written is read.  After a [Write] that returns, a [Read] of
    as many bytes at the same offset returns exactly the bytes written, for
    everybody who may read the file; the only error is that there is no space
    left, and the file system is then as it was before. *)
Theorem Write_then_Read ts now now' cred cred' f inum di off buf :
  settled ts f -> file_at f inum di -> wf_names (f_sb f) -> IsDir di = false ->
  CheckPermission di cred false true false = Ok tt -> CheckPermission di cred' true false false = Ok tt ->
  is_u32 now -> is_u32 now' -> 0 <= off -> off + Z.of_nat (length buf) <= maxBytes -> SizeOf di <= maxBytes ->
  (forall n f2, outcome (writeBody now cred inum off buf) (counted Writes f) n f2 -> journalable ts (f_dev f) (f_dev f2)) ->
  match Write now cred inum off buf f with
  | (Ok n, f') => exists f'', Read now' cred' inum off n f' = (Ok buf, f'')
  | (Err e, f') => e = ErrNoSpace /\ rolled_back f f'
  | (Panic, _) => False
  end.
Proof.
  intros Hs Hat Hnames Hdir Hperm Hperm' Hnow Hnow' Ho Hle Hsize Hj.
  assert (maxBytes <= 2 ^ 44) as Hmax by (unfold maxBytes, maxBlocks, ptrs, PointersPerBlock, BlockSize; lia).
  pose proof (Write_effect ts now cred f inum di off buf Hs Hat Hnames Hdir Hperm Hnow Ho ltac:(lia) Hj) as HW.
  destruct (Write now cred inum off buf f) as [[n|e|] f']; [| |done].
  2: { destruct HW as ([He|[_ He]] & HR & _); [done|lia]. }
  destruct HW as (-> & _ & _ & _ & di' & [W1 W2 W3 W4 W5 W6]).
  destruct (CheckPermission_attrs di di' cred' true false false W5) as [EP ED].
  assert (SizeOf di' <= maxBytes) as Hsize' by (rewrite W3; case_bool_decide; lia).
  destruct (Read_returns now' cred' f' inum di' off (Z.of_nat (length buf))) as (f'' & di2 & ER & _);
    [done|congruence|congruence|done|done|lia|lia|done|].
  exists f''. rewrite ER. f_equal. f_equal.
  etrans; [|apply (overwritten off buf (fileByte f di) (Z.max 0 (Z.min (Z.of_nat (length buf)) (SizeOf di' - off))))].
  2: { rewrite W3. case_bool_decide as E; [subst buf; cbn [length]|]; lia. }
  apply list_fmap_ext. intros i x Hx. apply lookup_seqZ in Hx as [-> _]. apply W4. lia.
Qed.

End flushing.

(** ** Witnesses *)

(** An inode without blocks. *)
Definition no_blocks (di : DiskInode) : Prop := Direct di = replicate 12 0 /\ forall r, root di r = 0.

Lemma no_blocks_node a di q : no_blocks di -> valid_pos q -> node (a, di) q = 0.
Proof.
  intros [Hd Hr] [i Hi|r l H1 _ _].
  - cbn. by rewrite Hd lookup_total_replicate_2; [lia|].
  - rewrite node_tree; [lia|]. rewrite Hr. apply walk_zero.
Qed.

Definition demoAlloc : Allocator := fs_alloc (demoFs demoDisk).
Lemma demoAlloc_ok : alloc_ok demoAlloc.
Proof.
  split; [|done|exact demoDisk_wf|exact demoDisk_count].
  split; cbn; [..|by rewrite freeCount_new|by rewrite freeCount_new].
  - split_and!; [by apply wf_NewBitmap|done|apply Nat.leb_le; reflexivity].
  - split_and!; [by apply wf_NewBitmap|done|apply Nat.leb_le; reflexivity].
Qed.

(** A file of five bytes without a block, on an empty disk. *)
Definition demoInode : DiskInode := mkInode (S_IFREG + 420) 0 5 0 0 0 0 0 1 0 0 (replicate 12 0) 0 0 0 0 0.
Definition demoFile (mutating : bool) (di : DiskInode) : Filesystem :=
  with_mutating mutating (with_inodes (with_icache (<[1 := mkInodeEntry (encodeInode di zeroInodeData) false 0]>)
    (NewInodeCache 512)) (demoFs demoDisk)).

Lemma demoFile_cache mutating di :
  ic_cache (fs_inodes (demoFile mutating di)) = <[1 := mkInodeEntry (encodeInode di zeroInodeData) false 0]> ∅.
Proof. done. Qed.

Lemma demo_file_ok f di :
  fs_alloc f = demoAlloc -> fs_buf f = NewBufferCache 256 -> no_blocks di -> file_ok f di /\ idle (bufs f).
Proof.
  intros Ha Hb Hd. assert (forall x, fs_buf f = NewBufferCache 256 -> ~ is_Some (c_cache (fs_buf f) !! x)) as Hn.
  { intros x ->. by intros [e He]. }
  split; [split|].
  - rewrite /file Ha. split; [exact demoAlloc_ok|]. split; [by rewrite (proj1 Hd)| |].
    + intros q Hq H. by rewrite no_blocks_node in H.
    + intros p q Hp _ H. by rewrite no_blocks_node in H.
  - rewrite /bufs /f_dev Ha Hb. split; [exact demoDisk_wf|done|done|done|done].
  - intros x Hx. by destruct (Hn x Hb).
  - intros x e He. destruct (Hn x Hb). by exists e.
Qed.

Lemma wf_demoInode : wf_inode demoInode.
Proof. rewrite /wf_inode. split_and!; try done; repeat (constructor; [done|]); constructor. Qed.

Lemma demoFile_at mutating : file_at (demoFile mutating demoInode) 1 demoInode.
Proof.
  destruct (demo_file_ok (demoFile mutating demoInode) demoInode) as [Hok Hi]; [done|done| |].
  { split; [done|]. by intros [|[|[|[|r]]]]. }
  split; [done| | |done|done].
  - intros k e. rewrite demoFile_cache lookup_insert_Some. intros [[<- <-]|[_ H]]; [|done].
    split_and!; [done|apply length_stored, wf_demoInode|done].
  - apply inodeOf_held. exists (encodeInode demoInode zeroInodeData). split.
    { by rewrite /cached demoFile_cache lookup_insert_eq. }
    by rewrite decode_encode_inode; [apply wf_demoInode|rewrite /zeroInodeData /zeros length_replicate|].
Qed.

(** Its bytes are zeros. *)
Lemma Read_correct_witness :
  exists f' di', Read (O := inOrder) 7 RootCredential 1 2 10 (demoFile false demoInode) =
      (Ok (fileByte (demoFile false demoInode) demoInode <$> [2; 3; 4]), f') /\ file_at f' 1 di' /\ fileByte f' di' 3 = x00.
Proof.
  destruct (Read_correct (O := inOrder) 7 RootCredential (demoFile false demoInode) 1 demoInode 2 10 (demoFile_at false))
    as (f' & di' & E & H & _ & HB); [done..|].
  exists f', di'. split; [exact E|]. split; [exact H|]. by rewrite HB.
Defined.


(** The first inode of an empty disk. *)
Lemma blankInode : exists di, inode_at demoDisk 1 = di /\ no_blocks di /\ IsDir di = false /\ SizeOf di = 0.
Proof.
  eexists. split; [reflexivity|]. rewrite /inode_at. change (InodeNumToBlock 1) with (4, 0%nat). cbn iota beta.
  rewrite peek_blank. split; [split; [reflexivity|]|by split]. by intros [|[|[|[|r]]]].
Qed.

Lemma demoFs_at di : inode_at demoDisk 1 = di -> no_blocks di -> file_at (demoFs demoDisk) 1 di.
Proof.
  intros <- Hd. destruct (demo_file_ok (demoFs demoDisk) (inode_at demoDisk 1)) as [Hok Hi]; [done..|].
  split; [done|done| |done|done]. rewrite /inodeOf. change (cached _ _) with (@None InodeData).
  change (f_dev (demoFs demoDisk)) with demoDisk. rewrite ReadInode_ok; [done|exact demoDisk_table|done|done].
Qed.

(** One byte is written to it: the superblock, the block bitmap, its inode and
    its first block change. *)
Definition demoByte : M Filesystem Z := writeBody (O := inOrder) 0 RootCredential 1 0 [x41].
Definition demoBody : result Z * Filesystem := demoByte (with_mutating true (counted Writes (demoFs demoDisk))).
Definition demoAfter : Filesystem := (flushMutation (O := inOrder) (with_mutating false demoBody.2)).2.

(** The blocks from [i] to [j] are zeros. *)
Definition zeros_in (i j : Z) : Prop :=
  take (Z.to_nat (j - i)) (drop (Z.to_nat i) (dev_data (f_dev demoAfter))) = replicate (Z.to_nat (j - i)) zeroBlock.

Lemma demo_zeros : zeros_in 0 1 /\ zeros_in 2 3 /\ zeros_in 5 2180 /\ zeros_in 2181 16384.
Proof. split_and!; reflexivity. Qed.
Lemma demo_length : length (dev_data (f_dev demoAfter)) = length (dev_data demoDisk).
Proof. reflexivity. Qed.
Lemma demo_outcome n f2 :
  @outcome inOrder Z demoByte (counted Writes (demoFs demoDisk)) n f2 -> f2 = demoAfter.
Proof. intros (f1 & E1 & E2). by rewrite /demoAfter /demoBody E1 /= E2. Qed.
#[local] Opaque demoAfter.

Lemma zeros_at i j a : zeros_in i j -> 0 <= i <= a -> a < j -> dev_data (f_dev demoAfter) !! Z.to_nat a = Some zeroBlock.
Proof.
  intros H Hi Hj. replace (Z.to_nat a) with (Z.to_nat i + Z.to_nat (a - i))%nat by lia.
  rewrite -lookup_drop -(lookup_take_lt _ (Z.to_nat (j - i))); [lia|]. rewrite H. apply lookup_replicate_2. lia.
Qed.

Lemma demo_unchanged a :
  0 <= a -> a ∉ [1; 3; 4; 2180] -> dev_data (f_dev demoAfter) !! Z.to_nat a = dev_data demoDisk !! Z.to_nat a.
Proof.
  rewrite !elem_of_cons elem_of_nil. intros H0 Hne. destruct demo_zeros as (B1 & B2 & B3 & B4).
  assert (dev_data demoDisk = replicate (Z.to_nat 16384) zeroBlock) as E by reflexivity.
  destruct (decide (a < 16384)) as [H|H].
  - transitivity (Some zeroBlock); [|symmetry; rewrite E; apply lookup_replicate_2; lia].
    destruct (decide (a < 1)); [by apply (zeros_at 0 1); [|lia..]|].
    destruct (decide (a < 3)); [by apply (zeros_at 2 3); [|lia..]|].
    destruct (decide (a < 2180)); [by apply (zeros_at 5 2180); [|lia..]|]. by apply (zeros_at 2181 16384); [|lia..].
  - assert (length (dev_data demoDisk) = Z.to_nat 16384) as HL by (rewrite E; apply length_replicate).
    transitivity (@None block); [|symmetry]; apply lookup_ge_None_2; rewrite ?demo_length HL; lia.
Qed.

Lemma demo_byte_journalable n f2 :
  @outcome inOrder Z demoByte (counted Writes (demoFs demoDisk)) n f2 -> journalable [] demoDisk (f_dev f2).
Proof.
  intros ->%demo_outcome. destruct (homeChanges_bound demoDisk (f_dev demoAfter) [1; 3; 4; 2180] (eq_sym demo_length)) as [Hn Hin].
  { intros a Ha Hne. by rewrite demo_unchanged. }
  split.
  - intros off Hoff. apply peek_same, demo_unchanged; unfold JournalStart, JournalBlocks in *; [lia|].
    rewrite !elem_of_cons elem_of_nil. lia.
  - intros a Ha%Hin. rewrite /is_commit. rewrite !elem_of_cons elem_of_nil in Ha.
    destruct Ha as [->|[->|[->|[->|[]]]]]; intros [H _]; vm_compute in H; discriminate H.
  - cbn zeta. cbn [length] in Hn. revert Hn. generalize (length (homeChanges demoDisk (f_dev demoAfter))).
    intros k Hk. do 5 (destruct k as [|k]; [done|]). lia.
Qed.

Lemma demo_byte_runs : demoBody.1 = Ok 1.
Proof. reflexivity. Qed.

Lemma demo_byte_written di :
  inode_at demoDisk 1 = di -> no_blocks di -> IsDir di = false ->
  (Write (O := inOrder) 0 RootCredential 1 0 [x41] (demoFs demoDisk)).1 = Ok 1.
Proof.
  intros E Hb Hdir.
  rewrite (Write_returns (O := inOrder) [] 0 RootCredential (demoFs demoDisk) 1 di 0 [x41] demo_settled (demoFs_at di E Hb)
    (conj eq_refl eq_refl) Hdir eq_refl ltac:(done) ltac:(done) ltac:(done) demo_byte_journalable).
  exact demo_byte_runs.
Qed.


Lemma Write_then_Read_witness :
  exists f' f'', Write (O := inOrder) 0 RootCredential 1 0 [x41] (demoFs demoDisk) = (Ok 1, f') /\
    Read (O := inOrder) 0 (mkCredential 0 0 1) 1 0 1 f' = (Ok [x41], f'').
Proof.
  destruct blankInode as (di & E & Hb & Hdir & Hsz). assert (SizeOf di <= maxBytes) as Hle by by rewrite Hsz.
  pose proof (demo_byte_written di E Hb Hdir) as HR. revert HR.
  generalize (Write_then_Read (O := inOrder) [] 0 0 RootCredential (mkCredential 0 0 1) (demoFs demoDisk) 1 di 0 [x41] demo_settled
    (demoFs_at di E Hb) (conj eq_refl eq_refl) Hdir eq_refl eq_refl ltac:(done) ltac:(done) ltac:(done) ltac:(done)
    Hle demo_byte_journalable).
  destruct (Write (O := inOrder) 0 RootCredential 1 0 [x41] (demoFs demoDisk)) as [r f']. cbn [fst]. intros H ->.
  destruct H as (f'' & H). by exists f', f''.
Defined.
