(* ===== verification/Shutdown.v ===== *)
(** * Shutdown: what unmounting saves, and what the next mount keeps of it

    [Unmount] writes what the caches hold straight to the device, without the
    journal, and synchronises.  All of it is then in the file; but the journal
    still has the transactions of the mutations before, and the next mount
    replays them over what [Unmount] wrote. *)

From S2P Require Export ReadWrite.

(** The two regions a flush writes to are apart from the rest of the disk. *)
Lemma below_data_uncached f x : flushable f -> 0 <= x < DataStart -> view (bufs f) x = peek (f_dev f) x.
Proof.
  intros Hf Hx. rewrite /view. cbn [bufs fst snd]. destruct (c_cache (fs_buf f) !! x) as [e|] eqn:E; [|done].
  pose proof (fb_data _ Hf x (mk_is_Some _ _ E)). lia.
Qed.

Section unmount.
Context {O : MapOrder}.

(** [FlushAll] as a step of the file system. *)
Record buffers_flushed (f f' : Filesystem) : Prop := {
  bf_touches : touches (fun _ => False) f f';
  bf_idle : idle (bufs f) -> idle (bufs f');
  bf_peek : forall x, 0 <= x -> peek (f_dev f') x = view (bufs f) x;
  bf_flushable : flushable f';
}.

Lemma FlushAll_step f : flushable f -> exists f', onFsBuf FlushAll f = (Ok tt, f') /\ buffers_flushed f f'.
Proof.
  intros Hf. destruct (flush_buffers_run f Hf) as (f' & E & Ht & Hs). exists f'. split; [done|].
  destruct (flush_buffers_touches f f' (fb_cache _ Hf) E) as (H1 & H2 & H3). split; [done..|].
  destruct (touched_parts _ _ _ H1) as (_ & _ & _ & Hin & _). split; [done|by rewrite Hin; apply Hf|apply H1| |].
  - intros x Hx. destruct (tc_grown _ _ _ H1 x Hx) as [[]|Hx']. by apply (fb_data _ Hf).
  - rewrite Hs. apply Hf.
Qed.

Lemma flusherTick_step f f' : onFsBuf FlushAll f = (Ok tt, f') -> onFsBuf flusherTick f = (Ok tt, f').
Proof.
  rewrite /onFsBuf /flusherTick /tryM /mbind /M_bind. destruct (FlushAll _) as [[[]|e|] s]; [|done..].
  by intros [= <-].
Qed.

(** What a device has of a file system: its data blocks, the inodes with what
    is pending, and the other blocks before the data. *)
Record written_back (f : Filesystem) (d : BlockDevice) : Prop := {
  wb_data : forall x, DataStart <= x -> peek d x = view (bufs f) x;
  wb_inodes : forall m, valid_inum m -> raw_at d m = default (raw_at (f_dev f) m) (pending (fs_inodes f) m);
  wb_rest : forall x, 0 <= x < DataStart -> x <> SuperblockAddr -> ~ table_block x -> peek d x = peek (f_dev f) x;
}.

(** [Unmount] up to the superblock. *)
Record emptied (f f' : Filesystem) : Prop := {
  em_follows : follows f f';
  em_back : written_back f (f_dev f');
  em_flushed : flushed_data f';
  em_pending : forall m, cached (fs_inodes f') m = cached (fs_inodes f) m /\ pending (fs_inodes f') m = None;
  em_sb : f_sb f' = f_sb f;
  em_flushable : flushable f';
  em_evol : dev_evol (f_dev f) (f_dev f');
}.

Lemma table_below x : table_block x -> 0 <= x < DataStart.
Proof. unfold table_block, DataStart, InodeTableStart, InodeTableBlocks. lia. Qed.

Lemma flushing_step f :
  flushable f -> exists g f', onFsIstate (IFlushAll (Some flushFn)) f = (Ok tt, g) /\ onFsBuf FlushAll g = (Ok tt, f') /\
    emptied f f'.
Proof.
  intros Hf. destruct (IFlushAll_ok _ _ (fb_table _ Hf) (fb_inodes _ Hf)) as (d' & ic' & E & Hd & He & Hc & Hr).
  destruct (flush_inodes_run f Hf) as (g & Eg & Hg). pose proof Eg as Eg'. rewrite /onFsIstate /zoom E in Eg'. injection Eg' as Eg'.
  destruct (flush_inodes_follows f g (fb_table _ Hf) (fb_inodes _ Hf) Eg) as [F1 B1].
  assert (f_dev g = d' /\ fs_inodes g = ic' /\ f_sb g = f_sb f) as (Gd & Gi & Gs) by by rewrite -Eg'.
  destruct (FlushAll_step g Hg) as (f' & Ef & [T1 T2 T3 T4]). exists g, f'. split; [done|]. split; [done|].
  destruct (flush_buffers g f' (fb_cache _ Hg) Ef) as [F2 C2]. destruct (touched_parts _ _ _ T1) as (_ & _ & _ & Hin & _).
  assert (forall x, 0 <= x < DataStart -> peek (f_dev f') x = peek d' x) as Hlow.
  { intros x Hx. rewrite T3; [lia|]. by rewrite below_data_uncached // Gd. }
  assert (forall x, 0 <= x -> ~ table_block x -> peek d' x = peek (f_dev f) x) as Hframe by by apply (do_frame _ _ _ Hd).
  split; [exact (transitivity F1 F2)| |done| | |done|].
  - split.
    + intros x Hx. unfold DataStart in Hx. rewrite T3; [lia|]. rewrite /view. cbn [bufs fst snd]. rewrite B1 Gd.
      destruct (c_cache _ !! x); [done|]. apply Hframe; unfold table_block, InodeTableStart, InodeTableBlocks; lia.
    + intros m Hm. rewrite -Hr //. apply raw_at_same; [done|]. intros a Ha%table_below. by apply Hlow.
    + intros x Hx _ Ht. rewrite Hlow //. apply Hframe; [lia|done].
  - intros m. rewrite Hin Gi. apply Hc.
  - assert (rest f' = rest g) as [= _ _ Hs Ho _ _ _] by apply T1. by rewrite -Gs /f_sb Hs Ho.
  - etrans; [|apply (tc_evol _ _ _ T1)]. rewrite Gd. apply Hd.
Qed.

(** The superblock in memory changes, its counters do not. *)
Lemma modSb_follows now f : follows f (modSb (unmountedSb now) f) /\ same_data f (modSb (unmountedSb now) f).
Proof. rewrite /modSb. destruct (fs_ownSb f); by (split; [apply aside_follows|apply aside_same]). Qed.

Lemma modSb_parts now f :
  let g := modSb (unmountedSb now) f in
  fs_buf g = fs_buf f /\ fs_inodes g = fs_inodes f /\ f_dev g = f_dev f /\ f_sb g = unmountedSb now (f_sb f).
Proof. rewrite /modSb /f_sb. destruct (fs_ownSb f) eqn:E; cbn; by rewrite ?E. Qed.

(** What [Unmount] leaves. *)
Record unmounted (now : Z) (f f' : Filesystem) : Prop := {
  um_follows : follows f f';
  um_data : forall x, DataStart <= x -> peek (f_dev f') x = view (bufs f) x;
  um_inodes : forall m, valid_inum m -> raw_at (f_dev f') m = default (raw_at (f_dev f) m) (pending (fs_inodes f) m);
  um_rest : forall x, 0 <= x < DataStart -> x <> SuperblockAddr -> ~ table_block x -> peek (f_dev f') x = peek (f_dev f) x;
  um_sb : peek (f_dev f') SuperblockAddr = encodeSuperblock (unmountedSb now (f_sb f)) zeroBlock;
  um_cached : forall m, cached (fs_inodes f') m = cached (fs_inodes f) m /\ pending (fs_inodes f') m = None;
  um_flushed : flushed_data f';
  um_file : dev_file (f_dev f') = dev_data (f_dev f');
  um_evol : dev_evol (f_dev f) (f_dev f');
}.

(** A flush after a flush adds what the first left. *)
Lemma written_back_after f g d :
  flushable f -> buffers_flushed f g -> written_back g d -> written_back f d.
Proof.
  intros Hf [T1 T2 T3 T4] [W1 W2 W3]. destruct (touched_parts _ _ _ T1) as (_ & _ & _ & Hin & _).
  assert (forall x, 0 <= x < DataStart -> peek (f_dev g) x = peek (f_dev f) x) as Hlow.
  { intros x Hx. rewrite T3; [lia|]. by apply below_data_uncached. }
  split.
  - intros x Hx. rewrite W1 //. apply (tc_view _ _ _ T1); [unfold DataStart in Hx; lia|tauto].
  - intros m Hm. rewrite W2 // Hin. f_equal. apply raw_at_same; [done|]. intros a Ha%table_below. by apply Hlow.
  - intros x Hx Hne Ht. rewrite W3 //. by apply Hlow.
Qed.

Lemma stopFlusher_step f :
  flushable f -> exists f', stopFlusher f = (Ok tt, f') /\ flushable f' /\ follows f f' /\ f_sb f' = f_sb f /\
    fs_inodes f' = fs_inodes f /\ dev_evol (f_dev f) (f_dev f') /\ forall d, written_back f' d -> written_back f d.
Proof.
  intros Hf. rewrite /stopFlusher bind_gets /whenM. destruct (fs_flushing f).
  - destruct (FlushAll_step f Hf) as (g & E%flusherTick_step & Hg). exists (with_flushing false g).
    rewrite (bind_ok _ _ _ _ _ E). pose proof Hg as [T1 T2 T3 T4]. destruct (touched_parts _ _ _ T1) as (_ & _ & _ & Hin & _).
    assert (rest g = rest f) as [= _ _ Hs Ho _ _ _] by apply T1. split_and!; [done|by destruct T4|..].
    + etrans; [exact (touches_follows f g T1 T2)|]. by apply aside_follows.
    + by rewrite /f_sb /= Hs Ho.
    + done.
    + apply T1.
    + intros d [W1 W2 W3]. apply (written_back_after f g d Hf Hg). by split.
  - exists (with_flushing false f). split_and!; [done|by destruct Hf|by apply aside_follows|done|done|by split|].
    intros d [W1 W2 W3]. by split.
Qed.

(** The last steps: the superblock is written, the event sent, the device
    synchronised. *)
Definition finishUnmount (now : Z) : M Filesystem unit :=
  modify (modSb (unmountedSb now)) ;;
  wrapErr "unmount: write superblock: %w" [] writeFsSb ;;
  EmitTypedEvent EventUmount EventSourceFS (str "/") [] ;;
  onFsDev Sync.

Lemma finishUnmount_run now f :
  flushable f -> exists f', finishUnmount now f = (Ok tt, f') /\ follows f f' /\ same_data f f' /\
    fs_inodes f' = fs_inodes f /\ fs_buf f' = fs_buf f /\ dev_file (f_dev f') = dev_data (f_dev f') /\
    (forall x, 0 <= x -> peek (f_dev f') x =
       if decide (x = SuperblockAddr) then encodeSuperblock (unmountedSb now (f_sb f)) zeroBlock else peek (f_dev f) x).
Proof.
  intros Hf. destruct (modSb_follows now f) as [F1 S1]. destruct (modSb_parts now f) as (B1 & I1 & D1 & Hsb).
  set (g := modSb (unmountedSb now) f) in *. set (b := encodeSuperblock (unmountedSb now (f_sb f)) zeroBlock).
  destruct (fb_table _ Hf) as [Hh Hw Ht]. assert (SuperblockAddr < BlockCount (f_dev f)) as HB.
  { unfold has_table, InodeTableStart, InodeTableBlocks, SuperblockAddr in *. lia. }
  assert (writeFsSb g = (Ok tt, put_dev (poke SuperblockAddr b (f_dev f)) g)) as EW.
  { rewrite /writeFsSb bind_gets onFsDev_run Hsb D1 WriteSuperblock_ok //. apply Hf. }
  destruct (writeFsSb_same g _ EW) as [S2 I2].
  set (d := poke SuperblockAddr b (f_dev f)) in *. set (h := sendEvent (mkEvent EventUmount EventSourceFS (str "/") [] None) (put_dev d g)).
  set (e := with_dirty false (with_file (dev_data d) d)).
  assert (same_data (put_dev d g) (put_dev e h)) as S3.
  { split; [done|done| |].
    - pose proof (Sync_evol d) as Hev. by rewrite Sync_ok in Hev.
    - intros x _. by apply peek_same. }
  exists (put_dev e h). split_and!.
  - rewrite /finishUnmount bind_modify. fold g. rewrite (bind_ok _ _ _ _ _ (wrapErr_ok _ _ _ _ _ _ EW)) /EmitTypedEvent bind_modify.
    fold h. rewrite onFsDev_run. change (f_dev h) with d. rewrite Sync_ok //.
  - etrans; [exact F1|]. etrans; [|apply same_follows; [exact S3|done|done]]. apply same_follows; [exact S2|by rewrite I2|by rewrite I2].
  - exact (transitivity S1 (transitivity S2 S3)).
  - exact I1.
  - exact B1.
  - done.
  - intros x Hx. rewrite (peek_same e d) //. rewrite /d. case_decide as E.
    + subst x. apply peek_poke_eq, (wf_in_range _ _ Hw). unfold SuperblockAddr in *. lia.
    + apply peek_poke_ne; [done|done|exact (not_eq_sym E)].
Qed.

Lemma Unmount_run now f :
  flushable f -> fs_closed f = false -> exists f', Unmount now f = (Ok tt, f') /\ unmounted now f f'.
Proof.
  intros Hf Hc. set (f0 := with_closed true f). assert (flushable f0) as Hf0 by by destruct Hf.
  destruct (stopFlusher_step f0 Hf0) as (f1 & E1 & Hf1 & F1 & Hs1 & Hi1 & V1 & W1).
  destruct (flushing_step f1 Hf1) as (g & f2 & Eg & E2 & [F2 W2 C2 P2 Hs2 Hf2 V2]).
  destruct (finishUnmount_run now f2 Hf2) as (f' & E3 & F3 & S3 & I3 & B3 & Hfile & Hpeek).
  exists f'. split.
  - rewrite /Unmount bind_gets Hc bind_modify. fold f0. rewrite (bind_ok _ _ _ _ _ E1) (bind_ok _ _ _ _ _ (onErr_ok _ _ _ _ _ Eg)).
    by rewrite (bind_ok _ _ _ _ _ (onErr_ok _ _ _ _ _ E2)).
  - destruct (W1 _ W2) as [D1 D2 D3]. assert (forall x, 0 <= x -> x <> SuperblockAddr -> peek (f_dev f') x = peek (f_dev f2) x) as Hother.
    { intros x Hx Hne. by rewrite Hpeek // decide_False. }
    split; [| | | | | | |done|].
    + assert (follows f f0) as F0 by by apply aside_follows. exact (transitivity F0 (transitivity F1 (transitivity F2 F3))).
    + intros x Hx. rewrite Hother; [unfold DataStart in *; lia|unfold DataStart, SuperblockAddr in *; lia|]. by apply D1.
    + intros m Hm. rewrite -(D2 m Hm). apply raw_at_same; [done|]. intros a Ha. pose proof (table_below a Ha). apply Hother; [lia|].
      unfold table_block, InodeTableStart, SuperblockAddr in *. lia.
    + intros x Hx Hne Ht. rewrite Hother; [lia|done|]. by apply D3.
    + by rewrite Hpeek // Hs2 Hs1.
    + intros m. rewrite I3. destruct (P2 m) as [-> ->]. by rewrite Hi1.
    + exact (flushed_same _ _ S3 C2).
    + exact (transitivity V1 (transitivity V2 (sd_evol _ _ S3))).
Qed.

Lemma ReadSuperblock_encoded sb d :
  wf_superblock sb -> healthy d -> SuperblockAddr < BlockCount d ->
  peek d SuperblockAddr = encodeSuperblock sb zeroBlock -> ReadSuperblock d = (Ok sb, d).
Proof.
  intros Hwf Hh HB Hp. rewrite /ReadSuperblock (bind_ok _ _ _ (encodeSuperblock sb zeroBlock) d).
  - apply wrapErr_ok. by rewrite ReadBlock_ok // Hp.
  - rewrite /liftResult decode_encode_superblock //.
Qed.

Lemma wf_unmountedSb now sb : is_u32 now -> wf_superblock sb -> wf_superblock (unmountedSb now sb).
Proof.
  intros Hn (H1 & H2 & H3 & H4). rewrite /u32_fields /u16_fields !Forall_cons in H1, H2.
  split; [rewrite /u32_fields !Forall_cons /=; tauto|]. split; [|done]. rewrite /u16_fields !Forall_cons /=.
  split; [tauto|]. split; [done|tauto].
Qed.

(** The inodes of [f] are those of [f']. *)
Lemma unmounted_inodeOf now f f' m :
  unmounted now f f' -> flushable f -> valid_inum m -> inodeOf f' m = inodeOf f m.
Proof.
  intros Hu Hf Hm. destruct (fb_table _ Hf) as [Hh Hw Ht]. pose proof (table_dev_evol _ _ (um_evol _ _ _ Hu) (fb_table _ Hf)) as [Hh' Hw' Ht'].
  rewrite /inodeOf (proj1 (um_cached _ _ _ Hu m)). destruct (cached (fs_inodes f) m) eqn:Ec; [done|].
  rewrite !ReadInode_ok //. cbn [fst]. f_equal. pose proof (um_inodes _ _ _ Hu m Hm) as Hr.
  assert (pending (fs_inodes f) m = None) as Ep by (revert Ec; rewrite /cached /pending; by destruct (_ !! m)).
  rewrite Ep in Hr. cbn [default] in Hr. revert Hr. rewrite /raw_at /inode_at. destruct (InodeNumToBlock m). by intros ->.
Qed.


(** What the next mount finds: the file is opened, and the journal replayed. *)
Lemma remount_run ts now f :
  settled ts f -> flushable f -> fs_closed f = false ->
  exists f' d, Unmount now f = (Ok tt, f') /\ unmounted now f f' /\
    Recover JournalStart JournalBlocks (crash (f_dev f')) = (Ok tt, d) /\
    forall a, 0 <= a -> peek d a = default (peek (f_dev f') a) (lastWrite (blocksOf ts) a).
Proof.
  intros [Hj [Hst Hln] _] Hf Hc. destruct (Unmount_run now f Hf Hc) as (f' & E & Hu). destruct Hj as [Hw _ Hg Htx Ha [_ Hle] Hcl _].
  cbn [fst snd] in *. rewrite Hst Hln in Hg, Htx, Ha, Hle, Hcl. pose proof (um_evol _ _ _ Hu) as [Es Eh Ew].
  assert (forall a, 0 <= a -> peek (crash (f_dev f')) a = peek (f_dev f') a) as Hp.
  { intros a _. apply peek_same. exact (f_equal (fun l => l !! Z.to_nat a) (um_file _ _ _ Hu)). }
  assert (forall i, 0 <= i < JournalBlocks -> peek (crash (f_dev f')) (JournalStart + i) = peek (f_dev f) (JournalStart + i)) as Harea.
  { intros i Hi. unfold JournalStart, JournalBlocks in *. rewrite Hp; [lia|].
    apply (um_rest _ _ _ Hu); unfold DataStart, SuperblockAddr, table_block, InodeTableStart, InodeTableBlocks; lia. }
  assert (BlockCount (crash (f_dev f')) = BlockCount (f_dev f)) as HB by exact (evol_BlockCount _ _ (um_evol _ _ _ Hu)).
  exists f', (applyBlocks (blocksOf ts) (crash (f_dev f'))). split; [exact E|]. split; [exact Hu|]. split.
  - rewrite /Recover (RecoverWithHook_txs _ _ _ _ ts) //.
    + destruct Hg as [G1 G2 G3 G4 G5]. split; [done|done|done|by rewrite HB|by rewrite HB].
    + by rewrite HB.
    + apply (holds_same (f_dev f)); [done|]. intros i Hi. apply Harea.
      pose proof (length_journalOf _ _ _ _ Htx). lia.
    + pose proof (totalLen_nonneg ts). destruct Hcl as [C1 C2]. split.
      * intros i Hi. rewrite Harea; [lia|by apply C1].
      * intros Hi. rewrite Harea; [unfold JournalBlocks; lia|by apply C2].
  - intros a H0. rewrite (peek_applyBlocks JournalStart JournalBlocks) //; [apply crash_wf; by apply Ew| |by rewrite Hp].
    rewrite HB. by apply home_blocksOf.
Qed.

(** C23: unmounting does not empty the journal.  The next mount finds every
    block that no transaction of the journal has as [Unmount] left it; but over
    the others it replays the journal, which brings back what they had before
    [Unmount]: the clean mark of the superblock and the inodes that were
    pending there are lost. *)
Theorem Unmount_undone ts now f :
  settled ts f -> flushable f -> fs_closed f = false ->
  exists f' d, Unmount now f = (Ok tt, f') /\
    Recover JournalStart JournalBlocks (crash (f_dev f')) = (Ok tt, d) /\
    forall a, 0 <= a ->
      match lastWrite (blocksOf ts) a with
      | Some _ => peek d a = peek (f_dev f) a
      | None => peek d a = peek (f_dev f') a
      end.
Proof.
  intros Hs Hf Hc. destruct (remount_run ts now f Hs Hf Hc) as (f' & d & E & _ & ER & Hd). exists f', d. split_and!; [done..|].
  intros a Ha. rewrite Hd //. pose proof (ji_replay _ _ (st_jinv _ _ Hs) a Ha) as Hr. cbn [fst] in Hr.
  by destruct (lastWrite (blocksOf ts) a).
Qed.

End unmount.

(** ** Witnesses *)

Lemma demoFs_flushable d j : table_dev d -> flushable (put_dev d (with_journal j (demoFs demoDisk))).
Proof.
  intros Hd. split; [done|done| |by intros x [e He]|by split]. split; [apply Hd|done|done|done|done].
Qed.

Lemma demo_table : table_dev demoDisk.
Proof. split; [done|exact demoDisk_wf|exact demoDisk_table]. Qed.


(** A transaction that has logged the superblock. *)
Definition sbTx : JournalTransaction := mkTransaction 2 [mkTxBlock SuperblockAddr (demoBlock Byte.x01)].

Lemma sbTx_committed :
  exists s', jinv [sbTx] s' /\ j_start s'.2 = JournalStart /\ j_length s'.2 = JournalBlocks /\ table_dev s'.1.
Proof.
  set (s := (demoDisk, NewJournal JournalStart JournalBlocks None)).
  assert (jinv [] s) as Hj by exact (st_jinv _ _ demo_settled).
  assert (loggable JournalStart JournalBlocks TotalBlocks sbTx) as Hl.
  { assert (length (demoBlock Byte.x01) = BlockLen) as Hlen by apply length_replicate.
    split; [split|]; rewrite /home_blocks ?Forall_singleton; cbn [sbTx t_sequence t_blocks tb_addr tb_data]; try done.
    split; [|done]. split; [done|by left]. }
  assert (innocent sbTx) as Hi by (repeat constructor; intros [H _]; vm_compute in H; discriminate H).
  destruct (Commit_fine TotalBlocks JournalStart JournalBlocks ltac:(done) ltac:(done) ltac:(done) ltac:(done) 7 sbTx s)
    as ([] & s' & E & F1 & F2 & F3 & F4); [split_and!; [exact (conj eq_refl eq_refl)|exact demoDisk_count|done|done]|done|done|done|].
  pose proof (Commit_phases [] sbTx 7 s Hj) as HP. rewrite E in HP.
  destruct HP as (_ & Hj' & _); [change (BlockCount s.1) with (BlockCount demoDisk); by rewrite demoDisk_count|done|done|].
  exists s'. split; [exact Hj'|]. split; [done|]. split; [done|].
  split; [done|exact (ji_wf _ _ Hj')|]. by rewrite /has_table F2.
Qed.

Lemma Unmount_undone_witness :
  exists f f' d, @Unmount inOrder 9 f = (Ok tt, f') /\ Recover JournalStart JournalBlocks (crash (f_dev f')) = (Ok tt, d) /\
    peek d SuperblockAddr = peek (f_dev f) SuperblockAddr.
Proof.
  destruct sbTx_committed as (s' & Hj & Hs & Hl & Ht).
  set (f := put_dev s'.1 (with_journal s'.2 (demoFs demoDisk))).
  destruct (@Unmount_undone inOrder [sbTx] 9 f) as (f' & d & E & ER & Hd).
  - split; [by destruct s'|done|done].
  - exact (demoFs_flushable _ _ Ht).
  - done.
  - exists f, f', d. split; [exact E|]. split; [exact ER|]. exact (Hd SuperblockAddr ltac:(done)).
Defined.
