(* ===== verification/Names.v ===== *)
(** * Names: files come into being

    What [Create] does to the file system as a whole: the directory of the
    new name is the map it was with one entry more, the new inode is an empty
    file, and the other inodes, directories and files are what they were.
    Directories are read and written on the device and not in the buffer
    cache, which holds no block of one. *)

From S2P Require Export Walk ReadWrite.

(** ** Steps that spare the blocks in use *)

(** [f'] comes from [f] by writes before the data, to blocks that were free,
    and to those of [own]. *)
Record spares (own : Z -> Prop) (f f' : Filesystem) : Prop := {
  sp_alloc : alloc_ok (fs_alloc f');
  sp_mono : forall x, 0 <= x -> IsSet (a_blockBM (fs_alloc f)) x = true -> IsSet (a_blockBM (fs_alloc f')) x = true;
  sp_buf : fs_buf f' = fs_buf f;
  sp_peek : forall x, data_addr x -> IsSet (a_blockBM (fs_alloc f)) x = true -> ~ own x -> peek (f_dev f') x = peek (f_dev f) x;
}.

Lemma spares_trans own f f1 f2 : spares own f f1 -> spares own f1 f2 -> spares own f f2.
Proof.
  intros [A1 M1 B1 P1] [A2 M2 B2 P2]. split; [done| |congruence|].
  - auto.
  - intros x Hx Hs Hn. rewrite P2 //; [apply M1; [destruct Hx; unfold DataStart in *; lia|done]|]. by apply P1.
Qed.

Lemma spares_weaken (own own' : Z -> Prop) f f' : (forall x, own x -> own' x) -> spares own f f' -> spares own' f f'.
Proof. intros Ho [A M B P]. split; [done..|]. auto. Qed.

(** Nothing of the buffer cache is in [own]. *)
Definition uncached (own : Z -> Prop) (f : Filesystem) : Prop :=
  forall x, is_Some (c_cache (fs_buf f) !! x) -> data_addr x /\ IsSet (a_blockBM (fs_alloc f)) x = true /\ ~ own x.

Section spared.
Context (own : Z -> Prop) (f f' : Filesystem).
Hypothesis (Hs : spares own f f').

Lemma spared_dev : f_dev f' = a_dev (fs_alloc f').
Proof. done. Qed.

Lemma spared_uncached : uncached own f -> uncached own f'.
Proof using Hs.
  intros Hu x. rewrite (sp_buf _ _ _ Hs). intros Hx. destruct (Hu x Hx) as (H1 & H2 & H3). split_and!; [done| |done].
  apply (sp_mono _ _ _ Hs); [destruct H1; unfold DataStart in *; lia|done].
Qed.

Lemma spared_cache : uncached own f -> cache_ok (bufs f) -> cache_ok (bufs f').
Proof using Hs.
  intros Hu [Hd Hl He Hsz Hc]. destruct (sp_alloc _ _ _ Hs) as [_ Hh Hw Hn]. rewrite /cache_ok. cbn [bufs fst snd] in *.
  rewrite (sp_buf _ _ _ Hs). split; [done|done| |done|done]. intros x e Hx.
  destruct (He x e Hx) as (H1 & H2 & H3 & H4). destruct (Hu x (mk_is_Some _ _ Hx)) as (H5 & H6 & H7).
  split; [|split_and!; [done|done|]].
  - change (BlockCount (f_dev f') = TotalBlocks) in Hn. rewrite Hn. destruct H5. unfold DataStart in *. lia.
  - intros Hdirty. rewrite (H4 Hdirty). symmetry. by apply (sp_peek _ _ _ Hs).
Qed.

(** A block map with no block in [own]. *)
Context (d d' : DiskInode).
Hypothesis (Hd : state_ok (file f d)) (Hp : same_pointers d d')
  (Hown : forall q, valid_pos q -> node (file f d) q <> 0 -> ~ own (node (file f d) q)).

Lemma spared_peek q : valid_pos q -> node (file f d) q <> 0 ->
  peek (f_dev f') (node (file f d) q) = peek (f_dev f) (node (file f d) q).
Proof using Hs Hd Hown.
  intros Hq Hn. destruct (wm_used _ (so_map _ Hd) q Hq Hn) as [H1 H2]. apply (sp_peek _ _ _ Hs); [done|done|by apply Hown].
Qed.

Lemma spared_node q : valid_pos q -> node (file f' d') q = node (file f d) q.
Proof using Hs Hd Hp Hown.
  apply (node_ext (file f d) (file f' d')); [done|]. intros q' Hq Hn. by apply spared_peek, Hn; apply Hq.
Qed.

Lemma spared_map : state_ok (file f' d').
Proof using Hs Hd Hp Hown.
  apply (state_ok_ext (file f d)); [done|apply Hs| |exact (sp_mono _ _ _ Hs)|exact spared_node].
  cbn [file snd]. rewrite (proj1 Hp). apply Hd.
Qed.

End spared.

Section spared_file.
Context (own : Z -> Prop) (f f' : Filesystem) (d : DiskInode).
Hypothesis (Hs : spares own f f') (Hu : uncached own f) (Hd : file_ok f d)
  (Hown : forall q, valid_pos q -> node (file f d) q <> 0 -> ~ own (node (file f d) q)).

Lemma spared_same_node q : valid_pos q -> node (file f' d) q = node (file f d) q.
Proof using Hs Hd Hown. apply (spared_node own f f' Hs d d); [apply Hd|by split|done]. Qed.

Lemma spared_file : file_ok f' d.
Proof using Hs Hu Hd Hown.
  split.
  - apply (spared_map own f f' Hs d d); [apply Hd|by split|done].
  - apply (spared_cache own f f' Hs Hu), Hd.
  - intros x. rewrite (sp_buf _ _ _ Hs). intros Hx. destruct (fo_cached _ _ Hd x Hx) as (H1 & H2 & H3).
    split_and!; [done|apply (sp_mono _ _ _ Hs); [destruct H1; unfold DataStart in *; lia|done]|].
    intros q Hq. rewrite spared_same_node; [apply Hq|by apply H3].
Qed.

Lemma spared_bytes o : 0 <= o -> fileByte f' d o = fileByte f d o.
Proof using Hs Hu Hd Hown.
  intros Ho. rewrite /fileByte. f_equal. rewrite /fileBlock. assert (0 <= o / BlockSize) as H0 by by apply Z.div_pos.
  pose proof (mapped_pos _ _ (fo_map _ _ spared_file) H0) as H1. pose proof (mapped_pos _ _ (fo_map _ _ Hd) H0) as H2.
  destruct (leafpos (o / BlockSize)) as [q|] eqn:Eq; [|destruct H1 as [e ->], H2 as [e' ->]; done]. rewrite H1 H2.
  pose proof (proj1 (leafpos_leaf _ _ H0 Eq)) as Hv. rewrite spared_same_node //.
  destruct (node (file f d) q =? 0) eqn:E; [done|]. simpl_bool. rewrite /view. cbn [bufs fst snd]. rewrite (sp_buf _ _ _ Hs).
  destruct (c_cache (fs_buf f) !! node (file f d) q); [done|]. apply (spared_peek own f f' Hs d); [apply Hd|done..].
Qed.

End spared_file.

(** ** Inodes *)

(** The inode [j] is [dj]: on the device, and in the cache if it is there. *)
Definition inode_is (f : Filesystem) (j : Z) (dj : DiskInode) : Prop :=
  inode_at (f_dev f) j = dj /\ forall data, cached (fs_inodes f) j = Some data -> decodeInode data = dj.

Lemma inode_is_inodeOf f j dj : alloc_ok (fs_alloc f) -> valid_inum j -> inode_is f j dj -> inodeOf f j = Ok dj.
Proof.
  intros Ha Hv [Hd Hc]. rewrite /inodeOf. destruct (cached (fs_inodes f) j) as [data|]; [f_equal; by apply Hc|].
  by rewrite ReadInode_ok ?Hd //; [apply Ha|apply alloc_ok_has_table].
Qed.

(** Nothing has come into the cache except for [inum]. *)
Definition cached_within (inum : Z) (ic ic' : InodeCache) : Prop :=
  forall j data, j <> inum -> cached ic' j = Some data -> cached ic j = Some data.

Lemma inode_is_kept f f' inum j dj :
  cached_within inum (fs_inodes f) (fs_inodes f') -> j <> inum ->
  inode_at (f_dev f') j = inode_at (f_dev f) j -> inode_is f j dj -> inode_is f' j dj.
Proof. intros Hc Hj Hd [H1 H2]. split; [congruence|]. intros data Hx. by apply H2, Hc. Qed.

Section inodes.
Context {O : MapOrder}.

Lemma makeRoom_within ic ic1 j data : makeRoom ic = (Ok tt, ic1) -> cached ic1 j = Some data -> cached ic j = Some data.
Proof.
  intros E. destruct (makeRoom_spec ic) as (ic2 & E2 & Hc). assert (ic2 = ic1) as <- by congruence. rewrite /cached.
  destruct Hc as [->|(k & e & _ & _ & -> & _)]; [done|]. destruct (decide (j = k)) as [->|Hne].
  - by rewrite lookup_delete_eq.
  - rewrite lookup_delete_ne //. exact (not_eq_sym Hne).
Qed.

Lemma IUpdate_within ic inum data ic' : IUpdate inum data ic = (Ok tt, ic') -> cached_within inum ic ic'.
Proof.
  rewrite /IUpdate bind_gets. destruct (ic_cache ic !! inum) as [e|].
  - intros [= <-] j x Hj. rewrite /cached /= lookup_alter_ne //. exact (not_eq_sym Hj).
  - destruct (makeRoom_spec ic) as (ic1 & E & _). rewrite (bind_ok _ _ _ _ _ E). intros [= <-] j x Hj.
    rewrite /cached /= lookup_insert_ne; [exact (not_eq_sym Hj)|]. by apply makeRoom_within.
Qed.

Lemma IPut_within ic inum data ic' : IPut inum data ic = (Ok tt, ic') -> cached_within inum ic ic'.
Proof.
  rewrite /IPut bind_gets. destruct (ic_cache ic !! inum) as [e|].
  - intros [= <-] j x Hj. rewrite /cached /= lookup_alter_ne //. exact (not_eq_sym Hj).
  - destruct (makeRoom_spec ic) as (ic1 & E & _). rewrite (bind_ok _ _ _ _ _ E). intros [= <-] j x Hj.
    rewrite /cached /= lookup_insert_ne; [exact (not_eq_sym Hj)|]. by apply makeRoom_within.
Qed.

Lemma fsReadInode_within inum f di f' :
  fsReadInode inum f = (Ok di, f') -> cached_within inum (fs_inodes f) (fs_inodes f').
Proof.
  rewrite /fsReadInode. intros (r & f1 & E1 & E)%bind_ok_inv. revert E1. rewrite /onFsInodes /zoom /IGet bind_gets.
  destruct (ic_cache (fs_inodes f) !! inum) as [e|]; intros [= <- <-].
  - revert E. intros [= _ <-] j x Hj. rewrite /cached /= lookup_alter_ne //. exact (not_eq_sym Hj).
  - apply bind_ok_inv in E as (d & f2 & E2 & E). rewrite onFsDev_run in E2. injection E2 as _ <-.
    apply bind_ok_inv in E as ([] & f3 & E3 & E). injection E as _ <-. revert E3. rewrite /onFsInodes /zoom.
    cbn [fs_inodes put_dev with_alloc]. destruct (IPut _ _ _) as [r ic] eqn:EI. intros [= -> <-].
    exact (IPut_within _ _ _ _ EI).
Qed.

(** [WriteInodeFS] in a mutation writes to the cache and to the device. *)
Lemma WriteInodeFS_run now f inum di :
  alloc_ok (fs_alloc f) -> entries_ok (fs_inodes f) -> wf_inode di -> valid_inum inum -> fs_mutating f = true ->
  exists f', WriteInodeFS now inum di f = (Ok tt, f') /\ spares (fun _ => False) f f' /\ entries_ok (fs_inodes f') /\
    inode_is f' inum di /\ holds_inode (fs_inodes f') inum di /\ cached_within inum (fs_inodes f) (fs_inodes f') /\
    (forall m, valid_inum m -> m <> inum -> inode_at (f_dev f') m = inode_at (f_dev f) m) /\
    fs_mutating f' = true /\ a_inodeBM (fs_alloc f') = a_inodeBM (fs_alloc f).
Proof.
  intros Ha He Hw Hv Hm. set (data := encodeInode di zeroInodeData).
  destruct (IUpdate_held (fs_inodes f) inum di Hw He Hv) as (ic & E & Hh & He').
  pose proof (IUpdate_within _ _ _ _ E) as Hin. assert (table_dev (f_dev f)) as Ht.
  { split; [apply Ha|apply Ha|by apply alloc_ok_has_table]. }
  destruct (flushFn_ok inum data (f_dev f) Ht Hv (length_stored di Hw)) as (d & Ed & Hd & Hr).
  assert (decodeInode data = di) as Hdec.
  { by rewrite /data decode_encode_inode // /zeroInodeData /zeros length_replicate. }
  set (f' := put_dev d (with_inodes ic f)). exists f'. pose proof (do_evol _ _ _ Hd) as Hev.
  assert (WriteInodeFS now inum di f = (Ok tt, f')) as EW.
  { rewrite /WriteInodeFS -/data. revert Ed. rewrite /flushFn. destruct (InodeNumToBlock inum) as [a o].
    intros (blk & d1 & E1 & E2)%bind_ok_inv. rewrite (bind_ok _ _ _ tt (with_inodes ic f)); [by rewrite /onFsInodes /zoom E|].
    rewrite bind_gets. cbn [fs_mutating with_inodes]. rewrite Hm.
    rewrite (bind_ok _ _ _ blk (put_dev d1 (with_inodes ic f))); [by rewrite onFsDev_run; cbn [f_dev fs_alloc with_inodes]; rewrite E1|].
    rewrite onFsDev_run. change (f_dev (put_dev d1 (with_inodes ic f))) with d1. by rewrite E2. }
  assert (alloc_ok (fs_alloc f')) as Ha'.
  { destruct Ha as [[A1 A2 A3 A4] H1 H2 H3]. pose proof (table_dev_evol _ _ Hev Ht) as [T1 T2 T3].
    split; [by split|done|done|]. change (BlockCount d = TotalBlocks). by rewrite (evol_BlockCount _ _ Hev). }
  split; [exact EW|]. split_and!; [|done| |done|done| |done|done].
  - split; [done|done|done|]. intros x Hx _ _. apply (do_frame _ _ _ Hd); unfold data_addr, table_block, DataStart, InodeTableStart, InodeTableBlocks in *; lia.
  - destruct Hh as (data' & Hc & Hdi). split.
    + change (f_dev f') with d. by rewrite inode_at_raw Hr // decide_True.
    + intros x Hx. change (fs_inodes f') with ic in Hx. congruence.
  - intros m Hvm Hne. change (f_dev f') with d. by rewrite !inode_at_raw Hr // decide_False.
Qed.

End inodes.

(** A new inode is taken. *)
Lemma AllocInode_run f :
  alloc_ok (fs_alloc f) ->
  (exists i f', onFsAlloc AllocInode f = (Ok i, f') /\ valid_inum i /\ IsSet (a_inodeBM (fs_alloc f)) (i - 1) = false /\
     (forall x, 0 <= x -> IsSet (a_inodeBM (fs_alloc f')) x = if decide (x = i - 1) then true else IsSet (a_inodeBM (fs_alloc f)) x) /\
     spares (fun _ => False) f f' /\ fs_inodes f' = fs_inodes f /\ fs_mutating f' = fs_mutating f /\
     forall m, valid_inum m -> inode_at (f_dev f') m = inode_at (f_dev f) m) \/
  exists f', onFsAlloc AllocInode f = (Err ErrNoSpace, f').
Proof.
  intros Ha. set (e := noLog (a_emit (fs_alloc f))). set (a := with_emit e (fs_alloc f)).
  assert (alloc_ok a) as Haa by (destruct Ha as [[? ? ? ?] ? ? ?]; by split; [split|..]).
  pose proof (ai_inode _ (ok_inv _ Haa)) as (Hwf & Hsz & _).
  rewrite /onFsAlloc -/e -/a. destruct (FindNext (a_inodeBM a) 0) as [idx []] eqn:E.
  - left. destruct (FindNext_true _ 0 _ Hwf ltac:(done) E) as [Hr Hc]. rewrite Hsz in Hr.
    rewrite (AllocInode_ok a idx Haa E). set (a1 := did_allocInode idx a).
    assert (alloc_ok a1) as [[B1 B2 B3 B4] C1 C2 C3].
    { split; [by apply inv_noted, inv_with_dev, tookI_inv; [apply Haa|..]|apply Haa| |apply Haa].
      apply poke_wf; [apply length_bitmapBlock|apply Haa]. }
    match goal with |- context [forward ?src ?log ?g] => destruct (forward_events src log g) as [h ->] end.
    eexists (idx + 1), _. split; [reflexivity|]. split; [rewrite /valid_inum; lia|]. replace (idx + 1 - 1) with idx by lia.
    split; [done|]. split; [|split; [|split; [done|split; [done|]]]].
    + intros x Hx. change (IsSet (a_inodeBM (tookI idx a)) x = if decide (x = idx) then true else IsSet (a_inodeBM a) x).
      by apply IsSet_tookI; [apply Haa| |].
    + split; [by split; [split|..]|done|done|]. intros x Hx _ _. cbn. apply peek_poke_ne; [done| |];
        unfold data_addr, DataStart, InodeBitmapAddr in *; lia.
    + intros m Hm. rewrite !inode_at_raw. f_equal. apply raw_at_same; [done|]. intros b Hb.
      apply peek_poke_ne; unfold table_block, InodeBitmapAddr, InodeTableStart in *; lia.
  - right. rewrite /AllocInode bind_gets E /=. by eexists.
Qed.

(** ** Directories *)

Lemma LookupEntry_rep s m name :
  dir_rep s m ->
  LookupEntry s.2 name (a_dev s.1) = (match m !! name with Some e => Ok e | None => Err ErrNotFound end, a_dev s.1).
Proof. intros (bs & Hd & _ & <-). by rewrite (LookupEntry_ok s bs name Hd) findDent_map. Qed.

Lemma dir_rep_isdir s m : dir_rep s m -> IsDir s.2 = true.
Proof. intros (bs & Hd & _). apply Hd. Qed.
Lemma dir_rep_state s m : dir_rep s m -> state_ok s.
Proof. intros (bs & Hd & _). apply Hd. Qed.

(** A directory depends on its map and its blocks. *)
Lemma dir_rep_ext s s' m :
  dir_rep s m -> state_ok s' -> IsDir s'.2 = true -> SizeOf s'.2 = SizeOf s.2 ->
  (forall q, valid_pos q -> node s' q = node s q) ->
  (forall q, valid_pos q -> node s q <> 0 -> peek (a_dev s'.1) (node s q) = peek (a_dev s.1) (node s q)) -> dir_rep s' m.
Proof.
  intros (bs & [D1 D2 D3 D4 D5] & Hnd & Hm) Hs Hdir Hsize Hn Hp. exists bs. split; [|done]. split; [done|done|congruence| |].
  - intros lb sl Hl. destruct (D4 lb sl Hl) as (q & Hq & Hc). exists q. split; [done|].
    pose proof (proj1 (leafpos_leaf (Z.of_nat lb) q ltac:(lia) Hq)) as Hv. rewrite Hn //.
    destruct Hc as [Hc|(H1 & H2 & H3)]; [by left|right]. split_and!; [done|done|]. by rewrite Hp.
  - intros lb q Hl Hq. rewrite Hn; [|by apply (D5 lb)]. exact (proj1 (leafpos_leaf (Z.of_nat lb) q ltac:(lia) Hq)).
Qed.

Lemma dir_rep_spared own f f' di di' m :
  spares own f f' -> dir_rep (file f di) m -> same_pointers di di' -> IsDir di' = IsDir di ->
  SizeOf di' = SizeOf di -> (forall q, valid_pos q -> node (file f di) q <> 0 -> ~ own (node (file f di) q)) ->
  dir_rep (file f' di') m /\ forall q, valid_pos q -> node (file f' di') q = node (file f di) q.
Proof.
  intros Hs Hr Hp Hd Hz Hown. pose proof (dir_rep_state _ _ Hr) as Hok. pose proof (dir_rep_isdir _ _ Hr) as Hdir. cbn [file snd] in Hdir.
  assert (forall q, valid_pos q -> node (file f' di') q = node (file f di) q) as Hn.
  { intros q Hq. by apply (spared_node own f f' Hs di di'). }
  split; [|done]. apply (dir_rep_ext (file f di)); [done| |exact (eq_trans Hd Hdir)|done|done|].
  - by apply (spared_map own f f' Hs di di').
  - intros q Hq Hne. by apply (spared_peek own f f' Hs di).
Qed.

(** The blocks of a directory, and the inode [p] as a directory with the
    entries [m] none of whose blocks is in the buffer cache. *)
Definition dir_blocks (f : Filesystem) (di : DiskInode) (x : Z) : Prop :=
  exists q, valid_pos q /\ node (file f di) q <> 0 /\ node (file f di) q = x.

Record dir_at (f : Filesystem) (p : Z) (di : DiskInode) (m : entries) : Prop := {
  da_inum : valid_inum p;
  da_used : IsSet (a_inodeBM (fs_alloc f)) (p - 1) = true;
  da_entries : entries_ok (fs_inodes f);
  da_inode : inodeOf f p = Ok di;
  da_rep : dir_rep (file f di) m;
  da_cache : cache_ok (bufs f);
  da_uncached : uncached (dir_blocks f di) f;
}.

Lemma dir_rep_emit e a di m : dir_rep (a, di) m -> dir_rep (with_emit e a, di) m.
Proof. intros (bs & [D1 D2 D3 D4 D5] & H). exists bs. split; [|done]. split; [by apply state_ok_emit|done..]. Qed.

Lemma fsAddEntry_run f di m name i ft :
  dir_rep (file f di) m -> m !! name = None -> is_u32 i -> i <> 0 -> is_u8 ft ->
  SizeOf di < 12 * BlockSize -> Z.of_nat (length name) <= MaxNameLen ->
  (exists f' di', fsAddEntry di name i ft f = (Ok di', f') /\ dir_rep (file f' di') (<[name := (i, ft)]> m) /\
     dir_step (file f di) (file f' di') /\ fs_buf f' = fs_buf f /\ fs_inodes f' = fs_inodes f /\
     fs_mutating f' = fs_mutating f) \/
  exists f', fsAddEntry di name i ft f = (Err ErrNoSpace, f').
Proof.
  intros Hr Hn Hi H0 Hf Hz Hl. set (s := (with_emit (noLog (a_emit (fs_alloc f))) (fs_alloc f), di)).
  destruct (onFsInode_run di (AddEntry name i ft) f) as (f' & e & E & Ea & Eb & Ei & Em).
  destruct (AddEntry_step s m name i ft) as [(s' & ES & Hd & Hs)|ES]; [by apply dir_rep_emit|done..| |];
    rewrite -/s ES in E; cbn [fst snd] in E; rewrite -/s ES in Ea; cbn [fst snd] in Ea.
  - left. exists f', s'.2. rewrite /fsAddEntry (bind_ok _ _ _ _ _ E). split; [done|]. rewrite /file Ea.
    split; [apply dir_rep_emit; by destruct s'|]. destruct Hs. by split_and!.
  - right. exists f'. by rewrite /fsAddEntry (bind_err _ _ _ _ _ E).
Qed.

(** What the permission checks and the link count of an inode depend on. *)
Definition same_rights (di di' : DiskInode) : Prop :=
  (Mode di', UID di', GID di', Links di') = (Mode di, UID di, GID di, Links di).

(** The inode of a directory after an entry has been added. *)
Definition dir_grown (di di' : DiskInode) : Prop := same_rights di di' /\ SizeOf di' <= SizeOf di + BlockSize.

Lemma may_search di di' cred :
  same_rights di di' -> IsDir di = true -> CheckPermission di cred false true true = Ok tt -> CheckDirAccess di' cred = Ok tt.
Proof.
  intros [= HM HU HG _] Hd. rewrite /CheckDirAccess /CheckPermission /permShift /IsDir /FileType HM HU HG.
  rewrite /IsDir /FileType in Hd. rewrite Hd. cbn [negb andb]. destruct (cr_UID cred =? 0); [done|].
  destruct (Z.land _ 2 =? 0); [done|]. done.
Qed.

(** What adding an entry is to the rest of the file system. *)
Section added.
Context (f f' : Filesystem) (di di' : DiskInode).
Hypothesis (Hok : state_ok (file f di)) (Hok' : state_ok (file f' di')) (Hst : dir_step (file f di) (file f' di'))
  (Hb : fs_buf f' = fs_buf f).

Lemma added_spares : spares (dir_blocks f di) f f'.
Proof using Hok' Hst Hb.
  split; [apply Hok'|exact (ad_mono _ _ Hst)|done|]. intros x [Hx1 Hx2] Hset Hn. unfold DataStart in Hx1.
  apply (ad_peek _ _ Hst); [lia|unfold BlockBitmapAddr; lia|by right|]. intros q Hq Hne E. apply Hn. by exists q.
Qed.

Lemma added_inodes m : valid_inum m -> inode_at (f_dev f') m = inode_at (f_dev f) m.
Proof using Hok Hst.
  intros Hm. rewrite !inode_at_raw. f_equal. apply raw_at_same; [done|]. intros a Ha.
  unfold table_block, InodeTableStart, InodeTableBlocks in Ha.
  apply (ad_peek _ _ Hst); [lia|unfold BlockBitmapAddr; lia|left; unfold DataStart; lia|]. intros q Hq Hne E.
  destruct (wm_used _ (so_map _ Hok) q Hq Hne) as [[H _] _]. unfold DataStart in H. lia.
Qed.

(** A block of the directory was one before, or was free. *)
Lemma added_block x : dir_blocks f' di' x -> dir_blocks f di x \/ IsSet (a_blockBM (fs_alloc f)) x = false.
Proof using Hst.
  intros (q & Hq & Hne & <-). destruct (decide (node (file f di) q = 0)) as [E|E].
  - right. by apply (ad_fresh _ _ Hst).
  - left. exists q. split_and!; [done|done|]. symmetry. by apply (ad_old _ _ Hst).
Qed.

Lemma added_uncached : uncached (dir_blocks f di) f -> uncached (dir_blocks f' di') f'.
Proof using Hst Hb.
  intros Hu x. rewrite Hb. intros Hx. destruct (Hu x Hx) as (H1 & H2 & H3). split_and!; [done| |].
  - apply (ad_mono _ _ Hst); [destruct H1; unfold DataStart in *; lia|done].
  - intros [H|H]%added_block; [done|congruence].
Qed.

End added.

(** Reading an inode leaves all of them. *)
Lemma fsReadInode_keeps {O : MapOrder} f p di :
  alloc_ok (fs_alloc f) -> inodeOf f p = Ok di -> entries_ok (fs_inodes f) -> valid_inum p ->
  exists ic, fsReadInode p f = (Ok di, with_inodes ic f) /\ cached_within p (fs_inodes f) ic /\
    inodeOf (with_inodes ic f) p = Ok di /\ entries_ok ic /\
    forall j dj, valid_inum j -> inode_is f j dj -> inode_is (with_inodes ic f) j dj.
Proof.
  intros Ha Hi He Hv. destruct (fsReadInode_run f p di (ok_healthy _ Ha) Hi He Hv) as (ic & E & Hh & He').
  pose proof (fsReadInode_within p f di _ E) as Hw. exists ic. split_and!; [done|done|by apply inodeOf_held|done|].
  intros j dj Hj Hd. destruct (decide (j = p)) as [->|Hne]; [|by apply (inode_is_kept f (with_inodes ic f) p)].
  split; [exact (proj1 Hd)|]. intros data Hc. destruct Hh as (data' & Hc' & Hdi). assert (data' = data) as <- by (change (fs_inodes (with_inodes ic f)) with ic in Hc; congruence).
  pose proof (inode_is_inodeOf f p dj Ha Hv Hd). congruence.
Qed.

(** The head of the operations that make a name: the directory is read, may be
    changed, and is searched for the name. *)
Lemma parent_start {O : MapOrder} {A} cred f0 p di m name (K : DiskInode -> (Z * Z) + error -> M Filesystem A) :
  dir_at f0 p di m -> CheckPermission di cred false true true = Ok tt ->
  exists ic, cached_within p (fs_inodes f0) ic /\ dir_at (with_inodes ic f0) p di m /\
    (forall j dj, valid_inum j -> inode_is f0 j dj -> inode_is (with_inodes ic f0) j dj) /\
    (parentDI ← fsReadInode p;
     failIf (negb (IsDir parentDI)) ErrNotDir ;;
     checkPerm parentDI cred false true true ;;
     found ← tryM (onFsDev (LookupEntry parentDI name));
     K parentDI found) f0 =
    K di (match m !! name with Some e => inl e | None => inr ErrNotFound end) (with_inodes ic f0).
Proof.
  intros [Hv Hu He Hi Hr Hc Hun] Hperm. pose proof (dir_rep_state _ _ Hr) as Hok. pose proof (so_alloc _ Hok) as Ha.
  destruct (fsReadInode_keeps f0 p di Ha Hi He Hv) as (ic & E & Hw & Hh & He' & Hk).
  exists ic. split; [done|]. split; [by split|]. split; [done|].
  rewrite (bind_ok _ _ _ _ _ E).
  rewrite bind_failIf_false; [pose proof (dir_rep_isdir _ _ Hr) as Hd; cbn [file snd] in Hd; by rewrite Hd|].
  rewrite (bind_ok _ _ _ _ _ (checkPerm_ok di cred false true true _ Hperm)).
  rewrite {1}/mbind {1}/M_bind tryM_run onFsDev_run.
  pose proof (LookupEntry_rep (file f0 di) m name Hr) as HL. cbn [file fst snd] in HL.
  change (a_dev (fs_alloc f0)) with (f_dev (with_inodes ic f0)) in HL. rewrite HL. cbn [fst snd]. rewrite put_dev_same.
  by destruct (m !! name) as [[i ft]|].
Qed.

(** *** A name for the inode [i] is added to the directory [p] *)

Lemma wf_touch now di : is_u32 now -> wf_inode di -> wf_inode (touch now di).
Proof. intros Hn Hw. pose proof Hw as (_ & H & _). rewrite !Forall_cons in H. apply wf_times; tauto. Qed.

Lemma dir_blocks_same f f' di di' :
  (forall q, valid_pos q -> node (file f' di') q = node (file f di) q) -> forall x, dir_blocks f' di' x <-> dir_blocks f di x.
Proof.
  intros H x. split; intros (q & Hq & Hn & <-); exists q; [rewrite H // in Hn; rewrite H //|rewrite H //].
Qed.

Lemma uncached_same (own own' : Z -> Prop) f : (forall x, own' x -> own x) -> uncached own f -> uncached own' f.
Proof. intros H Hu x Hx. destruct (Hu x Hx) as (H1 & H2 & H3). split_and!; auto. Qed.

Section addName.
Context {O : MapOrder}.
Context (now p : Z) (f : Filesystem) (di : DiskInode) (m : entries) (name : list byte) (i ft : Z).
Hypothesis (Hp : valid_inum p) (Hpu : IsSet (a_inodeBM (fs_alloc f)) (p - 1) = true) (He : entries_ok (fs_inodes f))
  (Hw : wf_inode di) (Hr : dir_rep (file f di) m) (Hc : cache_ok (bufs f)) (Hu : uncached (dir_blocks f di) f)
  (Hm : fs_mutating f = true) (Hnow : is_u32 now) (Hname : m !! name = None) (Hi : is_u32 i) (Hi0 : i <> 0)
  (Hft : is_u8 ft) (Hsize : SizeOf di < 12 * BlockSize) (Hlen : Z.of_nat (length name) <= MaxNameLen).

Lemma addName_run :
  (exists f4 di4 f', fsAddEntry di name i ft f = (Ok di4, f4) /\ WriteInodeFS now p (touch now di4) f4 = (Ok tt, f') /\
     spares (dir_blocks f di) f f' /\
     (exists di', dir_at f' p di' (<[name := (i, ft)]> m) /\ inode_is f' p di' /\ dir_grown di di') /\ cached_within p (fs_inodes f) (fs_inodes f') /\
     (forall j, valid_inum j -> j <> p -> inode_at (f_dev f') j = inode_at (f_dev f) j) /\
     a_inodeBM (fs_alloc f') = a_inodeBM (fs_alloc f) /\ fs_mutating f' = true) \/
  exists f', fsAddEntry di name i ft f = (Err ErrNoSpace, f').
Proof using All.
  pose proof (dir_rep_state _ _ Hr) as Hok. destruct (fsAddEntry_run f di m name i ft) as
    [(f4 & di4 & E4 & R4 & ST & B4 & I4 & M4)|(f4 & E4)]; [done..|left|right; by exists f4].
  pose proof (dir_rep_state _ _ R4) as Hok4. set (di5 := touch now di4).
  destruct (WriteInodeFS_run now f4 p di5 (so_alloc _ Hok4)) as
    (f5 & E5 & S5 & He5 & H5 & _ & W5 & D5 & M5 & B5); [by rewrite I4|by apply wf_touch, (ad_wf _ _ ST)|done|by rewrite M4|].
  pose proof (added_spares f f4 di di4 Hok4 ST B4) as S4. pose proof (added_uncached f f4 di di4 ST B4 Hu) as U4.
  assert (spares (dir_blocks f4 di4) f4 f5) as S5' by exact (spares_weaken _ _ _ _ (fun _ => False_ind _) S5).
  assert (spares (dir_blocks f di) f f5) as S by exact (spares_trans _ _ _ _ S4 (spares_weaken _ _ _ _ (fun _ => False_ind _) S5)).
  destruct (dir_rep_spared (fun _ => False) f4 f5 di4 di5 _ S5 R4) as [R5 N5]; [by split|done|done|by intros|].
  exists f4, di4, f5. split_and!; [done|done|done| | | | |done].
  - exists di5. split; [|split; [done|exact (conj (ad_stat _ _ ST) (ad_size _ _ ST))]]. split; try done.
    + by rewrite B5 (ad_imap _ _ ST).
    + by apply inode_is_inodeOf; [apply S5|..].
    + by apply (spared_cache _ _ _ S).
    + apply (uncached_same (dir_blocks f4 di4)); [by intros x ?%(dir_blocks_same f4 f5 di4 di5 N5)|]. exact (spared_uncached _ _ _ S5' U4).
  - intros j x Hj Hx. rewrite -I4. by apply W5.
  - intros j Hj Hne. rewrite D5 //. exact (added_inodes f f4 di di4 Hok ST j Hj).
  - rewrite B5. exact (ad_imap _ _ ST).
Qed.

End addName.

(** What is neither the inode [i] nor the directory [p], which is [di], is what
    it was. *)
Record others_kept (f : Filesystem) (p i : Z) (di : DiskInode) (f' : Filesystem) : Prop := {
  ok_inodes : forall j dj, valid_inum j -> j <> i -> j <> p -> inode_is f j dj -> inode_is f' j dj;
  ok_files : forall d, file_ok f d -> apart f di d -> file_ok f' d /\ forall o, 0 <= o -> fileByte f' d o = fileByte f d o;
  ok_dirs : forall d m, dir_rep (file f d) m -> apart f di d -> dir_rep (file f' d) m;
}.

Lemma others_spared f p i di f' :
  spares (dir_blocks f di) f f' -> uncached (dir_blocks f di) f ->
  (forall j dj, valid_inum j -> j <> i -> j <> p -> inode_is f j dj -> inode_is f' j dj) -> others_kept f p i di f'.
Proof.
  intros S Hu Hj.
  assert (forall d, apart f di d -> forall q, valid_pos q -> node (file f d) q <> 0 -> ~ dir_blocks f di (node (file f d) q)) as Hap.
  { intros d Hap q Hq _ (q' & Hq' & Hn & Eq). exact (Hap q' q Hq' Hq Hn Eq). }
  split; [done| |].
  - intros d Hd Ha. split; [exact (spared_file _ _ _ _ S Hu Hd (Hap d Ha))|exact (spared_bytes _ _ _ _ S Hu Hd (Hap d Ha))].
  - intros d m Hd Ha. by apply (dir_rep_spared _ f f' d d m S Hd); [..|exact (Hap d Ha)].
Qed.

(** ** [Create] *)

(** The file [i] with the inode [newDI] and no content has come to be, under
    [name] in the directory [p] with the entries [m]. *)
Record created (f : Filesystem) (p : Z) (di : DiskInode) (m : entries) (name : list byte) (i : Z) (newDI : DiskInode)
    (f' : Filesystem) : Prop := {
  cr_free : valid_inum i /\ IsSet (a_inodeBM (fs_alloc f)) (i - 1) = false;
  cr_taken : forall x, 0 <= x ->
    IsSet (a_inodeBM (fs_alloc f')) x = if decide (x = i - 1) then true else IsSet (a_inodeBM (fs_alloc f)) x;
  cr_dir : exists di', dir_at f' p di' (<[name := (i, FT_REG_FILE)]> m) /\ inode_is f' p di' /\ dir_grown di di';
  cr_file : file_at f' i newDI /\ inode_is f' i newDI;
  cr_others : others_kept f p i di f';
  cr_mutating : fs_mutating f' = true;
}.

Lemma node_newInode f mode cred now q : valid_pos q -> node (file f (newInodeOf mode cred 1 0 now)) q = 0.
Proof.
  intros [i Hi|r l Hr _ _].
  - cbn [node file snd newInodeOf Direct]. apply lookup_total_replicate_2. lia.
  - rewrite node_tree; [lia|]. destruct r as [|[|[|[|r]]]]; [lia|apply walk_zero..|lia].
Qed.

Lemma wf_newInode mode cred now : is_u32 now -> wf_inode (newInodeOf (u16 mode) cred 1 0 now).
Proof.
  intros Hn. pose proof (u16_range mode). pose proof (u16_range (cr_UID cred)). pose proof (u16_range (cr_GID cred)).
  split; [rewrite /= !Forall_cons; unfold is_u16; split_and!; (lia || by constructor)|].
  split; [rewrite /= !Forall_cons; unfold is_u32 in *; split_and!; (lia || by constructor)|].
  split; [done|]. by apply Forall_replicate.
Qed.

(** A file without blocks. *)
Lemma empty_file f di :
  alloc_ok (fs_alloc f) -> cache_ok (bufs f) -> uncached (fun _ => False) f -> length (Direct di) = 12%nat ->
  (forall q, valid_pos q -> node (file f di) q = 0) -> file_ok f di.
Proof.
  intros Ha Hc Hu Hl Hz. split; [split; [done|split; [done|..]]|done|].
  - intros q Hq Hn. by rewrite Hz in Hn.
  - intros q q' Hq _ Hn. by rewrite Hz in Hn.
  - intros x Hx. destruct (Hu x Hx) as (H1 & H2 & _). split_and!; [done|done|]. intros q [Hq _]. rewrite Hz //.
    destruct H1. unfold DataStart in *. lia.
Qed.

Section create.
Context {O : MapOrder}.
Context (now : Z) (cred : Credential) (path : list byte) (mode : Z) (f f0 : Filesystem) (p : Z) (name : list byte)
  (di : DiskInode) (m : entries).
Hypothesis (Hres : ResolveSplit cred path f = (Ok (p, name), f0)) (Hname : name <> [])
  (Hlen : Z.of_nat (length name) <= MaxNameLen) (Hat : dir_at f0 p di m) (Hidle : idle (bufs f0))
  (Hmut : fs_mutating f0 = true) (Hperm : CheckPermission di cred false true true = Ok tt) (Hnow : is_u32 now).

Abbreviation newDI := (newInodeOf (u16 (Z.lor S_IFREG (Z.land mode 0x1FF))) cred 1 0 now).

(** The operation up to the lookup of the name. *)
Lemma create_start :
  exists ic, cached_within p (fs_inodes f0) ic /\ dir_at (with_inodes ic f0) p di m /\
    (forall j dj, valid_inum j -> inode_is f0 j dj -> inode_is (with_inodes ic f0) j dj) /\
    createBody now cred path mode f =
      (match m !! name with
       | Some (i, _) =>
           existDI ← fsReadInode i;
           failIf (IsDir existDI) ErrIsDir ;;
           mret i
       | None =>
           newInum ← onFsAlloc AllocInode;
           WriteInodeFS now newInum newDI ;;
           parentDI ← fsAddEntry di name newInum FT_REG_FILE;
           WriteInodeFS now p (touch now parentDI) ;;
           mret newInum
       end) (with_inodes ic f0).
Proof.
  destruct (parent_start cred f0 p di m name (fun parentDI found =>
    match found with
    | inl (existInum, _) => existDI ← fsReadInode existInum; failIf (IsDir existDI) ErrIsDir ;; mret existInum
    | inr _ =>
        newInum ← onFsAlloc AllocInode;
        WriteInodeFS now newInum newDI ;;
        parentDI ← fsAddEntry parentDI name newInum FT_REG_FILE;
        WriteInodeFS now p (touch now parentDI) ;;
        mret newInum
    end) Hat Hperm) as (ic & Hw & Hd & Hk & E).
  exists ic. split_and!; [done|done|done|]. rewrite /createBody (bind_ok _ _ _ _ _ Hres) bind_failIf_false ?bool_decide_false //. rewrite E.
  by destruct (m !! name) as [[i ft]|].
Qed.

Hypothesis (Hsize : SizeOf di < 12 * BlockSize).

(** The directory while the new inode is made. *)
Lemma create_inode f1 :
  spares (fun _ => False) f0 f1 -> fs_alloc f1 = fs_alloc f0 -> entries_ok (fs_inodes f1) -> fs_mutating f1 = true ->
  (exists i f2 f3, onFsAlloc AllocInode f1 = (Ok i, f2) /\ WriteInodeFS now i newDI f2 = (Ok tt, f3) /\ valid_inum i /\
     IsSet (a_inodeBM (fs_alloc f0)) (i - 1) = false /\
     (forall x, 0 <= x -> IsSet (a_inodeBM (fs_alloc f3)) x = if decide (x = i - 1) then true else IsSet (a_inodeBM (fs_alloc f0)) x) /\
     spares (fun _ => False) f0 f3 /\ entries_ok (fs_inodes f3) /\ inode_is f3 i newDI /\
     cached_within i (fs_inodes f1) (fs_inodes f3) /\ fs_mutating f3 = true /\
     forall j, valid_inum j -> j <> i -> inode_at (f_dev f3) j = inode_at (f_dev f0) j) \/
  exists f2, onFsAlloc AllocInode f1 = (Err ErrNoSpace, f2).
Proof.
  intros S1 EA He1 Hm1. destruct (AllocInode_run f1 (sp_alloc _ _ _ S1)) as
    [(i & f2 & E2 & Hv & Hfree & Hbits & S2 & I2 & M2 & D2)|?]; [left|by right].
  destruct (WriteInodeFS_run now f2 i newDI (sp_alloc _ _ _ S2)) as
    (f3 & E3 & S3 & He3 & H3 & _ & W3 & D3 & M3 & B3); [by rewrite I2|by apply wf_newInode|done|by rewrite M2|].
  exists i, f2, f3. rewrite EA in Hfree Hbits. rewrite I2 in W3. split_and!; try done.
  - intros x Hx. rewrite B3. by apply Hbits.
  - by eapply spares_trans, S3; eapply spares_trans, S2.
  - intros j Hj Hne. rewrite D3 // D2 //. rewrite /f_dev EA //.
Qed.

(** The name is new. *)
Lemma create_missing :
  m !! name = None ->
  (exists i f', createBody now cred path mode f = (Ok i, f') /\ created f0 p di m name i newDI f') \/
  exists f', createBody now cred path mode f = (Err ErrNoSpace, f').
Proof.
  intros Hnew. destruct create_start as (ic & W1 & Hd1 & _ & E). rewrite Hnew in E.
  destruct Hat as [Hv Hu He Hi Hr Hc Hun]. pose proof (dir_rep_state _ _ Hr) as Hok.
  set (f1 := with_inodes ic f0) in *. pose proof (eq_refl : fs_alloc f1 = fs_alloc f0) as EA.
  destruct (create_inode f1 ltac:(by split; [apply Hok|..]) EA (da_entries _ _ _ _ Hd1) Hmut) as
    [(i & f2 & f3 & E2 & E3 & Hvi & Hfree & Hbits & S3 & He3 & H3 & W3 & M3 & D3)|(f2 & E2)];
    [|right; exists f2; by rewrite E (bind_err _ _ _ _ _ E2)].
  assert (i <> p) as Hip by (intros ->; congruence).
  destruct (dir_rep_spared (fun _ => False) f0 f3 di di m S3 Hr) as [R3 N3]; [by split|done|done|by intros|].
  pose proof (dir_blocks_same f0 f3 di di N3) as HB.
  pose proof (spared_cache _ _ _ S3 (uncached_same _ _ _ (fun _ => False_ind _) Hun) Hc) as Hc3.
  pose proof (spared_uncached _ _ _ (spares_weaken _ (dir_blocks f0 di) _ _ (fun _ => False_ind _) S3) Hun) as Hu3.
  destruct (addName_run now p f3 di m name i FT_REG_FILE) as
    [(f4 & di4 & f5 & E4 & E5 & S5 & Hd5 & W5 & D5 & B5 & M5)|(f4 & E4)]; try done.
  { rewrite Hbits; [unfold valid_inum in Hv; lia|]. by case_decide. }
  { exact (inodeOf_wf _ _ _ (ok_healthy _ (so_alloc _ Hok)) Hi). }
  { apply (uncached_same (dir_blocks f0 di)); [by intros x ?%HB|done]. }
  { unfold valid_inum, InodeCount in Hvi. unfold is_u32. lia. }
  { unfold valid_inum in Hvi. lia. }
  2: { right. exists f4. by rewrite E (bind_ok _ _ _ _ _ E2) (bind_ok _ _ _ _ _ E3) (bind_err _ _ _ _ _ E4). }
  assert (spares (dir_blocks f0 di) f0 f5) as S.
  { eapply spares_trans; [exact (spares_weaken _ _ _ _ (fun _ => False_ind _) S3)|].
    eapply spares_weaken, S5. by intros x ?%HB. }
  left. exists i, f5. split.
  { by rewrite E (bind_ok _ _ _ _ _ E2) (bind_ok _ _ _ _ _ E3) (bind_ok _ _ _ _ _ E4) (bind_ok _ _ _ _ _ E5). }
  assert (inode_is f5 i newDI) as H5.
  { apply (inode_is_kept f3 f5 p); [done|done|by apply D5|done]. }
  split; [done| |exact Hd5| | |done].
  - intros x Hx. rewrite B5. by apply Hbits.
  - split; [|done]. split; [done| | | |].
    + by destruct Hd5 as (di' & [] & _).
    + apply inode_is_inodeOf; [apply S|done|done].
    + apply empty_file; [apply S|exact (spared_cache _ _ _ S Hun Hc)| |done|by intros q; apply node_newInode].
      apply (uncached_same (dir_blocks f0 di)); [done|]. exact (spared_uncached _ _ _ S Hun).
    + rewrite /idle /bufs (sp_buf _ _ _ S). exact Hidle.
  - apply others_spared; [done|done|]. intros j dj Hj Hji Hjp Hx. apply (inode_is_kept f3 f5 p); [done|done|by apply D5|].
    apply (inode_is_kept f1 f3 i); [done|done|by rewrite D3 // /f_dev EA|].
    apply (inode_is_kept f0 f1 p); [done|done|by rewrite /f_dev EA|done].
Qed.

(** The name is that of an inode. *)
Lemma create_existing i ft d :
  m !! name = Some (i, ft) -> valid_inum i -> inode_is f0 i d ->
  exists f', createBody now cred path mode f = (if IsDir d then Err ErrIsDir else Ok i, f') /\ fs_alloc f' = fs_alloc f0.
Proof.
  intros Hold Hvi Hid. destruct create_start as (ic & _ & Hd1 & Hk & E). rewrite Hold in E.
  pose proof (so_alloc _ (dir_rep_state _ _ (da_rep _ _ _ _ Hat))) as Ha.
  pose proof (inode_is_inodeOf (with_inodes ic f0) i d Ha Hvi (Hk i d Hvi Hid)) as Hi.
  destruct (fsReadInode_run (with_inodes ic f0) i d (ok_healthy _ Ha) Hi (da_entries _ _ _ _ Hd1) Hvi) as (ic' & E1 & _).
  eexists. rewrite E (bind_ok _ _ _ _ _ E1). by destruct (IsDir d).
Qed.

End create.

Lemma ResolveSplit_name {O : MapOrder} cred path f p name f0 :
  ResolveSplit cred path f = (Ok (p, name), f0) -> Z.of_nat (length name) <= MaxNameLen.
Proof.
  rewrite /ResolveSplit. intros ([] & f1 & _ & E)%bind_ok_inv. case_bool_decide; [injection E as _ <- _; done|].
  destruct (match lastSlash _ with None => _ | Some _ => _ end) as [dir base].
  apply bind_ok_inv in E as ([] & f2 & _ & E). apply bind_ok_inv in E as ([] & f3 & E3 & E).
  destruct (MaxNameLen <? Z.of_nat (length base)) eqn:Hl; [discriminate E3|]. apply Z.ltb_ge in Hl. destruct (bool_decide _ || _); [by injection E as _ <- _|].
  apply bind_ok_inv in E as ([p' x] & f4 & _ & E). by injection E as _ <- _.
Qed.


(** ** Names are found *)

Lemma trimRight_component name : component name -> trimRight name = name.
Proof.
  rewrite /component /trimRight => Hc. assert (slash ∉ rev name) as Hr by by rewrite list_elem_of_In -in_rev -list_elem_of_In.
  destruct (rev name) as [|c s] eqn:E; [by rewrite -(rev_involutive name) E|]. apply not_elem_of_cons in Hr as [Hr _].
  cbn [trimLeft]. rewrite bool_decide_false; [congruence|]. by rewrite -E rev_involutive.
Qed.

Lemma lastSlash_component name : component name -> lastSlash name = None.
Proof.
  rewrite /component. induction name as [|c s IH]; [done|]. intros [Hc Hs]%not_elem_of_cons. cbn.
  rewrite IH // bool_decide_false //. congruence.
Qed.

Lemma startsSlash_component name : component name -> startsSlash name = false.
Proof.
  rewrite /component /startsSlash => Hc. apply bool_decide_false. destruct name as [|c s]; [done|]. intros [= ->].
  apply Hc. by left.
Qed.

Lemma ResolveSplit_component {O : MapOrder} cred name f :
  component name -> name <> [] -> Z.of_nat (length name) <= MaxNameLen ->
  ResolveSplit cred name f = (Ok (cwdOf cred, name), f).
Proof.
  intros Hc Hn Hl. assert (name <> [slash]) as Hs by (intros ->; apply Hc; by left).
  rewrite /ResolveSplit bind_failIf_false; [by apply bool_decide_false|]. rewrite bool_decide_false // trimRight_component //.
  rewrite lastSlash_component //. cbn iota beta zeta.
  rewrite bind_failIf_false; [by apply bool_decide_false|]. rewrite bind_failIf_false; [apply Z.ltb_ge; lia|].
  by rewrite startsSlash_component.
Qed.

(** A name of the current directory leads to its inode. *)
Lemma Resolve_name {O : MapOrder} cred f p di m name i ft d :
  dir_at f p di m -> cwdOf cred = p -> CheckDirAccess di cred = Ok tt -> component name -> name <> [] -> name <> dot ->
  m !! name = Some (i, ft) -> valid_inum i -> inode_is f i d -> IsSymlink d = false ->
  exists ic, Resolve cred name f = (Ok i, with_inodes ic f) /\ entries_ok ic /\
    forall j dj, valid_inum j -> inode_is f j dj -> inode_is (with_inodes ic f) j dj.
Proof.
  intros Hat Hp Hx Hc Hne Hdot Hm Hv Hd Hl. destruct Hat as [Hvp _ He Hi Hr _ _].
  pose proof (so_alloc _ (dir_rep_state _ _ Hr)) as Ha.
  destruct (fsReadInode_keeps f p di Ha Hi He Hvp) as (ic & E & _ & _ & He1 & Hk1).
  pose proof (inode_is_inodeOf (with_inodes ic f) i d Ha Hv (Hk1 i d Hv Hd)) as Hi1.
  destruct (fsReadInode_keeps (with_inodes ic f) i d Ha Hi1 He1 Hv) as (ic2 & E2 & _ & Hi2 & He2 & Hk2).
  destruct (fsReadInode_keeps (with_inodes ic2 f) i d Ha Hi2 He2 Hv) as (ic3 & E3 & _ & _ & He3 & Hk3).
  exists ic3. split; [|split; [done|by intros j dj Hj Hd'; apply Hk3, Hk2, Hk1]]. rewrite /Resolve /resolve. change (Z.to_nat (maxSymlinkDepth + 1)) with 41%nat. cbn [resolveFrom].
  rewrite bool_decide_false // startsSlash_component // bool_decide_false // split_component // Hp. cbn [walkParts].
  rewrite (bool_decide_false (name = [])) // (bool_decide_false (name = dot)) //. cbn [orb].
  assert (IsDir di = true) as Hdir by exact (dir_rep_isdir _ _ Hr).
  assert (onFsDev (LookupEntry di name) (with_inodes ic f) = (Ok (i, ft), with_inodes ic f)) as EL.
  { rewrite onFsDev_run. pose proof (LookupEntry_rep (file f di) m name Hr) as HL. rewrite Hm in HL.
    change (f_dev (with_inodes ic f)) with (a_dev (file f di).1). cbn [file snd] in HL. rewrite HL.
    exact (f_equal (pair _) (put_dev_same (with_inodes ic f))). }
  rewrite (bind_ok _ _ _ (i, d) (with_inodes ic3 f)); [|done].
  rewrite (bind_ok _ _ _ _ _ E) bind_failIf_false; [by rewrite Hdir|]. rewrite Hx (bind_ok _ _ _ tt (with_inodes ic f)) //.
  rewrite (bind_ok _ _ _ _ _ EL). rewrite (bind_ok _ _ _ _ _ E2) Hl. cbn [andb walkParts].
  by rewrite (bind_ok _ _ _ _ _ E3).
Qed.

Lemma Resolve_finds {O : MapOrder} cred f p di m name i ft d :
  dir_at f p di m -> cwdOf cred = p -> CheckDirAccess di cred = Ok tt -> component name -> name <> [] -> name <> dot ->
  m !! name = Some (i, ft) -> valid_inum i -> inode_is f i d -> IsSymlink d = false ->
  exists ic, Resolve cred name f = (Ok i, with_inodes ic f).
Proof.
  intros H1 H2 H3 H4 H5 H6 H7 H8 H9 H10.
  destruct (Resolve_name cred f p di m name i ft d H1 H2 H3 H4 H5 H6 H7 H8 H9 H10) as (ic & E & _). by exists ic.
Qed.

Lemma newFile_regular mode : FileType (newInodeOf (u16 (Z.lor S_IFREG (Z.land mode 0x1FF))) RootCredential 1 0 0) = S_IFREG.
Proof.
  rewrite /FileType. cbn [Mode newInodeOf]. change 0x1FF with (Z.ones 9). rewrite Z.land_ones; [done|].
  pose proof (Z.mod_pos_bound mode (2 ^ 9) ltac:(done)) as Hb. set (x := mode mod 2 ^ 9) in *.
  assert (forallb (fun x => Z.land (u16 (Z.lor S_IFREG x)) S_IFMT =? S_IFREG) (seqZ 0 512) = true) as Hall by (vm_compute; reflexivity).
  rewrite forallb_forall in Hall. apply Z.eqb_eq, Hall, list_elem_of_In, elem_of_seqZ. lia.
Qed.

(** C11: a file that [Create] makes under a name of the current directory is
    found there, by that name; and the names that were there lead where they
    led. *)
Theorem Create_then_Resolve {O : MapOrder} now cred name mode f di m :
  component name -> name <> [] -> name <> dot -> Z.of_nat (length name) <= MaxNameLen ->
  dir_at f (cwdOf cred) di m -> m !! name = None -> idle (bufs f) -> fs_mutating f = true ->
  CheckPermission di cred false true true = Ok tt -> is_u32 now -> SizeOf di < 12 * BlockSize ->
  match createBody now cred name mode f with
  | (Ok i, f1) =>
      IsSet (a_inodeBM (fs_alloc f)) (i - 1) = false /\
      (exists ic, Resolve cred name f1 = (Ok i, with_inodes ic f1)) /\
      forall other j ft d, component other -> other <> [] -> other <> dot -> m !! other = Some (j, ft) -> j <> cwdOf cred ->
        valid_inum j -> IsSet (a_inodeBM (fs_alloc f)) (j - 1) = true -> inode_is f j d -> IsSymlink d = false ->
        exists ic, Resolve cred other f1 = (Ok j, with_inodes ic f1)
  | (Err e, _) => e = ErrNoSpace
  | (Panic, _) => False
  end.
Proof.
  intros Hc Hne Hdot Hlen Hat Hnew Hidle Hmut Hperm Hnow Hsize.
  pose proof (ResolveSplit_component cred name f Hc Hne Hlen) as Hres.
  destruct (create_missing now cred name mode f f (cwdOf cred) name di m) as
    [(i & f1 & -> & [[Hvi Hfree] _ (di' & Hd & _ & Hr & _) [_ Hi] [Hj _ _] _])|[f1 ->]]; [done..| |done].
  pose proof (may_search di di' cred Hr (dir_rep_isdir _ _ (da_rep _ _ _ _ Hat)) Hperm) as Hx.
  split_and!; [done| |].
  - apply (Resolve_finds cred f1 (cwdOf cred) di' (<[name := (i, FT_REG_FILE)]> m) name i FT_REG_FILE
      (newInodeOf (u16 (Z.lor S_IFREG (Z.land mode 0x1FF))) cred 1 0 now)); try done; [by rewrite lookup_insert_eq|].
    rewrite /IsSymlink. pose proof (newFile_regular mode) as E. rewrite /FileType in E |- *. cbn [Mode newInodeOf] in *. by rewrite E.
  - intros other j ft d Ho Hon Hod Hm Hjp Hvj Hset Hjd Hl.
    assert (j <> i) as Hji by (intros ->; congruence).
    apply (Resolve_finds cred f1 (cwdOf cred) di' (<[name := (i, FT_REG_FILE)]> m) other j ft d); try done; [|by apply Hj].
    rewrite lookup_insert_ne //. congruence.
Qed.

(** ** Witness *)

(** The root directory, empty, on an empty disk. *)
Definition demoRoot : DiskInode := mkInode (S_IFDIR + 493) 0 0 0 0 0 0 0 2 0 0 (replicate 12 0) 0 0 0 0 0.
Definition demoRootFs : Filesystem := with_alloc (tookI 0 demoAlloc) (demoFile true demoRoot).

Lemma wf_demoRoot : wf_inode demoRoot.
Proof. rewrite /wf_inode. split_and!; try done; repeat (constructor; [done|]); constructor. Qed.

Lemma demoRoot_at : dir_at demoRootFs 1 demoRoot ∅.
Proof.
  assert (no_blocks demoRoot) as Hz by (split; [done|]; by intros [|[|[|[|r]]]]).
  assert (alloc_ok (tookI 0 demoAlloc)) as Ha.
  { destruct demoAlloc_ok as [H1 H2 H3 H4]. split; [by apply tookI_inv|done|done|done]. }
  split; [done| | | | | |].
  - change (IsSet (a_inodeBM (tookI 0 demoAlloc)) 0 = true). by rewrite IsSet_tookI; [apply demoAlloc_ok|..].
  - intros k e. rewrite demoFile_cache lookup_insert_Some. intros [[<- <-]|[_ H]]; [|done].
    split_and!; [done|apply length_stored, wf_demoRoot|done].
  - apply inodeOf_held. exists (encodeInode demoRoot zeroInodeData). split.
    { by rewrite /cached demoFile_cache lookup_insert_eq. }
    by rewrite decode_encode_inode; [apply wf_demoRoot|rewrite /zeroInodeData /zeros length_replicate|].
  - exists []. split; [split; [split; [exact Ha|split; [done|..]]|done|done|..]|by split; [constructor|]].
    + intros q Hq Hn. by rewrite no_blocks_node in Hn.
    + intros p q Hp _ Hn. by rewrite no_blocks_node in Hn.
    + intros lb sl Hl. by rewrite lookup_nil in Hl.
    + intros lb q _ Hq. apply no_blocks_node; [done|]. exact (proj1 (leafpos_leaf (Z.of_nat lb) q ltac:(lia) Hq)).
  - split; [exact demoDisk_wf|done|done|done|done].
  - intros x [e He]. done.
Qed.


Lemma component_byte c : c <> slash -> component [c].
Proof. intros Hc. apply not_elem_of_cons. split; [congruence|apply not_elem_of_nil]. Qed.

Lemma Create_then_Resolve_witness :
  match createBody (O := inOrder) 7 RootCredential (str "a") 420 demoRootFs with
  | (Ok i, f1) => exists ic, Resolve (O := inOrder) RootCredential (str "a") f1 = (Ok i, with_inodes ic f1)
  | (Err e, _) => e = ErrNoSpace
  | (Panic, _) => False
  end.
Proof.
  pose proof (Create_then_Resolve (O := inOrder) 7 RootCredential (str "a") 420 demoRootFs demoRoot ∅) as H.
  destruct (createBody _ _ _ _ _) as [[i|e|] f1]; apply H; try done; try exact demoRoot_at; by apply component_byte.
Defined.
