(* ===== verification/Links.v ===== *)
(** * Links: files get more names

    What [Link] does to the file system as a whole: the directory of the new
    name has one entry more, the inode of the file one link more, and the
    content of the file, with the other inodes, files and directories, is what
    it was. *)

From S2P Require Export Names.

Lemma dir_at_kept f f' p di m :
  dir_at f p di m -> spares (fun _ => False) f f' -> entries_ok (fs_inodes f') ->
  a_inodeBM (fs_alloc f') = a_inodeBM (fs_alloc f) -> inodeOf f' p = Ok di -> dir_at f' p di m.
Proof.
  intros [Hv Hu _ _ Hr Hc Hun] S He HB Hi.
  destruct (dir_rep_spared (fun _ => False) f f' di di m S Hr) as [Hr' Hn]; [by split|done|done|by intros|].
  pose proof (spares_weaken _ (dir_blocks f di) _ _ (fun _ => False_ind _) S) as S'.
  split; [done|by rewrite HB|done|done|done|exact (spared_cache _ _ _ S' Hun Hc)|].
  apply (uncached_same (dir_blocks f di)); [by intros x ?%(dir_blocks_same f f' di di Hn)|]. exact (spared_uncached _ _ _ S' Hun).
Qed.

Lemma inodeFileType_u8 di : is_u8 (inodeFileType di).
Proof. rewrite /inodeFileType. by repeat case_match. Qed.

(** The inode [t] of the file [td] has one link more, [name] in the directory
    [p] with the entries [m]. *)
Record linked (now : Z) (f : Filesystem) (p : Z) (di : DiskInode) (m : entries) (name : list byte) (t : Z) (td : DiskInode)
    (f' : Filesystem) : Prop := {
  ln_map : a_inodeBM (fs_alloc f') = a_inodeBM (fs_alloc f);
  ln_dir : exists di', dir_at f' p di' (<[name := (t, inodeFileType td)]> m) /\ inode_is f' p di' /\ dir_grown di di';
  ln_file : file_at f' t (changed now (incLinks td)) /\ inode_is f' t (changed now (incLinks td));
  ln_bytes : forall o, 0 <= o -> fileByte f' (changed now (incLinks td)) o = fileByte f td o;
  ln_others : others_kept f p t di f';
}.

Lemma wf_linked now di : is_u32 now -> wf_inode di -> wf_inode (changed now (incLinks di)).
Proof.
  intros Hn (H1 & H2 & H3 & H4). pose proof (u16_range (Links di + 1)).
  rewrite !Forall_cons in H2. apply wf_times; [tauto|done|tauto|]. split; [|split; [|done]].
  - rewrite !Forall_cons in H1. rewrite /= !Forall_cons. unfold is_u16 in *. tauto.
  - rewrite /= !Forall_cons. tauto.
Qed.

Section link.
Context {O : MapOrder}.
Context (now : Z) (cred : Credential) (oldpath newpath : list byte) (f fa fb f0 : Filesystem) (t p : Z) (td : DiskInode)
  (name : list byte) (di : DiskInode) (m : entries).
Hypothesis (Hold : Resolve cred oldpath f = (Ok t, fa)) (Hread : fsReadInode t fa = (Ok td, fb)) (Htd : IsDir td = false)
  (Hres : ResolveSplit cred newpath fb = (Ok (p, name), f0)) (Hname : name <> []) (Hat : dir_at f0 p di m)
  (Htf : file_at f0 t td) (Hap : apart f0 di td) (Hmut : fs_mutating f0 = true)
  (Hperm : CheckPermission di cred false true true = Ok tt) (Hnow : is_u32 now) (Hsize : SizeOf di < 12 * BlockSize).

Lemma link_start :
  exists ic, cached_within p (fs_inodes f0) ic /\ dir_at (with_inodes ic f0) p di m /\
    linkBody now cred oldpath newpath f =
      (match m !! name with
       | Some _ => throw ErrExists
       | None =>
           parentDI ← fsAddEntry di name t (inodeFileType td);
           WriteInodeFS now p (touch now parentDI) ;;
           WriteInodeFS now t (changed now (incLinks td))
       end) (with_inodes ic f0).
Proof using Hold Hread Htd Hres Hname Hat Hperm.
  destruct (parent_start cred f0 p di m name (fun parentDI found =>
    match found with
    | inl _ => throw ErrExists
    | inr _ =>
        parentDI ← fsAddEntry parentDI name t (inodeFileType td);
        WriteInodeFS now p (touch now parentDI) ;;
        WriteInodeFS now t (changed now (incLinks td))
    end) Hat Hperm) as (ic & Hw & Hd & _ & E).
  exists ic. split_and!; [done|done|].
  rewrite /linkBody (bind_ok _ _ _ _ _ Hold) (bind_ok _ _ _ _ _ Hread) bind_failIf_false // (bind_ok _ _ _ _ _ Hres).
  rewrite bind_failIf_false ?bool_decide_false // E. by destruct (m !! name).
Qed.

Lemma link_new :
  m !! name = None -> Z.of_nat (length name) <= MaxNameLen ->
  (exists f', linkBody now cred oldpath newpath f = (Ok tt, f') /\ linked now f0 p di m name t td f') \/
  exists f', linkBody now cred oldpath newpath f = (Err ErrNoSpace, f').
Proof.
  intros Hnew Hlen. destruct link_start as (ic & Hw & [Hv Hu He Hi Hr Hc Hun] & E). rewrite Hnew in E.
  set (f1 := with_inodes ic f0) in *. pose proof (so_alloc _ (dir_rep_state _ _ Hr)) as Ha.
  pose proof (fa_inum _ _ _ Htf) as Hvt. assert (t <> p) as Htp.
  { intros ->. pose proof (fa_inode _ _ _ Htf) as E1. rewrite (da_inode _ _ _ _ Hat) in E1. injection E1 as ->.
    pose proof (dir_rep_isdir _ _ Hr) as H. cbn [file snd] in H. congruence. }
  destruct (addName_run now p f1 di m name t (inodeFileType td)) as
    [(f4 & di4 & f5 & E4 & E5 & S5 & (di5 & Hd5 & H5 & Hrt) & W5 & D5 & B5 & M5)|(f4 & E4)]; try done.
  { exact (inodeOf_wf _ _ _ (ok_healthy _ Ha) Hi). }
  { unfold valid_inum, InodeCount in Hvt. unfold is_u32. lia. }
  { unfold valid_inum in Hvt. lia. }
  { apply inodeFileType_u8. }
  2: { right. exists f4. by rewrite E (bind_err _ _ _ _ _ E4). }
  pose proof (inodeOf_wf _ _ _ (fa_healthy _ _ _ Htf) (fa_inode _ _ _ Htf)) as Hwt.
  destruct (WriteInodeFS_run now f5 t (changed now (incLinks td)) (sp_alloc _ _ _ S5) (da_entries _ _ _ _ Hd5)
    (wf_linked now td Hnow Hwt) Hvt M5) as (f6 & E6 & S6 & He6 & H6 & _ & W6 & D6 & _ & B6).
  left. exists f6. split; [by rewrite E (bind_ok _ _ _ _ _ E4) (bind_ok _ _ _ _ _ E5)|].
  assert (spares (dir_blocks f0 di) f0 f6) as S.
  { apply (spares_trans _ f0 f1); [by split|]. exact (spares_trans _ _ _ _ S5 (spares_weaken _ _ _ _ (fun _ => False_ind _) S6)). }
  assert (inode_is f6 p di5) as H6p by (apply (inode_is_kept f5 f6 t); [done|by apply not_eq_sym|by apply D6, not_eq_sym|done]).
  assert (others_kept f0 p t di f6) as Hoth.
  { apply others_spared; [done|done|]. intros j dj Hj Hjt Hjp Hx.
    apply (inode_is_kept f5 f6 t); [done|done|by apply D6|]. apply (inode_is_kept f1 f5 p); [done|done|by apply D5|].
    by apply (inode_is_kept f0 f1 p). }
  destruct (ok_files _ _ _ _ _ Hoth td (fa_ok _ _ _ Htf) Hap) as [Hok Hby].
  assert (same_pointers td (changed now (incLinks td))) as Hp by by split; [|intros [|[|[|[|r]]]]].
  pose proof (reflexivity f6 : same_data f6 f6) as Hs. split; [by rewrite B6 B5| | | |done].
  - exists di5. split; [|done]. apply (dir_at_kept f5 f6 p); [done..|]. by apply inode_is_inodeOf; [apply S|..].
  - split; [|done]. split; [done|done|by apply inode_is_inodeOf; [apply S|..]|exact (same_file f6 f6 td _ Hs Hp Hok)|].
    rewrite /idle /bufs (sp_buf _ _ _ S). apply Htf.
  - intros o Ho. rewrite (same_bytes f6 f6 td _ Hs Hp Hok o Ho). by apply Hby.
Qed.

End link.


(** ** Links in the current directory *)

(** The names of the current directory satisfy what [Link] needs. *)
Lemma link_here {O : MapOrder} cred f p di m old t ft td :
  dir_at f p di m -> inode_is f p di -> cwdOf cred = p -> CheckDirAccess di cred = Ok tt ->
  component old -> old <> [] -> old <> dot -> m !! old = Some (t, ft) -> file_at f t td -> inode_is f t td ->
  IsSymlink td = false ->
  exists ic ic', Resolve cred old f = (Ok t, with_inodes ic f) /\
    fsReadInode t (with_inodes ic f) = (Ok td, with_inodes ic' f) /\
    dir_at (with_inodes ic' f) p di m /\ file_at (with_inodes ic' f) t td.
Proof.
  intros Hat Hpd Hp Hx Hc Hne Hdot Hm Htf Htd Hl. pose proof (fa_inum _ _ _ Htf) as Hv.
  pose proof (so_alloc _ (dir_rep_state _ _ (da_rep _ _ _ _ Hat))) as Ha.
  destruct (Resolve_name cred f p di m old t ft td) as (ic & E & He & Hk); [done..|].
  pose proof (inode_is_inodeOf (with_inodes ic f) t td Ha Hv (Hk t td Hv Htd)) as Hi.
  destruct (fsReadInode_keeps (with_inodes ic f) t td Ha Hi He Hv) as (ic' & E' & _ & Hi' & He' & Hk').
  exists ic, ic'. split_and!; [done|done| |].
  - destruct Hat as [H1 H2 _ _ H5 H6 H7]. split; try done. apply inode_is_inodeOf; [done|done|]. by apply Hk', Hk.
  - apply (file_at_same f (with_inodes ic' f) t td td); [by apply aside_same|by split|done|done|done].
Qed.

