(* ===== verification/Xattr.v ===== *)
(** * Xattr: extended attributes, [internal/ops/xattr_ops.go]

    The attributes of all inodes are in one map of the process, from
    ["inum:name"] to values; the state is the file system and that map. *)

From stdpp Require Import pretty.
From S2P Require Export Ops.

(** [newXattrStore], with the number of loops over the map so far. *)
Record xattrStore : Type := mkStore { x_data : gmap (list byte) (list byte); x_ranges : nat }.
Definition newXattrStore : xattrStore := mkStore ∅ 0.

Definition colon : byte := x3a.

(** [fmt.Sprintf("%d:", inum)] *)
Definition keyPrefix (inum : Z) : list byte := str (pretty (Z.to_N inum)) ++ [colon].
Definition key (inum : Z) (name : list byte) : list byte := keyPrefix inum ++ name.

Definition xget (inum : Z) (name : list byte) (s : xattrStore) : option (list byte) := x_data s !! key inum name.
Definition xset (inum : Z) (name value : list byte) (s : xattrStore) : xattrStore :=
  mkStore (<[key inum name := value]> (x_data s)) (x_ranges s).
Definition xdelete (inum : Z) (name : list byte) (s : xattrStore) : xattrStore :=
  mkStore (delete (key inum name) (x_data s)) (x_ranges s).

(** [strings.TrimPrefix(k, prefix)] if [strings.HasPrefix(k, prefix)]. *)
Fixpoint stripPrefix (prefix k : list byte) : option (list byte) :=
  match prefix, k with
  | [], _ => Some k
  | p :: prefix, c :: k => if bool_decide (p = c) then stripPrefix prefix k else None
  | _ :: _, [] => None
  end.

Definition xstate : Type := Filesystem * xattrStore.
Definition onFs {A} (m : M Filesystem A) : M xstate A := zoom fst (fun f s => (f, s.2)) m.
Definition modStore (f : xattrStore -> xattrStore) : M xstate unit := modify (fun s => (s.1, f s.2)).

Definition attrNotFound : error := Errorf "xattr: %s: attribute not found" [].

Section with_order.
Context {O : MapOrder}.

Definition xlist (inum : Z) (s : xattrStore) : list (list byte) :=
  omap (stripPrefix (keyPrefix inum)) (range (x_ranges s) (keys (x_data s))).

(** The inode at [path], when [cred] has the permission asked for. *)
Definition xresolve (cred : Credential) (path : list byte) (read write : bool) : M xstate Z :=
  inum ← onFs (Resolve cred path);
  di ← onFs (fsReadInode inum);
  liftResult (CheckPermission di cred read write false) ;;
  mret inum.

Definition GetXAttr (cred : Credential) (path name : list byte) : M xstate (list byte) :=
  inum ← xresolve cred path true false;
  v ← gets (fun s => xget inum name s.2);
  match v with
  | None => throw attrNotFound
  | Some v => mret v
  end.

Definition SetXAttr (cred : Credential) (path name value : list byte) : M xstate unit :=
  inum ← xresolve cred path false true;
  failIf (bool_decide (name = []) || (255 <? Z.of_nat (length name))) ErrInvalidArg ;;
  failIf (65536 <? Z.of_nat (length value)) ErrNoSpace ;;
  modStore (xset inum name value).

Definition ListXAttr (cred : Credential) (path : list byte) : M xstate (list (list byte)) :=
  inum ← xresolve cred path true false;
  names ← gets (fun s => xlist inum s.2);
  modStore (fun s => mkStore (x_data s) (S (x_ranges s))) ;;
  mret names.

Definition RemoveXAttr (cred : Credential) (path name : list byte) : M xstate unit :=
  inum ← xresolve cred path false true;
  v ← gets (fun s => xget inum name s.2);
  failIf (bool_decide (v = None)) attrNotFound ;;
  modStore (xdelete inum name).

(** The loop of [XAttrJSON]. *)
Definition xattrsOf (inum : Z) (names : list (list byte)) (s : xattrStore) : gmap (list byte) (list byte) :=
  foldl (fun result name =>
    match xget inum name s with
    | Some val => <[name := val]> result
    | None => result
    end) ∅ names.

(** [XAttrJSON], up to the rendering of the map by [json.Marshal], which does
    not fail on strings.  It resolves the path a second time. *)
Definition XAttrJSON (cred : Credential) (path : list byte) : M xstate (gmap (list byte) (list byte)) :=
  names ← ListXAttr cred path;
  inum ← onFs (Resolve cred path);
  gets (fun s => xattrsOf inum names s.2).

End with_order.

(** ** Keys *)

(** Decimal digits hold no colon. *)
Lemma pretty_go_no_colon x s :
  colon ∉ str s -> colon ∉ str (pretty_N_go x s).
Proof.
  revert s. induction (N.lt_wf_0 x) as [x _ IH]; intros s Hs.
  assert (x = 0 \/ 0 < x)%N as [->|Hx] by lia; [by rewrite pretty_N_go_0|].
  rewrite pretty_N_go_step //. apply IH; [by apply N.div_lt|].
  rewrite /str /= elem_of_cons. intros [Hc|]; [|done]. revert Hc.
  rewrite /pretty_N_char. by repeat case_match.
Qed.

Lemma pretty_no_colon (x : N) : colon ∉ str (pretty x).
Proof.
  rewrite /pretty /pretty_N. case_decide.
  - by rewrite /str /= list_elem_of_singleton.
  - apply pretty_go_no_colon. by intros ?%elem_of_nil.
Qed.

Lemma str_inj s t : str s = str t -> s = t.
Proof.
  intros H. rewrite -(String.string_of_list_byte_of_string s) -(String.string_of_list_byte_of_string t).
  by f_equal.
Qed.

Lemma app_sep_inj (c : byte) a b x y :
  c ∉ a -> c ∉ b -> a ++ c :: x = b ++ c :: y -> a = b /\ x = y.
Proof.
  revert b. induction a as [|u a IH]; intros [|v b] Ha Hb H; simpl in H; simplify_eq; try done.
  - destruct Hb. left.
  - destruct Ha. left.
  - destruct (IH b) as [-> ->]; [set_solver..|done|done].
Qed.

Lemma key_inj i j n m : 0 <= i -> 0 <= j -> key i n = key j m -> i = j /\ n = m.
Proof.
  intros Hi Hj. rewrite /key /keyPrefix -!app_assoc /= => /app_sep_inj.
  intros [Hs ->]; [apply pretty_no_colon..|]. apply str_inj, (inj pretty) in Hs. split; [lia|done].
Qed.

Lemma stripPrefix_Some p k n : stripPrefix p k = Some n <-> k = p ++ n.
Proof.
  revert k. induction p as [|c p IH]; intros k; simpl; [naive_solver|].
  destruct k as [|d k]; [naive_solver|]. case_bool_decide; [subst; rewrite IH; naive_solver|naive_solver].
Qed.

Lemma elem_of_xlist {O : MapOrder} i s m : m ∈ xlist i s <-> is_Some (xget i m s).
Proof.
  rewrite /xlist list_elem_of_omap. split.
  - intros (k & Hk & E). apply stripPrefix_Some in E as ->. by apply elem_of_range, elem_of_keys in Hk.
  - intros H. exists (key i m). rewrite elem_of_range elem_of_keys. split; [done|]. by apply stripPrefix_Some.
Qed.

Lemma lookup_xattrsOf i names s m : xattrsOf i names s !! m = if decide (m ∈ names) then xget i m s else None.
Proof.
  rewrite /xattrsOf. induction names as [|n names IH] using rev_ind.
  { case_decide as H; [by apply not_elem_of_nil in H|done]. }
  rewrite foldl_app. cbn [foldl]. set (r := foldl _ _ names) in *. destruct (decide (m = n)) as [->|Hne].
  - destruct (decide (n ∈ names ++ [n])) as [_|[]]; [|set_solver].
    destruct (xget i n s) as [val|]; [by rewrite lookup_insert_eq|]. by destruct (decide (n ∈ names)).
  - trans (r !! m); [destruct (xget i n s); [rewrite lookup_insert_ne; [exact (not_eq_sym Hne)|done]|done]|].
    rewrite IH. apply decide_ext. set_solver.
Qed.

(** C38: The store of attributes is a map from pairs of an inode and a name,
    although its keys are strings: an attribute that is set is read back, no
    other inode and no other name is affected, a deleted one is gone, and the
    list of an inode's attributes has each name once, and the map that
    [XAttrJSON] renders has the values of these names. *)
Theorem xattr_store_is_a_map {O : MapOrder} s i n v :
  0 <= i ->
  (forall j m, 0 <= j ->
     xget j m (xset i n v s) = (if decide (j = i /\ m = n) then Some v else xget j m s) /\
     xget j m (xdelete i n s) = (if decide (j = i /\ m = n) then None else xget j m s)) /\
  (forall m, m ∈ xlist i s <-> is_Some (xget i m s)) /\ NoDup (xlist i s) /\
  forall m, xattrsOf i (xlist i s) s !! m = xget i m s.
Proof.
  intros Hi. split_and!.
  - intros j m Hj. rewrite /xget /=. case_decide as Hc.
    + destruct Hc as [-> ->]. by rewrite lookup_insert_eq lookup_delete_eq.
    + assert (key i n <> key j m) as Hk.
      { intros H. destruct (key_inj i j n m Hi Hj H) as [-> ->]. by apply Hc. }
      by rewrite lookup_insert_ne // lookup_delete_ne.
  - intros m. apply elem_of_xlist.
  - rewrite /xlist. pose proof (NoDup_range (x_ranges s) _ (NoDup_keys (x_data s))) as Hn.
    induction Hn as [|k l Hk _ IH]; [constructor|]. simpl.
    destruct (stripPrefix (keyPrefix i) k) as [m|] eqn:E; [|done]. constructor; [|done].
    rewrite list_elem_of_omap. intros (k' & Hk' & E'). apply stripPrefix_Some in E, E'. by subst.
  - intros m. rewrite lookup_xattrsOf. case_decide as H; [done|]. rewrite elem_of_xlist in H.
    by destruct (xget i m s); [destruct H; eexists|].
Qed.

Lemma xattr_store_is_a_map_witness :
  xget 12 (str "user.a") (xset 1 (str "2:user.a") (str "v") newXattrStore) = None.
Proof.
  destruct (@xattr_store_is_a_map inOrder newXattrStore 1 (str "2:user.a") (str "v") ltac:(done)) as (H & _).
  destruct (H 12 (str "user.a") ltac:(done)) as [-> _]. reflexivity.
Defined.
