(* ===== verification/Text.v ===== *)
(** * Text: the functions of [fmt], [strconv] and [strings] the shell and the
    API use on text, which is a list of bytes *)

From stdpp Require Import pretty.
From S2P Require Export Namei.

Definition space : byte := x20.

(** ** Numbers *)

(** [%d] *)
Definition dec (z : Z) : list byte :=
  if z <? 0 then str "-" ++ str (pretty (Z.to_N (- z))) else str (pretty (Z.to_N z)).

Definition digit (d : Z) : byte := if d <? 10 then z2b (48 + d) else z2b (87 + d).

(** The last [n] digits of [z] in a base up to 16. *)
Fixpoint digits (n : nat) (base z : Z) : list byte :=
  match n with
  | O => []
  | S n => digits n base (z / base) ++ [digit (z mod base)]
  end.

(** [%04o] and [%0nx] of a number of at most that many digits. *)
Definition oct (n : nat) (z : Z) : list byte := digits n 8 z.
Definition hex (n : nat) (z : Z) : list byte := digits n 16 z.

(** [hex.EncodeToString] *)
Definition hexString (b : list byte) : list byte := b ≫= fun c => hex 2 (b2z c).

Definition digitValue (c : byte) : Z :=
  let z := b2z c in
  if (48 <=? z) && (z <=? 57) then z - 48
  else if (97 <=? z) && (z <=? 122) then z - 87
  else if (65 <=? z) && (z <=? 90) then z - 55
  else 255.

(** The loop of [strconv.ParseUint(s, base, 32)] for a base other than 0:
    [None] for an error. *)
Fixpoint parseDigits (base : Z) (n : Z) (s : list byte) : option Z :=
  match s with
  | [] => Some n
  | c :: s =>
      let d := digitValue c in
      if base <=? d then None
      else
        let n := n * base + d in
        if 2 ^ 32 - 1 <? n then None else parseDigits base n s
  end.
Definition ParseUint (base : Z) (s : list byte) : option Z :=
  if bool_decide (s = []) then None else parseDigits base 0 s.

(** ** Padding *)

(** [%nd]: digits are bytes. *)
Definition padLeft (n : nat) (s : list byte) : list byte := replicate (n - length s) space ++ s.

(** [utf8.RuneCountInString], by which [%-ns] pads: a byte that starts no
    valid sequence counts as one. *)
Definition inRange (lo hi : Z) (s : list byte) : bool :=
  match s with c :: _ => (lo <=? b2z c) && (b2z c <=? hi) | [] => false end.
Definition runeLen (s : list byte) : nat :=
  match s with
  | [] => 0%nat
  | c :: s =>
      let z := b2z c in
      let cont k := inRange 128 191 (drop k s) in
      if (194 <=? z) && (z <=? 223) && cont 0%nat then 2%nat
      else if (z =? 224) && inRange 160 191 s && cont 1%nat then 3%nat
      else if (z =? 237) && inRange 128 159 s && cont 1%nat then 3%nat
      else if (225 <=? z) && (z <=? 239) && negb (z =? 237) && cont 0%nat && cont 1%nat then 3%nat
      else if (z =? 240) && inRange 144 191 s && cont 1%nat && cont 2%nat then 4%nat
      else if (z =? 244) && inRange 128 143 s && cont 1%nat && cont 2%nat then 4%nat
      else if (241 <=? z) && (z <=? 243) && cont 0%nat && cont 1%nat && cont 2%nat then 4%nat
      else 1%nat
  end.
Fixpoint runeCountFrom (fuel : nat) (s : list byte) : nat :=
  match fuel, s with
  | S fuel, _ :: _ => S (runeCountFrom fuel (drop (runeLen s) s))
  | _, _ => 0%nat
  end.
Definition runeCount (s : list byte) : nat := runeCountFrom (length s) s.

(** [%-ns] *)
Definition padRight (n : nat) (s : list byte) : list byte := s ++ replicate (n - runeCount s) space.

(** ** Strings *)

(** [strings.Join(parts, sep)] *)
Fixpoint joinWith (sep : list byte) (parts : list (list byte)) : list byte :=
  match parts with
  | [] => []
  | [part] => part
  | part :: parts => part ++ sep ++ joinWith sep parts
  end.

(** [strings.SplitN(s, ":", 2)]: the text before the first colon, and the
    text after it if there is one. *)
Fixpoint splitColon (s : list byte) : list byte * option (list byte) :=
  match s with
  | [] => ([], None)
  | c :: s =>
      if bool_decide (c = x3a) then ([], Some s)
      else let '(a, b) := splitColon s in (c :: a, b)
  end.

(** [strings.TrimSpace]: the white space of Unicode, as bytes of UTF-8. *)
Definition spaces : list (list byte) :=
  [[x09]; [x0a]; [x0b]; [x0c]; [x0d]; [x20]; [xc2; x85]; [xc2; xa0]; [xe1; x9a; x80]; [xe2; x80; xa8]; [xe2; x80; xa9];
   [xe2; x80; xaf]; [xe2; x81; x9f]; [xe3; x80; x80]] ++
  ((fun c => [xe2; x80; c]) <$> [x80; x81; x82; x83; x84; x85; x86; x87; x88; x89; x8a]).
Definition hasPrefix (p s : list byte) : bool := bool_decide (take (length p) s = p).
Fixpoint trimPrefixes (fuel : nat) (ps : list (list byte)) (s : list byte) : list byte :=
  match fuel with
  | O => s
  | S fuel =>
      match head (filter (fun p => hasPrefix p s = true) ps) with
      | Some p => trimPrefixes fuel ps (drop (length p) s)
      | None => s
      end
  end.
Definition trimSpace (s : list byte) : list byte :=
  let s := trimPrefixes (length s) spaces s in
  rev (trimPrefixes (length s) ((fun p => rev p) <$> spaces) (rev s)).

(** ** Examples *)

Example dec_ex : dec (-120) = str "-120" /\ dec 0 = str "0".
Proof. done. Qed.
Example hex_ex : hex 8 48 = str "00000030" /\ oct 4 0x1ed = str "0755".
Proof. done. Qed.
Example ParseUint_ex : ParseUint 8 (str "755") = Some 0x1ed /\ ParseUint 8 (str "8") = None /\
  ParseUint 10 (str "4294967296") = None.
Proof. done. Qed.
Example trimSpace_ex : trimSpace (str "  ls /  " ++ newline) = str "ls /".
Proof. vm_compute. done. Qed.
Example padRight_ex : padRight 4 [xc3; xa9] = [xc3; xa9; space; space; space].
Proof. done. Qed.
