(* ===== verification/Shell.v ===== *)
(** * Shell: the command line, [internal/shell]

    A session has the file system, the attributes of the process and a
    credential whose directory [cd] changes.  A command reads the clock once
    ([now], in Unix seconds).  [GetCwd] and the commands that descend a tree
    have no bound of their own: they take [fuel], and [None] is a run that
    needs more. *)

From S2P Require Export Text Fsck Xattr.

Record Shell : Type := mkShell { sh_fs : Filesystem; sh_store : xattrStore; sh_cred : Credential }.

(** [NewShell]: root, in the root directory. *)
Definition NewShell (fs : Filesystem) (store : xattrStore) : Shell := mkShell fs store (mkCredential 0 0 1).
(** [SetCWD] *)
Definition SetCWD (inum : Z) (s : Shell) : Shell :=
  mkShell (sh_fs s) (sh_store s) (mkCredential (cr_UID (sh_cred s)) (cr_GID (sh_cred s)) inum).

Definition onShFs {A} (m : M Filesystem A) : M Shell A :=
  zoom sh_fs (fun f s => mkShell f (sh_store s) (sh_cred s)) m.
Definition onShX {A} (m : M xstate A) : M Shell A :=
  zoom (fun s => (sh_fs s, sh_store s)) (fun x s => mkShell x.1 x.2 (sh_cred s)) m.

(** [time.Unix(t, 0).Format(layout)] in the zone of the process. *)
Class TimeFormat : Type := formatTime : string -> Z -> list byte.

(** What a command prints: a text, or for [fsck] the result it prints. *)
Inductive Output : Type := Text (t : list byte) | Report (r : FsckResult).

(** What [Execute] returns: the output, or the message for a name that is no
    command, or the message for the error of a command. *)
Inductive Reply : Type :=
  | Printed (o : Output)
  | CommandNotFound (cmd : list byte)
  | CommandFailed (cmd : list byte) (err : error).

(** ** Command lines *)

(** The loop of [splitArgs]: the quote that is open, and the argument read so
    far. *)
Fixpoint splitLoop (line : list byte) (quote : option byte) (cur : list byte) : list (list byte) :=
  match line with
  | [] => if bool_decide (cur = []) then [] else [cur]
  | c :: line =>
      match quote with
      | Some q => if bool_decide (c = q) then splitLoop line None cur else splitLoop line quote (cur ++ [c])
      | None =>
          if bool_decide (c = x22) || bool_decide (c = x27) then splitLoop line (Some c) cur
          else if bool_decide (c = x20) || bool_decide (c = x09) then
            if bool_decide (cur = []) then splitLoop line None cur else cur :: splitLoop line None []
          else splitLoop line None (cur ++ [c])
      end
  end.
Definition splitArgs (line : list byte) : list (list byte) := splitLoop line None [].

(** Sequencing of runs that may need more fuel. *)
Definition andThen {S A B} (m : M S (option A)) (f : A -> M S (option B)) : M S (option B) :=
  o ← m;
  match o with Some a => f a | None => mret None end.
Notation "x ←? m ; f" := (andThen m (fun x => f))
  (at level 20, m at level 100, f at level 200, right associativity, only parsing) : stdpp_scope.

(** A loop over [l] that updates [v]. *)
Fixpoint loopEach {S A B} (body : A -> B -> M S (option B)) (l : list A) (v : B) : M S (option B) :=
  match l with
  | [] => mret (Some v)
  | x :: l => v ←? body x v; loopEach body l v
  end.

Definition usage (s : string) {A} : M Shell A := throw (Errorf s []).
(** [fmt.Errorf("%s: %w", arg, err)] *)
Definition forArg {A} (m : M Shell A) : M Shell A := wrapErr "%s: %w" [] m.

Definition done : M Shell (option Output) := mret (Some (Text [])).
Definition says (t : list byte) : M Shell (option Output) := mret (Some (Text t)).

(** [e.Name == "." || e.Name == ".."] on the entries of [ReadDir]. *)
Definition isDot (name : list byte) : bool := bool_decide (name = dot) || bool_decide (name = dotdot).
(** The path of an entry. *)
Definition below (path name : list byte) : list byte :=
  if bool_decide (path = [slash]) then slash :: name else path ++ slash :: name.

Section with_order.
Context {O : MapOrder} {TF : TimeFormat}.

Definition cred : M Shell Credential := gets sh_cred.

Definition cwd (fuel : nat) : M Shell (option (list byte)) :=
  c ← cred;
  onShFs (GetCwd fuel (cr_CWD c)).

(** An error of [GetCwd] is passed over. *)
Definition resolvePath (fuel : nat) (path : list byte) : M Shell (option (list byte)) :=
  if bool_decide (path = []) then mret (Some [])
  else if startsSlash path then mret (Some path)
  else
    r ← tryM (cwd fuel);
    match r with
    | inr _ => mret (Some (slash :: path))
    | inl None => mret None
    | inl (Some cwd) => mret (Some (below cwd path))
    end.

(** The path [ls] and [ll] list. *)
Definition listed (fuel : nat) (args : list (list byte)) : M Shell (option (list byte)) :=
  match args with
  | arg :: _ => resolvePath fuel arg
  | [] =>
      r ← tryM (cwd fuel);
      mret (match r with inr _ => Some [slash] | inl path => path end)
  end.

Definition cmdLs (fuel : nat) (now : Z) (args : list (list byte)) : M Shell (option Output) :=
  path ←? listed fuel args;
  c ← cred;
  entries ← onShFs (ReadDir c path);
  says (mjoin ((fun e : Z * list byte * Z =>
    if isDot e.1.2 then [] else e.1.2 ++ (if e.2 =? FT_DIR then [slash] else []) ++ newline) <$> entries)).

(** The line of one entry. *)
Definition longLine (path : list byte) (e : Z * list byte * Z) : M Shell (list byte) :=
  let '(inum, name, _) := e in
  c ← cred;
  si ← tryM (onShFs (Lstat c (below path name)));
  match si with
  | inr _ => mret (str "? " ++ padRight 20 name ++ newline)
  | inl si =>
      di ← tryM (onShFs (fsReadInode inum));
      match di with
      | inr _ => mret []
      | inl di =>
          mret (ModeString di ++ [space] ++ padLeft 4 (dec (si_Links si)) ++ [space] ++ padLeft 4 (dec (si_UID si)) ++
            [space] ++ padLeft 4 (dec (si_GID si)) ++ [space] ++ padLeft 8 (dec (si_Size si)) ++ [space] ++
            formatTime "Jan 02 15:04" (si_MTime si) ++ [space] ++ name ++ newline)
      end
  end.
Fixpoint longLines (path : list byte) (entries : list (Z * list byte * Z)) : M Shell (list byte) :=
  match entries with
  | [] => mret []
  | e :: entries =>
      line ← longLine path e;
      rest ← longLines path entries;
      mret (line ++ rest)
  end.
Definition cmdLl (fuel : nat) (now : Z) (args : list (list byte)) : M Shell (option Output) :=
  path ←? listed fuel args;
  c ← cred;
  entries ← onShFs (ReadDir c path);
  text ← longLines path entries;
  says text.

Definition cmdCd (fuel : nat) (now : Z) (args : list (list byte)) : M Shell (option Output) :=
  match args with
  | [] => modify (SetCWD 1) ;; done
  | arg :: _ =>
      path ←? resolvePath fuel arg;
      c ← cred;
      inum ← onShFs (Resolve c path);
      di ← onShFs (fsReadInode inum);
      failIf (negb (IsDir di)) ErrNotDir ;;
      liftResult (CheckDirAccess di c) ;;
      modify (SetCWD inum) ;;
      done
  end.

Definition cmdPwd (fuel : nat) (now : Z) (args : list (list byte)) : M Shell (option Output) :=
  cwd ←? cwd fuel;
  says (cwd ++ newline).

(** A command that runs [body] on each of its paths. *)
Definition eachPath (fuel : nat) (args : list (list byte)) (body : list byte -> M Shell (option unit))
    : M Shell (option Output) :=
  _ ←? loopEach (fun arg _ => path ←? resolvePath fuel arg; forArg (body path)) args tt;
  done.

Definition cmdMkdir (fuel : nat) (now : Z) (args : list (list byte)) : M Shell (option Output) :=
  if bool_decide (args = []) then usage "usage: mkdir <path>"
  else eachPath fuel args (fun path => c ← cred; onShFs (Mkdir now c path 0x1ED) ;; mret (Some tt)).

Definition cmdRmdir (fuel : nat) (now : Z) (args : list (list byte)) : M Shell (option Output) :=
  if bool_decide (args = []) then usage "usage: rmdir <path>"
  else eachPath fuel args (fun path => c ← cred; onShFs (Rmdir now c path) ;; mret (Some tt)).

(** [touch] updates the times of what is there, or creates a file. *)
Definition cmdTouch (fuel : nat) (now : Z) (args : list (list byte)) : M Shell (option Output) :=
  if bool_decide (args = []) then usage "usage: touch <path>"
  else eachPath fuel args (fun path =>
    c ← cred;
    si ← tryM (onShFs (Lstat c path));
    match si with
    | inl _ => _ ← tryM (onShFs (Utimes now c path (Some now) (Some now))); mret (Some tt)
    | inr _ => _ ← onShFs (Create now c path 0x1A4); mret (Some tt)
    end).

(** [buf := make([]byte, size); n, err := ops.Read(..., 0, buf)] and [buf[:n]]. *)
Definition readWhole (now : Z) (inum size : Z) : M Shell (list byte) :=
  (if size <? 0 then panic else mret tt) ;;
  c ← cred;
  onShFs (Read now c inum 0 size).

Definition cmdCat (fuel : nat) (now : Z) (args : list (list byte)) : M Shell (option Output) :=
  if bool_decide (args = []) then usage "usage: cat <path>"
  else
    text ←? loopEach (fun arg text =>
      path ←? resolvePath fuel arg;
      c ← cred;
      inum ← forArg (onShFs (Resolve c path));
      di ← onShFs (fsReadInode inum);
      data ← forArg (readWhole now inum (SizeOf di));
      mret (Some (text ++ data))) args [];
    says text.

Definition cmdWrite (fuel : nat) (now : Z) (args : list (list byte)) : M Shell (option Output) :=
  match args with
  | (arg :: _ :: _) as words =>
      path ←? resolvePath fuel arg;
      let content := joinWith [space] (tail words) in
      c ← cred;
      inum ← onErr (onShFs (Resolve c path)) (fun _ => onShFs (Create now c path 0x1A4));
      onShFs (Truncate now c inum 0) ;;
      n ← onShFs (Write now c inum 0 content);
      says (str "wrote " ++ dec n ++ str " bytes" ++ newline)
  | _ => usage "usage: write <path> <content>"
  end.

(** The first error ends it. *)
Fixpoint rmRecursive (fuel : nat) (now : Z) (path : list byte) : M Shell (option unit) :=
  match fuel with
  | 0%nat => mret None
  | S fuel =>
      c ← cred;
      entries ← onShFs (ReadDir c path);
      _ ←? loopEach (fun (e : Z * list byte * Z) _ =>
        let '(_, name, ft) := e in
        if isDot name then mret (Some tt)
        else
          let childPath := path ++ slash :: name in
          if ft =? FT_DIR then rmRecursive fuel now childPath
          else onShFs (Unlink now c childPath) ;; mret (Some tt)) entries tt;
      onShFs (Rmdir now c path) ;;
      mret (Some tt)
  end.

Definition cmdRm (fuel : nat) (now : Z) (args : list (list byte)) : M Shell (option Output) :=
  match args with
  | [] => usage "usage: rm [-r] <path>"
  | flag :: rest =>
      let recursive := bool_decide (flag = str "-r") || bool_decide (flag = str "-rf") in
      _ ←? loopEach (fun arg _ =>
        path ←? resolvePath fuel arg;
        c ← cred;
        si ← forArg (onShFs (Lstat c path));
        if si_IsDir si then
          failIf (negb recursive) (Errorf "%s: is a directory" []) ;;
          forArg (rmRecursive fuel now path)
        else forArg (onShFs (Unlink now c path)) ;; mret (Some tt)) (if recursive then rest else args) tt;
      done
  end.

(** A command on two paths. *)
Definition twoPaths (fuel : nat) (a b : list byte) (body : list byte -> list byte -> M Shell unit)
    : M Shell (option Output) :=
  src ←? resolvePath fuel a;
  dst ←? resolvePath fuel b;
  body src dst ;;
  done.

Definition cmdMv (fuel : nat) (now : Z) (args : list (list byte)) : M Shell (option Output) :=
  match args with
  | [a; b] => twoPaths fuel a b (fun src dst => c ← cred; onShFs (Rename now c src dst))
  | _ => usage "usage: mv <src> <dst>"
  end.

Definition cmdCp (fuel : nat) (now : Z) (args : list (list byte)) : M Shell (option Output) :=
  match args with
  | [a; b] => twoPaths fuel a b (fun src dst =>
      c ← cred;
      srcInum ← onShFs (Resolve c src);
      srcDI ← onShFs (fsReadInode srcInum);
      failIf (IsDir srcDI) (Errorf "cp: omitting directory %s" []) ;;
      dstInum ← onShFs (Create now c dst 0x1A4);
      onShFs (Truncate now c dstInum 0) ;;
      data ← readWhole now srcInum (SizeOf srcDI);
      _ ← onShFs (Write now c dstInum 0 data);
      mret tt)
  | _ => usage "usage: cp <src> <dst>"
  end.

Definition cmdLn (fuel : nat) (now : Z) (args : list (list byte)) : M Shell (option Output) :=
  match args with
  | a :: b :: rest =>
      if bool_decide (a = str "-s") then
        match rest with
        | [link] =>
            linkPath ←? resolvePath fuel link;
            c ← cred;
            onShFs (Symlink now c b linkPath) ;;
            done
        | _ => usage "usage: ln -s <target> <link>"
        end
      else twoPaths fuel a b (fun target linkPath => c ← cred; onShFs (Link now c target linkPath))
  | _ => usage "usage: ln [-s] <target> <link>"
  end.

Definition RFC3339 : string := "2006-01-02T15:04:05Z07:00".

Definition statText (arg : list byte) (si : StatInfo) (di : DiskInode) : list byte :=
  str "  File: " ++ arg ++ newline ++
  str "  Inode: " ++ dec (si_Inode si) ++ str "  Links: " ++ dec (si_Links si) ++ newline ++
  str "  Mode: " ++ ModeString di ++ str " (" ++ oct 4 (Z.land (si_Mode si) 0xFFF) ++ str ")" ++ newline ++
  str "  UID: " ++ dec (si_UID si) ++ str "  GID: " ++ dec (si_GID si) ++ newline ++
  str "  Size: " ++ dec (si_Size si) ++ str "  Blocks: " ++ dec (u32 (si_Blocks si * 512)) ++ newline ++
  str "  ATime: " ++ formatTime RFC3339 (si_ATime si) ++ newline ++
  str "  MTime: " ++ formatTime RFC3339 (si_MTime si) ++ newline ++
  str "  CTime: " ++ formatTime RFC3339 (si_CTime si) ++ newline.

Definition cmdStat (fuel : nat) (now : Z) (args : list (list byte)) : M Shell (option Output) :=
  match args with
  | [] => usage "usage: stat <path>"
  | arg :: _ =>
      path ←? resolvePath fuel arg;
      c ← cred;
      si ← onShFs (Lstat c path);
      di ← onShFs (fsReadInode (si_Inode si));
      says (statText arg si di)
  end.

Definition cmdChmod (fuel : nat) (now : Z) (args : list (list byte)) : M Shell (option Output) :=
  match args with
  | [m; p] =>
      match ParseUint 8 m with
      | None => throw (Errorf "invalid mode: %s" [])
      | Some mode =>
          path ←? resolvePath fuel p;
          c ← cred;
          onShFs (Chmod now c path mode) ;;
          done
      end
  | _ => usage "usage: chmod <mode> <path>"
  end.

Definition cmdChown (fuel : nat) (now : Z) (args : list (list byte)) : M Shell (option Output) :=
  match args with
  | [owner; p] =>
      path ←? resolvePath fuel p;
      let '(u, g) := splitColon owner in
      match ParseUint 10 u, ParseUint 10 <$> g with
      | None, _ => throw (Errorf "invalid uid: %s" [])
      | Some _, Some None => throw (Errorf "invalid gid: %s" [])
      | Some uid, gid =>
          c ← cred;
          onShFs (Chown now c path uid (match gid with Some (Some gid) => gid | _ => keepId end)) ;;
          done
      end
  | _ => usage "usage: chown <uid>[:<gid>] <path>"
  end.

Definition cmdDf (fuel : nat) (now : Z) (args : list (list byte)) : M Shell (option Output) :=
  '(total, used, free) ← onShFs (gets Df);
  says (str "Filesystem      Total     Used     Free" ++ newline ++
    padRight 16 (str "fs-engine") ++ [space] ++ padRight 8 (dec (total / 1024)) ++ [space] ++
    padRight 8 (dec (used / 1024)) ++ [space] ++ padRight 8 (dec (free / 1024)) ++ newline).

Definition helpLines : list string :=
  [ "ls [path]       - list directory";
    "ll [path]       - long listing";
    "cd [path]       - change directory";
    "pwd             - print working directory";
    "mkdir <path>    - create directory";
    "rmdir <path>    - remove empty directory";
    "touch <path>    - create or update file";
    "cat <path>      - print file contents";
    "write <path> <content> - write content to file";
    "rm [-r] <path>  - remove file or directory";
    "mv <src> <dst>  - move/rename";
    "cp <src> <dst>  - copy file";
    "ln [-s] <target> <link> - create link";
    "stat <path>     - show file status";
    "chmod <mode> <path> - change permissions";
    "chown <uid>[:<gid>] <path> - change owner";
    "df              - show disk usage";
    "find <path> [name] - find files";
    "echo <text>     - print text";
    "help            - show this help" ]%string.
Definition cmdHelp (fuel : nat) (now : Z) (args : list (list byte)) : M Shell (option Output) :=
  says (joinWith newline (str <$> helpLines) ++ newline).

Definition cmdEcho (fuel : nat) (now : Z) (args : list (list byte)) : M Shell (option Output) :=
  says (joinWith [space] args ++ newline).

(** [findRecursive] and what it has written to [sb]; its errors are passed
    over by every caller. *)
Fixpoint findRecursive (fuel : nat) (nameFilter path : list byte) (sb : list byte) : M Shell (option (list byte)) :=
  match fuel with
  | 0%nat => mret None
  | S fuel =>
      c ← cred;
      entries ← tryM (onShFs (ReadDir c path));
      match entries with
      | inr _ => mret (Some sb)
      | inl entries =>
          loopEach (fun (e : Z * list byte * Z) sb =>
            let '(_, name, ft) := e in
            if isDot name then mret (Some sb)
            else
              let fullPath := below path name in
              let sb := if bool_decide (nameFilter = []) || bool_decide (name = nameFilter)
                        then sb ++ fullPath ++ newline else sb in
              if ft =? FT_DIR then findRecursive fuel nameFilter fullPath sb else mret (Some sb)) entries sb
      end
  end.

Definition cmdFind (fuel : nat) (now : Z) (args : list (list byte)) : M Shell (option Output) :=
  match args with
  | [] => usage "usage: find <path> [name]"
  | arg :: rest =>
      root ←? resolvePath fuel arg;
      let nameFilter := default [] (head rest) in
      text ←? findRecursive fuel nameFilter root (if bool_decide (nameFilter = []) then root ++ newline else []);
      says text
  end.

Definition cmdReadlink (fuel : nat) (now : Z) (args : list (list byte)) : M Shell (option Output) :=
  match args with
  | [] => usage "usage: readlink <path>"
  | arg :: _ =>
      path ←? resolvePath fuel arg;
      c ← cred;
      target ← onShFs (ReadLink c path);
      says (target ++ newline)
  end.

(** One row of [hexdump], of the bytes of [row] at offset [i]. *)
Definition hexCell (row : list byte) (j : nat) : list byte :=
  (match row !! j with Some c => hex 2 (b2z c) ++ [space] | None => str "   " end) ++
  (if (j =? 7)%nat then [space] else []).
Definition hexRow (i : nat) (row : list byte) : list byte :=
  hex 8 (Z.of_nat i) ++ str "  " ++ mjoin (hexCell row <$> seq 0 16) ++ str " |" ++
  ((fun c => if (32 <=? b2z c) && (b2z c <? 127) then c else x2e) <$> row) ++ str "|" ++ newline.
(** The loop over the rows, 32 for at most 512 bytes. *)
Definition hexRows (buf : list byte) : list byte :=
  mjoin ((fun k => let i := (16 * k)%nat in
    if (i <? length buf)%nat then hexRow i (slice i 16 buf) else []) <$> seq 0 32).
Definition cmdHexdump (fuel : nat) (now : Z) (args : list (list byte)) : M Shell (option Output) :=
  match args with
  | [] => usage "usage: hexdump <file>"
  | arg :: _ =>
      path ←? resolvePath fuel arg;
      c ← cred;
      si ← onShFs (Stat c path);
      buf ← readWhole now (si_Inode si) (Z.min (si_Size si) 512);
      says (hexRows buf)
  end.

(** [duRecursive] and the total so far; its errors are passed over. *)
Fixpoint duRecursive (fuel : nat) (p : list byte) (total : Z) : M Shell (option Z) :=
  match fuel with
  | 0%nat => mret None
  | S fuel =>
      c ← cred;
      si ← tryM (onShFs (Stat c p));
      match si with
      | inr _ => mret (Some total)
      | inl si =>
          let total := i64 (total + si_Size si) in
          if si_IsDir si then
            entries ← tryM (onShFs (ReadDir c p));
            match entries with
            | inr _ => mret (Some total)
            | inl entries =>
                loopEach (fun (e : Z * list byte * Z) total =>
                  if isDot e.1.2 then mret (Some total) else duRecursive fuel (below p e.1.2) total) entries total
            end
          else mret (Some total)
      end
  end.
Definition cmdDu (fuel : nat) (now : Z) (args : list (list byte)) : M Shell (option Output) :=
  path ←? match args with arg :: _ => resolvePath fuel arg | [] => mret (Some [slash]) end;
  total ←? duRecursive fuel path 0;
  says (dec (Z.quot (i64 (total + 1023)) 1024) ++ [x09] ++ path ++ newline).

Definition cmdXattr (fuel : nat) (now : Z) (args : list (list byte)) : M Shell (option Output) :=
  match args with
  | subcmd :: arg :: rest =>
      path ←? resolvePath fuel arg;
      c ← cred;
      if bool_decide (subcmd = str "list") then
        names ← onShX (ListXAttr c path);
        says (joinWith newline names ++ newline)
      else if bool_decide (subcmd = str "get") then
        match rest with
        | name :: _ => val ← onShX (GetXAttr c path name); says (val ++ newline)
        | _ => usage "usage: xattr get <path> <name>"
        end
      else if bool_decide (subcmd = str "set") then
        match rest with
        | name :: value :: _ => onShX (SetXAttr c path name value) ;; done
        | _ => usage "usage: xattr set <path> <name> <value>"
        end
      else if bool_decide (subcmd = str "rm") then
        match rest with
        | name :: _ => onShX (RemoveXAttr c path name) ;; done
        | _ => usage "usage: xattr rm <path> <name>"
        end
      else throw (Errorf "xattr: unknown subcommand %q" [])
  | _ => usage "usage: xattr get|set|list|rm <path> [name] [value]"
  end.

(** [%v] of a slice of numbers. *)
Definition brackets (l : list Z) : list byte := str "[" ++ joinWith [space] (dec <$> l) ++ str "]".
Definition txLine (tx : TxRecord) : list byte :=
  str "txn #" ++ dec (tx_ID tx) ++ str "  status=" ++ padRight 12 (str (tx_Status tx)) ++
  str "  blocks=" ++ brackets (tx_Blocks tx) ++ str "  time=" ++ formatTime "15:04:05" (tx_Timestamp tx) ++ newline.
Definition cmdJournal (fuel : nat) (now : Z) (args : list (list byte)) : M Shell (option Output) :=
  txns ← onShFs (fun f => (RecentTransactions 10 (fs_journal f), f));
  match txns with
  | [] => says (str "No journal transactions recorded." ++ newline)
  | _ => says (mjoin (txLine <$> txns))
  end.

Definition cmdFsck (fuel : nat) (now : Z) (args : list (list byte)) : M Shell (option Output) :=
  result ←? onShFs (onFsDev (FsckFull fuel));
  mret (Some (Report result)).

(** ** Execute *)

Definition commands : list (string * (nat -> Z -> list (list byte) -> M Shell (option Output))) :=
  [ ("ls", cmdLs); ("ll", cmdLl); ("cd", cmdCd); ("pwd", cmdPwd); ("mkdir", cmdMkdir); ("rmdir", cmdRmdir);
    ("touch", cmdTouch); ("cat", cmdCat); ("write", cmdWrite); ("rm", cmdRm); ("mv", cmdMv); ("cp", cmdCp);
    ("ln", cmdLn); ("stat", cmdStat); ("chmod", cmdChmod); ("chown", cmdChown); ("df", cmdDf); ("help", cmdHelp);
    ("echo", cmdEcho); ("find", cmdFind); ("readlink", cmdReadlink); ("hexdump", cmdHexdump); ("du", cmdDu);
    ("xattr", cmdXattr); ("journal", cmdJournal); ("fsck", cmdFsck) ]%string.

Definition command (cmd : list byte) : option (nat -> Z -> list (list byte) -> M Shell (option Output)) :=
  snd <$> head (filter (fun h => str h.1 = cmd) commands).

Definition Execute (fuel : nat) (now : Z) (cmdLine : list byte) : M Shell (option Reply) :=
  match splitArgs (trimSpace cmdLine) with
  | [] => mret (Some (Printed (Text [])))
  | cmd :: args =>
      match command cmd with
      | None => mret (Some (CommandNotFound cmd))
      | Some handler =>
          r ← tryM (handler fuel now args);
          mret (match r with
                | inl None => None
                | inl (Some out) => Some (Printed out)
                | inr err => Some (CommandFailed cmd err)
                end)
      end
  end.

End with_order.

(** ** Quoted command lines *)

Definition quoted (arg : list byte) : list byte := x27 :: arg ++ [x27].

Lemma splitLoop_inside a rest cur :
  x27 ∉ a -> splitLoop (a ++ x27 :: rest) (Some x27) cur = splitLoop rest None (cur ++ a).
Proof.
  revert cur. induction a as [|c a IH]; intros cur Ha; cbn [app splitLoop]; [by rewrite app_nil_r|].
  apply not_elem_of_cons in Ha as [Hc Ha]. rewrite bool_decide_false; [congruence|]. by rewrite IH // -app_assoc.
Qed.

Lemma splitLoop_quoted a rest cur :
  x27 ∉ a -> splitLoop (quoted a ++ rest) None cur = splitLoop rest None (cur ++ a).
Proof. intros Ha. rewrite /quoted. cbn [app splitLoop bool_decide]. by rewrite -app_assoc /= splitLoop_inside. Qed.

Lemma splitArgs_quoted args :
  Forall (fun a => a <> [] /\ x27 ∉ a) args -> splitArgs (joinWith [space] (quoted <$> args)) = args.
Proof.
  rewrite /splitArgs. induction args as [|a args IH]; [done|]. intros [[Hne Ha] Hargs]%Forall_cons.
  specialize (IH Hargs). destruct args as [|b args].
  - cbn [fmap list_fmap joinWith]. rewrite -(app_nil_r (quoted a)) splitLoop_quoted //. cbn [app splitLoop]. by rewrite bool_decide_false.
  - change (joinWith [space] (quoted <$> a :: b :: args))
      with (quoted a ++ [space] ++ joinWith [space] (quoted <$> b :: args)).
    rewrite splitLoop_quoted //. cbn [app splitLoop]. rewrite (bool_decide_false (a = [])) //.
    f_equal. exact IH.
Qed.

(** White space is trimmed from neither end of a quoted line. *)
Lemma trimPrefixes_quote fuel ps s :
  Forall (fun p => match p with [] => False | c :: _ => c <> x27 end) ps ->
  trimPrefixes fuel ps (x27 :: s) = x27 :: s.
Proof.
  intros Hps. destruct fuel as [|fuel]; [done|]. cbn [trimPrefixes]. rewrite (_ : filter _ ps = []); [|done].
  induction Hps as [|p ps Hp _ IH]; [done|]. rewrite filter_cons_False //. rewrite /hasPrefix.
  destruct p as [|c p]; [done|]. cbn [length take]. intros H%bool_decide_eq_true. congruence.
Qed.

Lemma joinWith_ends args : args <> [] ->
  exists s, joinWith [space] (quoted <$> args) = x27 :: s /\ last (x27 :: s) = Some x27.
Proof.
  induction args as [|a args IH]; [done|]. intros _. destruct args as [|b args].
  - eexists. split; [reflexivity|]. by rewrite app_comm_cons last_snoc.
  - change (joinWith [space] (quoted <$> a :: b :: args))
      with (quoted a ++ [space] ++ joinWith [space] (quoted <$> b :: args)).
    destruct IH as (s & E & Hs); [done|]. rewrite E.
    eexists. split; [reflexivity|]. rewrite !app_comm_cons app_assoc. by rewrite last_app Hs.
Qed.

Lemma trimSpace_quoted args :
  args <> [] -> trimSpace (joinWith [space] (quoted <$> args)) = joinWith [space] (quoted <$> args).
Proof.
  intros Hne. destruct (joinWith_ends args Hne) as (s & -> & [l E]%last_Some). rewrite /trimSpace.
  rewrite trimPrefixes_quote; [by repeat constructor|]. rewrite E rev_app_distr /=.
  rewrite trimPrefixes_quote; [by repeat constructor|]. by rewrite /= rev_involutive.
Qed.

(** A command line whose words are in single quotes runs the command of its
    first word on exactly the other words, whatever they hold but a single
    quote; its error becomes the reply of that command. *)
Theorem Execute_quoted {O : MapOrder} {TF : TimeFormat} fuel now cmd args handler s :
  Forall (fun a => a <> [] /\ x27 ∉ a) (cmd :: args) -> command cmd = Some handler ->
  Execute fuel now (joinWith [space] (quoted <$> cmd :: args)) s =
  match handler fuel now args s with
  | (Ok None, s') => (Ok None, s')
  | (Ok (Some out), s') => (Ok (Some (Printed out)), s')
  | (Err err, s') => (Ok (Some (CommandFailed cmd err)), s')
  | (Panic, s') => (Panic, s')
  end.
Proof.
  intros Hq Hc. rewrite /Execute trimSpace_quoted // splitArgs_quoted // Hc /tryM /mbind /M_bind.
  by destruct (handler fuel now args s) as [[[out|]|e|] s'].
Qed.

Lemma Execute_quoted_witness :
  Execute (O := inOrder) (TF := fun _ _ => []) 1 0 (str "'echo' 'a  b'") (NewShell (demoFs (blank 132)) newXattrStore) =
  (Ok (Some (Printed (Text (str "a  b" ++ newline)))), NewShell (demoFs (blank 132)) newXattrStore).
Proof.
  apply (Execute_quoted (O := inOrder) (TF := fun _ _ => []) 1 0 (str "echo") [str "a  b"] cmdEcho); [|reflexivity].
  repeat constructor; try done; set_solver.
Defined.
