(* ===== verification/Base64.v ===== *)
(** * Base64: [encoding/base64.StdEncoding], in which the API passes the content
    of files *)

From S2P Require Export Text.

#[local] Ltac Zify.zify_post_hook ::= Z.to_euclidean_division_equations.

Definition alphabet (n : Z) : byte :=
  if n <? 26 then z2b (65 + n)
  else if n <? 52 then z2b (71 + n)
  else if n <? 62 then z2b (n - 4)
  else if n =? 62 then x2b
  else x2f.

Definition sextet (c : byte) : option Z :=
  let z := b2z c in
  if (65 <=? z) && (z <=? 90) then Some (z - 65)
  else if (97 <=? z) && (z <=? 122) then Some (z - 71)
  else if (48 <=? z) && (z <=? 57) then Some (z + 4)
  else if z =? 43 then Some 62
  else if z =? 47 then Some 63
  else None.

Definition padding : byte := x3d.

(** [EncodeToString] *)
Fixpoint encode64 (s : list byte) : list byte :=
  match s with
  | [] => []
  | [a] => let n := b2z a * 16 in [alphabet (n / 64); alphabet (n mod 64); padding; padding]
  | [a; b] =>
      let n := (b2z a * 256 + b2z b) * 4 in
      [alphabet (n / 4096); alphabet (n / 64 mod 64); alphabet (n mod 64); padding]
  | a :: b :: c :: s =>
      let n := b2z a * 65536 + b2z b * 256 + b2z c in
      alphabet (n / 262144) :: alphabet (n / 4096 mod 64) :: alphabet (n / 64 mod 64) :: alphabet (n mod 64) :: encode64 s
  end.

(** The groups of four characters; [None] for a [CorruptInputError].  The bits
    left over in a group that is padded are not looked at. *)
Fixpoint decodeGroups (s : list byte) : option (list byte) :=
  match s with
  | [] => Some []
  | a :: b :: c :: d :: s =>
      x ← sextet a; y ← sextet b;
      if bool_decide (c = padding) then
        if bool_decide (d = padding) && bool_decide (s = []) then Some [z2b ((x * 64 + y) / 16)] else None
      else
        z ← sextet c;
        if bool_decide (d = padding) then
          if bool_decide (s = []) then
            let n := ((x * 64 + y) * 64 + z) / 4 in Some [z2b (n / 256); z2b n]
          else None
        else
          w ← sextet d;
          rest ← decodeGroups s;
          let n := ((x * 64 + y) * 64 + z) * 64 + w in
          Some (z2b (n / 65536) :: z2b (n / 256) :: z2b n :: rest)
  | _ => None
  end.

(** [DecodeString], which skips the ends of lines. *)
Definition decode64 (s : list byte) : option (list byte) :=
  decodeGroups (filter (fun c => c <> x0a /\ c <> x0d) s).

(** ** Decoding undoes encoding *)

Lemma alphabet_check :
  forallb (fun n => bool_decide (sextet (alphabet n) = Some n) && negb (bool_decide (alphabet n ∈ [padding; x0a; x0d])))
    (seqZ 0 64) = true.
Proof. reflexivity. Qed.

Lemma sextet_alphabet n : 0 <= n < 64 ->
  sextet (alphabet n) = Some n /\ alphabet n <> padding /\ alphabet n <> x0a /\ alphabet n <> x0d.
Proof.
  intros Hn. pose proof alphabet_check as H. rewrite List.forallb_forall in H.
  specialize (H n). rewrite -list_elem_of_In elem_of_seqZ in H. specialize (H ltac:(lia)). simpl_bool.
  apply bool_decide_eq_true in H. match goal with H : bool_decide _ = false |- _ => apply bool_decide_eq_false in H end.
  set_solver.
Qed.

Lemma list3_ind {A} (P : list A -> Prop) :
  P [] -> (forall a, P [a]) -> (forall a b, P [a; b]) -> (forall a b c s, P s -> P (a :: b :: c :: s)) -> forall s, P s.
Proof. intros H0 H1 H2 H3. fix IH 1. intros [|a [|b [|c s]]]; [exact H0|exact (H1 a)|exact (H2 a b)|exact (H3 a b c s (IH s))]. Qed.

Definition printable (c : byte) : Prop := c <> x0a /\ c <> x0d.
Lemma printable_alphabet n : 0 <= n < 64 -> printable (alphabet n).
Proof. intros Hn. by apply sextet_alphabet. Qed.

Lemma encode64_printable s : Forall printable (encode64 s).
Proof.
  assert (forall c l, printable c -> Forall printable l -> Forall printable (c :: l)) as Hc by (intros; by apply Forall_cons).
  induction s as [|a|a b|a b c s IH] using list3_ind; cbn [encode64]; [by apply Forall_nil| | |].
  - pose proof (b2z_range a). repeat apply Hc; try (apply printable_alphabet; lia); try by split. by apply Forall_nil.
  - pose proof (b2z_range a). pose proof (b2z_range b).
    repeat apply Hc; try (apply printable_alphabet; lia); try by split. by apply Forall_nil.
  - pose proof (b2z_range a). pose proof (b2z_range b). pose proof (b2z_range c).
    repeat apply Hc; try (apply printable_alphabet; lia). exact IH.
Qed.

Lemma z2b_of z b : z mod 256 = b2z b -> z2b z = b.
Proof. intros E. by rewrite -z2b_mod E z2b_b2z. Qed.

Lemma decodeGroups_encode64 s : decodeGroups (encode64 s) = Some s.
Proof.
  induction s as [|a|a b|a b c s IH] using list3_ind; [done|..];
    pose proof (b2z_range a); try pose proof (b2z_range b); try pose proof (b2z_range c); cbn [encode64 decodeGroups].
  - rewrite (proj1 (sextet_alphabet (b2z a * 16 / 64) ltac:(lia))) (proj1 (sextet_alphabet (b2z a * 16 mod 64) ltac:(lia))).
    cbn [mbind option_bind]. rewrite !bool_decide_true //. cbn [andb]. do 2 f_equal. apply z2b_of. lia.
  - set (n := (b2z a * 256 + b2z b) * 4).
    rewrite (proj1 (sextet_alphabet (n / 4096) ltac:(lia))) (proj1 (sextet_alphabet (n / 64 mod 64) ltac:(lia))).
    destruct (sextet_alphabet (n mod 64) ltac:(lia)) as (E & Hp & _). rewrite E.
    cbn [mbind option_bind]. rewrite (bool_decide_false (alphabet _ = padding)) // !bool_decide_true //.
    assert (((n / 4096 * 64 + n / 64 mod 64) * 64 + n mod 64) / 4 = b2z a * 256 + b2z b) as -> by lia.
    do 2 f_equal; [apply z2b_of; lia|]. f_equal. apply z2b_of. lia.
  - set (n := b2z a * 65536 + b2z b * 256 + b2z c).
    rewrite (proj1 (sextet_alphabet (n / 262144) ltac:(lia))) (proj1 (sextet_alphabet (n / 4096 mod 64) ltac:(lia))).
    destruct (sextet_alphabet (n / 64 mod 64) ltac:(lia)) as (E & Hp & _). rewrite E.
    destruct (sextet_alphabet (n mod 64) ltac:(lia)) as (E' & Hp' & _). rewrite E'.
    cbn [mbind option_bind]. rewrite !(bool_decide_false (alphabet _ = padding)) // IH. cbn [mbind option_bind].
    assert (((n / 262144 * 64 + n / 4096 mod 64) * 64 + n / 64 mod 64) * 64 + n mod 64 = n) as -> by lia.
    do 2 f_equal; [apply z2b_of; lia|]. f_equal; [apply z2b_of; lia|]. f_equal. apply z2b_of. lia.
Qed.

Lemma decode64_encode64 s : decode64 (encode64 s) = Some s.
Proof.
  rewrite /decode64. rewrite (_ : filter _ _ = encode64 s); [|apply decodeGroups_encode64].
  induction (encode64_printable s) as [|c l Hc _ IH]; [done|]. by rewrite filter_cons_True // IH.
Qed.

(** A text that happens to be in base64 is taken for it. *)
Example decode64_text : decode64 (str "test") = Some [xb5; xeb; x2d].
Proof. done. Qed.
Example decode64_plain : decode64 (str "hello world") = None.
Proof. done. Qed.
