(* ===== verification/Api.v ===== *)
(** * Api: the handlers of [api/handler_ops.go], [api/handler_shell.go]

    A handler gets the query of a request as a function from names to values
    (empty when absent) and a body as what [encoding/json] decodes from it, a
    request or an error, and returns a status and a JSON value.  All requests
    run with [RootCredential] on the file system of the shell's session. *)

From S2P Require Export Shell Base64.

(** ** JSON *)

(** A value as [encoding/json] is given it: times are Unix seconds, which it
    writes in RFC 3339, errors stand for their messages, and [JRatio n d] is
    the [float64] quotient of two integers. *)
Inductive json : Type :=
  | JBool (b : bool)
  | JNum (z : Z)
  | JRatio (n d : Z)
  | JText (t : list byte)
  | JTime (t : Z)
  | JError (e : error)
  | JReply (r : Reply)
  | JReport (r : FsckResult)
  | JList (l : list json)
  | JObj (fields : list (string * json)).

Definition JStr (s : string) : json := JText (str s).

Record Response : Type := mkResponse { status : Z; body : json }.

Definition StatusOK : Z := 200.
Definition StatusBadRequest : Z := 400.
Definition StatusForbidden : Z := 403.
Definition StatusNotFound : Z := 404.
Definition StatusConflict : Z := 409.
Definition StatusInternalServerError : Z := 500.
Definition StatusInsufficientStorage : Z := 507.

Definition writeJSON (status : Z) (v : json) : Response := mkResponse status v.
(** [ErrorResponse{Error: err.Error(), Code: status}] *)
Definition writeError (status : Z) (err : error) : Response :=
  writeJSON status (JObj [("error", JError err); ("code", JNum status)]%string).

(** ** Errors *)

(** [errors.Is] as a test. *)
Fixpoint errorsIs (target e : error) : bool :=
  bool_decide (e = target) || match e with Wrapf _ _ cause => errorsIs target cause | _ => false end.

Lemma errorsIs_Is target e : errorsIs target e = true <-> Is target e.
Proof. induction e; cbn; rewrite orb_true_iff bool_decide_eq_true; naive_solver. Qed.

Definition fsStatus (err : error) : Z :=
  if errorsIs ErrNotFound err then StatusNotFound
  else if errorsIs ErrPermission err then StatusForbidden
  else if errorsIs ErrExists err || errorsIs ErrNotEmpty err then StatusConflict
  else if errorsIs ErrNoSpace err then StatusInsufficientStorage
  else if errorsIs ErrInvalidArg err || errorsIs ErrIsDir err || errorsIs ErrNotDir err ||
          errorsIs ErrNameTooLong err || errorsIs ErrLoop err then StatusBadRequest
  else StatusInternalServerError.
Definition writeFSError (err : error) : Response := writeError (fsStatus err) err.

Definition errMissingParam (name : string) : error := Errorf ("missing required parameter: " ++ name) [].
Definition missing (name : string) : Response := writeError StatusBadRequest (errMissingParam name).

(** ** Requests and responses: [dto.go] *)

Record WriteRequest : Type := mkWriteRequest { wr_Path : list byte; wr_Offset : Z; wr_Content : list byte }.
Record MkdirRequest : Type := mkMkdirRequest { mk_Path : list byte; mk_Mode : Z }.
Record CreateRequest : Type := mkCreateRequest { cr_Path : list byte; cr_Mode : Z }.
Record LinkRequest : Type := mkLinkRequest { ln_OldPath : list byte; ln_NewPath : list byte }.
Record SymlinkRequest : Type := mkSymlinkRequest { sl_Target : list byte; sl_Path : list byte }.
Record RenameRequest : Type := mkRenameRequest { rn_OldPath : list byte; rn_NewPath : list byte }.
Record ChmodRequest : Type := mkChmodRequest { cm_Path : list byte; cm_Mode : Z }.
Record ChownRequest : Type := mkChownRequest { co_Path : list byte; co_UID : Z; co_GID : Z }.
(** [None] is the zero time. *)
Record UtimesRequest : Type := mkUtimesRequest { ut_Path : list byte; ut_ATime : option Z; ut_MTime : option Z }.
Record TruncateRequest : Type := mkTruncateRequest { tr_Path : list byte; tr_Size : Z }.
Record XAttrRequest : Type := mkXAttrRequest { xa_Path : list byte; xa_Name : list byte; xa_Value : list byte }.
Record ShellRequest : Type := mkShellRequest { sh_Command : list byte }.

(** [OKResponse{OK: true, Message: message}]: an empty message is left out. *)
Definition OKResponse (message : string) : json :=
  JObj (("ok", JBool true) :: if bool_decide (message = "") then [] else [("message", JStr message)])%string.
Definition okay : Response := writeJSON StatusOK (OKResponse "").

(** The type name and mode of [StatResponse]; [modeStr] is empty when the inode
    cannot be read. *)
Definition StatResponse (si : StatInfo) (modeStr : list byte) : json :=
  JObj [ ("inode", JNum (si_Inode si)); ("mode", JNum (si_Mode si)); ("mode_str", JText modeStr);
         ("uid", JNum (si_UID si)); ("gid", JNum (si_GID si)); ("size", JNum (si_Size si));
         ("blocks", JNum (si_Blocks si)); ("atime", JTime (si_ATime si)); ("mtime", JTime (si_MTime si));
         ("ctime", JTime (si_CTime si)); ("links", JNum (si_Links si)); ("is_dir", JBool (si_IsDir si));
         ("is_link", JBool (si_IsLink si)); ("is_file", JBool (si_IsFile si)) ]%string.

Definition fileTypeName (ft : Z) : string :=
  if ft =? 1 then "file"
  else if ft =? 2 then "dir"
  else if ft =? 3 then "chrdev"
  else if ft =? 4 then "blkdev"
  else if ft =? 5 then "fifo"
  else if ft =? 6 then "socket"
  else if ft =? 7 then "symlink"
  else "unknown".

Definition DirEntryDTO (e : Z * list byte * Z) : json :=
  let '(inum, name, ft) := e in
  JObj [ ("name", JText name); ("inode", JNum inum); ("file_type", JNum ft);
         ("type_name", JStr (fileTypeName ft)) ]%string.
Definition ReadDirResponse (path : list byte) (entries : list (Z * list byte * Z)) : json :=
  JObj [("path", JText path); ("entries", JList (DirEntryDTO <$> entries))]%string.
Definition ReadResponse (path : list byte) (offset : Z) (data : list byte) : json :=
  JObj [ ("path", JText path); ("offset", JNum offset); ("length", JNum (Z.of_nat (length data)));
         ("content", JText (encode64 data)) ]%string.
Definition WriteResponse (path : list byte) (written : Z) : json :=
  JObj [("path", JText path); ("written", JNum written)]%string.
Definition XAttrGetResponse (path name value : list byte) : json :=
  JObj [("path", JText path); ("name", JText name); ("value", JText value)]%string.
Definition XAttrListResponse (path : list byte) (names : list (list byte)) : json :=
  JObj [("path", JText path); ("names", JList (JText <$> names))]%string.
Definition ShellResponse (r : Reply) (prompt : string) : json :=
  JObj [("output", JList [JReply r; JStr prompt])]%string.

(** ** Handlers *)

Definition Query : Type := string -> list byte.

Definition apiCred : Credential := RootCredential.

(** [if v, err := m; err != nil { fail(err); return }] *)
Definition attempt {S A} (m : M S A) (fail : error -> Response) (k : A -> M S Response) : M S Response :=
  r ← tryM m;
  match r with inl a => k a | inr err => mret (fail err) end.
(** A body that does not decode is a bad request. *)
Definition decodeJSON {S T} (req : T + error) (k : T -> M S Response) : M S Response :=
  match req with inl req => k req | inr err => mret (writeError StatusBadRequest err) end.
(** [path := r.URL.Query().Get("path")], which must not be empty. *)
Definition withPath {S} (q : Query) (k : list byte -> M S Response) : M S Response :=
  if bool_decide (q "path"%string = []) then mret (missing "path") else k (q "path"%string).

Section with_order.
Context {O : MapOrder} {TF : TimeFormat}.

(** [di, _ := s.fs.ReadInode(inum)] and its mode string. *)
Definition modeStrOf (inum : Z) : M Filesystem (list byte) :=
  di ← tryM (fsReadInode inum);
  mret (match di with inl di => ModeString di | inr _ => [] end).

Definition statHandler (stat : Credential -> list byte -> M Filesystem StatInfo) (q : Query) : M Shell Response :=
  withPath q (fun path =>
    attempt (onShFs (stat apiCred path)) (writeError StatusNotFound) (fun si =>
      modeStr ← onShFs (modeStrOf (si_Inode si));
      mret (writeJSON StatusOK (StatResponse si modeStr)))).
Definition handleStat : Query -> M Shell Response := statHandler Stat.
Definition handleLstat : Query -> M Shell Response := statHandler Lstat.

Definition handleReadDir (q : Query) : M Shell Response :=
  let path := if bool_decide (q "path"%string = []) then [slash] else q "path"%string in
  attempt (onShFs (ReadDir apiCred path)) writeFSError (fun entries =>
    mret (writeJSON StatusOK (ReadDirResponse path entries))).

(** A handler that runs one operation and answers [OKResponse{OK: true}]. *)
Definition perform (m : M Filesystem unit) : M Shell Response :=
  attempt (onShFs m) writeFSError (fun _ => mret okay).

(** [if req.Mode == 0 { req.Mode = mode }] *)
Definition modeOr (mode m : Z) : Z := if m =? 0 then mode else m.

Definition handleMkdir (now : Z) (req : MkdirRequest + error) : M Shell Response :=
  decodeJSON req (fun req => perform (Mkdir now apiCred (mk_Path req) (modeOr 0x1ED (mk_Mode req)))).

Definition handleRmdir (now : Z) (q : Query) : M Shell Response :=
  withPath q (fun path => perform (Rmdir now apiCred path)).

Definition handleRead (now : Z) (q : Query) : M Shell Response :=
  withPath q (fun path =>
    attempt (onShFs (Resolve apiCred path)) writeFSError (fun inum =>
      attempt (onShFs (fsReadInode inum)) writeFSError (fun di =>
        (if SizeOf di <? 0 then panic else mret tt) ;;
        attempt (onShFs (Read now apiCred inum 0 (SizeOf di))) writeFSError (fun data =>
          mret (writeJSON StatusOK (ReadResponse path 0 data)))))).

(** The content is taken for base64 when it can be, and as it is else. *)
Definition contentOf (content : list byte) : list byte := default content (decode64 content).

Definition handleWrite (now : Z) (req : WriteRequest + error) : M Shell Response :=
  decodeJSON req (fun req =>
    attempt (onErr (onShFs (Resolve apiCred (wr_Path req))) (fun _ => onShFs (Create now apiCred (wr_Path req) 0x1A4)))
      writeFSError (fun inum =>
      attempt (onShFs (Write now apiCred inum (wr_Offset req) (contentOf (wr_Content req)))) writeFSError (fun n =>
        mret (writeJSON StatusOK (WriteResponse (wr_Path req) n))))).

Definition handleCreate (now : Z) (req : CreateRequest + error) : M Shell Response :=
  decodeJSON req (fun req =>
    attempt (onShFs (Create now apiCred (cr_Path req) (modeOr 0x1A4 (cr_Mode req)))) writeFSError (fun inum =>
      mret (writeJSON StatusOK (JObj [("ok", JBool true); ("inode", JNum inum)]%string)))).

Definition handleUnlink (now : Z) (q : Query) : M Shell Response :=
  withPath q (fun path => perform (Unlink now apiCred path)).

Definition handleTruncate (now : Z) (req : TruncateRequest + error) : M Shell Response :=
  decodeJSON req (fun req =>
    attempt (onShFs (Resolve apiCred (tr_Path req))) writeFSError (fun inum =>
      perform (Truncate now apiCred inum (tr_Size req)))).

Definition handleLink (now : Z) (req : LinkRequest + error) : M Shell Response :=
  decodeJSON req (fun req => perform (Link now apiCred (ln_OldPath req) (ln_NewPath req))).

Definition handleSymlink (now : Z) (req : SymlinkRequest + error) : M Shell Response :=
  decodeJSON req (fun req => perform (Symlink now apiCred (sl_Target req) (sl_Path req))).

Definition handleReadLink (q : Query) : M Shell Response :=
  withPath q (fun path =>
    attempt (onShFs (ReadLink apiCred path)) writeFSError (fun target =>
      mret (writeJSON StatusOK (JObj [("target", JText target)]%string)))).

Definition handleRename (now : Z) (req : RenameRequest + error) : M Shell Response :=
  decodeJSON req (fun req => perform (Rename now apiCred (rn_OldPath req) (rn_NewPath req))).

Definition handleChmod (now : Z) (req : ChmodRequest + error) : M Shell Response :=
  decodeJSON req (fun req => perform (Chmod now apiCred (cm_Path req) (cm_Mode req))).

Definition handleChown (now : Z) (req : ChownRequest + error) : M Shell Response :=
  decodeJSON req (fun req => perform (Chown now apiCred (co_Path req) (co_UID req) (co_GID req))).

Definition handleUtimes (now : Z) (req : UtimesRequest + error) : M Shell Response :=
  decodeJSON req (fun req =>
    perform (Utimes now apiCred (ut_Path req) (Some (default now (ut_ATime req))) (Some (default now (ut_MTime req))))).

Definition withPathAndName (q : Query) (k : list byte -> list byte -> M Shell Response) : M Shell Response :=
  if bool_decide (q "path"%string = []) || bool_decide (q "name"%string = []) then mret (missing "path or name")
  else k (q "path"%string) (q "name"%string).

Definition handleGetXAttr (q : Query) : M Shell Response :=
  withPathAndName q (fun path name =>
    attempt (onShX (GetXAttr apiCred path name)) writeFSError (fun val =>
      mret (writeJSON StatusOK (XAttrGetResponse path name val)))).

Definition handleSetXAttr (req : XAttrRequest + error) : M Shell Response :=
  decodeJSON req (fun req =>
    attempt (onShX (SetXAttr apiCred (xa_Path req) (xa_Name req) (xa_Value req))) writeFSError (fun _ => mret okay)).

Definition handleListXAttr (q : Query) : M Shell Response :=
  withPath q (fun path =>
    attempt (onShX (ListXAttr apiCred path)) writeFSError (fun names =>
      mret (writeJSON StatusOK (XAttrListResponse path names)))).

Definition handleRemoveXAttr (q : Query) : M Shell Response :=
  withPathAndName q (fun path name =>
    attempt (onShX (RemoveXAttr apiCred path name)) writeFSError (fun _ => mret okay)).

(** ** The shell over HTTP *)

Definition handleShellCommand (fuel : nat) (now : Z) (req : ShellRequest + error) : M Shell (option Response) :=
  match req with
  | inr err => mret (Some (writeError StatusBadRequest err))
  | inl req =>
      output ← Execute fuel now (sh_Command req);
      mret ((fun output => writeJSON StatusOK (ShellResponse output "")) <$> output)
  end.

(** The loop over the messages of a connection, up to its end: each is a
    request, or else a command as it is, at the time that goes with it. *)
Fixpoint shellSession (fuel : nat) (msgs : list (Z * list byte * option ShellRequest)) : M Shell (option (list json)) :=
  match msgs with
  | [] => mret (Some [])
  | (now, msg, req) :: msgs =>
      output ←? Execute fuel now (match req with Some req => sh_Command req | None => msg end);
      rest ←? shellSession fuel msgs;
      mret (Some (ShellResponse output "$ " :: rest))
  end.
Definition handleShellWebSocket (fuel : nat) (msgs : list (Z * list byte * option ShellRequest))
    : M Shell (option (list json)) :=
  outputs ←? shellSession fuel msgs;
  mret (Some (ShellResponse (Printed (Text (str "fs-engine shell. Type 'help' for commands." ++ newline))) "$ " :: outputs)).

End with_order.

(** [RecoveryMiddleware]: a panic of a handler is an internal server error.
    Handlers return no errors. *)
Definition recovered {S} (h : M S Response) (s : S) : Response * S :=
  match h s with
  | (Ok r, s') => (r, s')
  | (_, s') => (writeJSON StatusInternalServerError (JStr "internal server error"), s')
  end.
