(* ===== verification/Inspect.v ===== *)
(** * Inspect: the read-only views of [api/handler_inspect.go]

    They read the device, the caches and the journal of the file system of the
    session, and describe them in JSON. *)

From Stdlib Require Import Sorting.Sorted.
From S2P Require Export Api.

(** ** Superblock, inodes, bitmaps *)

(** [strings.TrimRight(s, "\x00")] *)
Fixpoint trimLeftZeros (s : list byte) : list byte :=
  match s with c :: s' => if bool_decide (c = x00) then trimLeftZeros s' else s | [] => [] end.
Definition trimZeros (s : list byte) : list byte := rev (trimLeftZeros (rev s)).

Definition SuperblockResponse (sb : DiskSuperblock) : json :=
  JObj [ ("magic", JNum (Magic sb)); ("inode_count", JNum (sb_InodeCount sb)); ("block_count", JNum (sb_BlockCount sb));
         ("free_inodes", JNum (FreeInodes sb)); ("free_blocks", JNum (FreeBlocks sb));
         ("block_size", JNum (sb_BlockSize sb)); ("inode_size", JNum (sb_InodeSize sb)); ("state", JNum (State sb));
         ("mount_count", JNum (MountCount sb)); ("version", JNum (Version sb));
         ("volume_name", JText (trimZeros (VolumeName sb))) ]%string.

(** The number in the path of a request; [None] when it is no 32-bit number. *)
Definition urlNumber (s : list byte) : option Z := ParseUint 10 s.

(** [fmt.Sprintf("0%04o", mode)] of a 16-bit number. *)
Definition modeText (m : Z) : list byte :=
  str "0" ++ (if m <? 8 ^ 4 then oct 4 m else if m <? 8 ^ 5 then oct 5 m else oct 6 m).

Definition inodeJSON (num : Z) (di : DiskInode) (blocks : list Z) : json :=
  JObj [ ("inode", JNum num); ("mode", JText (modeText (Mode di))); ("mode_str", JText (ModeString di));
         ("uid", JNum (UID di)); ("gid", JNum (GID di)); ("size", JNum (SizeOf di)); ("links", JNum (Links di));
         ("blocks512", JNum (Blocks512 di)); ("atime", JNum (ATime di)); ("mtime", JNum (MTime di));
         ("ctime", JNum (CTime di)); ("is_dir", JBool (IsDir di)); ("is_regular", JBool (IsRegular di));
         ("is_symlink", JBool (IsSymlink di)); ("direct", JList (JNum <$> Direct di)); ("indirect1", JNum (Indirect1 di));
         ("indirect2", JNum (Indirect2 di)); ("indirect3", JNum (Indirect3 di));
         ("data_blocks", JList (JNum <$> blocks)) ]%string.

(** [used], [total] and [free] of a bitmap. *)
Definition bitmapJSON (total : Z) (bm : Bitmap) : json :=
  JObj [("used", JNum (Count bm)); ("total", JNum total); ("free", JNum (total - Count bm))]%string.

(** [float64(n) / float64(total)], 0 for nothing. *)
Definition ratio (n total : Z) : json := if 0 <? total then JRatio n total else JRatio 0 1.

Definition CacheStatsResponse (st : CacheStats) : json :=
  JObj [ ("hits", JNum (Hits st)); ("misses", JNum (Misses st)); ("evictions", JNum (Evictions st));
         ("size", JNum (st_Size st)); ("capacity", JNum (Capacity st));
         ("hit_rate", ratio (Hits st) (u64 (Hits st + Misses st))) ]%string.

Definition DfResponse (df : Z * Z * Z) : json :=
  let '(total, used, free) := df in
  JObj [ ("total_bytes", JNum total); ("used_bytes", JNum used); ("free_bytes", JNum free);
         ("total_mb", JNum (total / (1024 * 1024))); ("used_mb", JNum (used / (1024 * 1024)));
         ("free_mb", JNum (free / (1024 * 1024))) ]%string.

Definition WindowBucketDTO (b : BucketSnapshot) : json :=
  JObj [ ("ts", JNum (bk_TS b)); ("reads", JNum (bk_Reads b)); ("writes", JNum (bk_Writes b));
         ("cache_hits", JNum (bk_CacheHits b)); ("cache_miss", JNum (bk_CacheMiss b));
         ("journal_commits", JNum (bk_JournalCommits b)); ("blocks_allocated", JNum (bk_BlocksAllocated b));
         ("blocks_freed", JNum (bk_BlocksFreed b)); ("inodes_allocated", JNum (bk_InodesAllocated b));
         ("inodes_freed", JNum (bk_InodesFreed b)) ]%string.

Definition countersJSON (snap : gmap string Z) : json :=
  JObj ((fun kc : string * counter => (kc.1, JNum (mapGet kc.1 snap))) <$> snapshot_keys).
Definition MetricsResponse (snap : gmap string Z) (window : list BucketSnapshot) (hitRate : json) : json :=
  JObj (("counters"%string, countersJSON snap) ::
        (if bool_decide (window = []) then [] else [("window"%string, JList (WindowBucketDTO <$> window))]) ++
        [("hitRate"%string, hitRate)]).

(** ** Blocks *)

Definition blockTypeStr (addr : Z) : string :=
  if addr =? BootBlock then "boot"
  else if addr =? SuperblockAddr then "superblock"
  else if addr =? InodeBitmapAddr then "inode_bitmap"
  else if addr =? BlockBitmapAddr then "block_bitmap"
  else if (InodeTableStart <=? addr) && (addr <? InodeTableStart + InodeTableBlocks) then "inode_table"
  else if (JournalStart <=? addr) && (addr <? JournalStart + JournalBlocks) then "journal"
  else "data".

Definition typed (t : string) : list (string * json) := [("type"%string, JStr t)].

(** One entry of [blockMap]. *)
Definition blockEntry (dirtySet : list Z) (blockBM : Bitmap) (i : Z) : json :=
  JObj (("addr"%string, JNum i) ::
    if i =? BootBlock then typed "boot"
    else if i =? SuperblockAddr then typed "superblock"
    else if i =? InodeBitmapAddr then typed "inode_bitmap"
    else if i =? BlockBitmapAddr then typed "block_bitmap"
    else if (InodeTableStart <=? i) && (i <? InodeTableStart + InodeTableBlocks) then
      let first := (i - InodeTableStart) * 32 + 1 in
      typed "inode_table" ++ [("inode_range"%string, JList [JNum first; JNum (first + 31)])]
    else if (JournalStart <=? i) && (i <? JournalStart + JournalBlocks) then typed "journal"
    else if bool_decide (i ∈ dirtySet) then typed "cache_dirty"
    else if IsSet blockBM i then typed "data_used"
    else typed "data_free").

(** The inodes in use among the 32 of a block of the table. *)
Definition tableSlot (addr : Z) (data : block) (i : Z) : option json :=
  let off := Z.to_nat (i * InodeSize) in
  if (length data <? off + InodeLen)%nat then None
  else
    match DecodeInodeBytes (slice off InodeLen data) with
    | Ok di =>
        if 0 <? Links di then
          Some (JObj [ ("slot", JNum (u32 (u32 (u32 (addr - InodeTableStart) * 32) + i + 1)));
                       ("mode_str", JText (ModeString di)); ("size", JNum (SizeOf di)); ("links", JNum (Links di)) ]%string)
        else None
    | _ => None
    end.

Definition rawEntryJSON (e : DirEntry) : json :=
  JObj [ ("Inode", JNum (de_Inode e)); ("RecLen", JNum (de_RecLen e)); ("NameLen", JNum (de_NameLen e));
         ("FileType", JNum (de_FileType e)); ("Name", JText (de_Name e)) ]%string.

(** The part of [handleBlockDetail] that depends on the type of the block. *)
Definition interpretation (blockType : string) (addr : Z) (data : block) : list (string * json) :=
  if bool_decide (blockType = "directory_data"%string) then
    [("dir_entries"%string, JList (rawEntryJSON <$> ParseDirBlock data))]
  else if bool_decide (blockType = "inode_table"%string) then
    [("inodes"%string, JList (omap (tableSlot addr data) (seqZ 0 32)))]
  else [].
Definition blockDetail (addr : Z) (data : block) : json :=
  JObj ([ ("addr", JNum addr); ("type", JStr (blockTypeStr addr)); ("hex", JText (hexString (take 256 data)));
          ("size", JNum (Z.of_nat (length data))) ]%string ++ interpretation (blockTypeStr addr) addr data).

(** ** Trees *)

Inductive treeNode : Type := mkTreeNode {
  tn_Name : list byte; tn_Path : list byte; tn_FileType : string; tn_Size : Z; tn_Mode : list byte;
  tn_Children : list treeNode }.

(** A size of 0 and an empty list of children are left out. *)
Fixpoint treeJSON (n : treeNode) : json :=
  match n with
  | mkTreeNode name path ft size mode children =>
      JObj ([ ("name", JText name); ("path", JText path); ("fileType", JStr ft) ]%string ++
            (if size =? 0 then [] else [("size"%string, JNum size)]) ++
            [("mode"%string, JText mode)] ++
            (match children with [] => [] | _ => [("children"%string, JList (map treeJSON children))] end))
  end.

Definition fileTypeString (si : StatInfo) : string :=
  if si_IsDir si then "dir" else if si_IsLink si then "symlink" else if si_IsFile si then "file" else "unknown".

(** The last part of the path without its trailing slashes. *)
Definition lastComponent (path : list byte) : list byte :=
  if bool_decide (path = [slash]) then [slash] else default [] (last (split (trimRight path))).

(** ** Free runs *)

Record run : Type := mkRun { Start : Z; Length : Z }.

(** The variables of the loop of [handleFragmentation]: the runs so far, the
    longest, and the run that is open. *)
Record runs_state : Type := mkRuns { freeRuns : list run; largest : Z; open : option run }.

(** The end of a run. *)
Definition closeRun (s : runs_state) : runs_state :=
  match open s with
  | None => s
  | Some r => mkRuns (freeRuns s ++ [r]) (if largest s <? Length r then Length r else largest s) None
  end.
Definition runStep (bm : Bitmap) (s : runs_state) (i : Z) : runs_state :=
  if negb (IsSet bm i) then
    mkRuns (freeRuns s) (largest s)
      (Some (match open s with Some r => mkRun (Start r) (u32 (Length r + 1)) | None => mkRun i 1 end))
  else closeRun s.
Definition scanRuns (bm : Bitmap) (l : list Z) : runs_state :=
  closeRun (foldl (runStep bm) (mkRuns [] 0 None) l).

Definition dataBlocks : list Z := seqZ DataStart (TotalBlocks - DataStart).

Definition runJSON (r : run) : json := JObj [("start", JNum (Start r)); ("length", JNum (Length r))]%string.
Definition fragmentation (bm : Bitmap) : json :=
  let s := scanRuns bm dataBlocks in
  let n := Z.of_nat (length (freeRuns s)) in
  let bmCount := u32 (Count bm) in
  let used := if DataStart <? bmCount then bmCount - DataStart else 0 in
  let pct := if 1 <? n then JRatio ((n - 1) * 100) n else JRatio 0 1 in
  JObj [ ("freeBlockRuns", JList (runJSON <$> freeRuns s)); ("largestFreeRun", JNum (largest s));
         ("fragmentationPct", pct); ("totalFreeRuns", JNum n);
         ("usedDataBlocks", JNum used) ]%string.

(** ** Handlers *)

Section with_order.
Context {O : MapOrder} {TF : TimeFormat}.

Definition handleSuperblock : M Shell Response :=
  sb ← onShFs (gets f_sb);
  mret (writeJSON StatusOK (SuperblockResponse sb)).

Definition handleInspectInode (numStr : list byte) : M Shell Response :=
  match urlNumber numStr with
  | None => mret (writeError StatusBadRequest (Errorf "invalid inode number" []))
  | Some num =>
      if num =? 0 then mret (writeError StatusBadRequest (Errorf "invalid inode number" []))
      else
        attempt (onShFs (onFsDev (ReadInode num))) (writeError StatusNotFound) (fun di =>
          blocks ← tryM (onShFs (onFsDev (BlockList di)));
          mret (writeJSON StatusOK (inodeJSON num di (match blocks with inl l => l | inr _ => [] end))))
  end.

Definition bitmapHandler (total : Z) (read : M BlockDevice Bitmap) : M Shell Response :=
  attempt (onShFs (onFsDev read)) (writeError StatusInternalServerError) (fun bm =>
    mret (writeJSON StatusOK (bitmapJSON total bm))).
Definition handleBlockBitmap : M Shell Response := bitmapHandler TotalBlocks ReadBlockBitmap.
Definition handleInodeBitmap : M Shell Response := bitmapHandler InodeCount ReadInodeBitmap.

Definition handleCacheStats : M Shell Response :=
  stats ← onShFs (onFsBuf Stats);
  mret (writeJSON StatusOK (CacheStatsResponse stats)).

Definition handleDf : M Shell Response :=
  df ← onShFs (gets Df);
  mret (writeJSON StatusOK (DfResponse df)).

(** [w] is the rolling window of the metrics; [n] numbers the loop over the
    snapshot, a map.  The text of the [prometheus] format is [inr]. *)
Definition handleMetrics (w : WindowedStats) (n : nat) (q : Query) : M Shell (Response + list byte) :=
  m ← onShFs (gets f_metrics);
  match m with
  | None => panic
  | Some m =>
      let snap := MSnapshot m in
      if bool_decide (q "format"%string = str "prometheus") then
        let line (key : string) := str "fs_engine_" ++ ((fun c => if bool_decide (c = x2d) then x5f else c) <$> str key) ++
          [space] ++ dec (mapGet key snap) in
        mret (inr (joinWith newline (line <$> range n (fst <$> snapshot_keys)) ++ newline))
      else
        let hits := mapGet "cache_hits" snap in
        let total := i64 (hits + mapGet "cache_miss" snap) in
        mret (inl (writeJSON StatusOK (MetricsResponse snap (Window w) (ratio hits total))))
  end.

Definition handleDiskLayout : M Shell Response :=
  attempt (onShFs (onFsDev ReadBlockBitmap)) (writeError StatusInternalServerError) (fun blockBM =>
    stats ← onShFs (onFsBuf Stats);
    sb ← onShFs (gets f_sb);
    let state := if State sb =? StateError then "error"%string else "clean"%string in
    mret (writeJSON StatusOK (JObj [
      ("totalBlocks", JNum TotalBlocks); ("blockSize", JNum BlockSize);
      ("superblock", JObj [ ("freeBlocks", JNum (FreeBlocks sb)); ("freeInodes", JNum (FreeInodes sb));
                            ("state", JStr state) ]);
      ("blockMap", JList (blockEntry (DirtyAddrs stats) blockBM <$> seqZ 0 TotalBlocks)) ]%string))).

Definition handleBlockDetail (addrStr : list byte) : M Shell Response :=
  match urlNumber addrStr with
  | None => mret (writeError StatusBadRequest (Errorf "invalid block address" []))
  | Some addr =>
      attempt (onShFs (onFsDev (ReadBlock addr))) (writeError StatusNotFound) (fun data =>
        mret (writeJSON StatusOK (blockDetail addr data)))
  end.

Definition txJSON (tx : TxRecord) : json :=
  JObj [ ("id", JNum (tx_ID tx)); ("status", JStr (tx_Status tx)); ("blocks", JList (JNum <$> tx_Blocks tx));
         ("timestamp", JTime (tx_Timestamp tx)); ("operations", JList (JStr <$> tx_Ops tx)) ]%string.
Definition handleJournalInspect : M Shell Response :=
  txns ← onShFs (fun f => (RecentTransactions 32 (fs_journal f), f));
  sequence ← onShFs (gets (fun f => CurrentSequence (fs_journal f)));
  mret (writeJSON StatusOK (JObj [("sequence", JNum sequence); ("entries", JList (txJSON <$> txns))]%string)).

(** The children of a node: those that cannot be described are left out. *)
Fixpoint collect {S A B} (f : A -> M S B) (l : list A) : M S (list B) :=
  match l with
  | [] => mret []
  | x :: l =>
      r ← tryM (f x);
      rest ← collect f l;
      mret (match r with inl b => b :: rest | inr _ => rest end)
  end.
Fixpoint buildTree (cred : Credential) (path : list byte) (depth : nat) : M Filesystem treeNode :=
  si ← Stat cred path;
  modeStr ← modeStrOf (si_Inode si);
  let node := mkTreeNode (lastComponent path) path (fileTypeString si) (si_Size si) modeStr in
  match depth with
  | S depth =>
      if si_IsDir si then
        entries ← tryM (ReadDir cred path);
        match entries with
        | inr _ => mret (node [])
        | inl entries =>
            children ← collect (fun e : Z * list byte * Z => buildTree cred (below path e.1.2) depth)
              (filter (fun e : Z * list byte * Z => isDot e.1.2 = false) entries);
            mret (node children)
        end
      else mret (node [])
  | 0%nat => mret (node [])
  end.

(** [depth] is what [strconv.Atoi] makes of the parameter, if it is a number. *)
Definition handleTree (depth : option Z) (q : Query) : M Shell Response :=
  let path := if bool_decide (q "path"%string = []) then [slash] else q "path"%string in
  let depth := match depth with Some d => if 0 <? d then d else 3 | None => 3 end in
  attempt (onShFs (buildTree RootCredential path (Z.to_nat depth))) (writeError StatusInternalServerError) (fun node =>
    mret (writeJSON StatusOK (treeJSON node))).

Definition handleFragmentation : M Shell Response :=
  attempt (onShFs (onFsDev ReadBlockBitmap)) (writeError StatusInternalServerError) (fun bm =>
    mret (writeJSON StatusOK (fragmentation bm))).

Definition handleFormat (now now' : Z) (rnd : list byte) : M Shell Response :=
  attempt (onShFs (Reformat now now' rnd)) (writeError StatusInternalServerError) (fun _ =>
    mret (writeJSON StatusOK (OKResponse "filesystem reformatted"))).

Definition handleFsck (fuel : nat) : M Shell (option Response) :=
  result ← onShFs (onFsDev (FsckFull fuel));
  mret ((fun r => writeJSON StatusOK (JReport r)) <$> result).

Definition handleCrash : M Shell Response :=
  attempt (onShFs SimulateCrash) (writeError StatusInternalServerError) (fun _ =>
    mret (writeJSON StatusOK (OKResponse "crash simulated; filesystem recovered via journal replay"))).

End with_order.

(** ** The free runs are the maximal ones *)

Definition apart (r r' : run) : Prop := Start r + Length r < Start r'.
Definition covers (b : Z) (r : run) : Prop := Start r <= b < Start r + Length r.

(** [l] lists the maximal runs of clear bits of [bm] between [a] and [k], in
    order. *)
Record maximal_runs (bm : Bitmap) (a k : Z) (l : list run) : Prop := {
  mr_within : Forall (fun r => a <= Start r /\ 0 < Length r /\ Start r + Length r <= k) l;
  mr_apart : StronglySorted apart l;
  mr_cover : forall b, a <= b < k -> IsSet bm b = false <-> Exists (covers b) l;
}.

Definition runsOf (s : runs_state) : list run := freeRuns s ++ match open s with Some r => [r] | None => [] end.

Record scanned (bm : Bitmap) (a k : Z) (s : runs_state) : Prop := {
  sc_runs : maximal_runs bm a k (runsOf s);
  sc_closed : Forall (fun r => Start r + Length r < k) (freeRuns s);
  sc_open : forall r, open s = Some r -> Start r + Length r = k;
  sc_largest : largest s = foldr Z.max 0 (Length <$> freeRuns s);
}.

Lemma sorted_snoc (l : list run) r : StronglySorted apart (l ++ [r]) <-> StronglySorted apart l /\ Forall (fun x => apart x r) l.
Proof.
  induction l as [|x l IH]; cbn [app].
  - split; [by repeat constructor|]. intros _. repeat constructor.
  - split.
    + intros H. inversion H as [|? ? Hs Hf]; subst. apply IH in Hs as [Hs Hr]. apply Forall_app in Hf as [Hf Hx].
      rewrite ->Forall_singleton in Hx. split; constructor; done.
    + intros [H Hr]. inversion H as [|? ? Hs Hf]; subst. apply Forall_cons in Hr as [Hx Hr].
      constructor; [by apply IH|]. apply Forall_app. by rewrite Forall_singleton.
Qed.

Lemma Exists_snoc (P : run -> Prop) l r : Exists P (l ++ [r]) <-> Exists P l \/ P r.
Proof. rewrite Exists_app Exists_cons Exists_nil. tauto. Qed.

Lemma max_snoc l n : foldr Z.max 0 (l ++ [n]) = Z.max (foldr Z.max 0 l) (Z.max n 0).
Proof. induction l as [|m l IH]; cbn [app foldr]; [lia|]. rewrite IH. lia. Qed.

(** Blocks before [k] are covered by no run that starts at [k], and [k] by no
    run that ends before. *)
Lemma not_covered l b : Forall (fun r => Start r + Length r <= b) l -> ~ Exists (covers b) l.
Proof. intros Hf [r [Hr Hc]]%Exists_exists. rewrite Forall_forall in Hf. specialize (Hf r Hr). rewrite /covers in Hc. lia. Qed.

Lemma within_weaken (a k : Z) (l : list run) :
  Forall (fun r => a <= Start r /\ 0 < Length r /\ Start r + Length r <= k) l ->
  Forall (fun r => a <= Start r /\ 0 < Length r /\ Start r + Length r <= k + 1) l.
Proof. intros H. apply (Forall_impl _ _ _ H). intros r. lia. Qed.

Lemma runStep_extend bm a k s r :
  a <= k < 2 ^ 31 -> 0 <= a -> scanned bm a k s -> open s = Some r -> IsSet bm k = false ->
  scanned bm a (k + 1) (mkRuns (freeRuns s) (largest s) (Some (mkRun (Start r) (u32 (Length r + 1))))).
Proof.
  intros Hk Ha [[Hw Hs Hc] Hcl Ho Hl] Er Hf. specialize (Ho r Er). rewrite /runsOf Er in Hw Hs Hc.
  apply Forall_app in Hw as [Hw Hr]. rewrite ->Forall_singleton in Hr. apply sorted_snoc in Hs as [Hs Hap].
  rewrite u32_small; [lia|]. split; cbn [freeRuns largest open runsOf].
  - split; rewrite /runsOf; cbn [freeRuns open].
    + apply Forall_app. split; [by apply within_weaken|]. rewrite ->Forall_singleton. cbn. lia.
    + by apply sorted_snoc.
    + intros b Hb. destruct (decide (b = k)) as [->|Hne].
      * rewrite Hf Exists_snoc. split; [|done]. intros _. right. rewrite /covers /=. lia.
      * rewrite Hc; [lia|]. rewrite !Exists_snoc /covers /=. intuition lia.
  - apply (Forall_impl _ _ _ Hcl). intros x. lia.
  - intros x [= <-]. cbn. lia.
  - done.
Qed.

Lemma runStep_start bm a k s :
  a <= k -> scanned bm a k s -> open s = None -> IsSet bm k = false ->
  scanned bm a (k + 1) (mkRuns (freeRuns s) (largest s) (Some (mkRun k 1))).
Proof.
  intros Hk [[Hw Hs Hc] Hcl Ho Hl] Er Hf. rewrite /runsOf Er app_nil_r in Hw Hs Hc.
  split; cbn [freeRuns largest open runsOf].
  - split; rewrite /runsOf; cbn [freeRuns open].
    + apply Forall_app. split; [by apply within_weaken|]. rewrite ->Forall_singleton. cbn. lia.
    + apply sorted_snoc. split; [done|]. exact Hcl.
    + intros b Hb. rewrite Exists_snoc /covers /=. destruct (decide (b = k)) as [->|Hne].
      * rewrite Hf. split; [|done]. intros _. right. lia.
      * rewrite Hc; [lia|]. intuition lia.
  - apply (Forall_impl _ _ _ Hcl). intros x. lia.
  - intros x [= <-]. cbn. lia.
  - done.
Qed.

Lemma closeRun_scanned bm a k s :
  scanned bm a k s ->
  let s' := closeRun s in
  open s' = None /\ runsOf s' = runsOf s /\ freeRuns s' = runsOf s /\ largest s' = foldr Z.max 0 (Length <$> freeRuns s').
Proof.
  intros [[Hw _ _] _ _ Hl]. rewrite /closeRun /runsOf. destruct (open s) as [r|] eqn:Er; cbn [open freeRuns largest].
  - rewrite /runsOf Er in Hw. apply Forall_app in Hw as [_ Hr]. rewrite ->Forall_singleton in Hr.
    rewrite app_nil_r. split_and!; [done|done|done|]. rewrite fmap_app max_snoc -Hl.
    destruct (Z.ltb_spec (largest s) (Length r)); lia.
  - rewrite Er app_nil_r. done.
Qed.

Lemma runStep_scanned bm a k s :
  0 <= a <= k -> k < 2 ^ 31 -> scanned bm a k s -> scanned bm a (k + 1) (runStep bm s k).
Proof.
  intros Ha Hk Hs. rewrite /runStep. destruct (IsSet bm k) eqn:E; cbn [negb].
  - destruct (closeRun_scanned _ _ _ _ Hs) as (Ho & Hr & Hf & Hl). destruct Hs as [[Hw Hs Hc] Hcl Hop _].
    assert (Forall (fun r => Start r + Length r <= k) (runsOf s)) as Hle.
    { apply (Forall_impl _ _ _ Hw). intros r. lia. }
    split; [split| | |done]; rewrite ?Hr ?Hf.
    + by apply within_weaken.
    + done.
    + intros b Hb. destruct (decide (b = k)) as [->|Hne]; [|apply Hc; lia].
      rewrite E. split; [done|]. intros Hx. by destruct (not_covered _ _ Hle).
    + apply (Forall_impl _ _ _ Hle). intros r. lia.
    + intros r. by rewrite Ho.
  - destruct (open s) as [r|] eqn:Eo; [apply runStep_extend; [lia|lia|done..]|apply runStep_start; [lia|done..]].
Qed.

Lemma scan_scanned bm a k n s :
  0 <= a <= k -> 0 <= n -> k + n < 2 ^ 31 -> scanned bm a k s ->
  scanned bm a (k + n) (foldl (runStep bm) s (seqZ k n)).
Proof.
  intros Ha Hn. revert k s Ha. pattern n. apply natlike_ind; [| |exact Hn]; clear n Hn.
  - intros k s Ha Hk Hs. by rewrite Z.add_0_r.
  - intros n Hn IH k s Ha Hk Hs. rewrite seqZ_cons; [lia|]. cbn [foldl].
    replace (k + Z.succ n) with ((k + 1) + n) by lia. replace (Z.pred (Z.succ n)) with n by lia.
    rewrite -(Z.add_1_r k). apply IH; [lia|lia|]. apply runStep_scanned; [lia|lia|done].
Qed.

Lemma scanRuns_correct bm a n :
  0 <= a -> 0 <= n -> a + n < 2 ^ 31 ->
  let s := scanRuns bm (seqZ a n) in
  maximal_runs bm a (a + n) (freeRuns s) /\ largest s = foldr Z.max 0 (Length <$> freeRuns s).
Proof.
  intros Ha Hn Hb. assert (scanned bm a a (mkRuns [] 0 None)) as H0.
  { split; [split| | |]; cbn; [by constructor..|intros b; lia|by constructor|done|done]. }
  pose proof (scan_scanned bm a a n _ ltac:(lia) Hn Hb H0) as Hs.
  destruct (closeRun_scanned _ _ _ _ Hs) as (_ & _ & Hf & Hl). rewrite /scanRuns. split; [|done].
  rewrite Hf. apply Hs.
Qed.

(** The fragmentation view.  The free runs that [handleFragmentation]
    reports are the maximal runs of free data blocks, in order: each lies in
    the data area, they do not touch, and together they hold exactly the free
    data blocks; the largest is their maximum, 0 when there is none. *)
Theorem free_runs_correct bm :
  let s := scanRuns bm dataBlocks in
  maximal_runs bm DataStart TotalBlocks (freeRuns s) /\ largest s = foldr Z.max 0 (Length <$> freeRuns s).
Proof. exact (scanRuns_correct bm DataStart (TotalBlocks - DataStart) ltac:(done) ltac:(done) ltac:(done)). Qed.
