(* ===== verification/Server.v ===== *)
(** * Server: origins, events and the start of the process

    [api/origin.go] and the CORS part of [api/middleware.go], the bus of
    [api/sse.go] that passes the events of the file system on to its clients,
    and the choice of [cmd/server/main.go] between mounting and formatting.
    Requests, routes and the log are in [Routes]. *)

From S2P Require Export Inspect.

(** ** Origins *)

(** What the code uses of [net/url] and [strings] on host names: the host of a
    URL ([None] when it does not parse), lower case, and equality up to case. *)
Class Hosts : Type := {
  urlHost : list byte -> option (list byte);
  toLower : list byte -> list byte;
  equalFold : list byte -> list byte -> bool;
}.

Definition defaultOrigins : list (list byte) :=
  str <$> [ "http://localhost:5173"; "http://127.0.0.1:5173"; "http://localhost:4173"; "http://127.0.0.1:4173";
            "http://localhost:8080"; "http://127.0.0.1:8080" ]%string.

(** [strings.Split(s, ",")] *)
Fixpoint splitComma (s : list byte) : list (list byte) :=
  match s with
  | [] => [[]]
  | c :: s =>
      match splitComma s with
      | part :: parts => if bool_decide (c = x2c) then [] :: part :: parts else (c :: part) :: parts
      | [] => []
      end
  end.

(** [env] is the value of [FS_ENGINE_ALLOWED_ORIGINS], empty when unset. *)
Definition configuredOrigins (env : list byte) : list (list byte) :=
  let env := trimSpace env in
  if bool_decide (env = []) then defaultOrigins
  else filter (fun p => p <> []) (trimSpace <$> splitComma env).

Section origins.
Context {H : Hosts}.

Definition allowedOrigin (env origin requestHost : list byte) : bool :=
  if bool_decide (origin = []) then true
  else
    match urlHost origin with
    | None => false
    | Some host =>
        bool_decide (toLower host = toLower requestHost) || existsb (equalFold origin) (configuredOrigins env)
    end.

(** What [CORSMiddleware] does with a request: the origin it puts in
    [Access-Control-Allow-Origin], and the status it answers with itself. *)
Definition CORSMiddleware (env origin requestHost method : list byte) : option (list byte) * option Z :=
  let allowed := allowedOrigin env origin requestHost in
  (if allowed && negb (bool_decide (origin = [])) then Some origin else None,
   if bool_decide (method = str "OPTIONS") then
     if negb (bool_decide (origin = [])) && negb allowed then Some StatusForbidden else Some 204
   else None).

(** Another site is told it may read a response only when it is the host that
    was asked, or configured. *)
Lemma CORS_safe env origin requestHost method o :
  (CORSMiddleware env origin requestHost method).1 = Some o ->
  o = origin /\ exists host, urlHost origin = Some host /\
    (toLower host = toLower requestHost \/ exists c, c ∈ configuredOrigins env /\ equalFold origin c = true).
Proof.
  rewrite /CORSMiddleware /=. destruct (allowedOrigin _ _ _) eqn:E; [|done]. case_bool_decide as Ho; [done|].
  intros [= <-]. split; [done|]. revert E. rewrite /allowedOrigin bool_decide_false //.
  destruct (urlHost origin) as [host|]; [|done]. intros [Hh|Hc]%orb_true_iff; exists host; (split; [done|]).
  - left. by apply bool_decide_eq_true in Hh.
  - right. apply existsb_exists in Hc as (c & Hin & Hc). exists c. by rewrite list_elem_of_In.
Qed.

End origins.

(** ** The bus of events *)

(** A channel of [SSEEvent]s: what is in it, and whether it is closed. *)
Record Channel : Type := mkChannel { ch_queue : list Event; ch_closed : bool }.

Record SSEBus : Type := mkBus {
  clients : gset nat;
  channels : gmap nat Channel;
}.

(** [make(chan SSEEvent, 32)] *)
Definition clientCapacity : nat := 32.

Definition NewSSEBus : SSEBus := mkBus ∅ ∅.

Definition send (e : Event) (c : Channel) : Channel := mkChannel (trySend clientCapacity e (ch_queue c)) (ch_closed c).

(** The channels are independent, so that the order of the loop does not
    matter. *)
Definition broadcast (e : Event) (b : SSEBus) : SSEBus :=
  mkBus (clients b) (map_imap (fun ch c => Some (if decide (ch ∈ clients b) then send e c else c)) (channels b)).

(** The new channel is [fresh]. *)
Definition Subscribe (b : SSEBus) : nat * SSEBus :=
  let ch := fresh (dom (channels b)) in
  (ch, mkBus ({[ch]} ∪ clients b) (<[ch := mkChannel [] false]> (channels b))).

(** Closing a closed channel panics. *)
Definition Unsubscribe (ch : nat) (b : SSEBus) : option SSEBus :=
  match channels b !! ch with
  | Some (mkChannel q false) => Some (mkBus (clients b ∖ {[ch]}) (<[ch := mkChannel q true]> (channels b)))
  | _ => None
  end.

(** A client takes the oldest event. *)
Definition receive (ch : nat) (b : SSEBus) : option (Event * SSEBus) :=
  match channels b !! ch with
  | Some (mkChannel (e :: q) closed) => Some (e, mkBus (clients b) (<[ch := mkChannel q closed]> (channels b)))
  | _ => None
  end.

(** The states the bus can reach by broadcasts, clients that come and go, and
    clients that read, in any order; with the events broadcast to each client
    since it came and those it has read. *)
Inductive reaches : SSEBus -> (nat -> list Event) -> (nat -> list Event) -> Prop :=
  | reaches_new : reaches NewSSEBus (fun _ => []) (fun _ => [])
  | reaches_broadcast b sent got e :
      reaches b sent got ->
      reaches (broadcast e b) (fun ch => if decide (ch ∈ clients b) then sent ch ++ [e] else sent ch) got
  | reaches_subscribe b sent got :
      reaches b sent got -> reaches (Subscribe b).2 sent got
  | reaches_unsubscribe b sent got ch b' :
      reaches b sent got -> Unsubscribe ch b = Some b' -> reaches b' sent got
  | reaches_receive b sent got ch e b' :
      reaches b sent got -> receive ch b = Some (e, b') ->
      reaches b' sent (fun x => if decide (x = ch) then got x ++ [e] else got x).

(** What holds of every channel, and of the numbers that are none yet. *)
Record channel_ok (b : SSEBus) (sent got : nat -> list Event) (ch : nat) (c : Channel) : Prop := {
  ck_open : ch ∈ clients b -> ch_closed c = false;
  ck_room : (length (ch_queue c) <= clientCapacity)%nat;
  ck_order : sublist (got ch ++ ch_queue c) (sent ch);
  ck_all : (length (sent ch) <= clientCapacity)%nat -> got ch ++ ch_queue c = sent ch;
}.
Record bus_ok (b : SSEBus) (sent got : nat -> list Event) : Prop := {
  bk_channels : forall ch c, channels b !! ch = Some c -> channel_ok b sent got ch c;
  bk_clients : forall ch, ch ∈ clients b -> is_Some (channels b !! ch);
  bk_none : forall ch, channels b !! ch = None -> sent ch = [] /\ got ch = [];
}.

Lemma trySend_cases {A} n (x : A) q :
  (length q < n)%nat /\ trySend n x q = q ++ [x] \/ (n <= length q)%nat /\ trySend n x q = q.
Proof. rewrite /trySend. destruct (Nat.ltb_spec (length q) n); tauto. Qed.

Lemma send_ok b sent got e ch c :
  ch ∈ clients b -> channel_ok b sent got ch c ->
  channel_ok (broadcast e b) (fun x => if decide (x ∈ clients b) then sent x ++ [e] else sent x) got ch (send e c).
Proof.
  intros Hin [Ho Hr Hs Ha]. destruct (trySend_cases clientCapacity e (ch_queue c)) as [[Hl E]|[Hl E]];
    split; rewrite /= ?E ?(decide_True _ _ Hin).
  - done.
  - rewrite length_app /=. lia.
  - rewrite app_assoc. by apply sublist_app.
  - rewrite length_app /= => Hn. rewrite app_assoc Ha //. lia.
  - done.
  - done.
  - by apply sublist_inserts_r.
  - rewrite length_app /= => Hn. apply sublist_length in Hs. rewrite length_app in Hs. lia.
Qed.

Lemma bus_invariant b sent got : reaches b sent got -> bus_ok b sent got.
Proof.
  induction 1 as [|b sent got e _ [IHc IHi IHn]|b sent got _ [IHc IHi IHn]|b sent got ch b' _ [IHc IHi IHn] HU
    |b sent got ch e b' _ [IHc IHi IHn] HR].
  - split; [done|intros ch; cbn; set_solver|done].
  - split.
    + intros ch c. cbn. rewrite map_lookup_imap. destruct (channels b !! ch) as [c0|] eqn:E; [|done].
      intros [= <-]. specialize (IHc ch c0 E). case_decide as Hin; [by apply send_ok|].
      destruct IHc as [Ho Hr Hs Ha]. by split; rewrite /= ?(decide_False _ _ Hin).
    + intros ch Hch. cbn. rewrite map_lookup_imap. destruct (IHi ch Hch) as [c ->]. by eexists.
    + intros ch. cbn. rewrite map_lookup_imap. destruct (channels b !! ch) as [c0|] eqn:E; [done|].
      intros _. destruct (IHn ch E) as [E1 E2]. rewrite decide_False //. intros Hin. destruct (IHi ch Hin). congruence.
  - set (ch := fresh (dom (channels b))). assert (channels b !! ch = None) as Hn.
    { apply not_elem_of_dom. apply is_fresh. }
    destruct (IHn ch Hn) as [E1 E2]. split.
    + intros x c. cbn. rewrite lookup_insert_Some. intros [[<- <-]|[Hne Hx]].
      * split; rewrite /= ?E1 ?E2; [done|lia|done|done].
      * destruct (IHc x c Hx) as [Ho Hr Hs Ha]. split; [|done..]. cbn. intros Hin. apply Ho. set_solver.
    + intros x. cbn. destruct (decide (x = ch)) as [->|Hne]; [by rewrite lookup_insert_eq; eexists|].
      rewrite lookup_insert_ne; [exact (not_eq_sym Hne)|]. intros Hin. apply IHi. set_solver.
    + intros x. cbn. rewrite lookup_insert_None. intros [Hx _]. by apply IHn.
  - revert HU. rewrite /Unsubscribe. destruct (channels b !! ch) as [[q []]|] eqn:E; [done| |done]. intros [= <-]. split.
    + intros x c. cbn. rewrite lookup_insert_Some. intros [[<- <-]|[Hne Hx]].
      * destruct (IHc ch _ E) as [Ho Hr Hs Ha]. split; [|done..]. cbn. set_solver.
      * destruct (IHc x c Hx) as [Ho Hr Hs Ha]. split; [|done..]. cbn. intros Hin. apply Ho. set_solver.
    + intros x. cbn. intros [Hin Hne]%elem_of_difference. rewrite lookup_insert_ne; [set_solver|by apply IHi].
    + intros x. cbn. rewrite lookup_insert_None. intros [Hx _]. by apply IHn.
  - revert HR. rewrite /receive. destruct (channels b !! ch) as [[[|e0 q] cl]|] eqn:E; [done| |done].
    intros [= -> <-]. split.
    + intros x c. cbn. rewrite lookup_insert_Some. intros [[<- <-]|[Hne Hx]].
      * destruct (IHc ch _ E) as [Ho Hr Hs Ha]. cbn in *. split; cbn; [done|lia|..];
          rewrite decide_True // -app_assoc; done.
      * destruct (IHc x c Hx) as [Ho Hr Hs Ha]. by split; cbn; rewrite ?(decide_False _ _ (not_eq_sym Hne)).
    + intros x. cbn. destruct (decide (x = ch)) as [->|Hne]; [by rewrite lookup_insert_eq; eexists|].
      rewrite lookup_insert_ne; [exact (not_eq_sym Hne)|]. apply IHi.
    + intros x. cbn. rewrite lookup_insert_None. intros [Hx Hne]. rewrite decide_False; [congruence|]. by apply IHn.
Qed.

(** C40: the events of a client.  In every reachable state, whatever the order
    of broadcasts, arrivals, departures and reads: no client is registered with
    a closed channel, so that no broadcast panics; at most 32 events wait in a
    channel; and what a client has read and can read is, in order and without
    repetition, a part of what was broadcast while it was registered - all of
    it as long as that is at most 32 events. *)
Theorem bus_delivers b sent got ch c :
  reaches b sent got -> channels b !! ch = Some c ->
  (ch ∈ clients b -> ch_closed c = false) /\ (length (ch_queue c) <= clientCapacity)%nat /\
  sublist (got ch ++ ch_queue c) (sent ch) /\
  ((length (sent ch) <= clientCapacity)%nat -> got ch ++ ch_queue c = sent ch).
Proof. intros [Hc _ _]%bus_invariant E. by destruct (Hc ch c E). Qed.

Lemma bus_delivers_witness :
  exists b sent got c, reaches b sent got /\ channels b !! 0%nat = Some c /\ sublist (got 0%nat ++ ch_queue c) (sent 0%nat) /\
    length (sent 0%nat) = 1%nat.
Proof.
  set (e := mkEvent EventMount EventSourceFS [] [] None).
  set (b1 := (Subscribe NewSSEBus).2).
  assert (reaches b1 (fun _ => []) (fun _ => [])) as H1 by (apply reaches_subscribe, reaches_new).
  pose proof (reaches_broadcast _ _ _ e H1) as H2. eexists _, _, _, (mkChannel [e] false).
  split; [exact H2|]. split; [reflexivity|]. split; [|reflexivity].
  exact (proj1 (proj2 (proj2 (bus_delivers _ _ _ 0%nat (mkChannel [e] false) H2 eq_refl)))).
Defined.

(** ** The start of the process *)

(** A device that does not mount is formatted, whatever the error. *)
Definition openFilesystem {O : MapOrder} (format : bool) (now now' now'' : Z) (rnd : list byte) : M BlockDevice Filesystem :=
  if format then NewFormat now now' now'' rnd
  else onErr (Mount now) (fun _ => NewFormat now now' now'' rnd).
