(* ===== verification/Routes.v ===== *)
(** * Routes: requests, from the router to the answer

    [api/server.go], [api/handler_contract.go], the middleware of
    [api/middleware.go] around the handlers, the stream of [api/sse.go] and the
    life of the process in [cmd/server/main.go].  The router [chi] and the
    WebSocket library are third-party code: what they do is an argument, and
    what their documentation says of it a hypothesis where it is used. *)

From S2P Require Export Walk Server.

(** ** Requests and answers *)

(** What is outside the program when a request is served: clocks, random
    bytes, the order of the loop over the metrics and its window, and the
    bound for the shell and the consistency check, which have none in the
    code. *)
Record Outside : Type := mkOutside {
  o_now : Z; o_now' : Z; o_rnd : list byte; o_order : nat; o_window : WindowedStats; o_fuel : nat;
}.

(** What a handler sees of a request.  [in_messages] are the messages that
    come on the connection of a WebSocket, each with its time. *)
Record Input : Type := mkInput {
  in_query : Query;
  in_body : list byte;
  in_origin : list byte;
  in_host : list byte;
  in_messages : list (Z * list byte);
  in_outside : Outside;
}.

Record Request : Type := mkRequest { rq_method : string; rq_path : list byte; rq_input : Input }.

(** [Stream ch] is the response that the events of channel [ch] are written
    to; [Session] the messages written to a WebSocket; [Unfinished] a command
    that needs more turns than [o_fuel]. *)
Inductive Content : Type :=
  | JSONBody (r : Response)
  | PlainText (status : Z) (t : list byte)
  | NoBody (status : Z)
  | Stream (ch : nat)
  | Session (messages : list json)
  | Unfinished.

(** The dependencies of the server; its log is what [log.Print] is given. *)
Record AppServer : Type := mkServer { srv_sh : Shell; sseBus : SSEBus; srv_log : list json }.

Definition NewServer (fs : Filesystem) (store : xattrStore) : AppServer :=
  mkServer (NewShell fs store) NewSSEBus [].

(** Handlers work on the shell's session and the bus. *)
Definition App : Type := Shell * SSEBus.
Definition onShell {A} (m : M Shell A) : M App A := zoom fst (fun sh a => (sh, a.2)) m.

(** The parameters that [chi.URLParam] finds. *)
Definition Params : Type := list (list byte * list byte).
Fixpoint URLParam (name : string) (ps : Params) : list byte :=
  match ps with
  | [] => []
  | (n, v) :: ps => if bool_decide (n = str name) then v else URLParam name ps
  end.

Definition Handler : Type := Input -> Params -> M App Content.
Record RouteEntry : Type := mkRoute { rt_method : string; rt_pattern : string; rt_handler : Handler }.

(** [strconv.Atoi] *)
Fixpoint decimal (n : Z) (s : list byte) : option Z :=
  match s with
  | [] => Some n
  | c :: s => if 10 <=? digitValue c then None else decimal (n * 10 + digitValue c) s
  end.
Definition Atoi (s : list byte) : option Z :=
  let '(sign, digits) := match s with
                         | x2d :: s => (-1, s)
                         | x2b :: s => (1, s)
                         | s => (1, s)
                         end in
  if bool_decide (digits = []) then None
  else
    n ← decimal 0 digits;
    if (- 2 ^ 63 <=? sign * n) && (sign * n <? 2 ^ 63) then Some (sign * n) else None.

Example Atoi_ex : Atoi (str "-12") = Some (-12) /\ Atoi (str "+7") = Some 7 /\ Atoi (str "9223372036854775808") = None /\
  Atoi (str "") = None /\ Atoi (str "-") = None /\ Atoi (str "3x") = None.
Proof. by vm_compute. Qed.

(** ** What the program uses of other code *)

(** [encoding/json]: what it decodes from a body, or its error. *)
Class Decoding : Type := {
  asWrite : list byte -> WriteRequest + error; asMkdir : list byte -> MkdirRequest + error;
  asCreate : list byte -> CreateRequest + error; asLink : list byte -> LinkRequest + error;
  asSymlink : list byte -> SymlinkRequest + error; asRename : list byte -> RenameRequest + error;
  asChmod : list byte -> ChmodRequest + error; asChown : list byte -> ChownRequest + error;
  asUtimes : list byte -> UtimesRequest + error; asTruncate : list byte -> TruncateRequest + error;
  asXAttr : list byte -> XAttrRequest + error; asShell : list byte -> ShellRequest + error;
}.

(** [websocket.Upgrader.Upgrade] with what [CheckOrigin] says: the status it
    refuses a request with, if it does. *)
Class Upgrader : Type := upgrade : Input -> bool -> option Z.

(** [chi]: the number of the route that serves a method and a path, and the
    parameters in the path. *)
Inductive Routed : Type := Found (i : nat) (ps : Params) | NotFound | MethodNotAllowed.
Class Chi : Type := chiRoute : list (string * string) -> string -> list byte -> Routed.

(** The patterns of [chi] without wildcards and expressions: segments, of
    which [{name}] stands for any that is not empty. *)
Definition paramName (seg : list byte) : option (list byte) :=
  match seg with x7b :: name => Some (removelast name) | _ => None end.
Fixpoint matchSegs (pattern path : list (list byte)) : option Params :=
  match pattern, path with
  | [], [] => Some []
  | p :: pattern, seg :: path =>
      match paramName p with
      | Some name => if bool_decide (seg = []) then None else option_map (cons (name, seg)) (matchSegs pattern path)
      | None => if bool_decide (p = seg) then matchSegs pattern path else None
      end
  | _, _ => None
  end.
Definition matches (pattern : string) (path : list byte) : option Params := matchSegs (split (str pattern)) (split path).
Definition plain (pattern : string) : Prop := (x2a ∉ str pattern) /\ (x3a ∉ str pattern).

(** The methods of HTTP, which [chi] knows. *)
Definition standardMethods : list string :=
  ["CONNECT"; "DELETE"; "GET"; "HEAD"; "OPTIONS"; "PATCH"; "POST"; "PUT"; "TRACE"]%string.

(** What [chi] documents: a request is served by a route of its method whose
    pattern matches; when there is none it is not found, or, if there is one
    of another method, not allowed. *)
Record chi_documented (C : Chi) : Prop := {
  chi_found table m p i ps :
    Forall (fun r => plain r.2) table -> chiRoute table m p = Found i ps ->
    exists pattern, table !! i = Some (m, pattern) /\ matches pattern p = Some ps;
  chi_not_found table m p :
    Forall (fun r => plain r.2) table -> m ∈ standardMethods -> chiRoute table m p = NotFound ->
    forall r, r ∈ table -> matches r.2 p = None;
  chi_not_allowed table m p :
    Forall (fun r => plain r.2) table -> m ∈ standardMethods -> chiRoute table m p = MethodNotAllowed ->
    (exists r, r ∈ table /\ matches r.2 p <> None) /\ forall r, r ∈ table -> r.1 = m -> matches r.2 p = None;
}.

(** ** Handlers *)

Section server.
Context {O : MapOrder} {TF : TimeFormat} {H : Hosts} {J : Decoding} {U : Upgrader} {C : Chi}.

(** A handler that writes one JSON value. *)
Definition reply (h : Input -> M Shell Response) : Handler := fun i _ =>
  r ← onShell (h i);
  mret (JSONBody r).
Definition replyTo (param : string) (h : list byte -> M Shell Response) : Handler := fun i ps =>
  reply (fun _ => h (URLParam param ps)) i ps.
Definition replyWithin (h : Input -> M Shell (option Response)) : Handler := fun i _ =>
  r ← onShell (h i);
  mret (match r with Some r => JSONBody r | None => Unfinished end).

Definition handleHealth : Handler := reply (fun _ => mret (writeJSON StatusOK (JObj [("status", JStr "ok")]%string))).

Definition apiContractVersion : string := "v1".
Definition EventSchemaVersion : Z := 1.

(** One operation of a path of the document: a method and what it says. *)
Definition operation (path method : string) (fields : list (string * json)) : string * json :=
  (path, JObj [(method, JObj fields)]).
Definition summary (s : string) : string * json := ("summary"%string, JStr s).

Definition openAPI : json := JObj [
  ("openapi", JStr "3.1.0");
  ("info", JObj [("title", JStr "fs-engine API"); ("version", JStr apiContractVersion)]);
  ("servers", JList [JObj [("url", JStr "/api")]]);
  ("paths", JObj [
    operation "/metrics" "get" [summary "Metrics snapshot"];
    operation "/fs/stat" "get" [summary "Stat a filesystem path";
      ("parameters", JList [JObj [("name", JStr "path"); ("in", JStr "query"); ("required", JStr "true")]])];
    operation "/fs/ls" "get" [summary "List a directory"];
    operation "/fs/read" "get" [summary "Read a file"];
    operation "/fs/write" "post" [summary "Write file content"];
    operation "/fs/rename" "post" [summary "Rename or move a path"];
    operation "/fs/crash" "post" [summary "Simulate crash and replay journal"];
    operation "/inspect/disk" "get" [summary "Disk layout for visualizer"];
    operation "/inspect/inode/{num}" "get" [summary "Inspect inode details"];
    operation "/inspect/journal" "get" [summary "Recent journal transactions"]]);
  ("components", JObj [
    ("x-fs-engine", JObj [
      ("sseVersion", JNum EventSchemaVersion);
      ("sseEventShape", JObj [
        ("version", JStr "integer"); ("type", JStr "string"); ("source", JStr "string"); ("path", JStr "string");
        ("ts", JStr "RFC3339 timestamp")])])])]%string.
Definition handleOpenAPI : Handler := reply (fun _ => mret (writeJSON StatusOK openAPI)).

(** The text of the [prometheus] format is written as it is. *)
Definition metrics : Handler := fun i _ =>
  r ← onShell (handleMetrics (o_window (in_outside i)) (o_order (in_outside i)) (in_query i));
  mret (match r with inl r => JSONBody r | inr text => PlainText StatusOK text end).

(** [SSEBus.ServeHTTP] up to its loop: the client is registered. *)
Definition ServeSSE : Handler := fun _ _ a =>
  let '(ch, bus) := Subscribe a.2 in (Ok (Stream ch), (a.1, bus)).

(** The environment variable of the origins is [env]. *)
Definition shellWebSocket (env : list byte) : Handler := fun i _ =>
  match upgrade i (allowedOrigin env (in_origin i) (in_host i)) with
  | Some status => mret (NoBody status)
  | None =>
      let decoded (m : Z * list byte) := (m.1, m.2, match asShell m.2 with inl req => Some req | inr _ => None end) in
      out ← onShell (handleShellWebSocket (o_fuel (in_outside i)) (decoded <$> in_messages i));
      mret (match out with Some out => Session out | None => Unfinished end)
  end.

(** ** The router *)

Definition Get (pattern : string) (h : Handler) : RouteEntry := mkRoute "GET" pattern h.
Definition Post (pattern : string) (h : Handler) : RouteEntry := mkRoute "POST" pattern h.
Definition Delete (pattern : string) (h : Handler) : RouteEntry := mkRoute "DELETE" pattern h.
(** [r.Route(prefix, ...)] *)
Definition Route (prefix : string) (sub : list RouteEntry) : list RouteEntry :=
  (fun r => mkRoute (rt_method r) (prefix ++ rt_pattern r) (rt_handler r)) <$> sub.

(** The clock and the query or the decoded body of a request. *)
Definition onQuery (h : Query -> M Shell Response) : Handler := reply (fun i => h (in_query i)).
Definition atQuery (h : Z -> Query -> M Shell Response) : Handler :=
  reply (fun i => h (o_now (in_outside i)) (in_query i)).
Definition onBody {T} (decode : list byte -> T + error) (h : T + error -> M Shell Response) : Handler :=
  reply (fun i => h (decode (in_body i))).
Definition atBody {T} (decode : list byte -> T + error) (h : Z -> T + error -> M Shell Response) : Handler :=
  reply (fun i => h (o_now (in_outside i)) (decode (in_body i))).

Definition format : Handler := reply (fun i =>
  handleFormat (o_now (in_outside i)) (o_now' (in_outside i)) (o_rnd (in_outside i))).
Definition fsck : Handler := replyWithin (fun i => handleFsck (o_fuel (in_outside i))).
Definition shellCommand : Handler := replyWithin (fun i =>
  handleShellCommand (o_fuel (in_outside i)) (o_now (in_outside i)) (asShell (in_body i))).
Definition tree : Handler := onQuery (fun q => handleTree (Atoi (q "depth"%string)) q).

(** The operations on files, under [/api/fs]. *)
Definition fsRoutes : list RouteEntry := [
  Get "/stat" (onQuery handleStat); Get "/lstat" (onQuery handleLstat);
  Get "/ls" (onQuery handleReadDir); Post "/mkdir" (atBody asMkdir handleMkdir); Delete "/rmdir" (atQuery handleRmdir);
  Get "/read" (atQuery handleRead); Post "/write" (atBody asWrite handleWrite);
  Post "/create" (atBody asCreate handleCreate); Delete "/unlink" (atQuery handleUnlink);
  Post "/truncate" (atBody asTruncate handleTruncate);
  Post "/link" (atBody asLink handleLink); Post "/symlink" (atBody asSymlink handleSymlink);
  Get "/readlink" (onQuery handleReadLink); Post "/rename" (atBody asRename handleRename);
  Post "/chmod" (atBody asChmod handleChmod); Post "/chown" (atBody asChown handleChown);
  Post "/utimes" (atBody asUtimes handleUtimes);
  Get "/xattr" (onQuery handleGetXAttr); Post "/xattr" (onBody asXAttr handleSetXAttr);
  Get "/xattr/list" (onQuery handleListXAttr); Delete "/xattr" (onQuery handleRemoveXAttr);
  Post "/format" format; Post "/fsck" fsck; Post "/crash" (reply (fun _ => handleCrash)) ].

Definition inspectRoutes : list RouteEntry := [
  Get "/disk" (reply (fun _ => handleDiskLayout)); Get "/superblock" (reply (fun _ => handleSuperblock));
  Get "/inode/{num}" (replyTo "num" handleInspectInode); Get "/block/{addr}" (replyTo "addr" handleBlockDetail);
  Get "/bitmap/blocks" (reply (fun _ => handleBlockBitmap)); Get "/bitmap/inodes" (reply (fun _ => handleInodeBitmap));
  Get "/cache" (reply (fun _ => handleCacheStats)); Get "/journal" (reply (fun _ => handleJournalInspect));
  Get "/tree" tree; Get "/fragmentation" (reply (fun _ => handleFragmentation)); Get "/df" (reply (fun _ => handleDf)) ].

(** The routes of earlier versions, without the prefix. *)
Definition legacyFsRoutes : list RouteEntry := [
  Get "/stat" (onQuery handleStat); Get "/lstat" (onQuery handleLstat);
  Get "/ls" (onQuery handleReadDir); Post "/mkdir" (atBody asMkdir handleMkdir); Delete "/rmdir" (atQuery handleRmdir);
  Get "/read" (atQuery handleRead); Post "/write" (atBody asWrite handleWrite);
  Post "/create" (atBody asCreate handleCreate); Delete "/unlink" (atQuery handleUnlink);
  Post "/truncate" (atBody asTruncate handleTruncate);
  Post "/link" (atBody asLink handleLink); Post "/symlink" (atBody asSymlink handleSymlink);
  Get "/readlink" (onQuery handleReadLink); Post "/rename" (atBody asRename handleRename);
  Post "/chmod" (atBody asChmod handleChmod); Post "/chown" (atBody asChown handleChown);
  Post "/utimes" (atBody asUtimes handleUtimes);
  Get "/xattr" (onQuery handleGetXAttr); Post "/xattr" (onBody asXAttr handleSetXAttr);
  Get "/xattr/list" (onQuery handleListXAttr); Delete "/xattr" (onQuery handleRemoveXAttr);
  Post "/format" format; Post "/fsck" fsck ].
Definition legacyInspectRoutes : list RouteEntry := [
  Get "/disk" (reply (fun _ => handleDiskLayout)); Get "/superblock" (reply (fun _ => handleSuperblock));
  Get "/inode/{num}" (replyTo "num" handleInspectInode); Get "/block/{addr}" (replyTo "addr" handleBlockDetail);
  Get "/bitmap/blocks" (reply (fun _ => handleBlockBitmap)); Get "/bitmap/inodes" (reply (fun _ => handleInodeBitmap));
  Get "/cache" (reply (fun _ => handleCacheStats)); Get "/journal" (reply (fun _ => handleJournalInspect));
  Get "/tree" tree; Get "/fragmentation" (reply (fun _ => handleFragmentation)); Get "/df" (reply (fun _ => handleDf));
  Get "/metrics" metrics ].

Definition buildRouter (env : list byte) : list RouteEntry :=
  [ Get "/health" handleHealth; Get "/openapi.json" handleOpenAPI; Get "/sse" ServeSSE; Get "/sse/events" ServeSSE;
    Get "/ws/shell" (shellWebSocket env) ] ++
  Route "/api" (
    [ Get "/metrics" metrics; Get "/openapi.json" handleOpenAPI ] ++
    Route "/fs" fsRoutes ++ Route "/inspect" inspectRoutes ++ [ Post "/shell" shellCommand ]) ++
  Route "/fs" legacyFsRoutes ++ Route "/inspect" legacyInspectRoutes ++
  [ Post "/shell" shellCommand; Get "/shell/ws" (shellWebSocket env); Get "/metrics" metrics ].

Definition router (env : list byte) (rq : Request) : M App Content :=
  let routes := buildRouter env in
  match chiRoute ((fun r => (rt_method r, rt_pattern r)) <$> routes) (rq_method rq) (rq_path rq) with
  | Found i ps =>
      match routes !! i with
      | Some r => rt_handler r (rq_input rq) ps
      | None => panic
      end
  | NotFound => mret (PlainText StatusNotFound (str "404 page not found" ++ newline))
  | MethodNotAllowed => mret (NoBody 405)
  end.

(** ** Middleware *)

(** What [CORSMiddleware] does with a request before the handlers see it. *)
Definition preflight (env : list byte) (rq : Request) (next : M App Content) : M App Content :=
  match (CORSMiddleware env (in_origin (rq_input rq)) (in_host (rq_input rq)) (str (rq_method rq))).2 with
  | Some status => mret (NoBody status)
  | None => next
  end.

Definition onApp {A} (m : M App A) : M AppServer A :=
  zoom (fun s => (srv_sh s, sseBus s)) (fun a s => mkServer a.1 a.2 (srv_log s)) m.

Definition writeLog (fields : list (string * json)) (s : AppServer) : AppServer :=
  mkServer (srv_sh s) (sseBus s) (srv_log s ++ [JObj fields]).

(** The status a [responseWriter] has in the end: a stream is written and a
    connection taken over without one. *)
Definition responseStatus (c : Content) : Z :=
  match c with
  | JSONBody r => status r
  | PlainText st _ | NoBody st => st
  | Stream _ | Session _ | Unfinished => StatusOK
  end.

(** The fields of a line about a request; its number, its duration, the
    address of the client and the stack of a panic are left out. *)
Definition logLine (level msg : string) (rq : Request) (more : list (string * json)) : list (string * json) :=
  [("level", JStr level); ("msg", JStr msg); ("method", JStr (rq_method rq)); ("path", JText (rq_path rq))]%string ++ more.

Definition LoggingMiddleware (rq : Request) (next : M App Content) : M AppServer Content :=
  c ← onApp next;
  modify (writeLog (logLine "info" "http_request" rq [("status"%string, JNum (responseStatus c))])) ;;
  mret c.

(** Handlers return no errors. *)
Definition RecoveryMiddleware (rq : Request) (next : M AppServer Content) (s : AppServer) : Content * AppServer :=
  match next s with
  | (Ok c, s') => (c, s')
  | (_, s') =>
      (PlainText StatusInternalServerError (str "internal server error" ++ newline),
       writeLog (logLine "error" "panic_recovered" rq []) s')
  end.

(** The answer: the origin in [Access-Control-Allow-Origin], and the rest. *)
Record Answer : Type := mkAnswer { an_origin : option (list byte); an_content : Content }.

(** A request through the middleware to the router.  [RequestID] only numbers
    it, and compression changes how an answer is sent, not what it is. *)
Definition ServeHTTP (env : list byte) (rq : Request) (s : AppServer) : Answer * AppServer :=
  let origin := (CORSMiddleware env (in_origin (rq_input rq)) (in_host (rq_input rq)) (str (rq_method rq))).1 in
  let '(c, s') := RecoveryMiddleware rq (LoggingMiddleware rq (preflight env rq (router env rq))) s in
  (mkAnswer origin c, s').

(** [CompressUnlessUpgrading]: the requests it leaves alone, by their headers
    [Connection] and [Upgrade]. *)
Fixpoint contains (sub s : list byte) : bool :=
  bool_decide (take (length sub) s = sub) || match s with [] => false | _ :: s => contains sub s end.
Definition isUpgrade (connection upgrading : list byte) : bool :=
  contains (str "upgrade") (toLower connection) || equalFold upgrading (str "websocket").

(** ** Events *)

(** A turn of [pump]: the oldest event of the file system goes to the clients. *)
Definition pump (s : AppServer) : AppServer :=
  let fs := sh_fs (srv_sh s) in
  match fs_Events fs with
  | [] => s
  | e :: es =>
      mkServer (mkShell (with_Events (fun _ => es) fs) (sh_store (srv_sh s)) (sh_cred (srv_sh s))) (broadcast e (sseBus s))
        (srv_log s)
  end.

(** The first message of a stream, at time [ts], and one for each event. *)
Definition connectedEvent (ts : Z) : json := JObj [
  ("version", JNum EventSchemaVersion); ("type", JStr "connected"); ("source", JStr "sse"); ("ts", JTime ts)]%string.
Definition eventData (e : Event) : list (string * json) :=
  ((fun d => (d.1, JNum d.2)) <$> evt_Data e) ++
  match evt_Error e with Some err => [("error"%string, JError err)] | None => [] end.
Definition unlessEmpty {A} (l : list A) (f : string * json) : list (string * json) :=
  match l with [] => [] | _ => [f] end.
Definition SSEEvent (ts : Z) (e : Event) : json := JObj (
  [("version", JNum EventSchemaVersion); ("type", JStr (evt_Type e)); ("source", JStr (evt_Source e))]%string ++
  unlessEmpty (evt_Path e) ("path"%string, JText (evt_Path e)) ++
  unlessEmpty (eventData e) ("data"%string, JObj (eventData e)) ++ [("ts"%string, JTime ts)]).

(** A turn of the loop of a stream: the next event of its channel. *)
Definition nextEvent (ch : nat) (s : AppServer) : option (Event * AppServer) :=
  '(e, bus) ← receive ch (sseBus s);
  Some (e, mkServer (srv_sh s) bus (srv_log s)).
(** The client is gone: [defer b.Unsubscribe(ch)]. *)
Definition leave (ch : nat) (s : AppServer) : option AppServer :=
  bus ← Unsubscribe ch (sseBus s);
  Some (mkServer (srv_sh s) bus (srv_log s)).

(** ** The process *)

(** [main] up to the listener: what the check says is only logged. *)
Definition startServer (formatFlag : bool) (now now' now'' : Z) (rnd : list byte) : M BlockDevice AppServer := fun d =>
  match openFilesystem formatFlag now now' now'' rnd d with
  | (Ok fs, _) =>
      match Fsck fs with
      | (Panic, fs) => (Panic, f_dev fs)
      | (_, fs) => (Ok (NewServer fs newXattrStore), f_dev fs)
      end
  | (Err e, d) => (Err e, d)
  | (Panic, d) => (Panic, d)
  end.

Definition onServerFs {A} (m : M Filesystem A) : M AppServer A := onApp (onShell (onShFs m)).

(** The deferred end of [main], after the listener has shut down: errors are
    only logged. *)
Definition stopServer (now : Z) : M AppServer unit :=
  tryM (onServerFs (Unmount now)) ;;
  tryM (onServerFs (onFsDev Close)) ;;
  mret tt.

(** What happens to a server until it is stopped. *)
Inductive Turn : Type := Serve (rq : Request) | Pump | Next (ch : nat) | Leave (ch : nat).
Definition turn (env : list byte) (t : Turn) (s : AppServer) : AppServer :=
  match t with
  | Serve rq => (ServeHTTP env rq s).2
  | Pump => pump s
  | Next ch => match nextEvent ch s with Some (_, s) => s | None => s end
  | Leave ch => default s (leave ch s)
  end.

Definition main (env : list byte) (formatFlag : bool) (now now' now'' : Z) (rnd : list byte) (turns : list Turn) (end_ : Z)
    : M BlockDevice unit := fun d =>
  match startServer formatFlag now now' now'' rnd d with
  | (Ok s, _) =>
      let '(r, s) := stopServer end_ (foldl (fun s t => turn env t s) s turns) in (r, f_dev (sh_fs (srv_sh s)))
  | (Err e, d) => (Err e, d)
  | (Panic, d) => (Panic, d)
  end.

End server.

(** ** Routing is unambiguous *)

Definition isParam (seg : list byte) : bool := match paramName seg with Some _ => true | None => false end.
(** Whether some path can match both patterns. *)
Fixpoint overlap (p q : list (list byte)) : bool :=
  match p, q with
  | [], [] => true
  | a :: p, b :: q => (isParam a || isParam b || bool_decide (a = b)) && overlap p q
  | _, _ => false
  end.
Fixpoint unambiguous (table : list (string * string)) : bool :=
  match table with
  | [] => true
  | r :: table =>
      forallb (fun r' => negb (bool_decide (r.1 = r'.1) && overlap (split (str r.2)) (split (str r'.2)))) table &&
      unambiguous table
  end.

Lemma overlap_sound p q path ps qs : matchSegs p path = Some ps -> matchSegs q path = Some qs -> overlap p q = true.
Proof.
  revert q path ps qs. induction p as [|a p IH]; intros [|b q] [|seg path] ps qs; try done. cbn. rewrite /isParam.
  destruct (paramName a) as [na|], (paramName b) as [nb|]; repeat case_bool_decide; try done; subst; cbn;
    repeat match goal with |- context [option_map _ (matchSegs ?x path)] => destruct (matchSegs x path) eqn:?; [|done] end;
    intros; by eauto.
Qed.

Lemma unambiguous_spec table i j m p q path ps qs :
  unambiguous table = true -> table !! i = Some (m, p) -> table !! j = Some (m, q) ->
  matches p path = Some ps -> matches q path = Some qs -> i = j.
Proof.
  intros Hu Hi Hj Hp Hq. revert i j Hu Hi Hj. induction table as [|r table IH]; [done|].
  assert (forall n x, table !! n = Some x -> forallb (fun r' => negb (bool_decide (r.1 = r'.1) &&
            overlap (split (str r.2)) (split (str r'.2)))) table = true ->
          r.1 = x.1 -> overlap (split (str r.2)) (split (str x.2)) = false) as Hne.
  { intros n x Hx Hall E. rewrite forallb_forall in Hall. specialize (Hall x).
    rewrite (bool_decide_true _ E) /= in Hall. apply negb_true_iff, Hall, list_elem_of_In, list_elem_of_lookup. by exists n. }
  intros [|i] [|j]; cbn [unambiguous]; intros [H1 H2]%andb_true_iff; cbn; intros Ei Ej.
  - done.
  - simplify_eq. specialize (Hne _ _ Ej H1 eq_refl). cbn in Hne. by rewrite (overlap_sound _ _ _ _ _ Hp Hq) in Hne.
  - simplify_eq. specialize (Hne _ _ Ei H1 eq_refl). cbn in Hne. by rewrite (overlap_sound _ _ _ _ _ Hq Hp) in Hne.
  - f_equal. by apply (IH i j).
Qed.

Section routing.
Context {O : MapOrder} {TF : TimeFormat} {H : Hosts} {J : Decoding} {U : Upgrader} {C : Chi}.

Definition routeTable (routes : list RouteEntry) : list (string * string) :=
  (fun r => (rt_method r, rt_pattern r)) <$> routes.

Lemma routes_unambiguous env : unambiguous (routeTable (buildRouter env)) = true.
Proof. by vm_compute. Qed.

Definition plainb (s : string) : bool := forallb (fun c => negb (bool_decide (c = x2a) || bool_decide (c = x3a))) (str s).
Lemma plainb_spec s : plainb s = true -> plain s.
Proof.
  rewrite /plainb forallb_forall /plain => Hs. split; intros Hin%list_elem_of_In%Hs; by vm_compute in Hin.
Qed.

Lemma routes_plain env : Forall (fun r => plain r.2) (routeTable (buildRouter env)).
Proof.
  assert (forallb (fun r => plainb r.2) (routeTable (buildRouter env)) = true) as E by by vm_compute.
  rewrite forallb_forall in E. apply Forall_forall. intros r Hr%list_elem_of_In. by apply plainb_spec, E.
Qed.

(** What a client and the log see of a handler that is run on a server. *)
Definition answered (rq : Request) (h : M App Content) (s : AppServer) : Content * AppServer :=
  match h (srv_sh s, sseBus s) with
  | (Ok c, (sh, bus)) =>
      (c, writeLog (logLine "info" "http_request" rq [("status"%string, JNum (responseStatus c))]) (mkServer sh bus (srv_log s)))
  | (_, (sh, bus)) =>
      (PlainText StatusInternalServerError (str "internal server error" ++ newline),
       writeLog (logLine "error" "panic_recovered" rq []) (mkServer sh bus (srv_log s)))
  end.

Lemma ServeHTTP_answered env rq s :
  (an_content (ServeHTTP env rq s).1, (ServeHTTP env rq s).2) = answered rq (preflight env rq (router env rq)) s.
Proof.
  rewrite /ServeHTTP /RecoveryMiddleware /LoggingMiddleware /answered /onApp /zoom /mbind /M_bind.
  by destruct (preflight env rq (router env rq) (srv_sh s, sseBus s)) as [[c|e|] [sh bus]].
Qed.

Lemma preflight_other env rq m a : rq_method rq <> "OPTIONS"%string -> preflight env rq m a = m a.
Proof.
  intros Hne. rewrite /preflight /CORSMiddleware. cbn [snd]. rewrite bool_decide_false //.
  intros E. by apply Hne, str_inj.
Qed.

Lemma elem_routeTable env m p :
  (m, p) ∈ routeTable (buildRouter env) <-> exists r, r ∈ buildRouter env /\ rt_method r = m /\ rt_pattern r = p.
Proof. rewrite /routeTable list_elem_of_fmap. split; [intros (r & [= -> ->] & Hr); eauto|intros (r & ? & <- & <-); eauto]. Qed.

Section documented.
Hypothesis HC : chi_documented C.

(** A route that matches is the one that serves. *)
Lemma router_serves env rq r ps a :
  rq_method rq ∈ standardMethods -> r ∈ buildRouter env -> rt_method r = rq_method rq ->
  matches (rt_pattern r) (rq_path rq) = Some ps -> router env rq a = rt_handler r (rq_input rq) ps a.
Proof.
  intros Hm Hr Em Hp. rewrite /router. pose proof (routes_plain env) as Hplain.
  assert ((rq_method rq, rt_pattern r) ∈ routeTable (buildRouter env)) as Hin by (apply elem_routeTable; eauto).
  destruct (chiRoute _ _ _) as [i ps'| |] eqn:E.
  - destruct (chi_found _ HC _ _ _ _ _ Hplain E) as (q & Hi & Hq).
    rewrite list_lookup_fmap in Hi. destruct (buildRouter env !! i) as [r'|] eqn:Ei; [|done].
    cbn in Hi. injection Hi as Em' Eq.
    apply list_elem_of_lookup in Hr as [j Ej].
    assert (i = j) as <-.
    { eapply (unambiguous_spec (routeTable (buildRouter env)) i j (rq_method rq) q (rt_pattern r)); [apply routes_unambiguous|..];
        rewrite /routeTable ?list_lookup_fmap ?Ei ?Ej /=; [by rewrite Em' Eq|by rewrite Em|exact Hq|exact Hp]. }
    rewrite Ei in Ej. injection Ej as ->. rewrite Eq Hq in Hp. by injection Hp as ->.
  - by rewrite (chi_not_found _ HC _ _ _ Hplain Hm E _ Hin) in Hp.
  - destruct (chi_not_allowed _ HC _ _ _ Hplain Hm E) as [_ Hnone]. 
    pose proof (Hnone _ Hin eq_refl : matches (rt_pattern r) (rq_path rq) = None). congruence.
Qed.

Lemma router_not_found env rq a :
  rq_method rq ∈ standardMethods -> (forall r, r ∈ buildRouter env -> matches (rt_pattern r) (rq_path rq) = None) ->
  router env rq a = (Ok (PlainText StatusNotFound (str "404 page not found" ++ newline)), a).
Proof.
  intros Hm Hnone. rewrite /router. pose proof (routes_plain env) as Hplain. destruct (chiRoute _ _ _) as [i ps| |] eqn:E; [|done|].
  - destruct (chi_found _ HC _ _ _ _ _ Hplain E) as (q & Hi%list_elem_of_lookup_2 & Hq).
    apply elem_routeTable in Hi as (r & Hr & _ & <-). by rewrite (Hnone r Hr) in Hq.
  - destruct (chi_not_allowed _ HC _ _ _ Hplain Hm E) as [([m p] & Hin & Hp) _].
    apply elem_routeTable in Hin as (r & Hr & _ & <-). by rewrite (Hnone r Hr) in Hp.
Qed.

Lemma router_not_allowed env rq a :
  rq_method rq ∈ standardMethods -> (exists r, r ∈ buildRouter env /\ matches (rt_pattern r) (rq_path rq) <> None) ->
  (forall r, r ∈ buildRouter env -> rt_method r = rq_method rq -> matches (rt_pattern r) (rq_path rq) = None) ->
  router env rq a = (Ok (NoBody 405), a).
Proof.
  intros Hm (r & Hr & Hp) Hnone. rewrite /router. pose proof (routes_plain env) as Hplain.
  destruct (chiRoute _ _ _) as [i ps| |] eqn:E; [| |done].
  - destruct (chi_found _ HC _ _ _ _ _ Hplain E) as (q & Hi%list_elem_of_lookup_2 & Hq).
    apply elem_routeTable in Hi as (r' & Hr' & Em & <-). by rewrite (Hnone r' Hr' Em) in Hq.
  - exfalso. apply Hp. apply (chi_not_found _ HC _ _ _ Hplain Hm E (rt_method r, rt_pattern r)).
    apply elem_routeTable. eauto.
Qed.


(** ** Old paths *)

Definition underApi (rq : Request) : Request := mkRequest (rq_method rq) (str "/api" ++ rq_path rq) (rq_input rq).
Definition legacyRoutes : list RouteEntry :=
  filter (fun r => rt_pattern r <> "/inspect/metrics"%string)
    (Route "/fs" legacyFsRoutes ++ Route "/inspect" legacyInspectRoutes).

Lemma matches_slash t path ps :
  matchSegs (split (slash :: t)) (split path) = Some ps ->
  exists u, path = slash :: u /\ matchSegs (split t) (split u) = Some ps.
Proof.
  rewrite split_slash. destruct path as [|c u].
  - cbn. pose proof (split_ne t). by destruct (split t).
  - destruct (decide (c = slash)) as [->|Hc]; [rewrite split_slash; cbn; eauto|].
    cbn. pose proof (split_ne u). destruct (split u) as [|seg segs]; [done|]. rewrite (bool_decide_false (c = slash)) //.
Qed.

Lemma matches_underApi p t path ps :
  str p = slash :: t -> matches p path = Some ps -> matches ("/api" ++ p) (str "/api" ++ path) = Some ps.
Proof.
  rewrite /matches. change (str ("/api" ++ p)) with (str "/api" ++ str p)%list. intros ->.
  intros (u & -> & Hu)%matches_slash. by rewrite (split_app (str "/api") t) (split_app (str "/api") u).
Qed.

Lemma elem_Route prefix l r :
  r ∈ Route prefix l <-> exists r', r = mkRoute (rt_method r') (prefix ++ rt_pattern r') (rt_handler r') /\ r' ∈ l.
Proof. apply list_elem_of_fmap. Qed.

Lemma legacy_elem r :
  r ∈ legacyRoutes -> exists prefix l r', (prefix = "/fs" /\ l = fsRoutes \/ prefix = "/inspect" /\ l = inspectRoutes)%string /\
    r' ∈ l /\ r = mkRoute (rt_method r') (prefix ++ rt_pattern r') (rt_handler r').
Proof.
  assert (fsRoutes = legacyFsRoutes ++ [Post "/crash" (reply (fun _ => handleCrash))]) as Efs by done.
  assert (legacyInspectRoutes = inspectRoutes ++ [Get "/metrics" metrics]) as Einsp by done.
  rewrite /legacyRoutes list_elem_of_filter elem_of_app !elem_Route Einsp. intros [Hne [(r' & -> & Hr)|(r' & -> & Hr)]].
  - exists "/fs"%string, fsRoutes, r'. split; [tauto|]. split; [|done]. rewrite Efs elem_of_app. by left.
  - exists "/inspect"%string, inspectRoutes, r'. split; [tauto|]. split; [|done].
    apply elem_of_app in Hr as [Hr|Hr%list_elem_of_singleton]; [done|]. subst. by destruct Hne.
Qed.

Lemma legacy_under_api env r :
  r ∈ legacyRoutes -> mkRoute (rt_method r) ("/api" ++ rt_pattern r) (rt_handler r) ∈ buildRouter env.
Proof.
  intros (prefix & l & r' & Hl & Hr & ->)%legacy_elem. rewrite /buildRouter elem_of_app. right.
  rewrite elem_of_app. left. apply elem_Route. eexists. split; [done|]. rewrite !elem_of_app. right.
  destruct Hl as [[-> ->]|[-> ->]]; [left|right; left]; apply elem_Route; by exists r'.
Qed.

Lemma legacy_routed env r : r ∈ legacyRoutes -> r ∈ buildRouter env.
Proof. rewrite /legacyRoutes list_elem_of_filter /buildRouter !elem_of_app. tauto. Qed.

Lemma legacy_slash r : r ∈ legacyRoutes -> exists t, str (rt_pattern r) = slash :: t.
Proof. intros (prefix & l & r' & [[-> _]|[-> _]] & _ & ->)%legacy_elem; by eexists. Qed.

(** Every path of an earlier version is answered as the same path under
    [/api]: the same content, session and bus; only the log differs. *)
Theorem legacy_paths_agree env rq r ps s :
  rq_method rq ∈ standardMethods -> r ∈ legacyRoutes -> rt_method r = rq_method rq ->
  matches (rt_pattern r) (rq_path rq) = Some ps ->
  let '(a, s1) := ServeHTTP env rq s in
  let '(a', s2) := ServeHTTP env (underApi rq) s in
  a = a' /\ srv_sh s1 = srv_sh s2 /\ sseBus s1 = sseBus s2.
Proof.
  intros Hm Hr Em Hp. destruct (legacy_slash r Hr) as [t Ht].
  assert (forall x, router env rq x = router env (underApi rq) x) as Hx.
  { intros x. rewrite (router_serves env rq r ps x) //; [by apply legacy_routed|].
    rewrite (router_serves env (underApi rq) _ ps x Hm (legacy_under_api env r Hr) Em) //.
    exact (matches_underApi _ t _ _ Ht Hp). }
  pose proof (ServeHTTP_answered env rq s) as E1. pose proof (ServeHTTP_answered env (underApi rq) s) as E2.
  assert (an_origin (ServeHTTP env rq s).1 = an_origin (ServeHTTP env (underApi rq) s).1) as E3.
  { rewrite /ServeHTTP. by repeat destruct (RecoveryMiddleware _ _ _). }
  destruct (ServeHTTP env rq s) as [[o c] s1], (ServeHTTP env (underApi rq) s) as [[o' c'] s2]. cbn in E1, E2, E3. subst o'.
  revert E1 E2. rewrite /answered /preflight. cbn [underApi rq_method rq_input].
  destruct (CORSMiddleware _ _ _ _).2 as [st|]; [cbn; by intros [= -> ->] [= -> ->]|].
  rewrite -Hx. destruct (router _ _ _) as [[x|e|] [sh bus]]; by intros [= -> ->] [= -> ->].
Qed.

End documented.

End routing.

(** A router that tries the routes in order has the documented behaviour. *)
Definition inTurn : Chi := fun table m p =>
  match list_find (fun r : string * string => r.1 = m /\ matches r.2 p <> None) table with
  | Some (i, r) => Found i (default [] (matches r.2 p))
  | None => if existsb (fun r => bool_decide (matches r.2 p <> None)) table then MethodNotAllowed else NotFound
  end.

Lemma inTurn_documented : chi_documented inTurn.
Proof.
  assert (forall table p, existsb (fun r : string * string => bool_decide (matches r.2 p <> None)) table = true <->
            exists r, r ∈ table /\ matches r.2 p <> None) as Hex.
  { intros table p. rewrite existsb_exists. split; intros (r & Hr & Hp); exists r; revert Hp;
      rewrite bool_decide_eq_true; apply list_elem_of_In in Hr; done. }
  split; intros table m p; rewrite /chiRoute /inTurn.
  - intros i ps _. destruct (list_find _ _) as [[i' [m' q]]|] eqn:E; [|by destruct (existsb _ _)].
    apply list_find_Some in E as (Hi & [Em Hq] & _). cbn [fst snd] in *. intros [= -> <-].
    exists q. subst m'. split; [done|]. by destruct (matches q p).
  - intros _ _. destruct (list_find _ _) as [[i' r']|] eqn:E; [done|]. destruct (existsb _ _) eqn:Ex; [done|]. intros _ r Hr.
    destruct (matches r.2 p) eqn:Er; [|done]. rewrite -not_true_iff_false Hex in Ex. destruct Ex. exists r. split; [done|congruence].
  - intros _ _. destruct (list_find _ _) as [[i' r']|] eqn:E; [done|]. destruct (existsb _ _) eqn:Ex; [|done]. intros _.
    split; [by apply Hex|]. intros r Hr Em. apply list_find_None in E. rewrite Forall_forall in E. specialize (E r Hr).
    destruct (matches r.2 p); [|done]. by destruct E.
Qed.

(** ** A server to evaluate *)

Section demo.
Local Instance demoHosts : Hosts := {| urlHost _ := None; toLower s := s; equalFold s t := bool_decide (s = t) |}.
Local Instance demoDecoding : Decoding.
Proof. by split; intros _; right; exact (Errorf "unexpected EOF" []). Defined.
Local Instance demoUpgrader : Upgrader := fun _ _ => Some StatusBadRequest.
Local Instance demoTime : TimeFormat := fun _ _ => [].
Local Instance demoOrder : MapOrder := inOrder.
Local Instance demoChi : Chi := inTurn.

Definition demoServer : AppServer := NewServer (demoFs (blank 132)) newXattrStore.
Definition demoRequest (method path origin : string) : Request :=
  mkRequest method (str path) (mkInput (fun _ => []) [] (str origin) (str "localhost:8080") []
    (mkOutside 1 2 [] 0 (NewWindowedStats zeroMetrics) 1)).

Example serve_ex :
  let serve m p o := ServeHTTP [] (demoRequest m p o) demoServer in
  (serve "GET" "/health" "").1 = mkAnswer None (JSONBody (mkResponse 200 (JObj [("status"%string, JStr "ok")]))) /\
  (serve "GET" "/api/health" "").1 = mkAnswer None (PlainText 404 (str "404 page not found" ++ newline)) /\
  (serve "POST" "/api/inspect/df" "").1 = mkAnswer None (NoBody 405) /\
  (serve "OPTIONS" "/api/fs/ls" "http://elsewhere").1 = mkAnswer None (NoBody 403) /\
  (serve "GET" "/inspect/inode/x" "").1 =
    mkAnswer None (JSONBody (writeError 400 (Errorf "invalid inode number" []))) /\
  (serve "GET" "/api/fs/stat" "").1 = mkAnswer None (JSONBody (missing "path")) /\
  (serve "GET" "/sse" "").1 = mkAnswer None (Stream 0).
Proof. by vm_compute. Qed.


Lemma legacy_paths_agree_witness :
  let rq := demoRequest "GET" "/inspect/inode/0" "" in
  an_content (ServeHTTP [] rq demoServer).1 = an_content (ServeHTTP [] (underApi rq) demoServer).1.
Proof.
  intros rq. assert (rq_method rq ∈ standardMethods) as Hm by (apply (bool_decide_unpack _); by vm_compute).
  pose proof (legacy_paths_agree inTurn_documented [] rq
    (mkRoute "GET" "/inspect/inode/{num}" (replyTo "num" handleInspectInode)) [(str "num", str "0")] demoServer Hm) as Hl.
  destruct (ServeHTTP [] rq demoServer) as [a s1], (ServeHTTP [] (underApi rq) demoServer) as [a' s2].
  destruct Hl as [-> _]; [|reflexivity|by vm_compute|reflexivity].
  apply list_elem_of_lookup. exists 25%nat. reflexivity.
Defined.

End demo.

(** ** The document *)

Definition jsonFields (j : json) : list (string * json) := match j with JObj fields => fields | _ => [] end.
Fixpoint jsonField (name : string) (fields : list (string * json)) : json :=
  match fields with
  | [] => JObj []
  | (n, j) :: fields => if bool_decide (n = name) then j else jsonField name fields
  end.
(** The operations of an OpenAPI document: methods, in lower case, and paths. *)
Definition documented (doc : json) : list (string * string) :=
  p ← jsonFields (jsonField "paths" (jsonFields doc)); o ← jsonFields p.2; [(o.1, p.1)].
Definition httpMethod (m : string) : string := if bool_decide (m = "post"%string) then "POST" else "GET".

Section contract.
Context {O : MapOrder} {TF : TimeFormat} {H : Hosts} {J : Decoding} {U : Upgrader} {C : Chi}.

Lemma documented_routed env m p :
  (m, p) ∈ documented openAPI -> (httpMethod m, ("/api" ++ p)%string) ∈ routeTable (buildRouter env).
Proof.
  assert (forallb (fun o => existsb (fun r => bool_decide (r = (httpMethod o.1, ("/api" ++ o.2)%string)))
            (routeTable (buildRouter env))) (documented openAPI) = true) as E by by vm_compute.
  rewrite forallb_forall in E. intros Hin%list_elem_of_In. specialize (E _ Hin). apply existsb_exists in E as (r & Hr & E).
  apply bool_decide_eq_true in E as ->. by apply list_elem_of_In.
Qed.

(** No route answers [/api/health]. *)
Lemma health_not_under_api env r : r ∈ buildRouter env -> matches (rt_pattern r) (str "/api/health") = None.
Proof.
  assert (forallb (fun r => match matches r.2 (str "/api/health") with None => true | Some _ => false end)
            (routeTable (buildRouter env)) = true) as E by by vm_compute.
  rewrite forallb_forall in E. intros Hr. specialize (E (rt_method r, rt_pattern r)). cbn [snd] in E.
  destruct (matches _ _); [|done]. discriminate E. apply list_elem_of_In, elem_routeTable. by exists r.
Qed.

(** Every operation of the document is served by a handler at its path under
    [/api], whatever the parameters in the path. *)
Lemma documented_served env m p rq ps :
  chi_documented C -> (m, p) ∈ documented openAPI -> rq_method rq = httpMethod m ->
  matches ("/api" ++ p) (rq_path rq) = Some ps ->
  exists r, r ∈ buildRouter env /\
    forall s, (an_content (ServeHTTP env rq s).1, (ServeHTTP env rq s).2) = answered rq (rt_handler r (rq_input rq) ps) s.
Proof.
  intros HC Hd Em Hp. assert (rq_method rq = "GET" \/ rq_method rq = "POST")%string as Hm.
  { rewrite Em /httpMethod. case_bool_decide; tauto. }
  pose proof (documented_routed env m p Hd) as (r & Hr & Em' & Ep)%elem_routeTable. exists r. split; [done|]. intros s.
  rewrite ServeHTTP_answered /answered preflight_other; [destruct Hm; congruence|].
  rewrite (router_serves HC env rq r ps) //; [|congruence|by rewrite Ep].
  apply (bool_decide_unpack _). by destruct Hm as [-> | ->].
Qed.

End contract.
